(* ===== verification/_CoqProject ===== *)
-Q . S2P
Prelude.v
PyText.v
Strip.v
Occurrences.v
PyRegex.v
RegexFacts.v
PyResult.v
Scanner.v
CLexer.v
LexFacts.v
Continuations.v
CPreproc.v
TruthFacts.v
CppFacts.v
CScope.v
ScopeFacts.v
World.v
FsFacts.v
Transaction.v
Rollback.v
Kbuild.v
KbuildFacts.v
DepthFacts.v
Defconfig.v
Discovery.v
Resukisu.v
KsuPatches.v
KernelHooks.v
IncludeFacts.v
Sources.v
Artifacts.v
Installer.v
ArgParse.v
ArgFacts.v
Example.v
Frames.v
FileFacts.v
HookFacts.v
Stages.v
KbuildInstall.v
KconfigInstall.v
ReadOnly.v
AuditFacts.v
Atomicity.v
DiscoveryFacts.v
DefconfigFacts.v
Verified.v
Commands.v
Footprint.v
SourcesFacts.v
Hooks.v
Lifecycle.v
Complete.v
Session.v
CommandLine.v
PathFacts.v
Reinstall.v
