(* ===== verification/Prelude.v ===== *)
(** * The ABK KernelSU sandbox installer

    src/scripts/install.py adds the ABK sandbox to an Android kernel tree that has KernelSU
    built in: it copies the sandbox's C sources into the KernelSU directory, wires them into
    Kbuild and Kconfig, and patches files of KernelSU and of the kernel, inside a transaction
    that puts the tree back when anything fails.  `verify` checks an installed tree and
    `detect` names what it finds.  This library models the whole of that program, function by
    function, and proves what makes it correct.

    ** Conventions of the model

    A [str] is a list of [ascii] ([text]; the code points U+0000 to U+00FF), a literal of the
    source is written with [py].  Pure functions that can raise return [result]
    ([PyResult]: [InstallError] with its message, [OSError], any other exception by class).
    Code with effects is in the state and exception monad [M] over [world] ([World]): the
    file system (a map of files, with contents, time stamp and mode, and of directories, and
    a map of symbolic links), the active transaction, the validation flag, the build mode of
    the environment, the clock, and the lines printed.  [w_fault] makes one chosen mutating
    operation fail with an I/O error, so that theorems speak of failures at every point.
    A path is the list of its components from the root.

    ** Files, and the functions of install.py they model

    - The language: [Prelude], [PyText] (methods of [str]), [PyRegex] (the module re, as a
      backtracking matcher, with a declarative meaning to which it is sound and complete),
      [PyResult], [World] (pathlib, shutil, os); facts on them in [Strip], [Occurrences],
      [RegexFacts], [Scanner] (patterns that a hand-written scanner decides) and [FsFacts].
    - [CLexer]: _C_LEXEME_PATTERN, masked_lexeme, mask_c_comments,
      mask_c_comments_and_literals, collapse_c_line_continuations.
    - [CPreproc]: preprocessor_integer_truth, mask_c_definitely_inactive, mask_c_live_code,
      mask_c_injection_context.
    - [CScope]: c_scope_bounds, c_scope_containing, exact_injection_installed, the
      replace_live_* functions, insert_live_scope_start.
    - [Transaction]: InstallTransaction, read, write, remove_file.
    - [Kbuild]: the Kbuild and Kconfig blocks (constants, kbuild_block and its older forms,
      installed_kbuild_block, install_kbuild, installed_kconfig_block, insert_before_last).
    - [Defconfig]: config_state, validate_defconfig, validate_runtime_ksu_tail_config.
    - [Discovery]: kernel_common, kernel_version, ksu_candidates, detect_variant, discover.
    - [Resukisu]: extract_resukisu_modern_lsm_branch, resukisu_registration_sources,
      validate_resukisu_runtime_lsm_hooks, runtime_ksu_tail_policy.
    - [KsuPatches]: add_include and the patches of the KernelSU tree, of the public header and
      of lsm_count.h; [KernelHooks]: patch_kernel_hooks, one definition per patched file.
    - [Sources]: KBUILD_ARTIFACT_PATTERNS, trusted_kbuild_artifact, copy_sources.
    - [Installer]: install, validate_patch_sources, verify and main on resolved arguments.
    - [ArgParse]: parse_args, with the parser of argparse (Python 3.11) for its declaration;
      [CommandLine]: the resolution of the path arguments and the process with its exit
      status, on top of [Installer].
    - [Example]: a synthetic tree (the fixture of tests/test_installer.py in small) on which
      the witnesses evaluate.

    ** How the parts interact

    [Installer.main] runs [discover], then a command.  [install] checks the configuration and
    the run-time policy, then runs [install_body] in [with_transaction]; every change of the
    tree goes through [write], [remove_file] or the directory creation of [copy_sources],
    which record the old state in the transaction first.  [verify] runs the same patches with
    the validation flag set, where [write] raises instead of writing, and then its own checks.
    The patches find their place with [CScope], which reads the live code of [CPreproc],
    which uses the masks of [CLexer].

    ** What is proved

    - Commands as a whole: a run that does not succeed leaves the tree as it was, with
      I/O errors at any operation ([Rollback], [Atomicity], [Commands]); a success changes
      only the places it is meant to ([Footprint]), and is complete: the sources, the Kbuild
      block, the Kconfig entry and the public header are in place, and each patched source is
      its old text passed through all of its patches, each of which leaves the hook of its
      last edit ([HookFacts] for the patches, [Stages] for the sequence of a source, [Hooks]
      for the steps of [patch_all], [Complete] for the whole); it can be repeated without
      effect ([Reinstall]); [verify] changes nothing ([ReadOnly]) and establishes what it is there
      for ([Verified], [Commands]); every run ends with no transaction, the flags restored and
      an exit status ([Lifecycle]); sequences of commands, with what each reports, refine an
      abstract machine: a failure keeps the tree, a success is a complete installation or a
      check of the tree ([Session]); the command line is parsed as written ([ArgFacts]), it
      is safe from end to end ([CommandLine]) and runs its command on the locations that its
      paths name ([PathFacts]).
    - The C side: the masks are the hand-written lexer ([LexFacts]), they work in place and
      blank no line that some compilation reaches ([CppFacts], with the constant conditions of
      [TruthFacts]); continuations are removed in a loop that ends ([Continuations]); scopes
      are matching braces at an anchor, insertions and replacements change one place only
      ([ScopeFacts]); the include line is added once ([IncludeFacts]).
    - The build side: an installed Kbuild block is recognised exactly by its specification
      ([KbuildFacts]), the block is installed, with the form that the check wants exactly on
      the makefiles described ([KbuildInstall]), and so is the Kconfig entry
      ([KconfigInstall]), conditional depth is bounded as stated
      ([DepthFacts]); configurations are accepted exactly by a declarative specification
      ([DefconfigFacts]); discovery, the run-time policy and its audit, the copied sources and
      the artifact names ([DiscoveryFacts], [AuditFacts], [SourcesFacts], [Artifacts]); what
      is written reads back ([FileFacts]).
    - Behaviours that look unintended are computed as examples next to the theorem they limit:
      [CppFacts.form_feed_loses_text], [KconfigInstall.glued_comment_conflict],
      [IncludeFacts.glued_include], [Complete.half_allowlist_accepted],
      [AuditFacts.split_registration_missed].

    [Frames] has the relation [preserves] between the worlds before and after an operation and
    its tactics; [Lifecycle.Closed] is the interface of a relation that every primitive of the
    file system keeps, from which every command is shown to keep it.

    ** Fuel and bounds

    A star of a pattern has the length of the rest of the text as fuel (an iteration consumes
    a character); the loop over continuations has the length of the text, which is enough
    ([Continuations.collapse_terminates]); the truth of conditions recurs on a shorter text
    ([TruthFacts]); the climb to an existing directory has the length of the path; a look-up
    follows at most 40 links, as the system does, and pathlib's own resolution as many links
    at a time as there are, which is enough ([PathFacts.joinrealpath_follows]).  Integers are
    unbounded in Python and in the model.

    ** What is not modelled

    The texts of argparse's usage and help messages (a usage error carries its reason);
    code points beyond U+00FF and undecodable bytes; the limit of Python's [int] on the number
    of digits; the temporary directory of the backups, whose contents are held in the
    transaction's records instead; time stamps and modes of directories (of files they are
    modelled); processes that change the tree at the same time; link
    targets with parent components, other than in the resolution of the arguments, and the
    components of a configuration path that leave a missing directory again.  Outside of
    install.py: the kernel module in C, which the installer copies as text, the shell stages,
    the test applications, the workflows and the tests. *)

From Stdlib Require Import Ascii.
From stdpp Require Import base list strings gmap.

(** ** Text

    A Python [str] is a sequence of code points; the model covers the code points
    U+0000 to U+00FF, one [ascii] each (the Latin-1 block, which contains all of ASCII). *)
Definition text : Type := list ascii.

Definition nl : ascii := "010"%char.
Definition cr : ascii := "013"%char.
Definition tab : ascii := "009"%char.
Definition blank : ascii := " "%char.
Definition dq : ascii := "034"%char.
Definition sq : ascii := "'"%char.
Definition backslash : ascii := "\"%char.

Definition char_eqb (c d : ascii) : bool := Ascii.eqb c d.

Fixpoint text_eqb (s t : text) : bool :=
  match s, t with
  | [], [] => true
  | c :: s', d :: t' => char_eqb c d && text_eqb s' t'
  | _, _ => false
  end.

Definition code (c : ascii) : N := N_of_ascii c.

Definition in_range (lo hi : N) (c : ascii) : bool :=
  (lo <=? code c)%N && (code c <=? hi)%N.

Definition has_code (n : N) (c : ascii) : bool := (code c =? n)%N.

(** [str.isspace] and the class [\s]. *)
Definition is_space (c : ascii) : bool :=
  in_range 9 13 c || in_range 28 32 c || has_code 133 c || has_code 160 c.

(** The line boundaries of [str.splitlines]. *)
Definition is_linebreak (c : ascii) : bool :=
  in_range 10 13 c || in_range 28 30 c || has_code 133 c.

Definition is_digit (c : ascii) : bool := in_range 48 57 c.

(** The class [\w]: alphanumeric in the sense of [str.isalnum], or an underscore. *)
Definition is_word (c : ascii) : bool :=
  is_digit c || in_range 65 90 c || in_range 97 122 c || has_code 95 c
  || has_code 170 c || in_range 178 179 c || has_code 181 c || in_range 185 186 c
  || in_range 188 190 c || in_range 192 214 c || in_range 216 246 c || in_range 248 255 c.

(** [str.isprintable]. *)
Definition is_printable (c : ascii) : bool :=
  negb (in_range 0 31 c || in_range 127 160 c || has_code 173 c).

(** [str.lower] on one character. *)
Definition lower_char (c : ascii) : ascii :=
  if in_range 65 90 c || in_range 192 214 c || in_range 216 222 c
  then ascii_of_N (code c + 32) else c.

(** ** Literals

    [py] reads a literal in the notation of a Python string: a backslash escapes n, t, r and
    itself, and a backquote (which no literal of the source contains) stands for a double
    quote. *)
Fixpoint py (s : string) : text :=
  match s with
  | EmptyString => []
  | String c s' =>
      if char_eqb c backslash then
        match s' with
        | String d s'' =>
            (if char_eqb d "n" then nl
             else if char_eqb d "t" then tab
             else if char_eqb d "r" then cr
             else d) :: py s''
        | EmptyString => [c]
        end
      else (if char_eqb c "`" then dq else c) :: py s'
  end.

(** ** Decimal rendering, for the numbers that messages and versions print. *)
Fixpoint digits_aux (fuel n : nat) (acc : text) : text :=
  match fuel with
  | O => acc
  | S fuel' =>
      let acc' := ascii_of_nat (48 + n mod 10) :: acc in
      if n <? 10 then acc' else digits_aux fuel' (n / 10) acc'
  end.

Definition show_nat (n : nat) : text := digits_aux (S n) n [].

(** ** Generic facts on lists *)

Lemma take_drop_split {A} (i : nat) (l : list A) : take i l ++ drop i l = l.
Proof. apply take_drop. Qed.

Lemma Forall2_take_drop {A B} (P : A → B → Prop) l k i j :
  Forall2 P l k → Forall2 P (take i (drop j l)) (take i (drop j k)).
Proof. intros H. by apply Forall2_take, Forall2_drop. Qed.

Lemma in_range_spec lo hi c : in_range lo hi c = true ↔ (lo ≤ code c ≤ hi)%N.
Proof. unfold in_range. rewrite andb_true_iff, !N.leb_le. lia. Qed.

Lemma char_eqb_eq c d : char_eqb c d = true ↔ c = d.
Proof. apply Ascii.eqb_eq. Qed.

Lemma char_eqb_neq c d : char_eqb c d = false ↔ c ≠ d.
Proof. apply Ascii.eqb_neq. Qed.

Lemma char_eqb_refl c : char_eqb c c = true.
Proof. by apply char_eqb_eq. Qed.

Lemma text_eqb_eq s t : text_eqb s t = true ↔ s = t.
Proof.
  revert t. induction s as [|c s IH]; intros [|d t]; simpl; try done.
  rewrite andb_true_iff, char_eqb_eq, IH. split; [by intros [-> ->]|by intros [= -> ->]].
Qed.

Lemma text_eqb_neq s t : text_eqb s t = false ↔ s ≠ t.
Proof. rewrite <- text_eqb_eq. by destruct (text_eqb s t). Qed.

Lemma text_eqb_refl s : text_eqb s s = true.
Proof. by apply text_eqb_eq. Qed.

(** ** Automation shared by the development *)

(** Facts about equality of characters and bounds, used by [auto with pytext]. *)
Create HintDb pytext.
#[export] Hint Resolve char_eqb_refl text_eqb_refl : pytext.

(** Case analysis on the scrutinees of the goal, remembering each equation. *)
Ltac split_match :=
  match goal with
  | |- context [match ?x with _ => _ end] =>
      lazymatch x with
      | context [match _ with _ => _ end] => fail
      | _ => let E := fresh "E" in destruct x eqn:E
      end
  end.

(** The same in a hypothesis. *)
Ltac split_match_in H :=
  match type of H with
  | context [match ?x with _ => _ end] =>
      lazymatch x with
      | context [match _ with _ => _ end] => fail
      | _ => let E := fresh "E" in destruct x eqn:E
      end
  end.

(** Boolean connectives in the hypotheses become propositional ones. *)
Ltac bool_hyps :=
  repeat match goal with
  | H : _ && _ = true |- _ => apply andb_true_iff in H as [??]
  | H : _ || _ = false |- _ => apply orb_false_iff in H as [??]
  | H : negb _ = true |- _ => apply negb_true_iff in H
  | H : negb _ = false |- _ => apply negb_false_iff in H
  | H : (_ =? _) = true |- _ => apply Nat.eqb_eq in H
  | H : (_ =? _) = false |- _ => apply Nat.eqb_neq in H
  | H : (_ <? _) = true |- _ => apply Nat.ltb_lt in H
  | H : (_ <? _) = false |- _ => apply Nat.ltb_ge in H
  | H : (_ <=? _) = true |- _ => apply Nat.leb_le in H
  | H : (_ <=? _) = false |- _ => apply Nat.leb_gt in H
  | H : bool_decide _ = true |- _ => apply bool_decide_eq_true in H
  | H : bool_decide _ = false |- _ => apply bool_decide_eq_false in H
  | H : text_eqb _ _ = true |- _ => apply text_eqb_eq in H
  | H : text_eqb _ _ = false |- _ => apply text_eqb_neq in H
  | H : char_eqb _ _ = true |- _ => apply char_eqb_eq in H
  | H : char_eqb _ _ = false |- _ => apply char_eqb_neq in H
  end.
