(* ===== verification/PyText.v ===== *)
(** * The operations of Python's [str] that the installer uses

    Each definition is the behaviour of the Python method of the same name on texts; the
    lemmas are the facts about searching, counting, slicing and splitting the components
    share. *)

From Stdlib Require Import Ascii.
From stdpp Require Import base list strings.
From S2P Require Import Prelude.

(** ** Searching *)

(** [s.startswith(p)] *)
Fixpoint starts_with (p s : text) : bool :=
  match p, s with
  | [], _ => true
  | c :: p', d :: s' => char_eqb c d && starts_with p' s'
  | _ :: _, [] => false
  end.

(** [s.endswith(p)] *)
Definition ends_with (p s : text) : bool := starts_with (rev p) (rev s).

Fixpoint find_aux (p s : text) (i : nat) : option nat :=
  if starts_with p s then Some i
  else match s with
       | [] => None
       | _ :: s' => find_aux p s' (S i)
       end.

(** [s.find(p)], [None] for the result -1. *)
Definition find (p s : text) : option nat := find_aux p s 0.

(** [s.find(p, start)] *)
Definition find_from (p s : text) (start : nat) : option nat :=
  if start <=? length s then find_aux p (drop start s) start else None.

(** [s.find(p, start, stop)] *)
Definition find_range (p s : text) (start stop : nat) : option nat :=
  find_from p (take stop s) start.

(** [p in s] *)
Definition contains (p s : text) : bool :=
  match find p s with Some _ => true | None => false end.

Fixpoint count_skip (p s : text) (skip : nat) : nat :=
  match s with
  | [] => 0
  | _ :: s' =>
      match skip with
      | S k => count_skip p s' k
      | O => if starts_with p s then S (count_skip p s' (length p - 1))
             else count_skip p s' 0
      end
  end.

(** [s.count(p)]: the number of non-overlapping occurrences. *)
Definition count (p s : text) : nat :=
  match p with
  | [] => S (length s)
  | _ => count_skip p s 0
  end.

(** ** Slicing and replacing *)

(** [s[i:j]] for 0 <= i <= j *)
Definition slice (s : text) (i j : nat) : text := take (j - i) (drop i s).

(** [s.replace(old, new, 1)] *)
Definition replace_first (old new s : text) : text :=
  match find old s with
  | Some i => take i s ++ new ++ drop (i + length old) s
  | None => s
  end.

(** ** Stripping *)

Fixpoint drop_while (f : ascii → bool) (s : text) : text :=
  match s with
  | [] => []
  | c :: s' => if f c then drop_while f s' else s
  end.

Definition lstrip (s : text) : text := drop_while is_space s.
Definition rstrip (s : text) : text := rev (drop_while is_space (rev s)).
Definition strip (s : text) : text := rstrip (lstrip s).

(** [s.lstrip("\n")] *)
Definition lstrip_nl (s : text) : text := drop_while (char_eqb nl) s.

(** ** Lines, fields and joining *)

(** [s.splitlines(keepends=True)] *)
Fixpoint splitlines_keep (s : text) : list text :=
  match s with
  | [] => []
  | c :: s' =>
      if is_linebreak c && negb (char_eqb c cr && starts_with [nl] s')
      then [c] :: splitlines_keep s'
      else match splitlines_keep s' with
           | [] => [[c]]
           | l :: ls => (c :: l) :: ls
           end
  end.

(** The line without its terminator. *)
Definition chomp (l : text) : text :=
  match rev l with
  | d :: r =>
      if is_linebreak d then
        match r with
        | e :: r' => if char_eqb d nl && char_eqb e cr then rev r' else rev r
        | [] => []
        end
      else l
  | [] => []
  end.

(** [s.splitlines()] *)
Definition splitlines (s : text) : list text := map chomp (splitlines_keep s).

(** [s.split(c)] for a one-character separator *)
Fixpoint split_char (c : ascii) (s : text) : list text :=
  match s with
  | [] => [[]]
  | d :: s' =>
      if char_eqb d c then [] :: split_char c s'
      else match split_char c s' with
           | [] => [[d]]
           | l :: ls => (d :: l) :: ls
           end
  end.

(** [sep.join(ls)] *)
Fixpoint join (sep : text) (ls : list text) : text :=
  match ls with
  | [] => []
  | [l] => l
  | l :: ls' => l ++ sep ++ join sep ls'
  end.

Definition lower (s : text) : text := map lower_char s.

(** ** [repr], which the [!r] conversion of the messages uses *)

Definition hex_digit (n : N) : ascii :=
  if (n <? 10)%N then ascii_of_N (48 + n) else ascii_of_N (87 + n).

Definition repr_char (quote c : ascii) : text :=
  if char_eqb c quote then [backslash; c]
  else if char_eqb c backslash then [backslash; backslash]
  else if char_eqb c nl then [backslash; "n"%char]
  else if char_eqb c cr then [backslash; "r"%char]
  else if char_eqb c tab then [backslash; "t"%char]
  else if is_printable c then [c]
  else [backslash; "x"%char; hex_digit (code c / 16); hex_digit (code c mod 16)].

Definition repr (s : text) : text :=
  let quote := if contains [sq] s && negb (contains [dq] s) then dq else sq in
  quote :: concat (map (repr_char quote) s) ++ [quote].

(** ** Lemmas *)

Lemma starts_with_spec p s : starts_with p s = true ↔ ∃ r, s = p ++ r.
Proof.
  revert s. induction p as [|c p IH]; intros [|d s]; simpl.
  - split; [by exists []|done].
  - split; [by exists (d :: s)|done].
  - split; [done|]. by intros [r ?].
  - rewrite andb_true_iff, char_eqb_eq, IH. split.
    + intros [-> [r ->]]. by exists r.
    + intros [r [= -> ->]]. eauto.
Qed.

Lemma starts_with_app p s r : starts_with p s = true → starts_with p (s ++ r) = true.
Proof.
  rewrite !starts_with_spec. intros [q ->]. exists (q ++ r). by rewrite app_assoc.
Qed.

Lemma starts_with_self p r : starts_with p (p ++ r) = true.
Proof. apply starts_with_spec. eauto. Qed.

Lemma find_aux_Some p s i k :
  find_aux p s i = Some k →
  ∃ a b, s = a ++ p ++ b ∧ k = i + length a ∧
         ∀ a' b', s = a' ++ p ++ b' → length a ≤ length a'.
Proof.
  revert i. induction s as [|c s IH]; intros i; simpl.
  - destruct (starts_with p []) eqn:E; [|done]. intros [= <-].
    apply starts_with_spec in E as [r Hr].
    exists [], r. simpl. split_and!; [done|lia|intros; lia].
  - destruct (starts_with p (c :: s)) eqn:E.
    + intros [= <-]. apply starts_with_spec in E as [r Hr].
      exists [], r. simpl. split_and!; [done|lia|intros; lia].
    + intros (a & b & -> & -> & Hmin)%IH. exists (c :: a), b. simpl.
      split_and!; [done|lia|]. intros [|d a'] b' H'; simpl in *.
      * assert (starts_with p (c :: a ++ p ++ b) = true) as E'; [|congruence].
        apply starts_with_spec. eauto.
      * injection H' as <- H'. apply le_n_S. eauto.
Qed.

Lemma find_aux_None p s i :
  find_aux p s i = None ↔ ¬ ∃ a b, s = a ++ p ++ b.
Proof.
  revert i. induction s as [|c s IH]; intros i; simpl.
  - destruct (starts_with p []) eqn:E; split; try done.
    + apply starts_with_spec in E as [r Hr]. intros []. by exists [], r.
    + intros _ (a & b & H). destruct a; [|done].
      assert (starts_with p [] = true); [|congruence]. apply starts_with_spec. eauto.
  - destruct (starts_with p (c :: s)) eqn:E; split; try done.
    + apply starts_with_spec in E as [r Hr]. intros []. by exists [], r.
    + intros H%IH (a & b & Hs). destruct a as [|d a]; simpl in *.
      * assert (starts_with p (c :: s) = true); [|congruence].
        apply starts_with_spec. eauto.
      * apply H. injection Hs as <- Hs. eauto.
    + intros H. apply IH. intros (a & b & ->). apply H. by exists (c :: a), b.
Qed.

(** The first occurrence: [find] returns the least offset at which the pattern starts. *)
Lemma find_Some p s k :
  find p s = Some k →
  ∃ a b, s = a ++ p ++ b ∧ k = length a ∧
         ∀ a' b', s = a' ++ p ++ b' → length a ≤ length a'.
Proof. intros (a & b & ? & ? & ?)%find_aux_Some. by exists a, b. Qed.

Lemma contains_spec p s : contains p s = true ↔ ∃ a b, s = a ++ p ++ b.
Proof.
  unfold contains, find. destruct (find_aux p s 0) eqn:E.
  - apply find_aux_Some in E as (a & b & ? & _). split; eauto.
  - apply find_aux_None in E. split; [done|]. by intros ?%E.
Qed.

Lemma contains_false p s : contains p s = false ↔ ¬ ∃ a b, s = a ++ p ++ b.
Proof. rewrite <- contains_spec. by destruct (contains p s). Qed.

Lemma contains_app_l p a b : contains p a = true → contains p (a ++ b) = true.
Proof.
  rewrite !contains_spec. intros (x & y & ->). exists x, (y ++ b).
  by rewrite <- !app_assoc.
Qed.

Lemma contains_app_r p a b : contains p b = true → contains p (a ++ b) = true.
Proof.
  rewrite !contains_spec. intros (x & y & ->). exists (a ++ x), y.
  by rewrite <- !app_assoc.
Qed.

Lemma contains_trans p q s :
  contains p q = true → contains q s = true → contains p s = true.
Proof. rewrite (contains_spec q). intros H (a & b & ->). by apply contains_app_r, contains_app_l. Qed.

Lemma count_skip_contains p s k : count_skip p s k ≠ 0 → contains p s = true.
Proof.
  revert k. induction s as [|c s IH]; intros k; [done|]. cbn [count_skip].
  assert (∀ j, count_skip p s j ≠ 0 → contains p (c :: s) = true) as Hs.
  { intros j Hj. apply (contains_app_r _ [c]). by eapply IH. }
  destruct k as [|k]; [|apply Hs].
  destruct (starts_with p (c :: s)) eqn:E; [|apply Hs].
  intros _. apply contains_spec. apply starts_with_spec in E as [r ->]. by exists [], r.
Qed.

Lemma count_contains p s : count p s ≠ 0 → contains p s = true.
Proof.
  destruct p; [intros _; apply contains_spec; by exists [], s|apply count_skip_contains].
Qed.

Lemma slice_app_mid a b c : slice (a ++ b ++ c) (length a) (length a + length b) = b.
Proof.
  unfold slice. rewrite drop_app_length. replace (_ + _ - _) with (length b) by lia.
  apply take_app_length.
Qed.

Lemma length_slice s i j : j ≤ length s → length (slice s i j) = j - i.
Proof. intros. unfold slice. rewrite length_take, length_drop. lia. Qed.

Lemma concat_splitlines_keep s : concat (splitlines_keep s) = s.
Proof.
  induction s as [|c s IH]; simpl; [done|].
  destruct (_ && _); simpl; [by rewrite IH|].
  destruct (splitlines_keep s) as [|l ls] eqn:E; simpl in *.
  - by rewrite <- IH.
  - by rewrite IH.
Qed.

Lemma splitlines_keep_nonempty s : Forall (λ l, l ≠ []) (splitlines_keep s).
Proof.
  induction s as [|c s IH]; simpl; [done|].
  destruct (_ && _); simpl; [by constructor|].
  destruct (splitlines_keep s) as [|l ls]; constructor; [done..|]. by inversion IH.
Qed.
