(* ===== verification/Strip.v ===== *)
(** * White space around a text

    [str.strip] removes the longest runs of white space at both ends; two texts that differ
    only there have the same stripped text. *)

From Stdlib Require Import Ascii.
From stdpp Require Import base list strings.
From S2P Require Import Prelude PyText.

Abbreviation all_space := (Forall (λ c, is_space c = true)).

Lemma drop_while_nil f s : drop_while f s = [] ↔ Forall (λ c, f c = true) s.
Proof.
  induction s as [|c s IH]; simpl; [by split|]. rewrite Forall_cons, <- IH.
  destruct (f c) eqn:E; naive_solver.
Qed.

Lemma drop_while_head f s c r : drop_while f s = c :: r → f c = false.
Proof.
  induction s as [|d s IH]; simpl; [done|]. destruct (f d) eqn:E; [done|]. by intros [= <- <-].
Qed.

Lemma strip_nil s : strip s = [] ↔ Forall (λ c, is_space c = true) s.
Proof.
  unfold strip, rstrip. rewrite <- drop_while_nil. fold (lstrip s). split.
  - intros H. apply (f_equal (@rev ascii)) in H. rewrite rev_involutive in H.
    apply drop_while_nil in H. destruct (lstrip s) as [|c r] eqn:E; [done|].
    apply drop_while_head in E as Ec.
    rewrite Forall_forall in H. rewrite (H c) in Ec; [done|].
    apply list_elem_of_In, in_rev. rewrite rev_involutive. by left.
  - by intros ->.
Qed.

Lemma drop_while_split f s : ∃ u, s = u ++ drop_while f s ∧ Forall (λ c, f c = true) u.
Proof.
  induction s as [|c s (u & Hu & Hf)]; [by exists []|]. simpl. destruct (f c) eqn:E.
  - exists (c :: u). split; [by simpl; f_equal|by constructor].
  - by exists [].
Qed.

Lemma drop_while_skip f u s : Forall (λ c, f c = true) u → drop_while f (u ++ s) = drop_while f s.
Proof. induction 1 as [|c u Hc _ IH]; simpl; [done|]. by rewrite Hc. Qed.

Lemma lstrip_split s : ∃ u, s = u ++ lstrip s ∧ all_space u.
Proof. apply drop_while_split. Qed.

Lemma rstrip_split s : ∃ u, s = rstrip s ++ u ∧ all_space u.
Proof.
  destruct (drop_while_split is_space (rev s)) as (u & Hu & Hf). exists (rev u). split.
  - unfold rstrip. rewrite <- rev_app_distr, <- Hu. symmetry. apply rev_involutive.
  - rewrite Forall_forall in *. intros c Hc. apply Hf, list_elem_of_In, in_rev.
    by apply list_elem_of_In.
Qed.

Lemma rstrip_prefix s : ∃ ws, s = rstrip s ++ ws.
Proof. destruct (rstrip_split s) as (u & ? & _). eauto. Qed.

Lemma strip_split s : ∃ u v, s = u ++ strip s ++ v ∧ all_space u ∧ all_space v.
Proof.
  destruct (lstrip_split s) as (u & Hu & Hfu). destruct (rstrip_split (lstrip s)) as (v & Hv & Hfv).
  exists u, v. split_and!; [|done|done]. unfold strip. by rewrite <- Hv.
Qed.

Lemma length_strip s : length (strip s) ≤ length s.
Proof. destruct (strip_split s) as (u & v & Hs & _). rewrite Hs at 2. rewrite !length_app. lia. Qed.

Lemma rstrip_skip s v : all_space v → rstrip (s ++ v) = rstrip s.
Proof.
  intros Hv. unfold rstrip. rewrite rev_app_distr, drop_while_skip; [done|].
  rewrite Forall_forall in *. intros c Hc. apply Hv, list_elem_of_In, in_rev.
  by apply list_elem_of_In.
Qed.

(** A text that starts and ends with characters other than white space is stripped. *)
Lemma lstrip_id c s : is_space c = false → lstrip (c :: s) = c :: s.
Proof. intros H. unfold lstrip. simpl. by rewrite H. Qed.

Lemma rstrip_id s c : is_space c = false → rstrip (s ++ [c]) = s ++ [c].
Proof.
  intros H. unfold rstrip. rewrite rev_app_distr. simpl. rewrite H. simpl.
  by rewrite rev_involutive.
Qed.

Lemma strip_skip u s v : all_space u → all_space v → strip (u ++ s ++ v) = strip s.
Proof.
  intros Hu Hv. unfold strip, lstrip. rewrite drop_while_skip by done.
  destruct (decide (all_space s)) as [Hs|Hs].
  - rewrite (proj2 (drop_while_nil is_space (s ++ v))) by (by apply Forall_app).
    by rewrite (proj2 (drop_while_nil is_space s)).
  - assert (drop_while is_space (s ++ v) = drop_while is_space s ++ v) as ->;
      [|by apply rstrip_skip].
    clear Hu. induction s as [|c s IH]; [by destruct Hs|]. simpl.
    destruct (is_space c) eqn:E; [|done]. apply IH. intros H. apply Hs. by constructor.
Qed.

Lemma strip_idemp s : strip (strip s) = strip s.
Proof.
  destruct (strip_split s) as (u & v & Hs & Hu & Hv).
  rewrite Hs at 2. by rewrite strip_skip.
Qed.

Lemma strip_rstrip s : strip (rstrip s) = strip s.
Proof.
  destruct (rstrip_split s) as (v & Hs & Hv). rewrite Hs at 2.
  symmetry. by apply (strip_skip [] (rstrip s) v).
Qed.

Lemma rstrip_cons c s : is_space c = false → rstrip (c :: s) = c :: rstrip s.
Proof.
  intros Hc. unfold rstrip. simpl.
  assert (∀ l, drop_while is_space (l ++ [c]) = drop_while is_space l ++ [c]) as ->.
  { intros l. induction l as [|d l IH]; simpl; [by rewrite Hc|]. by destruct (is_space d). }
  by rewrite rev_app_distr.
Qed.

Lemma strip_plain s : Forall (λ c, is_space c = false) s → strip s = s.
Proof.
  intros Hs. assert (lstrip s = s) as Hl by (destruct Hs; [done|by apply lstrip_id]).
  unfold strip. rewrite Hl. clear Hl. induction Hs as [|c s Hc _ IH]; [done|].
  by rewrite rstrip_cons, IH.
Qed.
