(* ===== verification/Occurrences.v ===== *)
(** * Counting occurrences

    [str.count] counts occurrences that do not overlap.  For a pattern without a border (no
    proper prefix of it is also a suffix) all occurrences are counted, and a count of one
    says that the pattern occurs at exactly one offset. *)

From Stdlib Require Import Ascii.
From stdpp Require Import base list strings sets.
From S2P Require Import Prelude PyText.

(** The pattern stands at the offset. *)
Definition occurs_at (p s : text) (i : nat) : bool := starts_with p (drop i s).

Definition border_free (p : text) : bool :=
  forallb (λ j, negb (starts_with (drop j p) p)) (seq 1 (length p - 1)).

(** The number of offsets at which the pattern stands. *)
Fixpoint occ (p s : text) : nat :=
  match s with
  | [] => 0
  | _ :: s' => (if starts_with p s then 1 else 0) + occ p s'
  end.

Lemma starts_with_drop_app p s : starts_with p s = true ↔ take (length p) s = p.
Proof.
  rewrite starts_with_spec. split.
  - intros [r ->]. apply take_app_length.
  - intros H. exists (drop (length p) s). by rewrite <- H, take_drop at 1.
Qed.

Lemma starts_with_app_inv p s r :
  starts_with p (s ++ r) = true → starts_with p s = true ∨ starts_with s p = true.
Proof.
  revert s. induction p as [|c p IH]; intros [|d s]; simpl; try (by auto).
  rewrite !andb_true_iff. intros [Hc Hs]. apply char_eqb_eq in Hc as ->.
  rewrite char_eqb_refl. by destruct (IH s Hs); auto.
Qed.

Lemma border_free_spec p j :
  border_free p = true → 0 < j < length p → starts_with (drop j p) p = false.
Proof.
  unfold border_free. rewrite forallb_forall. intros H Hj.
  apply negb_true_iff, H, in_seq. lia.
Qed.

(** An occurrence of a pattern without a border excludes one that starts inside of it. *)
Lemma border_free_apart p r j :
  border_free p = true → 0 < j < length p → starts_with p (drop j (p ++ r)) = false.
Proof.
  intros Hb Hj. destruct (starts_with p (drop j (p ++ r))) eqn:E; [|done].
  pose proof (border_free_spec p j Hb Hj) as Hn.
  rewrite drop_app_le in E by lia. apply starts_with_app_inv in E as [E|E]; [|congruence].
  apply starts_with_spec in E as [q Hq].
  apply (f_equal length) in Hq. rewrite length_app, length_drop in Hq. lia.
Qed.

Lemma count_skip_occ p s k :
  border_free p = true → p ≠ [] → (∀ j, j < k → occurs_at p s j = false) →
  count_skip p s k = occ p s.
Proof.
  intros Hb Hp. revert k. induction s as [|c s IH]; intros k Hk; [done|].
  cbn [count_skip occ]. destruct k as [|k].
  - destruct (starts_with p (c :: s)) eqn:E; [|by rewrite (IH 0) by lia].
    rewrite IH; [done|]. intros j Hj. apply starts_with_spec in E as [r Hr].
    change (occurs_at p s j) with (starts_with p (drop (S j) (c :: s))). rewrite Hr.
    apply border_free_apart; [done|lia].
  - pose proof (Hk 0 ltac:(lia)) as H0. unfold occurs_at in H0. simpl in H0. rewrite H0.
    apply IH. intros j Hj. apply (Hk (S j)). lia.
Qed.

Lemma count_occ p s : border_free p = true → p ≠ [] → count p s = occ p s.
Proof.
  intros Hb Hp. destruct p; [done|]. apply count_skip_occ; [done|done|]. intros; lia.
Qed.

Lemma occurs_at_bound p s i : p ≠ [] → occurs_at p s i = true → i < length s.
Proof.
  intros Hp H. destruct (decide (i < length s)); [done|]. unfold occurs_at in H.
  rewrite drop_ge in H by lia. by destruct p.
Qed.

Lemma occurs_at_contains p s i : occurs_at p s i = true → contains p s = true.
Proof.
  intros [r Hr]%starts_with_spec. apply contains_spec. exists (take i s), r.
  by rewrite <- Hr, take_drop.
Qed.

Lemma contains_occurs p s : contains p s = true → ∃ i, occurs_at p s i = true.
Proof.
  intros (a & b & ->)%contains_spec. exists (length a). unfold occurs_at.
  rewrite drop_app_length. apply starts_with_self.
Qed.

Lemma occ_zero p s : p ≠ [] → occ p s = 0 ↔ contains p s = false.
Proof.
  intros Hp. split.
  - intros H. apply not_true_iff_false. intros [i Hi]%contains_occurs.
    revert i Hi H. induction s as [|c s IH]; intros [|i] Hi; cbn [occ].
    1, 2: by destruct p. all: unfold occurs_at in Hi; cbn [drop] in Hi.
    + by rewrite Hi.
    + intros ?. apply (IH i Hi). lia.
  - intros H. induction s as [|c s IH]; [done|]. cbn [occ].
    assert (occurs_at p (c :: s) 0 = false) as H0.
    { apply not_true_iff_false. intros Hc%occurs_at_contains. congruence. }
    change (starts_with p (c :: s) = false) in H0. rewrite H0. apply IH.
    apply not_true_iff_false. intros Hc. apply (contains_app_r _ [c]) in Hc. simpl in Hc.
    congruence.
Qed.

Lemma count_zero p s : p ≠ [] → contains p s = false → count p s = 0.
Proof.
  intros Hp H. destruct (count p s) eqn:E; [done|].
  rewrite (count_contains p s) in H; [done|lia].
Qed.

Lemma occ_one p s :
  p ≠ [] → occ p s = 1 ↔ ∃ k, ∀ i, occurs_at p s i = true ↔ i = k.
Proof.
  intros Hp. induction s as [|c s IH]; cbn [occ].
  { split; [done|]. intros [k Hk]. pose proof (proj2 (Hk k) eq_refl) as H.
    unfold occurs_at in H. rewrite drop_nil in H. by destruct p. }
  assert (∀ i, occurs_at p (c :: s) (S i) = occurs_at p s i) as Hs by done.
  destruct (starts_with p (c :: s)) eqn:E.
  - split.
    + intros H. exists 0. intros [|i]; [by split|]. rewrite Hs. split; [|done].
      intros Hi%occurs_at_contains.
      assert (contains p s = false); [apply occ_zero; [done|lia]|congruence].
    + intros [k Hk]. assert (k = 0) as -> by (symmetry; by apply Hk).
      rewrite (proj2 (occ_zero p s Hp)); [done|]. apply not_true_iff_false.
      intros [i Hi]%contains_occurs. rewrite <- Hs in Hi. by apply Hk in Hi.
  - simpl. rewrite IH. split; intros [k Hk].
    + exists (S k). intros [|i]; [unfold occurs_at; cbn [drop]; rewrite E; done|].
      rewrite Hs, Hk. lia.
    + destruct k as [|k].
      { exfalso. pose proof (proj2 (Hk 0) eq_refl) as H0. unfold occurs_at in H0.
        cbn [drop] in H0. congruence. }
      exists k. intros i. rewrite <- Hs, Hk. lia.
Qed.

(** A count of one: the offset of the only occurrence. *)
Lemma count_one p s :
  border_free p = true → p ≠ [] →
  count p s = 1 ↔ ∃ k, ∀ i, occurs_at p s i = true ↔ i = k.
Proof. intros Hb Hp. rewrite count_occ by done. by apply occ_one. Qed.

Lemma find_unique p s k : (∀ i, occurs_at p s i = true ↔ i = k) → find p s = Some k.
Proof.
  intros H. destruct (find p s) as [i|] eqn:E.
  - apply find_Some in E as (a & b & Hs & -> & _). f_equal. apply H. unfold occurs_at.
    rewrite Hs, drop_app_length. apply starts_with_self.
  - exfalso. pose proof (occurs_at_contains p s k (proj2 (H k) eq_refl)) as Hc.
    unfold contains in Hc. by rewrite E in Hc.
Qed.

(** ** Counting over a concatenation *)

Lemma starts_with_across p a c b :
  c ∉ p → starts_with p (a ++ c :: b) = starts_with p a.
Proof.
  revert a. induction p as [|d p IH]; intros [|e a] Hc; simpl; try done.
  - destruct (char_eqb d c) eqn:E; [|done]. bool_hyps. set_solver.
  - rewrite IH by set_solver. done.
Qed.

(** A character that the pattern lacks separates its occurrences. *)
Lemma occ_across p a c b :
  c ∉ p → p ≠ [] → occ p (a ++ c :: b) = occ p a + occ p b.
Proof.
  intros Hc Hp. induction a as [|d a IH].
  - cbn [app occ]. destruct p as [|e p]; [done|]. simpl.
    destruct (char_eqb e c) eqn:E; [|done]. bool_hyps. set_solver.
  - cbn [app occ]. change (d :: a ++ c :: b) with ((d :: a) ++ c :: b).
    rewrite starts_with_across, IH by done. lia.
Qed.

Lemma count_across p a c b :
  border_free p = true → p ≠ [] → c ∉ p → count p (a ++ c :: b) = count p a + count p b.
Proof. intros. rewrite !count_occ by done. by apply occ_across. Qed.
