(* ===== verification/PyRegex.v ===== *)
(** * The fragment of Python's [re] that the installer's patterns use

    A pattern is a syntax tree; [run] is the backtracking matcher, in continuation-passing
    style, which tries the alternatives in the order the [re] module does (left branch first,
    a greedy star longest first, a lazy star shortest first).  The loop of a star carries the
    number of characters left as fuel, which is enough because an iteration must consume at
    least one character.  [matches] is the declarative meaning of a pattern, to which [run]
    is proved sound and complete. *)

From Stdlib Require Import Ascii.
From stdpp Require Import base list strings.
From S2P Require Import Prelude PyText.

Inductive regex :=
  | RSet (p : ascii → bool)            (** a character class *)
  | REps                               (** the empty pattern *)
  | RSeq (r1 r2 : regex)
  | RAlt (r1 r2 : regex)
  | RStar (greedy : bool) (r : regex)  (** [r*], or [r*?] when not greedy *)
  | RGroup (n : nat) (r : regex)       (** the n-th capturing group *)
  | RBol                               (** [^] under MULTILINE *)
  | REol (multiline : bool)            (** [$], under MULTILINE or not *)
  | RWordB.                            (** [\b] *)

(** A position in the subject: the character before it, the text after it, its offset. *)
Record cursor := Cursor { c_prev : option ascii; c_rest : text; c_pos : nat }.

Definition groups : Type := list (nat * (nat * nat)).

Definition word_at (o : option ascii) : bool :=
  match o with Some c => is_word c | None => false end.

Definition at_word_boundary (c : cursor) : bool :=
  negb (Bool.eqb (word_at (c_prev c)) (word_at (head (c_rest c)))).

Definition at_bol (c : cursor) : bool :=
  match c_prev c with None => true | Some d => char_eqb d nl end.

Definition at_eol (multiline : bool) (c : cursor) : bool :=
  match c_rest c with
  | [] => true
  | d :: rest => char_eqb d nl && (multiline || match rest with [] => true | _ => false end)
  end.

(** The iterations of a star whose body is matched by [body]. *)
Fixpoint star_loop {X} (body : cursor → groups → (cursor → groups → option X) → option X)
    (greedy : bool) (k : cursor → groups → option X)
    (fuel : nat) (c : cursor) (g : groups) {struct fuel} : option X :=
  match fuel with
  | O => k c g
  | S fuel' =>
      if greedy then
        match body c g (λ c' g', if c_pos c' =? c_pos c then None
                                 else star_loop body greedy k fuel' c' g') with
        | Some x => Some x
        | None => k c g
        end
      else
        match k c g with
        | Some x => Some x
        | None => body c g (λ c' g', if c_pos c' =? c_pos c then None
                                     else star_loop body greedy k fuel' c' g')
        end
  end.

Fixpoint run {X} (r : regex) (c : cursor) (g : groups) (k : cursor → groups → option X)
    {struct r} : option X :=
  match r with
  | RSet p =>
      match c_rest c with
      | d :: rest => if p d then k (Cursor (Some d) rest (S (c_pos c))) g else None
      | [] => None
      end
  | REps => k c g
  | RSeq r1 r2 => run r1 c g (λ c' g', run r2 c' g' k)
  | RAlt r1 r2 =>
      match run r1 c g k with
      | Some x => Some x
      | None => run r2 c g k
      end
  | RStar greedy r1 =>
      star_loop (λ c g k, run r1 c g k) greedy k (S (length (c_rest c))) c g
  | RGroup n r1 => run r1 c g (λ c' g', k c' ((n, (c_pos c, c_pos c')) :: g'))
  | RBol => if at_bol c then k c g else None
  | REol multiline => if at_eol multiline c then k c g else None
  | RWordB => if at_word_boundary c then k c g else None
  end.

(** ** The entry points of the module *)

Record rmatch := Match { m_start : nat; m_end : nat; m_groups : groups }.

Definition cursor_start (s : text) : cursor := Cursor None s 0.

Definition match_here (r : regex) (c : cursor) : option rmatch :=
  run r c [] (λ c' g, Some (Match (c_pos c) (c_pos c') g)).

(** [pattern.match(s)] *)
Definition re_match (r : regex) (s : text) : option rmatch := match_here r (cursor_start s).

(** [pattern.fullmatch(s)] *)
Definition re_fullmatch (r : regex) (s : text) : option rmatch :=
  run r (cursor_start s) []
      (λ c' g, match c_rest c' with [] => Some (Match 0 (c_pos c') g) | _ => None end).

Definition step (c : cursor) : cursor :=
  match c_rest c with
  | [] => c
  | d :: rest => Cursor (Some d) rest (S (c_pos c))
  end.

Fixpoint advance (n : nat) (c : cursor) : cursor :=
  match n with O => c | S n' => advance n' (step c) end.

(** The matches from left to right, each search starting where the last match ended; no
    pattern of the installer matches the empty text, so the special rule of the [re] module
    for empty matches is not needed and an empty match only moves the search on. *)
Fixpoint scan (fuel : nat) (r : regex) (c : cursor) : list rmatch :=
  match fuel with
  | O => []
  | S fuel' =>
      match match_here r c with
      | Some m =>
          if m_end m =? c_pos c
          then m :: match c_rest c with [] => [] | _ => scan fuel' r (step c) end
          else m :: scan fuel' r (advance (m_end m - c_pos c) c)
      | None => match c_rest c with [] => [] | _ => scan fuel' r (step c) end
      end
  end.

(** [list(pattern.finditer(s))] *)
Definition finditer (r : regex) (s : text) : list rmatch :=
  scan (S (length s)) r (cursor_start s).

(** [pattern.search(s)] *)
Definition re_search (r : regex) (s : text) : option rmatch := head (finditer r s).

(** [m.group()] *)
Definition group0 (s : text) (m : rmatch) : text := slice s (m_start m) (m_end m).

(** [m.group(n)]: the last capture of the group, [None] if it took no part. *)
Fixpoint lookup_group (n : nat) (g : groups) : option (nat * nat) :=
  match g with
  | [] => None
  | (k, span) :: g' => if k =? n then Some span else lookup_group n g'
  end.

Definition group (s : text) (m : rmatch) (n : nat) : option text :=
  match lookup_group n (m_groups m) with
  | Some (i, j) => Some (slice s i j)
  | None => None
  end.

(** [pattern.findall(s)] of a pattern without groups *)
Definition findall (r : regex) (s : text) : list text := map (group0 s) (finditer r s).

(** [pattern.sub(f, s)] *)
Fixpoint sub_pieces (f : text → text) (s : text) (pos : nat) (ms : list rmatch) : text :=
  match ms with
  | [] => drop pos s
  | m :: ms' =>
      slice s pos (m_start m) ++ f (group0 s m) ++ sub_pieces f s (m_end m) ms'
  end.

Definition re_sub (r : regex) (f : text → text) (s : text) : text :=
  sub_pieces f s 0 (finditer r s).

(** ** Notation for patterns *)

Definition lit (s : text) : regex := foldr (λ c r, RSeq (RSet (char_eqb c)) r) REps s.
Definition seqs (rs : list regex) : regex := foldr RSeq REps rs.
Fixpoint alts (rs : list regex) : regex :=
  match rs with
  | [] => RSet (λ _, false)
  | [r] => r
  | r :: rs' => RAlt r (alts rs')
  end.
Definition star (r : regex) : regex := RStar true r.
Definition lazy_star (r : regex) : regex := RStar false r.
Definition plus (r : regex) : regex := RSeq r (RStar true r).
Definition opt (r : regex) : regex := RAlt r REps.
Definition any_of (s : text) : regex := RSet (λ c, existsb (char_eqb c) s).
Definition none_of (s : text) : regex := RSet (λ c, negb (existsb (char_eqb c) s)).
Definition space : regex := RSet is_space.
Definition digit : regex := RSet is_digit.
(** [.] with and without DOTALL *)
Definition any_char : regex := RSet (λ _, true).
Definition dot : regex := RSet (λ c, negb (char_eqb c nl)).
(** [[ \t]*] *)
Definition blanks : regex := star (any_of [blank; tab]).

(** ** Declarative meaning *)

Fixpoint last_or (p : option ascii) (w : text) : option ascii :=
  match w with [] => p | c :: w' => last_or (Some c) w' end.

(** [reads c w c']: the cursor moves from [c] to [c'] over the text [w]. *)
Definition reads (c : cursor) (w : text) (c' : cursor) : Prop :=
  c_rest c = w ++ c_rest c' ∧ c_pos c' = c_pos c + length w
  ∧ c_prev c' = last_or (c_prev c) w.

Inductive matches : regex → cursor → groups → cursor → groups → Prop :=
  | MSet p d rest prev pos g :
      p d = true →
      matches (RSet p) (Cursor prev (d :: rest) pos) g (Cursor (Some d) rest (S pos)) g
  | MEps c g : matches REps c g c g
  | MSeq r1 r2 c g c1 g1 c2 g2 :
      matches r1 c g c1 g1 → matches r2 c1 g1 c2 g2 →
      matches (RSeq r1 r2) c g c2 g2
  | MAltL r1 r2 c g c' g' : matches r1 c g c' g' → matches (RAlt r1 r2) c g c' g'
  | MAltR r1 r2 c g c' g' : matches r2 c g c' g' → matches (RAlt r1 r2) c g c' g'
  | MStarNil b r c g : matches (RStar b r) c g c g
  | MStarCons b r c g c1 g1 c2 g2 :
      matches r c g c1 g1 → c_pos c1 ≠ c_pos c → matches (RStar b r) c1 g1 c2 g2 →
      matches (RStar b r) c g c2 g2
  | MGroup n r c g c' g' :
      matches r c g c' g' →
      matches (RGroup n r) c g c' ((n, (c_pos c, c_pos c')) :: g')
  | MBol c g : at_bol c = true → matches RBol c g c g
  | MEol b c g : at_eol b c = true → matches (REol b) c g c g
  | MWordB c g : at_word_boundary c = true → matches RWordB c g c g.

#[export] Hint Constructors matches : pytext.

(** ** Soundness and completeness of the matcher *)

Lemma run_sound {X} r c g (k : cursor → groups → option X) x :
  run r c g k = Some x → ∃ c' g', matches r c g c' g' ∧ k c' g' = Some x.
Proof.
  revert X c g k x.
  induction r as [p| |r1 IH1 r2 IH2|r1 IH1 r2 IH2|b r IH|n r IH| |b|];
    intros X c g k x; cbn [run].
  - destruct c as [prev [|d rest] pos]; simpl; [done|].
    destruct (p d) eqn:E; [|done]. intros Hk. do 2 eexists. split; [|exact Hk]. by constructor.
  - intros Hk. do 2 eexists. split; [|exact Hk]. constructor.
  - intros (c1 & g1 & ? & (c2 & g2 & ? & ?)%IH2)%IH1. eauto 6 with pytext.
  - destruct (run r1 c g k) eqn:E.
    + intros [= ->]. apply IH1 in E as (? & ? & ? & ?). eauto with pytext.
    + intros (? & ? & ? & ?)%IH2. eauto with pytext.
  - generalize (S (length (c_rest c))) as fuel. intros fuel. revert c g x.
    induction fuel as [|fuel IHf]; intros c g x; cbn [star_loop].
    { intros Hk. do 2 eexists. split; [|exact Hk]. constructor. }
    set (again := run r c g _).
    assert (∀ y, again = Some y →
                 ∃ c' g', matches (RStar b r) c g c' g' ∧ k c' g' = Some y) as Hbody.
    { intros y (c1 & g1 & Hm & Hk)%IH.
      destruct (c_pos c1 =? c_pos c) eqn:Hp; [done|]. apply Nat.eqb_neq in Hp.
      apply IHf in Hk as (c2 & g2 & ? & ?). eauto 8 with pytext. }
    destruct b.
    + destruct again eqn:E; [intros [= ->]; eauto|]. eauto with pytext.
    + destruct (k c g) eqn:E; [intros [= ->]; eauto with pytext|]. apply Hbody.
  - intros (c' & g' & ? & ?)%IH. eauto with pytext.
  - destruct (at_bol c) eqn:E; [|done]. eauto with pytext.
  - destruct (at_eol b c) eqn:E; [|done]. eauto with pytext.
  - destruct (at_word_boundary c) eqn:E; [|done]. eauto with pytext.
Qed.

Lemma last_or_app p v w : last_or p (v ++ w) = last_or (last_or p v) w.
Proof. revert p. induction v; intros; simpl; auto. Qed.

Lemma reads_refl c : reads c [] c.
Proof. repeat split; simpl; lia. Qed.

Lemma reads_trans c v c1 w c2 : reads c v c1 → reads c1 w c2 → reads c (v ++ w) c2.
Proof.
  intros (H1 & H2 & H3) (H4 & H5 & H6). unfold reads.
  rewrite H1, H4, H5, H2, H6, H3, length_app, last_or_app, <- app_assoc.
  split_and!; [done|lia|done].
Qed.

(** Every match reads a stretch of the subject. *)
Lemma matches_reads r c g c' g' : matches r c g c' g' → ∃ w, reads c w c'.
Proof.
  induction 1 as [p d rest prev pos g Hp| |r1 r2 c g c1 g1 c2 g2 _ [v Hv] _ [w Hw]
                 | | | |b r c g c1 g1 c2 g2 _ [v Hv] _ _ [w Hw]| | | |];
    eauto using reads_refl, reads_trans.
  exists [d]. repeat split; simpl; lia.
Qed.

Lemma run_complete {X} r c g c' g' (k : cursor → groups → option X) :
  matches r c g c' g' → is_Some (k c' g') → is_Some (run r c g k).
Proof.
  revert X c g c' g' k.
  induction r as [p| |r1 IH1 r2 IH2|r1 IH1 r2 IH2|b r IH|n r IH| |b|];
    intros X c g c' g' k Hm Hk; cbn [run].
  - inversion Hm; subst; cbn [c_rest c_pos]. by match goal with H : p _ = true |- _ => rewrite H end.
  - by inversion Hm; subst.
  - inversion Hm; subst. eapply IH1; [done|]. by eapply IH2.
  - inversion Hm; subst.
    + edestruct IH1 as [x ->]; eauto.
    + destruct (run r1 c g k); [done|]. eauto.
  - assert (∃ fuel, fuel = S (length (c_rest c)) ∧ length (c_rest c) < fuel)
      as (fuel & Hf & Hlt) by eauto.
    rewrite <- Hf. clear Hf.
    remember (RStar b r) as rs eqn:Hrs. revert fuel Hlt Hk.
    induction Hm as [| | | | |b' r' c g|b' r' c g c1 g1 c2 g2 Hm1 _ Hpos Hm2 IHm| | | |];
      try discriminate Hrs; injection Hrs as -> ->; intros [|fuel] Hlt Hk; try lia;
      cbn [star_loop].
    + destruct b; [by destruct (run r c g _)|]. by destruct Hk as [? ->].
    + apply matches_reads in Hm1 as Hr. destruct Hr as (w & Hw1 & Hw2 & _).
      rewrite Hw1, length_app in Hlt.
      set (again := run r c g _).
      assert (is_Some again) as Hrun.
      { eapply IH; [done|]. apply Nat.eqb_neq in Hpos as Hne. rewrite Hne.
        apply IHm; [done| |done]. destruct w; simpl in *; lia. }
      destruct b; [by destruct Hrun as [? ->]|]. by destruct (k c g).
  - inversion Hm; subst. by eapply IH.
  - inversion Hm; subst. by match goal with H : at_bol _ = true |- _ => rewrite H end.
  - inversion Hm; subst. by match goal with H : at_eol _ _ = true |- _ => rewrite H end.
  - inversion Hm; subst.
    by match goal with H : at_word_boundary _ = true |- _ => rewrite H end.
Qed.

Lemma run_None {X} r c g (k : cursor → groups → option X) :
  run r c g k = None ↔ ∀ c' g', matches r c g c' g' → k c' g' = None.
Proof.
  split.
  - intros H c' g' Hm. apply eq_None_not_Some. intros Hk.
    apply (run_complete _ _ _ _ _ _ Hm) in Hk. rewrite H in Hk. by destruct Hk.
  - intros H. apply eq_None_not_Some. intros [x (c' & g' & Hm & Hk)%run_sound].
    by rewrite (H _ _ Hm) in Hk.
Qed.

(** ** Where the matches of [finditer] lie *)

(** Spans in increasing order between the offsets [lo] and [hi]. *)
Fixpoint spans_ok (lo hi : nat) (ms : list rmatch) : Prop :=
  match ms with
  | [] => lo ≤ hi
  | m :: ms' => lo ≤ m_start m ∧ m_start m ≤ m_end m ∧ spans_ok (m_end m) hi ms'
  end.

Lemma spans_ok_weaken lo lo' hi ms : lo' ≤ lo → spans_ok lo hi ms → spans_ok lo' hi ms.
Proof. destruct ms; simpl; intuition lia. Qed.

Lemma spans_ok_le lo hi ms : spans_ok lo hi ms → lo ≤ hi.
Proof.
  revert lo. induction ms as [|m ms IH]; simpl; [done|].
  intros lo (? & ? & ?%IH). lia.
Qed.

Lemma match_here_reads r c m :
  match_here r c = Some m →
  m_start m = c_pos c ∧
  ∃ w c', reads c w c' ∧ m_end m = c_pos c' ∧ matches r c [] c' (m_groups m).
Proof.
  unfold match_here. intros (c' & g' & Hm & [= <-])%run_sound. split; [done|].
  destruct (matches_reads _ _ _ _ _ Hm) as [w Hw]. eauto 6.
Qed.

Definition cursor_end (c : cursor) : nat := c_pos c + length (c_rest c).

Lemma cursor_end_step c : cursor_end (step c) = cursor_end c.
Proof. unfold cursor_end, step. destruct c as [? [|??] ?]; simpl; lia. Qed.

Lemma cursor_end_advance n c : cursor_end (advance n c) = cursor_end c.
Proof.
  revert c. induction n as [|n IH]; intros c; simpl; [done|].
  by rewrite IH, cursor_end_step.
Qed.

Lemma c_pos_step c : c_pos c ≤ c_pos (step c).
Proof. unfold step. destruct c as [? [|??] ?]; simpl; lia. Qed.

Lemma c_pos_advance n c : n ≤ length (c_rest c) → c_pos (advance n c) = c_pos c + n.
Proof.
  revert c. induction n as [|n IH]; intros [p [|d rest] pos]; simpl; [lia..|].
  intros. rewrite IH; simpl; lia.
Qed.

Lemma scan_spans fuel r c : spans_ok (c_pos c) (cursor_end c) (scan fuel r c).
Proof.
  assert (c_pos c ≤ cursor_end c) as Hle by (unfold cursor_end; lia). revert Hle.
  revert c. induction fuel as [|fuel IH]; intros c Hle; simpl; [done|].
  assert (∀ n, n ≤ c_pos (step c) →
               spans_ok n (cursor_end c) (scan fuel r (step c))) as Hstep.
  { intros n Hn. eapply spans_ok_weaken; [apply Hn|]. rewrite <- cursor_end_step.
    apply IH. unfold cursor_end. lia. }
  pose proof (c_pos_step c).
  destruct (match_here r c) as [m|] eqn:Em.
  - apply match_here_reads in Em as (Hs & w & c' & (Hw1 & Hw2 & _) & He & _).
    rewrite <- Hs in Hw2.
    assert (m_end m ≤ cursor_end c).
    { unfold cursor_end. rewrite Hw1, length_app. lia. }
    destruct (m_end m =? c_pos c) eqn:Ez; simpl.
    + split_and!; [lia..|]. apply Nat.eqb_eq in Ez. destruct (c_rest c); simpl; [lia|].
      apply Hstep. lia.
    + split_and!; [lia..|]. rewrite <- (cursor_end_advance (m_end m - c_pos c) c).
      assert (c_pos (advance (m_end m - c_pos c) c) = m_end m) as Ha.
      { rewrite c_pos_advance; [lia|]. unfold cursor_end in *. lia. }
      eapply spans_ok_weaken, IH; [lia|]. rewrite cursor_end_advance. lia.
  - destruct (c_rest c); simpl; [done|]. apply Hstep. lia.
Qed.

Lemma finditer_spans r s : spans_ok 0 (length s) (finditer r s).
Proof. apply (scan_spans (S (length s)) r (cursor_start s)). Qed.

(** A substitution that rewrites each match within a relation rewrites the whole subject
    within it. *)
Lemma re_sub_Forall2 (R : ascii → ascii → Prop) r f s :
  (∀ c, R c c) → (∀ w, Forall2 R w (f w)) → Forall2 R s (re_sub r f s).
Proof.
  intros Hrefl Hf. unfold re_sub.
  assert (∀ w : text, Forall2 R w w) as Hw by (induction w; constructor; auto).
  pose proof (finditer_spans r s) as Hsp. revert Hsp.
  generalize (finditer r s) as ms. intros ms Hsp.
  assert (Forall2 R (drop 0 s) (sub_pieces f s 0 ms)) as H; [|by rewrite drop_0 in H].
  revert Hsp. generalize 0. induction ms as [|m ms IH]; simpl; intros pos Hsp; [apply Hw|].
  destruct Hsp as (H1 & H2 & H3).
  replace (drop pos s)
    with (slice s pos (m_start m) ++ slice s (m_start m) (m_end m) ++ drop (m_end m) s).
  - apply Forall2_app; [apply Hw|]. apply Forall2_app; [apply Hf|auto].
  - unfold slice. rewrite <- (take_drop (m_start m - pos) (drop pos s)) at 2.
    f_equal. rewrite drop_drop. replace (pos + _) with (m_start m) by lia.
    rewrite <- (take_drop (m_end m - m_start m) (drop (m_start m) s)) at 2.
    f_equal. rewrite drop_drop. f_equal. lia.
Qed.
