(* ===== verification/RegexFacts.v ===== *)
(** * Patterns and lines

    How literals and repeated classes match, and the main lemma: for a pattern that starts
    with [^], and in which nothing matches a newline, the matches of [finditer] are the
    matches of the single lines. *)

From Stdlib Require Import Ascii.
From stdpp Require Import base list strings sets.
From S2P Require Import Prelude PyText PyRegex.

(** ** Inversion of the common shapes *)

Lemma matches_seq r1 r2 c g c' g' :
  matches (RSeq r1 r2) c g c' g' ↔
  ∃ c1 g1, matches r1 c g c1 g1 ∧ matches r2 c1 g1 c' g'.
Proof.
  split; [intros H; inversion H; subst; eauto|]. intros (? & ? & ? & ?). eauto with pytext.
Qed.

Lemma matches_eps c g c' g' : matches REps c g c' g' ↔ c' = c ∧ g' = g.
Proof. split; [intros H; by inversion H|]. intros [-> ->]. constructor. Qed.

Lemma matches_alt r1 r2 c g c' g' :
  matches (RAlt r1 r2) c g c' g' ↔ matches r1 c g c' g' ∨ matches r2 c g c' g'.
Proof. split; [intros H; inversion H; subst; eauto|]. intros [?|?]; eauto with pytext. Qed.

Lemma matches_group n r c g c' g' :
  matches (RGroup n r) c g c' g' ↔
  ∃ g1, matches r c g c' g1 ∧ g' = (n, (c_pos c, c_pos c')) :: g1.
Proof.
  split; [intros H; inversion H; subst; eauto|]. intros (? & ? & ->). eauto with pytext.
Qed.

Lemma matches_set p c g c' g' :
  matches (RSet p) c g c' g' ↔ g' = g ∧ ∃ d, p d = true ∧ reads c [d] c'.
Proof.
  split.
  - intros H; inversion H; subst. split; [done|]. eexists. split; [done|].
    repeat split; simpl; lia.
  - intros (-> & d & Hd & H1 & H2 & H3). destruct c as [prev rest pos], c' as [prev' rest' pos'].
    simpl in *. subst. rewrite Nat.add_1_r. by constructor.
Qed.

Lemma matches_bol c g c' g' : matches RBol c g c' g' ↔ c' = c ∧ g' = g ∧ at_bol c = true.
Proof. split; [intros H; by inversion H|]. intros (-> & -> & ?). by constructor. Qed.

Lemma matches_eol b c g c' g' :
  matches (REol b) c g c' g' ↔ c' = c ∧ g' = g ∧ at_eol b c = true.
Proof. split; [intros H; by inversion H|]. intros (-> & -> & ?). by constructor. Qed.

Lemma reads_cons c d w c' :
  reads c (d :: w) c' ↔ ∃ c1, reads c [d] c1 ∧ reads c1 w c'.
Proof.
  split.
  - intros (H1 & H2 & H3). exists (Cursor (Some d) (w ++ c_rest c') (S (c_pos c))).
    unfold reads. simpl in *. split_and!; [done|lia|done|done|lia|done].
  - intros (c1 & H1 & H2). change (d :: w) with ([d] ++ w). by eapply reads_trans.
Qed.

Lemma reads_nil c c' : reads c [] c' ↔ c' = c.
Proof.
  split; [|intros ->; apply reads_refl].
  intros (H1 & H2 & H3). destruct c, c'. simpl in *. subst. f_equal. lia.
Qed.

Lemma matches_lit t c g c' g' : matches (lit t) c g c' g' ↔ g' = g ∧ reads c t c'.
Proof.
  unfold lit. revert c g. induction t as [|d t IH]; intros c g; simpl.
  { rewrite matches_eps, reads_nil. naive_solver. }
  rewrite matches_seq. setoid_rewrite matches_set. setoid_rewrite IH. rewrite reads_cons.
  split.
  - intros (c1 & g1 & (-> & e & He & Hr) & -> & Ht). bool_hyps. subst. eauto.
  - intros (-> & c1 & H1 & H2). exists c1, g. split_and!; [done| |done|done].
    exists d. by rewrite char_eqb_refl.
Qed.

Lemma matches_star_set b p c g c' g' :
  matches (RStar b (RSet p)) c g c' g' ↔
  g' = g ∧ ∃ w, Forall (λ d, p d = true) w ∧ reads c w c'.
Proof.
  split.
  - remember (RStar b (RSet p)) as r eqn:Hr. induction 1; try discriminate Hr.
    + split; [done|]. exists []. split; [constructor|apply reads_refl].
    + injection Hr as -> ->. destruct IHmatches2 as (-> & w & Hw & Hrw); [done|].
      apply matches_set in H as (-> & d & Hd & Hrd). split; [done|].
      exists (d :: w). split; [by constructor|]. by eapply (reads_trans _ [d]).
  - intros (-> & w & Hw & Hr). revert c Hr. induction w as [|d w IH]; intros c Hr.
    + apply reads_nil in Hr as ->. constructor.
    + apply reads_cons in Hr as (c1 & Hr1 & Hr2). apply Forall_cons in Hw as [Hd Hw].
      eapply MStarCons; [apply matches_set; eauto| |by apply IH].
      destruct Hr1 as (_ & Hp & _). simpl in Hp. lia.
Qed.

Lemma matches_plus_set p c g c' g' :
  matches (plus (RSet p)) c g c' g' ↔
  g' = g ∧ ∃ w, w ≠ [] ∧ Forall (λ d, p d = true) w ∧ reads c w c'.
Proof.
  unfold plus. rewrite matches_seq. setoid_rewrite matches_set.
  setoid_rewrite matches_star_set. split.
  - intros (c1 & g1 & (-> & d & Hd & H1) & -> & w & Hw & H2). split; [done|].
    exists (d :: w). split_and!; [done|by constructor|by eapply (reads_trans _ [d])].
  - intros (-> & [|d w] & Hne & Hw & Hr); [done|].
    apply Forall_cons in Hw as [Hd Hw]. apply reads_cons in Hr as (c1 & Hr1 & Hr2). eauto 10.
Qed.

(** ** Captures lie inside the match *)

Definition spans_below (n : nat) (g : groups) : Prop :=
  Forall (λ ks, ks.2.1 ≤ ks.2.2 ∧ ks.2.2 ≤ n) g.

Lemma spans_below_weaken n m g : n ≤ m → spans_below n g → spans_below m g.
Proof. intros H Hg. eapply Forall_impl; [exact Hg|]. intros ? [??]. split; lia. Qed.

Lemma matches_pos r c g c' g' : matches r c g c' g' → c_pos c ≤ c_pos c'.
Proof. intros (w & _ & -> & _)%matches_reads. lia. Qed.

Lemma matches_spans r c g c' g' :
  matches r c g c' g' → spans_below (c_pos c) g → spans_below (c_pos c') g'.
Proof.
  induction 1; simpl; intros Hg; auto.
  - eapply spans_below_weaken, Hg. lia.
  - constructor; [|by apply IHmatches]. simpl. split; [by eapply matches_pos|done].
Qed.

Lemma lookup_group_spans n g k i j :
  spans_below n g → lookup_group k g = Some (i, j) → i ≤ j ∧ j ≤ n.
Proof.
  induction 1 as [|[k' s] g [H1 H2] _ IH]; simpl; [done|].
  destruct (k' =? k); [|done]. intros [= ->]. done.
Qed.

(** ** A line in its context *)

Fixpoint newline_free (r : regex) : bool :=
  match r with
  | RSet p => negb (p nl)
  | REps | RBol | RWordB => true
  | RSeq r1 r2 | RAlt r1 r2 => newline_free r1 && newline_free r2
  | RStar _ r | RGroup _ r => newline_free r
  | REol multiline => multiline
  end.

Definition shift_span (off : nat) (ks : nat * (nat * nat)) : nat * (nat * nat) :=
  (ks.1, (off + ks.2.1, off + ks.2.2)).
Definition shift_groups (off : nat) (g : groups) : groups := map (shift_span off) g.
Definition shift_match (off : nat) (m : rmatch) : rmatch :=
  Match (off + m_start m) (off + m_end m) (shift_groups off (m_groups m)).

Section line.
(** The line has [total] characters, starts at [off] in the subject, and is followed by
[tail]. *)
Context (total off : nat) (tail : text).
Context (Htail : tail = [] ∨ ∃ t, tail = nl :: t).

Definition same_prev (p p' : option ascii) : Prop :=
  match p with Some d => p' = Some d ∧ d ≠ nl | None => p' = None ∨ p' = Some nl end.

(** A cursor of the line and the corresponding cursor of the subject. *)
Record corresponds (c c' : cursor) : Prop := Corresponds {
  co_rest : c_rest c' = c_rest c ++ tail;
  co_pos : c_pos c' = off + c_pos c;
  co_prev : same_prev (c_prev c) (c_prev c');
  co_line : nl ∉ c_rest c;
  co_total : c_pos c + length (c_rest c) = total
}.

Lemma corresponds_bol c c' : corresponds c c' → at_bol c' = at_bol c.
Proof.
  intros H. pose proof (co_prev _ _ H) as Hp. unfold at_bol.
  destruct (c_prev c) as [d|]; simpl in Hp.
  - destruct Hp as [-> Hd]. done.
  - destruct Hp as [->| ->]; done.
Qed.

Lemma corresponds_eol c c' : corresponds c c' → at_eol true c' = at_eol true c.
Proof.
  intros H. unfold at_eol. rewrite (co_rest _ _ H). pose proof (co_line _ _ H) as Hl.
  destruct (c_rest c) as [|d rest]; simpl; [by destruct Htail as [->|[t ->]]|].
  done.
Qed.

Lemma corresponds_word c c' : corresponds c c' → at_word_boundary c' = at_word_boundary c.
Proof.
  intros H. unfold at_word_boundary. rewrite (co_rest _ _ H).
  assert (word_at (c_prev c') = word_at (c_prev c)) as ->.
  { pose proof (co_prev _ _ H) as Hp. destruct (c_prev c) as [d|]; simpl in Hp.
    - by destruct Hp as [-> _].
    - by destruct Hp as [-> | ->]. }
  by destruct (c_rest c) as [|d rest]; simpl; [destruct Htail as [->|[t ->]]|].
Qed.

Context {X Y : Type} (R : X → Y → Prop).
Abbreviation related := (option_Forall2 R).

(** The two loops of a star proceed together, whatever fuel beyond the length of the line
each has. *)
Lemma star_line (b : bool) body body' (k : cursor → groups → option X)
    (k' : cursor → groups → option Y) :
  (∀ c c' g k k', corresponds c c' →
     (∀ d d' h, corresponds d d' → c_pos c ≤ c_pos d →
                related (k d h) (k' d' (shift_groups off h))) →
     related (body c g k) (body' c' (shift_groups off g) k')) →
  ∀ n m c c' g,
    corresponds c c' →
    (∀ d d' h, corresponds d d' → c_pos c ≤ c_pos d →
               related (k d h) (k' d' (shift_groups off h))) →
    length (c_rest c) < n → length (c_rest c) < m →
    related (star_loop body b k n c g) (star_loop body' b k' m c' (shift_groups off g)).
Proof.
  intros Hbody n. induction n as [|n IH]; intros m c c' g Hc Hk Hn Hm; [lia|].
  destruct m as [|m]; [lia|]. cbn [star_loop].
  assert (related
    (body c g (λ d h, if c_pos d =? c_pos c then None else star_loop body b k n d h))
    (body' c' (shift_groups off g)
       (λ d h, if c_pos d =? c_pos c' then None else star_loop body' b k' m d h))) as Hagain.
  { apply Hbody; [done|]. intros d d' h Hd Hpos.
    rewrite (co_pos _ _ Hd), (co_pos _ _ Hc).
    destruct (c_pos d =? c_pos c) eqn:E; bool_hyps.
    - rewrite E. rewrite Nat.eqb_refl. constructor.
    - destruct (off + c_pos d =? off + c_pos c) eqn:E'; bool_hyps; [lia|].
      pose proof (co_total _ _ Hd). pose proof (co_total _ _ Hc).
      apply IH; [done| |lia..]. intros e e' h' He Hpe. apply Hk; [done|lia]. }
  assert (related (k c g) (k' c' (shift_groups off g))) as Hkc by (apply Hk; [done|lia]).
  destruct b.
  - destruct Hagain as [x y Hxy|]; [by constructor|exact Hkc].
  - destruct Hkc as [x y Hxy|]; [by constructor|exact Hagain].
Qed.

Lemma run_line r :
  newline_free r = true →
  ∀ c c' g (k : cursor → groups → option X) (k' : cursor → groups → option Y),
    corresponds c c' →
    (∀ d d' h, corresponds d d' → c_pos c ≤ c_pos d →
               related (k d h) (k' d' (shift_groups off h))) →
    related (run r c g k) (run r c' (shift_groups off g) k').
Proof.
  induction r as [p| |r1 IH1 r2 IH2|r1 IH1 r2 IH2|b r IH|n r IH| |b|];
    cbn [newline_free]; intros Hnl c c' g k k' Hc Hk; cbn [run]; bool_hyps.
  - rewrite (co_rest _ _ Hc). pose proof (co_line _ _ Hc) as Hl.
    pose proof (co_total _ _ Hc) as Ht. pose proof (co_pos _ _ Hc) as Hp.
    destruct (c_rest c) as [|d rest]; simpl in *.
    { destruct Htail as [->|[t ->]]; [constructor|]. rewrite Hnl. constructor. }
    destruct (p d); [|constructor]. apply Hk; [|simpl; lia].
    split; simpl; [done|lia|split; [done|]|..].
    + intros ->. apply Hl. by left.
    + intros Hin. apply Hl. by right.
    + lia.
  - by apply Hk.
  - apply IH1; [done..|]. intros d d' h Hd Hpos.
    apply IH2; [done..|]. intros e e' h' He Hpe. apply Hk; [done|lia].
  - destruct (IH1 ltac:(done) c c' g k k' Hc Hk) as [x y Hxy|]; [by constructor|by apply IH2].
  - rewrite (co_rest _ _ Hc), length_app.
    apply (star_line b (λ c g k, run r c g k) (λ c g k, run r c g k)); [|done..|lia|lia].
    intros d d' h j j' Hd Hj. by apply IH.
  - apply IH; [done..|]. intros d d' h Hd Hpos.
    assert (shift_groups off ((n, (c_pos c, c_pos d)) :: h)
            = (n, (c_pos c', c_pos d')) :: shift_groups off h) as <-.
    { simpl. by rewrite (co_pos _ _ Hc), (co_pos _ _ Hd). }
    by apply Hk.
  - rewrite (corresponds_bol _ _ Hc). destruct (at_bol c); [by apply Hk|constructor].
  - subst b. rewrite (corresponds_eol _ _ Hc). destruct (at_eol true c); [by apply Hk|constructor].
  - rewrite (corresponds_word _ _ Hc).
    destruct (at_word_boundary c); [by apply Hk|constructor].
Qed.
End line.

(** The match at the start of a line. *)
Lemma match_here_line r line tail c :
  newline_free r = true → nl ∉ line → (tail = [] ∨ ∃ t, tail = nl :: t) →
  at_bol c = true → c_rest c = line ++ tail →
  match_here r c = shift_match (c_pos c) <$> re_match r line.
Proof.
  intros Hr Hl Ht Hb Hc. unfold re_match, match_here.
  assert (corresponds (length line) (c_pos c) tail (cursor_start line) c) as Hco.
  { split; simpl; [done|lia| |done|lia]. unfold at_bol in Hb.
    destruct (c_prev c) as [d|]; [|by left]. bool_hyps. subst. by right. }
  assert (option_Forall2 (λ m m', m' = shift_match (c_pos c) m)
    (run r (cursor_start line) [] (λ c' g, Some (Match 0 (c_pos c') g)))
    (run r c (shift_groups (c_pos c) [])
       (λ c' g, Some (Match (c_pos c) (c_pos c') g)))) as H.
  { eapply run_line; [exact Ht|exact Hr|exact Hco|]. intros d d' h Hd _. constructor.
    unfold shift_match. simpl. by rewrite (co_pos _ _ _ _ _ Hd), Nat.add_0_r. }
  simpl in *. by destruct H as [m m' ->|].
Qed.

(** ** Scanning *)

(** The scan with fuel for the text that is left. *)
Definition scan_all (r : regex) (c : cursor) : list rmatch := scan (S (length (c_rest c))) r c.

Lemma length_rest_step c d rest : c_rest c = d :: rest → c_rest (step c) = rest.
Proof. unfold step. by intros ->. Qed.

Lemma rest_advance n c : c_rest (advance n c) = drop n (c_rest c).
Proof.
  revert c. induction n as [|n IH]; intros c; simpl; [done|]. rewrite IH. unfold step.
  by destruct (c_rest c) as [|d rest] eqn:E; simpl; rewrite ?E, ?drop_nil.
Qed.

Lemma scan_fuel r n m c :
  length (c_rest c) < n → length (c_rest c) < m → scan n r c = scan m r c.
Proof.
  revert m c. induction n as [|n IH]; intros m c Hn Hm; [lia|]. destruct m as [|m]; [lia|].
  cbn [scan].
  assert (match c_rest c with [] => [] | _ => scan n r (step c) end
          = match c_rest c with [] => [] | _ => scan m r (step c) end) as Hstep.
  { destruct (c_rest c) as [|d rest] eqn:E; [done|]. simpl in *.
    apply IH; rewrite (length_rest_step _ _ _ E); lia. }
  destruct (match_here r c) as [mt|] eqn:Em; [|done].
  destruct (m_end mt =? c_pos c) eqn:E; [by rewrite Hstep|]. bool_hyps. f_equal.
  apply match_here_reads in Em as (_ & w & c' & (Hw1 & Hw2 & _) & He & _).
  assert (length w ≠ 0) by lia. assert (length w ≤ length (c_rest c)).
  { rewrite Hw1, length_app. lia. }
  apply IH; rewrite rest_advance, length_drop; lia.
Qed.

Lemma scan_all_eq r c :
  scan_all r c =
  match match_here r c with
  | Some m =>
      if m_end m =? c_pos c
      then m :: match c_rest c with [] => [] | _ => scan_all r (step c) end
      else m :: scan_all r (advance (m_end m - c_pos c) c)
  | None => match c_rest c with [] => [] | _ => scan_all r (step c) end
  end.
Proof.
  unfold scan_all at 1. cbn [scan].
  assert (match c_rest c with [] => [] | _ => scan (length (c_rest c)) r (step c) end
          = match c_rest c with [] => [] | _ => scan_all r (step c) end) as Hstep.
  { destruct (c_rest c) as [|d rest] eqn:E; [done|]. unfold scan_all.
    apply scan_fuel; rewrite (length_rest_step _ _ _ E); simpl; lia. }
  destruct (match_here r c) as [mt|] eqn:Em; [|done].
  destruct (m_end mt =? c_pos c) eqn:E; [by rewrite Hstep|]. bool_hyps. f_equal.
  apply match_here_reads in Em as (_ & w & c' & (Hw1 & Hw2 & _) & He & _).
  assert (length w ≤ length (c_rest c)).
  { rewrite Hw1, length_app. lia. }
  apply scan_fuel; rewrite rest_advance, length_drop; lia.
Qed.

Lemma finditer_scan r s : finditer r s = scan_all r (cursor_start s).
Proof. done. Qed.

Section anchored.
(** A pattern that starts with [^] and in which nothing matches a newline. *)
Context (r : regex) (Hbol : ∀ c, at_bol c = false → match_here r c = None).
Context (Hnl : newline_free r = true).

Definition line_match (off : nat) (line : text) : list rmatch :=
  match re_match r line with Some m => [shift_match off m] | None => [] end.

Fixpoint line_matches (off : nat) (lines : list text) : list rmatch :=
  match lines with
  | [] => []
  | line :: rest => line_match off line ++ line_matches (off + length line + 1) rest
  end.

(** What follows a line in the subject. *)
Definition tail_of (lines : list text) : text :=
  match lines with [] => [] | _ => nl :: join [nl] lines end.

Lemma tail_of_cases lines : tail_of lines = [] ∨ ∃ t, tail_of lines = nl :: t.
Proof. destruct lines; simpl; eauto. Qed.

Lemma join_cons line lines : join [nl] (line :: lines) = line ++ tail_of lines.
Proof. destruct lines; simpl; [by rewrite app_nil_r|done]. Qed.

(** Inside a line there is no match. *)
Lemma scan_inside u lines c d :
  (∀ c, at_bol c = true → c_rest c = join [nl] lines → lines ≠ [] →
        scan_all r c = line_matches (c_pos c) lines) →
  c_prev c = Some d → d ≠ nl → nl ∉ u → c_rest c = u ++ tail_of lines →
  scan_all r c = line_matches (c_pos c + length u + 1) lines.
Proof.
  intros Hlines. revert c d. induction u as [|e u IH]; intros c d Hp Hd Hu Hr;
    rewrite scan_all_eq, Hbol by (unfold at_bol; rewrite Hp; by apply char_eqb_neq).
  - simpl in Hr. rewrite Hr. destruct lines as [|l ls]; [done|]. simpl tail_of at 1. simpl in Hr.
    assert (step c = Cursor (Some nl) (join [nl] (l :: ls)) (S (c_pos c))) as ->
      by (unfold step; by rewrite Hr).
    rewrite Hlines by done. simpl. do 2 f_equal; try lia.
  - rewrite Hr. simpl.
    assert (step c = Cursor (Some e) (u ++ tail_of lines) (S (c_pos c))) as ->
      by (unfold step; by rewrite Hr).
    rewrite (IH _ e); simpl; [f_equal; lia|done|intros ->; apply Hu; by left| |done].
    intros Hin. apply Hu. by right.
Qed.

Lemma re_match_bounds line m :
  re_match r line = Some m → m_start m = 0 ∧ m_end m ≤ length line.
Proof.
  intros (Hs & w & c' & (Hw1 & Hw2 & _) & He & _)%match_here_reads. split; [done|].
  simpl in *. rewrite Hw1, length_app. lia.
Qed.

Lemma advance_reads n c :
  n ≤ length (c_rest c) → reads c (take n (c_rest c)) (advance n c).
Proof.
  revert c. induction n as [|n IH]; intros [p rest pos] Hn; simpl in *; [apply reads_refl|].
  destruct rest as [|d rest]; simpl in *; [lia|]. unfold step. simpl.
  apply reads_cons. exists (Cursor (Some d) rest (S pos)). split.
  - repeat split; simpl; lia.
  - apply (IH (Cursor (Some d) rest (S pos))). simpl. lia.
Qed.

Lemma last_or_elem p w : w ≠ [] → ∃ d, last_or p w = Some d ∧ d ∈ w.
Proof.
  revert p. induction w as [|d w IH]; intros p Hw; [done|]. simpl.
  destruct w as [|e w]; [exists d; split; [done|by left]|].
  destruct (IH (Some d)) as (x & Hx & Hin); [done|]. exists x. split; [done|by right].
Qed.

Lemma scan_lines lines c :
  lines ≠ [] → Forall (λ l, nl ∉ l) lines → at_bol c = true → c_rest c = join [nl] lines →
  scan_all r c = line_matches (c_pos c) lines.
Proof.
  revert c. induction lines as [|l ls IH]; intros c Hne Hf Hb Hr; [done|].
  apply Forall_cons in Hf as [Hl Hls]. rewrite join_cons in Hr.
  assert (∀ c, at_bol c = true → c_rest c = join [nl] ls → ls ≠ [] →
               scan_all r c = line_matches (c_pos c) ls) as IH' by auto.
  assert (match c_rest c with [] => [] | _ => scan_all r (step c) end
          = line_matches (c_pos c + length l + 1) ls) as Hrest.
  { rewrite Hr. destruct l as [|d u]; simpl.
    - destruct ls as [|l2 ls2]; [done|]. simpl in Hr |- *. unfold step. rewrite Hr.
      rewrite IH' by done. cbn [c_pos].
      by replace (c_pos c + 0 + 1) with (S (c_pos c)) by lia.
    - unfold step. rewrite Hr. cbn [app].
      rewrite (scan_inside u ls _ d IH'); cbn [c_pos c_prev c_rest];
        [f_equal; lia|done|intros ->; apply Hl; by left| |done].
      intros Hin. apply Hl. by right. }
  rewrite scan_all_eq, (match_here_line r l (tail_of ls) c Hnl Hl (tail_of_cases ls) Hb Hr).
  simpl. unfold line_match. destruct (re_match r l) as [m|] eqn:Em; simpl; [|exact Hrest].
  apply re_match_bounds in Em as [_ Hm].
  destruct (c_pos c + m_end m =? c_pos c) eqn:E; bool_hyps; [by rewrite Hrest|]. f_equal.
  replace (c_pos c + m_end m - c_pos c) with (m_end m) by lia.
  assert (m_end m ≤ length (c_rest c)) as Hmr by (rewrite Hr, length_app; lia).
  destruct (advance_reads (m_end m) c Hmr) as (_ & Hp & Hprev).
  rewrite Hr, take_app_le in Hp, Hprev by lia.
  destruct (last_or_elem (c_prev c) (take (m_end m) l)) as (d & Hd & Hin).
  { destruct l, (m_end m); simpl in *; try done; lia. }
  rewrite (scan_inside (drop (m_end m) l) ls _ d IH').
  - rewrite Hp, length_take, length_drop. f_equal. lia.
  - congruence.
  - intros ->. apply Hl. rewrite <- (take_drop (m_end m) l). apply elem_of_app. by left.
  - intros Hin'. apply Hl. rewrite <- (take_drop (m_end m) l). apply elem_of_app. by right.
  - rewrite rest_advance, Hr, drop_app_le by lia. done.
Qed.
End anchored.

(** ** Lines of a text *)

Lemma split_char_nonempty c s : split_char c s ≠ [].
Proof. destruct s as [|d s]; simpl; [done|]. destruct (char_eqb d c); [done|].
  by destruct (split_char c s). Qed.

Lemma split_char_free c s : Forall (λ l, c ∉ l) (split_char c s).
Proof.
  induction s as [|d s IH]; simpl; [repeat constructor; by intros ?%not_elem_of_nil|].
  destruct (char_eqb d c) eqn:E; bool_hyps.
  - constructor; [by intros ?%not_elem_of_nil|done].
  - destruct (split_char c s) as [|l ls]; [repeat constructor; set_solver|].
    apply Forall_cons in IH as [Hl Hls]. constructor; [|done]. set_solver.
Qed.

Lemma join_split_char c s : join [c] (split_char c s) = s.
Proof.
  induction s as [|d s IH]; simpl; [done|]. destruct (char_eqb d c) eqn:E; bool_hyps.
  - subst. pose proof (split_char_nonempty c s).
    destruct (split_char c s) as [|l ls] eqn:Es; [done|]. simpl in *. by rewrite IH.
  - destruct (split_char c s) as [|l ls]; simpl in *; [by rewrite <- IH|].
    destruct ls; simpl in *; by rewrite <- IH.
Qed.

Definition lines_of (s : text) : list text := split_char nl s.

Lemma split_char_join c ls :
  ls ≠ [] → Forall (λ l, c ∉ l) ls → split_char c (join [c] ls) = ls.
Proof.
  intros Hne Hf. induction ls as [|l ls IH]; [done|]. apply Forall_cons in Hf as [Hl Hls].
  assert (∀ t, split_char c (l ++ t) = match split_char c t with
                                       | [] => [l] | x :: xs => (l ++ x) :: xs end) as Hsplit.
  { clear IH. intros t. induction l as [|d l IHl]; simpl.
    - pose proof (split_char_nonempty c t). by destruct (split_char c t).
    - destruct (char_eqb d c) eqn:E; bool_hyps; [subst; exfalso; apply Hl; by left|].
      rewrite IHl by set_solver. pose proof (split_char_nonempty c t).
      by destruct (split_char c t). }
  destruct ls as [|l2 ls].
  - simpl. rewrite <- (app_nil_r l) at 1. rewrite Hsplit. simpl. by rewrite app_nil_r.
  - change (join [c] (l :: l2 :: ls)) with (l ++ [c] ++ join [c] (l2 :: ls)).
    rewrite Hsplit. cbn [app split_char]. rewrite char_eqb_refl, IH by done.
    by rewrite app_nil_r.
Qed.

(** The pattern matches line by line. *)
Theorem finditer_lines r s :
  (∀ c, at_bol c = false → match_here r c = None) → newline_free r = true →
  finditer r s = line_matches r 0 (lines_of s).
Proof.
  intros Hb Hn. rewrite finditer_scan.
  rewrite (scan_lines r Hb Hn (lines_of s) (cursor_start s)); [done|..].
  - apply split_char_nonempty.
  - apply split_char_free.
  - done.
  - simpl. symmetry. apply join_split_char.
Qed.

Lemma anchored_seq r c : at_bol c = false → match_here (RSeq RBol r) c = None.
Proof. intros H. unfold match_here. cbn [run]. by rewrite H. Qed.

(** ** The texts of the matches, line by line *)

Lemma slice_context pre line tail i j :
  j ≤ length line →
  slice (pre ++ line ++ tail) (length pre + i) (length pre + j) = slice line i j.
Proof.
  intros Hj. unfold slice.
  rewrite drop_app_add, drop_app.
  replace (length pre + j - (length pre + i)) with (j - i) by lia.
  destruct (decide (i ≤ j)).
  - rewrite take_app_le; [done|]. rewrite length_drop. lia.
  - by replace (j - i) with 0 by lia.
Qed.

Lemma lookup_group_shift n off g :
  lookup_group n (shift_groups off g) = (λ ij, (off + ij.1, off + ij.2)) <$> lookup_group n g.
Proof.
  induction g as [|[k s] g IH]; simpl; [done|]. by destruct (k =? n).
Qed.

Lemma re_match_spans r line m :
  re_match r line = Some m → spans_below (length line) (m_groups m).
Proof.
  intros (_ & w & c' & (Hw1 & Hw2 & _) & _ & Hm)%match_here_reads.
  apply matches_spans in Hm; [|constructor]. eapply spans_below_weaken, Hm.
  simpl in *. rewrite Hw1, length_app. lia.
Qed.

Lemma group_context pre line tail r m n :
  re_match r line = Some m →
  group (pre ++ line ++ tail) (shift_match (length pre) m) n = group line m n.
Proof.
  intros Hm%re_match_spans. unfold group. simpl. rewrite lookup_group_shift.
  destruct (lookup_group n (m_groups m)) as [[i j]|] eqn:E; [|done]. simpl.
  apply (lookup_group_spans _ _ _ _ _ Hm) in E as [_ ?]. by rewrite slice_context.
Qed.

Lemma group0_context pre line tail r m :
  re_match r line = Some m →
  group0 (pre ++ line ++ tail) (shift_match (length pre) m) = group0 line m.
Proof. intros [_ Hm]%re_match_bounds. unfold group0. by apply slice_context. Qed.

(** The results of [f] on the matches of the lines. *)
Definition on_lines {A} (r : regex) (f : text → rmatch → A) (lines : list text) : list A :=
  omap (λ line, f line <$> re_match r line) lines.

Lemma on_lines_cons {A} r (f : text → rmatch → A) l ls :
  on_lines r f (l :: ls) =
  match re_match r l with Some m => [f l m] | None => [] end ++ on_lines r f ls.
Proof. unfold on_lines. simpl. by destruct (re_match r l). Qed.

Lemma line_matches_texts {A} r (f : text → rmatch → A) lines s pre :
  (∀ pre line tail m, re_match r line = Some m →
     f (pre ++ line ++ tail) (shift_match (length pre) m) = f line m) →
  s = pre ++ join [nl] lines →
  map (f s) (line_matches r (length pre) lines) = on_lines r f lines.
Proof.
  intros Hf. revert pre. induction lines as [|l ls IH]; intros pre Hs; [done|].
  rewrite join_cons in Hs. rewrite on_lines_cons. cbn [line_matches].
  rewrite map_app. unfold line_match.
  assert (map (f s) (line_matches r (length pre + length l + 1) ls) = on_lines r f ls) as <-.
  { destruct ls as [|l2 ls]; [done|].
    replace (length pre + length l + 1) with (length (pre ++ l ++ [nl]))
      by (rewrite !length_app; simpl; lia).
    apply IH. rewrite Hs. simpl. by rewrite <- !app_assoc. }
  destruct (re_match r l) as [m|] eqn:E; simpl; [|done].
  rewrite Hs. by rewrite (Hf _ _ _ _ E).
Qed.

Lemma groups_by_line r s n :
  (∀ c, at_bol c = false → match_here r c = None) → newline_free r = true →
  map (λ m, group s m n) (finditer r s) = on_lines r (λ line m, group line m n) (lines_of s).
Proof.
  intros Hb Hn. rewrite finditer_lines by done.
  apply (line_matches_texts r (λ s m, group s m n) (lines_of s) s []).
  - intros. by eapply group_context.
  - symmetry. apply join_split_char.
Qed.

Lemma findall_by_line r s :
  (∀ c, at_bol c = false → match_here r c = None) → newline_free r = true →
  findall r s = on_lines r group0 (lines_of s).
Proof.
  intros Hb Hn. unfold findall. rewrite finditer_lines by done.
  apply (line_matches_texts r group0 (lines_of s) s []).
  - intros. by eapply group0_context.
  - symmetry. apply join_split_char.
Qed.

(** ** Patterns for a whole line *)

Definition line_end (line : text) : cursor := Cursor (last_or None line) [] (length line).

Lemma reads_line_end line w c :
  reads (cursor_start line) w c → c_rest c = [] → w = line ∧ c = line_end line.
Proof.
  intros (H1 & H2 & H3) Hr. simpl in *. rewrite Hr, app_nil_r in H1. subst w.
  split; [done|]. destruct c. simpl in *. by subst.
Qed.

Lemma reads_whole line : reads (cursor_start line) line (line_end line).
Proof. repeat split; simpl; by rewrite ?app_nil_r. Qed.

Lemma whole_line_sound body line m :
  nl ∉ line → re_match (seqs [RBol; body; REol true]) line = Some m →
  matches body (cursor_start line) [] (line_end line) (m_groups m) ∧ m_start m = 0 ∧
  m_end m = length line.
Proof.
  intros Hl (Hs & w & c' & Hw & He & Hm)%match_here_reads. simpl in Hm.
  apply matches_seq in Hm as (c1 & g1 & (-> & -> & _)%matches_bol & Hm).
  apply matches_seq in Hm as (c2 & g2 & Hb & Hm).
  apply matches_seq in Hm as (c3 & g3 & (-> & -> & Heol)%matches_eol & (-> & Hg)%matches_eps).
  assert (c_rest c2 = []) as Hr.
  { unfold at_eol in Heol. destruct (c_rest c2) as [|d rest] eqn:E; [done|].
    apply andb_true_iff in Heol as [Hd _]. bool_hyps. subst d.
    exfalso. apply Hl. destruct Hw as (H1 & _). simpl in H1. rewrite H1, E. set_solver. }
  destruct (reads_line_end _ _ _ Hw Hr) as [_ ->]. rewrite Hg. by split_and!.
Qed.

Lemma whole_line_complete body line g :
  matches body (cursor_start line) [] (line_end line) g →
  is_Some (re_match (seqs [RBol; body; REol true]) line).
Proof.
  intros Hb. unfold re_match, match_here. eapply run_complete; [|by eexists].
  simpl. do 2 (eapply MSeq; [first [by constructor | exact Hb]|]).
  eapply MSeq; [by apply MEol|constructor].
Qed.

Lemma starts_with_drop p s : starts_with p s = true → s = p ++ drop (length p) s.
Proof. intros [r ->]%starts_with_spec. by rewrite drop_app_length. Qed.

Lemma starts_with_start p s c :
  reads (cursor_start s) p c →
  starts_with p s = true ∧ ∀ w, reads c w (line_end s) ↔ drop (length p) s = w.
Proof.
  intros (H1 & H2 & H3). simpl in *. split; [rewrite H1; apply starts_with_self|].
  intros w. rewrite H1, drop_app_length. split.
  - intros (H4 & H5 & H6). simpl in *. by rewrite app_nil_r in H4.
  - intros <-. split_and!; simpl; [by rewrite app_nil_r| |].
    + rewrite length_app. lia.
    + by rewrite H3, last_or_app.
Qed.

(** A full match reads the whole subject. *)
Lemma fullmatch_sound r s m :
  re_fullmatch r s = Some m →
  matches r (cursor_start s) [] (line_end s) (m_groups m).
Proof.
  unfold re_fullmatch. intros (c & g & Hm & Hk)%run_sound.
  destruct (c_rest c) as [|d rest] eqn:E; [|done]. injection Hk as <-.
  destruct (matches_reads _ _ _ _ _ Hm) as [w Hw].
  by destruct (reads_line_end _ _ _ Hw E) as [_ ->].
Qed.

Lemma fullmatch_complete r s g :
  matches r (cursor_start s) [] (line_end s) g → is_Some (re_fullmatch r s).
Proof. intros Hm. unfold re_fullmatch. eapply run_complete; [exact Hm|]. by eexists. Qed.

Lemma newline_free_lit t : nl ∉ t → newline_free (lit t) = true.
Proof.
  induction t as [|c t IH]; intros Ht; [done|]. unfold lit in *. cbn [foldr newline_free].
  rewrite IH by set_solver. destruct (char_eqb c nl) eqn:E; [|done].
  bool_hyps. subst. exfalso. apply Ht. by left.
Qed.

(** A text read in two parts. *)
Lemma reads_app c u v c' : reads c (u ++ v) c' ↔ ∃ c1, reads c u c1 ∧ reads c1 v c'.
Proof.
  split.
  - intros (H1 & H2 & H3).
    exists (Cursor (last_or (c_prev c) u) (v ++ c_rest c') (c_pos c + length u)).
    unfold reads. cbn [c_rest c_pos c_prev].
    split_and!; [by rewrite H1, app_assoc|done|done|done|rewrite H2, length_app; lia|].
    by rewrite H3, last_or_app.
  - intros (c1 & H1 & H2). by eapply reads_trans.
Qed.

Lemma reads_start_pos s u c : reads (cursor_start s) u c → c_pos c = length u.
Proof. by intros (_ & -> & _). Qed.
