(* ===== verification/PyResult.v ===== *)
(** * Exceptions, and results of pure code that can raise

    [InstallError] is the exception class of the installer; an [OSError] carries its kind and
    the path it names; any other exception that the code can let escape is an [OtherError]
    with its class name. *)

From stdpp Require Import base list strings.
From S2P Require Import Prelude.

Inductive errno :=
  | ENOENT | EEXIST | ENOTDIR | EISDIR | ENOTEMPTY | ELOOP | EBUSY | EIO
  | EMESSAGE (msg : text).    (** [OSError(msg)], raised by the code itself *)

Inductive exn :=
  | InstallError (msg : text)
  | OSError (e : errno) (path : text)
  | OtherError (cls : text).

Inductive result (A : Type) :=
  | Ok (a : A)
  | Err (e : exn).
Arguments Ok {A} a.
Arguments Err {A} e.

#[export] Instance result_ret : MRet result := λ _ a, Ok a.
#[export] Instance result_bind : MBind result := λ _ _ f m,
  match m with Ok a => f a | Err e => Err e end.

#[export] Instance result_fmap : FMap result := λ _ _ f m,
  match m with Ok a => Ok (f a) | Err e => Err e end.

(** [raise InstallError(msg)] *)
Definition install_error {A} (msg : text) : result A := Err (InstallError msg).

Definition is_ok {A} (m : result A) : bool :=
  match m with Ok _ => true | Err _ => false end.

(** The failures of the code that are its own: the exceptions [main] reports. *)
Definition is_install_error (e : exn) : bool :=
  match e with InstallError _ => true | _ => false end.

(** A loop over a list whose body can raise. *)
Fixpoint foldM {A S} (f : S → A → result S) (s : S) (l : list A) : result S :=
  match l with
  | [] => Ok s
  | a :: l' => match f s a with Ok s' => foldM f s' l' | Err e => Err e end
  end.

Lemma bind_Ok {A B} (m : result A) (f : A → result B) b :
  m ≫= f = Ok b → ∃ a, m = Ok a ∧ f a = Ok b.
Proof. destruct m; simpl; [eauto|done]. Qed.

(** The result of code that makes no system call. *)
Definition no_os {A} (r : result A) : Prop := ∀ e p, r ≠ Err (OSError e p).

Lemma no_os_ok {A} (a : A) : no_os (Ok a).
Proof. done. Qed.

Lemma no_os_install {A} msg : no_os (@install_error A msg).
Proof. done. Qed.

Lemma no_os_other {A} cls : no_os (@Err A (OtherError cls)).
Proof. done. Qed.

Lemma no_os_bind {A B} (m : result A) (f : A → result B) :
  no_os m → (∀ a, no_os (f a)) → no_os (m ≫= f).
Proof. intros Hm Hf. destruct m; simpl; [apply Hf|]. intros en p [= ->]. by eapply Hm. Qed.

Lemma no_os_err {A B} (m : result A) e : no_os m → m = Err e → no_os (@Err B e).
Proof. intros Hm -> en p [= ->]. by eapply Hm. Qed.

Lemma no_os_fmap {A B} (f : A → B) (m : result A) : no_os m → no_os (f <$> m).
Proof. intros Hm. destruct m; simpl; [done|]. intros en p [= ->]. by eapply Hm. Qed.

Create HintDb no_os discriminated.
#[export] Hint Constants Opaque : no_os.
#[export] Hint Resolve no_os_ok no_os_install no_os_other : no_os.

(** Proves [no_os] of code made of matches, conditionals, binds and known functions. *)
Ltac no_os :=
  repeat first
    [ solve [auto with no_os]
    | apply no_os_bind; [|intros ?]
    | apply no_os_fmap
    | match goal with
      | H : ?m = Err ?e |- no_os (Err ?e) => apply (no_os_err m e); [|exact H]
      | |- no_os (match ?x with _ => _ end) =>
          let E := fresh "E" in destruct x eqn:E
      | |- no_os (let '_ := ?x in _) => destruct x
      end ].

(** Inversion of a successful run: each [bind] and each guard of the hypothesis. *)
Ltac ok_inv :=
  repeat match goal with
  | H : mbind _ _ = Ok _ |- _ =>
      let a := fresh "a" in let E := fresh "E" in
      apply bind_Ok in H as (a & E & H); cbn beta in H
  | H : Ok _ = Ok _ |- _ => injection H as H; try subst
  | H : mret _ = Ok _ |- _ => injection H as H; try subst
  | H : install_error _ = Ok _ |- _ => discriminate H
  | H : Err _ = Ok _ |- _ => discriminate H
  end.
