(* ===== verification/Scanner.v ===== *)
(** * Patterns that a scanner decides

    Where a function on texts tells whether a pattern matches at a position, and how far, the
    substitution [re.sub] rewrites a text from left to right along that function. *)

From Stdlib Require Import Ascii.
From stdpp Require Import base list strings.
From S2P Require Import Prelude PyText PyRegex RegexFacts.

(** ** Running a pattern *)

Lemma run_lit {X} t c g (k : cursor → groups → option X) :
  run (lit t) c g k = if starts_with t (c_rest c) then k (advance (length t) c) g else None.
Proof.
  revert c. induction t as [|d t IH]; intros c; [done|].
  change (lit (d :: t)) with (RSeq (RSet (char_eqb d)) (lit t)).
  cbn [run length advance]. unfold step. destruct (c_rest c) as [|e rest] eqn:E; [done|].
  cbn [starts_with]. destruct (char_eqb d e); [|done]. cbn [andb]. apply IH.
Qed.

Lemma advance_step n c d rest :
  c_rest c = d :: rest → advance (S n) c = advance n (Cursor (Some d) rest (S (c_pos c))).
Proof. intros E. cbn [advance]. unfold step. by rewrite E. Qed.

(** One more iteration of a loop over single characters is never empty. *)
Lemma pos_moves n : (S n =? n) = false.
Proof. apply Nat.eqb_neq. lia. Qed.

(** The match that reads [n] characters at a position. *)
Definition found (c : cursor) (n : nat) : rmatch := Match (c_pos c) (c_pos (advance n c)) [].
Definition ending (c : cursor) : cursor → groups → option rmatch :=
  λ c' g, Some (Match (c_pos c) (c_pos c') g).

Lemma ending_total c c' g : is_Some (ending c c' g).
Proof. done. Qed.

(** A pattern that starts with a literal text. *)
Lemma match_after_lit c t r :
  match_here (RSeq (lit t) r) c =
  if starts_with t (c_rest c) then run r (advance (length t) c) [] (ending c) else None.
Proof. unfold match_here. cbn [run]. by rewrite run_lit. Qed.

Lemma advance_plus n m d : advance m (advance n d) = advance (n + m) d.
Proof. revert d. induction n as [|n IH]; intros d; [done|]. apply IH. Qed.

Lemma match_alt c r1 r2 :
  match_here (RAlt r1 r2) c =
  match match_here r1 c with Some m => Some m | None => match_here r2 c end.
Proof. done. Qed.

(** ** Substitution *)

(** A character before the first match stays. *)
Lemma sub_pieces_char f s pos c ms hi :
  s !! pos = Some c → spans_ok (S pos) hi ms →
  sub_pieces f s pos ms = c :: sub_pieces f s (S pos) ms.
Proof.
  intros Hc Hms. destruct ms as [|m ms]; cbn [sub_pieces].
  - by apply drop_S.
  - destruct Hms as [Hm _]. unfold slice. rewrite (drop_S _ _ _ Hc).
    by replace (m_start m - pos) with (S (m_start m - S pos)) by lia.
Qed.

Section scanner.
(** The pattern matches at a position where [len] gives the length of the match. *)
Context (r : regex) (len : text → option nat).
Context (Hmatch : ∀ c, match_here r c = found c <$> len (c_rest c)).
Context (Hlen : ∀ s n, len s = Some n → 1 ≤ n ≤ length s).

(** A text with the matches rewritten by [f], from left to right. *)
Inductive rewritten (f : text → text) : text → text → Prop :=
  | rewritten_end : rewritten f [] []
  | rewritten_match s n t :
      len s = Some n → rewritten f (drop n s) t → rewritten f s (f (take n s) ++ t)
  | rewritten_char c s t :
      len (c :: s) = None → rewritten f s t → rewritten f (c :: s) (c :: t).

Lemma len_nil : len [] = None.
Proof. destruct (len []) as [n|] eqn:E; [|done]. apply Hlen in E. simpl in E. lia. Qed.

Lemma rewritten_from f s n : ∀ c,
  length (c_rest c) ≤ n → c_rest c = drop (c_pos c) s → c_pos c ≤ length s →
  rewritten f (c_rest c) (sub_pieces f s (c_pos c) (scan_all r c)).
Proof.
  induction n as [|n IH]; intros c Hn Hr Hp; rewrite scan_all_eq, Hmatch.
  { destruct (c_rest c) as [|d rest] eqn:E; [|simpl in Hn; lia].
    rewrite len_nil.
    cbn [fmap option_fmap option_map sub_pieces]. rewrite <- Hr. apply rewritten_end. }
  destruct (len (c_rest c)) as [k|] eqn:Ek; cbn [fmap option_fmap option_map].
  - pose proof (Hlen _ _ Ek) as Hk.
    assert (m_end (found c k) = c_pos c + k) as He by (apply c_pos_advance; lia).
    rewrite He, (proj2 (Nat.eqb_neq (c_pos c + k) (c_pos c))) by lia.
    replace (c_pos c + k - c_pos c) with k by lia. cbn [sub_pieces]. unfold group0.
    rewrite He. change (m_start (found c k)) with (c_pos c).
    assert (slice s (c_pos c) (c_pos c) = []) as -> by (unfold slice; by rewrite Nat.sub_diag).
    assert (slice s (c_pos c) (c_pos c + k) = take k (c_rest c)) as ->.
    { unfold slice. rewrite Hr. f_equal. lia. }
    eapply rewritten_match; [exact Ek|]. rewrite <- rest_advance, <- (c_pos_advance k c) by lia.
    apply IH.
    + rewrite rest_advance, length_drop. lia.
    + rewrite rest_advance, c_pos_advance, Hr, drop_drop by lia. done.
    + rewrite c_pos_advance by lia. rewrite Hr, length_drop in Hk. lia.
  - destruct (c_rest c) as [|d rest] eqn:E.
    { cbn [sub_pieces]. rewrite <- Hr. apply rewritten_end. }
    assert (s !! c_pos c = Some d) as Hd.
    { pose proof (lookup_drop s (c_pos c) 0) as H. rewrite <- Hr, Nat.add_0_r in H. by rewrite <- H. }
    rewrite (sub_pieces_char f s _ d _ (cursor_end (step c))); [|exact Hd|].
    + apply rewritten_char; [exact Ek|]. pose proof (length_rest_step c d rest E) as Hs.
      assert (c_pos (step c) = S (c_pos c)) as Hps by (unfold step; by rewrite E).
      rewrite <- Hs, <- Hps. apply IH.
      * rewrite Hs. simpl in Hn. lia.
      * rewrite Hs, Hps. rewrite (drop_S _ _ _ Hd) in Hr. by injection Hr.
      * rewrite Hps. apply lookup_lt_Some in Hd. lia.
    + assert (c_pos (step c) = S (c_pos c)) as <- by (unfold step; by rewrite E).
      apply scan_spans.
Qed.

Lemma re_sub_rewritten f s : rewritten f s (re_sub r f s).
Proof. apply (rewritten_from f s (length s) (cursor_start s)); simpl; [done|by rewrite drop_0|lia]. Qed.

Lemma rewritten_unique f s t t' : rewritten f s t → rewritten f s t' → t = t'.
Proof.
  intros H. revert t'. induction H as [|s n t Hn _ IH|c s t Hn _ IH]; intros t' H'.
  - inversion H' as [|? n ? Hn|]; [done|]. by rewrite len_nil in Hn.
  - inversion H' as [|? m ? Hm|]; subst; [by rewrite len_nil in Hn| |congruence].
    assert (m = n) as -> by congruence. f_equal. by apply IH.
  - inversion H' as [|? m ? Hm|]; subst; [congruence|]. f_equal. by apply IH.
Qed.

(** The pattern is found nowhere when the scanner accepts nowhere. *)
Lemma search_none s : re_search r s = None ↔ ∀ i, len (drop i s) = None.
Proof.
  unfold re_search. rewrite finditer_scan.
  assert (∀ n c, length (c_rest c) ≤ n →
            head (scan_all r c) = None ↔ ∀ i, len (drop i (c_rest c)) = None) as H.
  { induction n as [|n IH]; intros c Hn; rewrite scan_all_eq, Hmatch;
      destruct (c_rest c) as [|d rest] eqn:E; try (simpl in Hn; lia).
    1, 2: rewrite len_nil; split; [intros _ i; by rewrite drop_nil, len_nil|done].
    destruct (len (d :: rest)) as [k|] eqn:Ek; cbn [fmap option_fmap option_map].
    - split; [by destruct (_ =? _)|]. intros Hi. specialize (Hi 0). rewrite drop_0 in Hi. congruence.
    - pose proof (length_rest_step c d rest E) as Hs. rewrite IH by (rewrite Hs; simpl in Hn; lia).
      rewrite Hs. split.
      + intros Hi [|i]; [done|apply Hi].
      + intros Hi i. apply (Hi (S i)). }
  apply (H (length s) (cursor_start s)). done.
Qed.

(** Removing the matches gives a subsequence of the text, a shorter one if there is any. *)
Lemma removed_sublist s t : rewritten (λ _, []) s t → t `sublist_of` s.
Proof.
  induction 1 as [|s n t Hn _ IH|c s t Hn _ IH]; [done| |by constructor].
  etrans; [exact IH|]. apply sublist_drop.
Qed.

Lemma removed_shorter s t :
  rewritten (λ _, []) s t → t = s ∨ length t < length s.
Proof.
  induction 1 as [|s n t Hn H IH|c s t Hn _ IH]; [by left| |].
  - right. apply Hlen in Hn. apply removed_sublist, sublist_length in H.
    rewrite length_drop in H. simpl. lia.
  - destruct IH as [->|?]; [by left|right]. simpl. lia.
Qed.

Lemma removed_none s : rewritten (λ _, []) s s → ∀ i, len (drop i s) = None.
Proof.
  assert (∀ t, rewritten (λ _, []) s t → length t = length s → ∀ i, len (drop i s) = None) as H;
    [|by eauto].
  induction 1 as [|s n t Hn H IH|c s t Hn _ IH]; intros Hl i.
  - by rewrite drop_nil, len_nil.
  - apply Hlen in Hn. apply removed_sublist, sublist_length in H.
    rewrite length_drop in H. simpl in Hl. lia.
  - destruct i as [|i]; [done|]. apply IH. by injection Hl.
Qed.
End scanner.
