(* ===== verification/CLexer.v ===== *)
(** * Lexical masking of C sources (install.py, [_C_LEXEME_PATTERN] and the [mask_c_*]
    functions)

    Comments, and where asked string and character literals, are overwritten with blanks so
    that anchors are searched in code only.  The offsets of the masked text are used in the
    original text, so the central fact is that masking changes characters in place. *)

From Stdlib Require Import Ascii.
From stdpp Require Import base list strings.
From S2P Require Import Prelude PyText PyRegex.

(** A quote, then escaped pairs or characters other than the quote and the backslash, then
    the quote (DOTALL). *)
Definition quoted_lexeme (q : ascii) : regex :=
  seqs [lit [q];
        star (RAlt (RSeq (lit [backslash]) any_char) (none_of [q; backslash]));
        lit [q]].

(** [_C_LEXEME_PATTERN] *)
Definition c_lexeme_pattern : regex :=
  alts [quoted_lexeme dq;
        quoted_lexeme sq;
        RSeq (lit (py "//")) (star (none_of [nl]));
        seqs [lit (py "/*"); lazy_star any_char; lit (py "*/")]].

Definition masked_lexeme (token : text) : text :=
  map (λ c, if char_eqb c nl then nl else blank) token.

Definition is_comment (token : text) : bool :=
  starts_with (py "//") token || starts_with (py "/*") token.

Definition mask_c_comments (s : text) : text :=
  re_sub c_lexeme_pattern (λ token, if is_comment token then masked_lexeme token else token) s.

Definition mask_c_comments_and_literals (s : text) : text :=
  re_sub c_lexeme_pattern masked_lexeme s.

(** [collapse_c_line_continuations]: the pattern is removed until none is left; each round
    that changes the text shortens it, so its length bounds the rounds. *)
Definition continuation_pattern : regex :=
  RSeq (lit [backslash]) (alts [lit [cr; nl]; lit [nl]; lit [cr]]).

Fixpoint collapse_loop (fuel : nat) (s : text) : text :=
  match fuel with
  | O => s
  | S fuel' =>
      match re_search continuation_pattern s with
      | Some _ => collapse_loop fuel' (re_sub continuation_pattern (λ _, []) s)
      | None => s
      end
  end.

Definition collapse_c_line_continuations (s : text) : text :=
  collapse_loop (S (length s)) s.

(** ** Masking in place *)

(** A character is kept, or is blanked and was not a newline. *)
Definition masked_char (c d : ascii) : Prop := d = c ∨ (d = blank ∧ c ≠ nl).

(** [masks s m]: [m] is [s] with some characters other than newlines blanked. *)
Definition masks (s m : text) : Prop := Forall2 masked_char s m.

Lemma masked_char_refl c : masked_char c c.
Proof. by left. Qed.

Lemma masks_refl s : masks s s.
Proof. unfold masks. induction s; constructor; auto using masked_char_refl. Qed.

Lemma masked_char_trans c d e : masked_char c d → masked_char d e → masked_char c e.
Proof. intros [->|[-> Hc]] [->|[-> Hd]]; unfold masked_char; auto. Qed.

Lemma masks_trans s m n : masks s m → masks m n → masks s n.
Proof.
  unfold masks. intros H. revert n. induction H as [|c d s m Hcd _ IH]; intros n Hn.
  - inversion Hn. constructor.
  - inversion Hn; subst. constructor; eauto using masked_char_trans.
Qed.

#[export] Instance masks_preorder : PreOrder masks.
Proof. split; [intros ?; apply masks_refl|intros ???; apply masks_trans]. Qed.

Lemma masks_length s m : masks s m → length m = length s.
Proof. intros H. symmetry. eapply Forall2_length, H. Qed.

Lemma masked_lexeme_masks w : masks w (masked_lexeme w).
Proof.
  induction w as [|c w IH]; constructor; [|done].
  destruct (char_eqb c nl) eqn:E; bool_hyps; subst; [by left|by right].
Qed.

Lemma mask_c_comments_masks s : masks s (mask_c_comments s).
Proof.
  apply re_sub_Forall2; [apply masked_char_refl|].
  intros w. destruct (is_comment w); [apply masked_lexeme_masks|apply masks_refl].
Qed.

Lemma mask_c_comments_and_literals_masks s : masks s (mask_c_comments_and_literals s).
Proof. apply re_sub_Forall2; [apply masked_char_refl|apply masked_lexeme_masks]. Qed.

Create HintDb masking.
#[export] Hint Resolve masks_refl mask_c_comments_masks mask_c_comments_and_literals_masks
  masked_lexeme_masks : masking.

(** Text without blanks that survives in the masked text is in the original at the same
    offset; newlines are kept. *)
Lemma masks_nl s m i : masks s m → s !! i = Some nl ↔ m !! i = Some nl.
Proof.
  intros H. split; intros Hi.
  - eapply Forall2_lookup_l in H as (d & Hd & Hc); [|done].
    destruct Hc as [->|[? []]]; done.
  - eapply Forall2_lookup_r in H as (c & Hd & Hc); [|done].
    by destruct Hc as [<-|[[=] ?]].
Qed.

Lemma masks_lookup s m i d : masks s m → m !! i = Some d → d ≠ blank → s !! i = Some d.
Proof.
  intros H Hi Hd. eapply Forall2_lookup_r in H as (c & Hc & Hm); [|done].
  by destruct Hm as [<-|[-> _]].
Qed.
