(* ===== verification/LexFacts.v ===== *)
(** * The lexemes of a C source

    The expression [_C_LEXEME_PATTERN] and [re.sub] against a hand-written lexer: from left
    to right, a literal or a comment is taken as a whole as soon as one starts and ends; any
    other character stands for itself. *)

From Stdlib Require Import Ascii.
From stdpp Require Import base list strings.
From S2P Require Import Prelude PyText PyRegex RegexFacts Scanner CLexer.

(** ** The lexer *)

(** The characters up to the quote that closes a literal, from behind the opening one. *)
Fixpoint quoted_end (q : ascii) (s : text) : option nat :=
  match s with
  | [] => None
  | c :: s' =>
      if char_eqb q c then Some 1
      else if char_eqb backslash c then
        match s' with [] => None | _ :: s'' => (λ n, S (S n)) <$> quoted_end q s'' end
      else S <$> quoted_end q s'
  end.

Fixpoint line_end_after (s : text) : nat :=
  match s with
  | [] => 0
  | c :: s' => if char_eqb c nl then 0 else S (line_end_after s')
  end.

(** The characters up to the end of a block comment. *)
Fixpoint block_end (s : text) : option nat :=
  if starts_with (py "*/") s then Some 2
  else match s with [] => None | _ :: s' => S <$> block_end s' end.

(** The length of the lexeme that starts here, if one does. *)
Definition lexeme_length (s : text) : option nat :=
  if starts_with [dq] s then S <$> quoted_end dq (drop 1 s)
  else if starts_with [sq] s then S <$> quoted_end sq (drop 1 s)
  else if starts_with (py "//") s then Some (2 + line_end_after (drop 2 s))
  else if starts_with (py "/*") s then (λ n, S (S n)) <$> block_end (drop 2 s)
  else None.

(** ** The expression finds the lexemes *)

Section loops.
Context {X : Type} (k : cursor → groups → option X).
Context (Hk : ∀ c g, is_Some (k c g)).

Lemma run_quoted q fuel c g :
  q ≠ backslash → length (c_rest c) < fuel →
  star_loop (λ c g k, run (RAlt (RSeq (lit [backslash]) any_char) (none_of [q; backslash])) c g k)
    true (λ c g, run (lit [q]) c g k) fuel c g
  = match quoted_end q (c_rest c) with Some n => k (advance n c) g | None => None end.
Proof.
  intros Hq. revert c. induction fuel as [|fuel IH]; intros c Hf; [lia|]. cbn [star_loop].
  rewrite run_lit. cbn [run lit foldr none_of any_char existsb].
  destruct (c_rest c) as [|d rest] eqn:E; [done|]. cbn [starts_with quoted_end length] in *.
  rewrite andb_true_r. destruct (char_eqb q d) eqn:Eq.
  - apply char_eqb_eq in Eq as <-. assert (char_eqb backslash q = false) as ->
      by (apply char_eqb_neq; congruence).
    by rewrite char_eqb_refl.
  - assert (char_eqb d q = false) as -> by (rewrite char_eqb_neq in *; congruence).
    destruct (char_eqb backslash d) eqn:Eb.
    + apply char_eqb_eq in Eb as <-. rewrite char_eqb_refl. cbn [orb negb c_rest c_pos].
      destruct rest as [|e rest]; [done|]. cbn [c_pos c_rest].
      rewrite (proj2 (Nat.eqb_neq (S (S (c_pos c))) (c_pos c))) by lia.
      rewrite IH by (cbn [c_rest length] in *; lia). cbn [c_rest].
      destruct (quoted_end q rest) as [n|]; [|done]. cbn [fmap option_fmap option_map].
      rewrite (advance_step (S n) c backslash (e :: rest) E).
      rewrite (advance_step n _ e rest) by done. cbn [c_pos].
      by destruct (Hk (advance n (Cursor (Some e) rest (S (S (c_pos c))))) g) as [x ->].
    + assert (char_eqb d backslash = false) as -> by (rewrite char_eqb_neq in *; congruence).
      cbn [orb negb c_pos c_rest]. rewrite pos_moves.
      rewrite IH by (cbn [c_rest length] in *; lia). cbn [c_rest].
      destruct (quoted_end q rest) as [n|]; [|done]. cbn [fmap option_fmap option_map].
      rewrite (advance_step n c d rest E).
      by destruct (Hk (advance n (Cursor (Some d) rest (S (c_pos c)))) g) as [x ->].
Qed.

Lemma run_to_line_end fuel c g :
  length (c_rest c) < fuel →
  star_loop (λ c g k, run (none_of [nl]) c g k) true k fuel c g
  = k (advance (line_end_after (c_rest c)) c) g.
Proof.
  revert c. induction fuel as [|fuel IH]; intros c Hf; [lia|]. cbn [star_loop].
  cbn [run none_of existsb]. destruct (c_rest c) as [|d rest] eqn:E; [done|].
  cbn [line_end_after length] in *. rewrite orb_false_r.
  destruct (char_eqb d nl); [done|]. cbn [negb c_pos c_rest]. rewrite pos_moves.
  rewrite IH by (cbn [c_rest]; lia). cbn [c_rest].
  rewrite (advance_step _ c d rest E).
  by destruct (Hk (advance (line_end_after rest) (Cursor (Some d) rest (S (c_pos c)))) g)
    as [x ->].
Qed.

Lemma run_block fuel c g :
  length (c_rest c) < fuel →
  star_loop (λ c g k, run any_char c g k) false (λ c g, run (lit (py "*/")) c g k) fuel c g
  = match block_end (c_rest c) with Some n => k (advance n c) g | None => None end.
Proof.
  revert c. induction fuel as [|fuel IH]; intros c Hf; [lia|]. cbn [star_loop].
  rewrite run_lit. destruct (c_rest c) as [|d rest] eqn:E.
  { cbn [run any_char]. rewrite E. done. }
  cbn [block_end]. destruct (starts_with (py "*/") (d :: rest)).
  { change (length (py "*/")) with 2. by destruct (Hk (advance 2 c) g) as [x ->]. }
  cbn [run any_char]. rewrite E. cbn [c_pos c_rest length] in *. rewrite pos_moves.
  rewrite IH by (cbn [c_rest]; lia). cbn [c_rest].
  destruct (block_end rest) as [n|]; [|done]. cbn [fmap option_fmap option_map].
  by rewrite (advance_step n c d rest E).
Qed.
End loops.

Section patterns.
Context (c : cursor).
Lemma match_quoted q :
  q ≠ backslash →
  match_here (quoted_lexeme q) c =
  if starts_with [q] (c_rest c)
  then found c <$> (S <$> quoted_end q (drop 1 (c_rest c))) else None.
Proof.
  intros Hq. unfold quoted_lexeme, seqs. cbn [foldr]. rewrite match_after_lit.
  destruct (starts_with [q] (c_rest c)); [|done]. cbn [run star length].
  rewrite <- (rest_advance 1 c).
  transitivity (match quoted_end q (c_rest (advance 1 c)) with
                | Some n => ending c (advance n (advance 1 c)) [] | None => None end).
  - apply (run_quoted (ending c) (ending_total c) q); [done|lia].
  - destruct (quoted_end q _) as [n|]; [|done]. by rewrite advance_plus.
Qed.

Lemma match_line_comment :
  match_here (RSeq (lit (py "//")) (star (none_of [nl]))) c =
  if starts_with (py "//") (c_rest c)
  then Some (found c (2 + line_end_after (drop 2 (c_rest c)))) else None.
Proof.
  rewrite match_after_lit. destruct (starts_with (py "//") (c_rest c)); [|done].
  change (length (py "//")) with 2. rewrite <- (rest_advance 2 c).
  transitivity (ending c (advance (line_end_after (c_rest (advance 2 c))) (advance 2 c)) []).
  - apply (run_to_line_end (ending c) (ending_total c)). lia.
  - by rewrite advance_plus.
Qed.

Lemma match_block_comment :
  match_here (seqs [lit (py "/*"); lazy_star any_char; lit (py "*/")]) c =
  if starts_with (py "/*") (c_rest c)
  then found c <$> ((λ n, S (S n)) <$> block_end (drop 2 (c_rest c))) else None.
Proof.
  unfold seqs. cbn [foldr]. rewrite match_after_lit.
  destruct (starts_with (py "/*") (c_rest c)); [|done].
  change (length (py "/*")) with 2. rewrite <- (rest_advance 2 c). cbn [run lazy_star].
  transitivity (match block_end (c_rest (advance 2 c)) with
                | Some n => ending c (advance n (advance 2 c)) [] | None => None end).
  - apply (run_block (ending c) (ending_total c)). lia.
  - destruct (block_end _) as [n|]; [|done]. by rewrite advance_plus.
Qed.

(** The kinds of lexemes exclude each other by their first characters. *)
Lemma first_excludes t u s :
  starts_with t s = true → starts_with u s = true → ∃ n, take n t = take n u ∧ n = min (length t) (length u).
Proof.
  intros [r ->]%starts_with_spec [r' H]%starts_with_spec. eexists. split; [|done].
  apply (f_equal (take (length t `min` length u))) in H.
  rewrite !take_app_le in H by lia. done.
Qed.

Lemma match_lexeme :
  match_here c_lexeme_pattern c = found c <$> lexeme_length (c_rest c).
Proof.
  unfold c_lexeme_pattern. cbn [alts]. rewrite !match_alt, !match_quoted by done.
  rewrite match_line_comment, match_block_comment. unfold lexeme_length.
  assert (∀ t u : text, starts_with t (c_rest c) = true →
            text_eqb (take (length t `min` length u) t) (take (length t `min` length u) u) = false →
            starts_with u (c_rest c) = false) as Hex.
  { intros t u Ht Hne. apply not_true_iff_false. intros Hu.
    destruct (first_excludes t u _ Ht Hu) as (n & Hn & ->).
    rewrite Hn in Hne. by rewrite (proj2 (text_eqb_eq _ _) eq_refl) in Hne. }
  destruct (starts_with [dq] (c_rest c)) eqn:E1.
  { rewrite (Hex [dq] [sq] E1 eq_refl), (Hex [dq] (py "//") E1 eq_refl),
      (Hex [dq] (py "/*") E1 eq_refl). by destruct (quoted_end dq _). }
  destruct (starts_with [sq] (c_rest c)) eqn:E2.
  { rewrite (Hex [sq] (py "//") E2 eq_refl), (Hex [sq] (py "/*") E2 eq_refl).
    by destruct (quoted_end sq _). }
  destruct (starts_with (py "//") (c_rest c)) eqn:E3; [done|].
  by destruct (starts_with (py "/*") (c_rest c)).
Qed.
End patterns.

(** ** Masking *)

Lemma quoted_end_bounds q s n : quoted_end q s = Some n → 1 ≤ n ≤ length s.
Proof.
  assert (∀ m s, length s ≤ m → ∀ n, quoted_end q s = Some n → 1 ≤ n ≤ length s) as H.
  { clear. induction m as [|m IH]; intros [|c s] Hm n; try done; [simpl in *; lia|].
    cbn [quoted_end length] in *. destruct (char_eqb q c); [intros [= <-]; lia|].
    destruct (char_eqb backslash c).
    - destruct s as [|d s]; [done|]. cbn [length] in *.
      destruct (quoted_end q s) as [k|] eqn:E; [|done]. intros [= <-].
      apply IH in E; lia.
    - destruct (quoted_end q s) as [k|] eqn:E; [|done]. intros [= <-]. apply IH in E; lia. }
  by apply (H (length s)).
Qed.

Lemma line_end_bound s : line_end_after s ≤ length s.
Proof. induction s as [|c s IH]; simpl; [done|]. destruct (char_eqb c nl); lia. Qed.

Lemma block_end_bounds s n : block_end s = Some n → n ≤ length s.
Proof.
  revert n. induction s as [|c s IH]; intros n; [done|]. cbn [block_end].
  destruct (starts_with (py "*/") (c :: s)) eqn:E.
  - intros [= <-]. apply starts_with_spec in E as [r ->]. simpl. lia.
  - destruct (block_end s) as [k|]; [|done]. intros [= <-]. specialize (IH k eq_refl). simpl. lia.
Qed.

Lemma starts_with_length t s : starts_with t s = true → length t ≤ length s.
Proof. intros [r ->]%starts_with_spec. rewrite length_app. lia. Qed.

(** A lexeme is not empty and lies in the text. *)
Lemma lexeme_bounds s n : lexeme_length s = Some n → 1 ≤ n ≤ length s.
Proof.
  unfold lexeme_length.
  assert (∀ k, length (drop k s) = length s - k) as Hd by (intros k; by rewrite length_drop).
  repeat match goal with
  | |- context [starts_with ?t s] =>
      let E := fresh "E" in destruct (starts_with t s) eqn:E;
        [pose proof (starts_with_length _ _ E) as Hl; cbn in Hl|]
  end; [| | | |done].
  1, 2: destruct (quoted_end _ _) as [k|] eqn:Ek; [|done]; apply quoted_end_bounds in Ek;
    intros [= <-]; rewrite Hd in Ek; lia.
  - intros [= <-]. pose proof (line_end_bound (drop 2 s)). rewrite Hd in *. lia.
  - destruct (block_end _) as [k|] eqn:Ek; [|done]. apply block_end_bounds in Ek.
    intros [= <-]. rewrite Hd in Ek. lia.
Qed.

Lemma re_sub_iff f s t : re_sub c_lexeme_pattern f s = t ↔ rewritten lexeme_length f s t.
Proof.
  pose proof (re_sub_rewritten _ _ match_lexeme lexeme_bounds f s) as H.
  split; [by intros <-|]. by apply (rewritten_unique _ lexeme_bounds).
Qed.

(** C26: the masking functions are the hand-written lexer.  [mask_c_comments_and_literals]
    gives, and gives only, the text in which each lexeme (from left to right: a literal with
    its escapes, a comment to the end of its line, a block comment to its first closing
    mark, each only where it is complete) is blanked and every other character stays;
    [mask_c_comments] the same with the literals kept. *)
Theorem masking_is_lexing s t :
  (mask_c_comments_and_literals s = t ↔ rewritten lexeme_length masked_lexeme s t) ∧
  (mask_c_comments s = t ↔
     rewritten lexeme_length
       (λ token, if is_comment token then masked_lexeme token else token) s t).
Proof. split; apply re_sub_iff. Qed.
