(* ===== verification/Continuations.v ===== *)
(** * Line continuations

    The loop of [collapse_c_line_continuations] ends, with a text in which no backslash
    stands before the end of a line. *)

From Stdlib Require Import Ascii.
From stdpp Require Import base list strings.
From S2P Require Import Prelude PyText PyRegex RegexFacts Scanner CLexer.

(** The length of the continuation that starts here, if one does. *)
Definition continuation_length (s : text) : option nat :=
  if starts_with [backslash; cr; nl] s then Some 3
  else if starts_with [backslash; nl] s || starts_with [backslash; cr] s then Some 2
  else None.

Lemma starts_with_cons x t d rest :
  starts_with (x :: t) (d :: rest) = char_eqb x d && starts_with t rest.
Proof. done. Qed.

Lemma match_continuation c :
  match_here continuation_pattern c = found c <$> continuation_length (c_rest c).
Proof.
  unfold continuation_pattern. rewrite match_after_lit. unfold continuation_length. cbn [alts].
  destruct (c_rest c) as [|d rest] eqn:E; [done|]. rewrite !starts_with_cons.
  destruct (char_eqb backslash d); [|done]. cbn [andb length].
  assert (c_rest (advance 1 c) = rest) as Hr by (by rewrite rest_advance, E).
  change (run (RAlt (lit [cr; nl]) (RAlt (lit [nl]) (lit [cr]))) (advance 1 c) [] (ending c))
    with (match run (lit [cr; nl]) (advance 1 c) [] (ending c) with
          | Some m => Some m
          | None => match run (lit [nl]) (advance 1 c) [] (ending c) with
                    | Some m => Some m
                    | None => run (lit [cr]) (advance 1 c) [] (ending c)
                    end
          end).
  rewrite !run_lit, Hr, !advance_plus. cbn [length Nat.add].
  destruct (starts_with [cr; nl] rest); [done|].
  by destruct (starts_with [nl] rest), (starts_with [cr] rest).
Qed.

Lemma continuation_bounds s n : continuation_length s = Some n → 1 ≤ n ≤ length s.
Proof.
  unfold continuation_length.
  destruct (starts_with [backslash; cr; nl] s) eqn:E1.
  { intros [= <-]. apply starts_with_spec in E1 as [r ->]. simpl. lia. }
  destruct (starts_with [backslash; nl] s) eqn:E2.
  { intros [= <-]. apply starts_with_spec in E2 as [r ->]. simpl. lia. }
  destruct (starts_with [backslash; cr] s) eqn:E3; [|done].
  intros [= <-]. apply starts_with_spec in E3 as [r ->]. simpl. lia.
Qed.

Abbreviation removed := (rewritten continuation_length (λ _, [])).

Definition remove_round (s : text) : text := re_sub continuation_pattern (λ _, []) s.

Lemma round_removed s : removed s (remove_round s).
Proof. apply (re_sub_rewritten _ _ match_continuation continuation_bounds). Qed.

(** The characters that removing continuations cannot concern. *)
Definition other_char (c : ascii) : bool :=
  negb (char_eqb c backslash || char_eqb c nl || char_eqb c cr).

Lemma removed_others s t : removed s t → List.filter other_char t = List.filter other_char s.
Proof.
  induction 1 as [|s n t Hn _ IH|c s t Hn _ IH]; [done| |].
  - cbn [app]. rewrite <- (take_drop n s), List.filter_app, <- IH.
    assert (List.filter other_char (take n s) = []) as ->; [|done].
    revert Hn. unfold continuation_length.
    destruct (starts_with [backslash; cr; nl] s) eqn:E1.
    { intros [= <-]. by apply starts_with_spec in E1 as [r ->]. }
    destruct (starts_with [backslash; nl] s) eqn:E2.
    { intros [= <-]. by apply starts_with_spec in E2 as [r ->]. }
    destruct (starts_with [backslash; cr] s) eqn:E3; [|done].
    intros [= <-]. by apply starts_with_spec in E3 as [r ->].
  - cbn [List.filter]. by rewrite IH.
Qed.

(** No continuation anywhere. *)
Definition continuation_free (s : text) : Prop :=
  ∀ i, s !! i = Some backslash → s !! S i ≠ Some nl ∧ s !! S i ≠ Some cr.

Lemma none_free s : (∀ i, continuation_length (drop i s) = None) → continuation_free s.
Proof.
  unfold continuation_free, text. intros H i Hi. specialize (H i).
  rewrite (drop_S _ _ _ Hi) in H.
  pose proof (lookup_drop s (S i) 0) as Hl. rewrite Nat.add_0_r in Hl.
  unfold continuation_length in H. destruct (drop (S i) s) as [|d rest] eqn:E; simpl in Hl.
  - by rewrite <- Hl.
  - rewrite <- Hl.
    rewrite !starts_with_cons, char_eqb_refl in H. cbn [andb] in H.
    change (starts_with [] rest) with true in H. rewrite !andb_true_r in H.
    split; intros [= ->]; rewrite char_eqb_refl in H; [|rewrite orb_true_r in H];
      by match type of H with (if ?b then _ else _) = _ => destruct b end.
Qed.

(** The loop with fuel beyond the length of the text. *)
Lemma collapse_loop_spec n s :
  length s < n →
  continuation_free (collapse_loop n s) ∧ collapse_loop n s `sublist_of` s ∧
  List.filter other_char (collapse_loop n s) = List.filter other_char s.
Proof.
  revert s. induction n as [|n IH]; intros s Hn; [lia|]. cbn [collapse_loop].
  pose proof (search_none _ _ match_continuation continuation_bounds s) as Hs.
  destruct (re_search continuation_pattern s) as [m|].
  - fold (remove_round s). pose proof (round_removed s) as Hr.
    destruct (removed_shorter _ continuation_bounds _ _ Hr) as [Heq|Hlt].
    + rewrite Heq in Hr. pose proof (removed_none _ continuation_bounds _ Hr) as Hnone.
      by apply Hs in Hnone.
    + destruct (IH (remove_round s)) as (H1 & H2 & H3); [lia|]. split_and!; [done| |].
      * etrans; [exact H2|]. by apply (removed_sublist continuation_length).
      * rewrite H3. by apply removed_others.
  - split_and!; [by apply none_free, Hs|done|done].
Qed.

Lemma collapse_fuel n m s :
  length s < n → length s < m → collapse_loop n s = collapse_loop m s.
Proof.
  revert m s. induction n as [|n IH]; intros m s Hn Hm; [lia|]. destruct m as [|m]; [lia|].
  cbn [collapse_loop]. pose proof (search_none _ _ match_continuation continuation_bounds s) as Hs.
  destruct (re_search continuation_pattern s) as [x|]; [|done].
  fold (remove_round s). pose proof (round_removed s) as Hr.
  destruct (removed_shorter _ continuation_bounds _ _ Hr) as [Heq|Hlt]; [|apply IH; lia].
  rewrite Heq in Hr. pose proof (removed_none _ continuation_bounds _ Hr) as Hnone.
  by apply Hs in Hnone.
Qed.

(** C28: the loop of [collapse_c_line_continuations] ends: with any number of rounds beyond
    the length of the text it gives the same result, a subsequence of the text in which no
    backslash stands before a line end, and in which every character but backslashes and
    line ends is kept, in order. *)
Theorem collapse_terminates s :
  let t := collapse_c_line_continuations s in
  (∀ n, length s < n → collapse_loop n s = t) ∧
  continuation_free t ∧ t `sublist_of` s ∧
  List.filter other_char t = List.filter other_char s.
Proof.
  cbv zeta. split; [intros n Hn; apply collapse_fuel; lia|]. apply collapse_loop_spec. lia.
Qed.
