(* ===== verification/CPreproc.v ===== *)
(** * Preprocessor conditionals (install.py, [preprocessor_integer_truth],
    [mask_c_definitely_inactive], [mask_c_live_code], [mask_c_injection_context])

    A conditional whose controlling expression is an integer literal under parentheses and
    negations has a known truth; the lines of branches that cannot be compiled under any
    valuation of the other conditions are blanked. *)

From Stdlib Require Import Ascii.
From stdpp Require Import base list strings.
From S2P Require Import Prelude PyText PyRegex PyResult CLexer.

(** ** [preprocessor_integer_truth] *)

(** [int(literal, base)] on a text of digits *)
Definition digit_value (c : ascii) : Z :=
  let n := Z.of_N (code c) in
  if in_range 97 122 c then n - 87 else if in_range 65 90 c then n - 55 else n - 48.

Definition int_of_digits (base : Z) (ds : text) : Z :=
  foldl (λ acc c, acc * base + digit_value c)%Z 0%Z ds.

(** The loop over the characters of a candidate that starts and ends with a parenthesis:
    [None] where the code returns [None], otherwise the final depth and whether the outer
    pair wraps the whole expression. *)
Fixpoint paren_scan (cs : text) (depth : Z) : option (Z * bool) :=
  match cs with
  | [] => Some (depth, true)
  | c :: cs' =>
      if char_eqb c "(" then
        if (depth + 1 <? 0)%Z then None else paren_scan cs' (depth + 1)
      else if char_eqb c ")" then
        if (depth - 1 =? 0)%Z && match cs' with [] => false | _ => true end
        then Some ((depth - 1)%Z, false)
        else if (depth - 1 <? 0)%Z then None else paren_scan cs' (depth - 1)
      else if (depth <? 0)%Z then None else paren_scan cs' depth
  end.

(** The [while] loop that removes wrapping parentheses; every round shortens the
    candidate.  [None] is the early [return None]. *)
Fixpoint unwrap_parens (fuel : nat) (candidate : text) : option text :=
  match fuel with
  | O => Some candidate
  | S fuel' =>
      if starts_with (py "(") candidate && ends_with (py ")") candidate then
        match paren_scan candidate 0 with
        | None => None
        | Some (depth, wraps) =>
            if negb (depth =? 0)%Z || negb wraps then Some candidate
            else unwrap_parens fuel' (strip (slice candidate 1 (length candidate - 1)))
        end
      else Some candidate
  end.

Definition hex_digit_set : regex :=
  RSet (λ c, is_digit c || in_range 65 70 c || in_range 97 102 c).

Definition integer_pattern : regex :=
  seqs [RGroup 1 (opt (any_of (py "+-")));
        RGroup 2 (alts [seqs [lit (py "0"); any_of (py "xX"); plus hex_digit_set];
                        seqs [lit (py "0"); any_of (py "bB"); plus (RSet (in_range 48 49))];
                        RSeq (lit (py "0")) (star (RSet (in_range 48 55)));
                        RSeq (RSet (in_range 49 57)) (star digit)]);
        star (any_of (py "uUlL"))].

(** The value of the literal the pattern captured. *)
Definition literal_value (literal : text) : Z :=
  if starts_with (py "0x") (lower literal) then int_of_digits 16 (drop 2 literal)
  else if starts_with (py "0b") (lower literal) then int_of_digits 2 (drop 2 literal)
  else if (1 <? length literal) && starts_with (py "0") literal
  then int_of_digits 8 literal
  else int_of_digits 10 literal.

Fixpoint integer_truth (fuel : nat) (expression : text) : option bool :=
  match fuel with
  | O => None
  | S fuel' =>
      match unwrap_parens (S (length expression)) (strip expression) with
      | None => None
      | Some candidate =>
          if starts_with (py "!") candidate then
            negb <$> integer_truth fuel' (drop 1 candidate)
          else
            match re_fullmatch integer_pattern candidate with
            | None => None
            | Some m =>
                match group candidate m 1, group candidate m 2 with
                | Some sign, Some literal =>
                    let value := literal_value literal in
                    let value := if starts_with (py "-") sign then (- value)%Z else value in
                    Some (negb (value =? 0)%Z)
                | _, _ => None
                end
            end
      end
  end.

(** Each recursive call drops a negation sign, so the length of the expression bounds the
    recursion. *)
Definition preprocessor_integer_truth (expression : text) : option bool :=
  integer_truth (S (length expression)) expression.

(** ** [mask_c_definitely_inactive] *)

Inductive directive := DIf | DIfdef | DIfndef | DElif | DElse | DEndif.

Definition directive_names : list (text * directive) :=
  [(py "if", DIf); (py "ifdef", DIfdef); (py "ifndef", DIfndef);
   (py "elif", DElif); (py "else", DElse); (py "endif", DEndif)].

Definition directive_pattern : regex :=
  seqs [RBol; blanks; lit (py "#"); blanks;
        RGroup 1 (alts (map (λ nd, lit nd.1) directive_names)); RWordB;
        RGroup 2 (star dot); REol false].

Definition directive_of_name (name : text) : option directive :=
  match List.find (λ nd, text_eqb nd.1 name) directive_names with
  | Some nd => Some nd.2
  | None => None
  end.

(** The directive of a line of the lexical text, with its stripped expression. *)
Definition line_directive (line : text) : option (directive * text) :=
  match re_match directive_pattern line with
  | Some m =>
      match group line m 1, group line m 2 with
      | Some name, Some expression =>
          match directive_of_name name with
          | Some d => Some (d, strip expression)
          | None => None
          end
      | _, _ => None
      end
  | None => None
  end.

(** The truth of the condition a directive introduces. *)
Definition directive_truth (d : directive) (expression : text) : option bool :=
  match d with
  | DIf | DElif => preprocessor_integer_truth expression
  | _ => None
  end.

(** The loop's state: the stack of (parent possible, a branch was definitely taken), and
    whether the current line may be compiled. *)
Record cpp_state := CppState { cpp_stack : list (bool * bool); cpp_possible : bool }.

Definition is_Some_bool (b : bool) (o : option bool) : bool :=
  match o with Some b' => Bool.eqb b b' | None => false end.

(** The state after a directive, or the message of the error it raises. *)
Definition cpp_directive (d : directive) (truth : option bool) (st : cpp_state)
    : result cpp_state :=
  match d with
  | DIf | DIfdef | DIfndef =>
      let parent_possible := cpp_possible st in
      Ok (CppState ((parent_possible, is_Some_bool true truth) :: cpp_stack st)
                   (parent_possible && negb (is_Some_bool false truth)))
  | DElif =>
      match cpp_stack st with
      | [] => install_error (py "unmatched #elif in C source")
      | (parent_possible, definitely_taken) :: rest =>
          let branch_possible := negb definitely_taken && negb (is_Some_bool false truth) in
          let taken := definitely_taken || is_Some_bool true truth in
          Ok (CppState ((parent_possible, taken) :: rest)
                       (parent_possible && branch_possible))
      end
  | DElse =>
      match cpp_stack st with
      | [] => install_error (py "unmatched #else in C source")
      | (parent_possible, definitely_taken) :: rest =>
          Ok (CppState ((parent_possible, true) :: rest)
                       (parent_possible && negb definitely_taken))
      end
  | DEndif =>
      match cpp_stack st with
      | [] => install_error (py "unmatched #endif in C source")
      | (parent_possible, _) :: rest => Ok (CppState rest parent_possible)
      end
  end.

(** One iteration of the loop: the new state and the line as it is output. *)
Definition cpp_line (raw_line lexical_line : text) (st : cpp_state)
    : result (cpp_state * text) :=
  match line_directive lexical_line with
  | Some (d, expression) =>
      match cpp_directive d (directive_truth d expression) st with
      | Ok st' =>
          let line_possible :=
            cpp_possible st' || match d with DEndif => true | _ => false end in
          Ok (st', if line_possible then raw_line else masked_lexeme raw_line)
      | Err e => Err e
      end
  | None => Ok (st, if cpp_possible st then raw_line else masked_lexeme raw_line)
  end.

Fixpoint cpp_lines (lines : list (text * text)) (st : cpp_state)
    : result (cpp_state * list text) :=
  match lines with
  | [] => Ok (st, [])
  | (raw_line, lexical_line) :: rest =>
      match cpp_line raw_line lexical_line st with
      | Err e => Err e
      | Ok (st', out) =>
          match cpp_lines rest st' with
          | Err e => Err e
          | Ok (st'', outs) => Ok (st'', out :: outs)
          end
      end
  end.

Definition cpp_init : cpp_state := CppState [] true.

Definition mask_c_definitely_inactive (s : text) : result text :=
  let lexical := mask_c_comments_and_literals s in
  match cpp_lines (zip (splitlines_keep s) (splitlines_keep lexical)) cpp_init with
  | Err e => Err e
  | Ok (st, output) =>
      match cpp_stack st with
      | [] => Ok (concat output)
      | _ => install_error (py "unterminated preprocessor conditional in C source")
      end
  end.

(** [mask_c_live_code(text, literals=...)] *)
Definition mask_c_live_code (literals : bool) (s : text) : result text :=
  match mask_c_definitely_inactive s with
  | Err e => Err e
  | Ok active =>
      Ok (if literals then mask_c_comments_and_literals active else mask_c_comments active)
  end.

(** Comments are blanked except the ones that are exactly the marker. *)
Definition mask_c_injection_context (s marker : text) : result text :=
  match mask_c_definitely_inactive s with
  | Err e => Err e
  | Ok active =>
      Ok (re_sub c_lexeme_pattern
            (λ token,
               if is_comment token then
                 if text_eqb (strip token) (py "/* " ++ marker ++ py " */")
                    || text_eqb (strip token) (py "// " ++ marker)
                 then token else masked_lexeme token
               else token) active)
  end.

(** ** Exceptions: the functions of this file raise [InstallError] only *)

Lemma no_os_cpp_directive d truth st : no_os (cpp_directive d truth st).
Proof. unfold cpp_directive. no_os. Qed.
#[export] Hint Resolve no_os_cpp_directive : no_os.

Lemma no_os_cpp_line raw lex st : no_os (cpp_line raw lex st).
Proof. unfold cpp_line. no_os. Qed.
#[export] Hint Resolve no_os_cpp_line : no_os.

Lemma no_os_cpp_lines lines st : no_os (cpp_lines lines st).
Proof. revert st. induction lines as [|[raw lex] lines IH]; intros st; simpl; no_os. Qed.
#[export] Hint Resolve no_os_cpp_lines : no_os.

Lemma no_os_mask_c_definitely_inactive s : no_os (mask_c_definitely_inactive s).
Proof. unfold mask_c_definitely_inactive. no_os. Qed.
#[export] Hint Resolve no_os_mask_c_definitely_inactive : no_os.

Lemma no_os_mask_c_live_code literals s : no_os (mask_c_live_code literals s).
Proof. unfold mask_c_live_code. no_os. Qed.

Lemma no_os_mask_c_injection_context s marker : no_os (mask_c_injection_context s marker).
Proof. unfold mask_c_injection_context. no_os. Qed.
#[export] Hint Resolve no_os_mask_c_live_code no_os_mask_c_injection_context : no_os.
