(* ===== verification/TruthFacts.v ===== *)
(** * Constant conditions

    The conditions whose truth [preprocessor_integer_truth] knows are those of a small
    grammar: integer constants of C under negations and parentheses.  The function decides
    the grammar and computes the truth it assigns. *)

From Stdlib Require Import Ascii.
From stdpp Require Import base list strings sets.
From S2P Require Import Prelude PyText Strip PyRegex RegexFacts PyResult CLexer CPreproc.

(** ** The grammar *)

Definition is_hex (c : ascii) : bool := is_digit c || in_range 65 70 c || in_range 97 102 c.
Definition is_octal : ascii → bool := in_range 48 55.
Definition is_binary : ascii → bool := in_range 48 49.
Definition is_suffix (c : ascii) : bool := existsb (char_eqb c) (py "uUlL").
Definition is_sign (c : ascii) : bool := existsb (char_eqb c) (py "+-").

Abbreviation every f := (Forall (λ c, f c = true)).

(** An integer literal of C and its value. *)
Inductive int_literal : text → Z → Prop :=
  | lit_hex x ds : x ∈ py "xX" → ds ≠ [] → every is_hex ds →
      int_literal ("0"%char :: x :: ds) (int_of_digits 16 ds)
  | lit_binary x ds : x ∈ py "bB" → ds ≠ [] → every is_binary ds →
      int_literal ("0"%char :: x :: ds) (int_of_digits 2 ds)
  | lit_octal ds : every is_octal ds → int_literal ("0"%char :: ds) (int_of_digits 8 ds)
  | lit_decimal d ds : in_range 49 57 d = true → every is_digit ds →
      int_literal (d :: ds) (int_of_digits 10 (d :: ds)).

(** A constant condition and its truth. *)
Inductive constant : text → bool → Prop :=
  | const_literal sign ds v suffix :
      (sign = [] ∨ ∃ c, sign = [c] ∧ is_sign c = true) → int_literal ds v →
      every is_suffix suffix → constant (sign ++ ds ++ suffix) (negb (v =? 0)%Z)
  | const_paren e b : constant e b → constant (py "(" ++ e ++ py ")") b
  | const_not e b : constant e b → constant (py "!" ++ e) (negb b)
  | const_space u e v b : all_space u → all_space v → constant e b → constant (u ++ e ++ v) b.

(** ** The literal pattern *)

Lemma any_of_spec t c g c' g' :
  matches (any_of t) c g c' g' ↔ g' = g ∧ ∃ d, d ∈ t ∧ reads c [d] c'.
Proof.
  unfold any_of. rewrite matches_set.
  assert (∀ d, existsb (char_eqb d) t = true ↔ d ∈ t) as H.
  { intros d. rewrite existsb_exists. split.
    - intros (x & Hx & He). apply char_eqb_eq in He as ->. by apply list_elem_of_In.
    - intros Hd. exists d. split; [by apply list_elem_of_In|apply char_eqb_refl]. }
  by setoid_rewrite H.
Qed.

Abbreviation literal_pattern :=
  (alts [seqs [lit (py "0"); any_of (py "xX"); plus hex_digit_set];
         seqs [lit (py "0"); any_of (py "bB"); plus (RSet (in_range 48 49))];
         RSeq (lit (py "0")) (star (RSet (in_range 48 55)));
         RSeq (RSet (in_range 49 57)) (star digit)]).

(** One prefixed form: the mark, then at least one digit. *)
Lemma prefixed_matches t f c g c' g' :
  matches (seqs [lit (py "0"); any_of t; plus (RSet f)]) c g c' g' ↔
  g' = g ∧ ∃ x ds, x ∈ t ∧ ds ≠ [] ∧ every f ds ∧ reads c ("0"%char :: x :: ds) c'.
Proof.
  unfold seqs. cbn [foldr]. split.
  - intros (c1 & g1 & [-> H1]%matches_lit & Hm)%matches_seq.
    apply matches_seq in Hm as (c2 & g2 & (-> & x & Hx & H2)%any_of_spec & Hm).
    apply matches_seq in Hm as (c3 & g3 & (-> & ds & Hd & Hf & H3)%matches_plus_set & Hm).
    apply matches_eps in Hm as [-> ->].
    split; [done|]. exists x, ds. split_and!; [done..|].
    change ("0"%char :: x :: ds) with (py "0" ++ [x] ++ ds).
    eapply reads_trans; [exact H1|]. by eapply reads_trans.
  - intros (-> & x & ds & Hx & Hd & Hf & H).
    change ("0"%char :: x :: ds) with (py "0" ++ [x] ++ ds) in H.
    apply reads_app in H as (c1 & H1 & (c2 & H2 & H3)%reads_app).
    apply matches_seq. exists c1, g. split; [by apply matches_lit|].
    apply matches_seq. exists c2, g. split; [apply any_of_spec; eauto|].
    apply matches_seq. exists c', g. split; [apply matches_plus_set; eauto 6|].
    by apply matches_eps.
Qed.

Lemma literal_matches c g c' g' :
  matches literal_pattern c g c' g' ↔ g' = g ∧ ∃ ds v, int_literal ds v ∧ reads c ds c'.
Proof.
  change hex_digit_set with (RSet is_hex). cbn [alts]. unfold star, digit.
  rewrite !matches_alt, !prefixed_matches, !matches_seq. split.
  - intros [(-> & x & ds & Hx & Hd & Hf & H)|[(-> & x & ds & Hx & Hd & Hf & H)|
      [(c1 & g1 & [-> H1]%matches_lit & (-> & ds & Hf & H)%matches_star_set)
      |(c1 & g1 & (-> & d & Hd & H1)%matches_set & (-> & ds & Hf & H)%matches_star_set)]]];
      (split; [done|]).
    + do 2 eexists. split; [by apply lit_hex|done].
    + do 2 eexists. split; [by apply lit_binary|done].
    + do 2 eexists. split; [by apply (lit_octal ds)|].
      change ("0"%char :: ds) with (py "0" ++ ds). by eapply reads_trans.
    + do 2 eexists. split; [by apply (lit_decimal d ds)|].
      change (d :: ds) with ([d] ++ ds). by eapply reads_trans.
  - intros (-> & ds & v & Hl & H). destruct Hl as [x ds|x ds|ds|d ds].
    + left. eauto 8.
    + right. left. eauto 8.
    + do 2 right. left. change ("0"%char :: ds) with (py "0" ++ ds) in H.
      apply reads_app in H as (c1 & Hr1 & Hr2). exists c1, g.
      split; [by apply matches_lit|apply matches_star_set; eauto].
    + do 3 right. change (d :: ds) with ([d] ++ ds) in H.
      apply reads_app in H as (c1 & Hr1 & Hr2). exists c1, g.
      split; [apply matches_set; eauto|apply matches_star_set; eauto].
Qed.

(** A text with the three parts of an integer constant. *)
Definition parts (candidate sign ds suffix : text) (v : Z) : Prop :=
  candidate = sign ++ ds ++ suffix ∧ (sign = [] ∨ ∃ c, sign = [c] ∧ is_sign c = true) ∧
  int_literal ds v ∧ every is_suffix suffix.

Lemma matches_sign c g c' g' :
  matches (opt (any_of (py "+-"))) c g c' g' ↔
  g' = g ∧ ∃ sign, (sign = [] ∨ ∃ d, sign = [d] ∧ is_sign d = true) ∧ reads c sign c'.
Proof.
  unfold opt. rewrite matches_alt, matches_eps. unfold any_of. rewrite matches_set. split.
  - intros [(-> & d & Hd & H)|[-> ->]]; (split; [done|]); [eauto 6|].
    exists []. split; [by left|by apply reads_nil].
  - intros (-> & sign & [->|(d & -> & Hd)] & H); [right|left; eauto].
    by apply reads_nil in H as ->.
Qed.

Lemma slice_mid (a b c : text) i j :
  i = length a → j = length a + length b → slice (a ++ b ++ c) i j = b.
Proof. intros -> ->. apply slice_app_mid. Qed.

Lemma integer_sound candidate m :
  re_fullmatch integer_pattern candidate = Some m →
  ∃ sign ds suffix v, parts candidate sign ds suffix v ∧
    group candidate m 1 = Some sign ∧ group candidate m 2 = Some ds.
Proof.
  intros Hm%fullmatch_sound. unfold integer_pattern, seqs in Hm. cbn [foldr] in Hm.
  apply matches_seq in Hm as (c1 & g1 & (h1 & (-> & sign & Hsign & H1)%matches_sign & ->)%matches_group & Hm).
  apply matches_seq in Hm as (c2 & g2 & (h2 & (-> & ds & v & Hl & H2)%literal_matches & ->)%matches_group & Hm).
  apply matches_seq in Hm as (c3 & g3 & (Hg3 & suffix & Hs & H3)%matches_star_set & [Hc4 Hg4]%matches_eps).
  subst c3 g3.
  assert (candidate = sign ++ ds ++ suffix) as Hc.
  { destruct H1 as [E1 _], H2 as [E2 _], H3 as [E3 _]. cbn [cursor_start c_rest] in *.
    rewrite E1, E2, E3. cbn [line_end c_rest]. by rewrite app_nil_r. }
  destruct H1 as (_ & P1 & _), H2 as (_ & P2 & _). cbn [cursor_start c_pos] in P1.
  exists sign, ds, suffix, v. split; [by split_and!|].
  unfold group. rewrite Hg4. cbn [lookup_group Nat.eqb]. rewrite Hc. split; f_equal.
  - apply (slice_mid [] sign (ds ++ suffix)); simpl; lia.
  - apply slice_mid; lia.
Qed.

Lemma integer_complete candidate sign ds suffix v :
  parts candidate sign ds suffix v → is_Some (re_fullmatch integer_pattern candidate).
Proof.
  intros (-> & Hsign & Hl & Hs).
  pose proof (reads_whole (sign ++ ds ++ suffix)) as H.
  apply reads_app in H as (c1 & H1 & (c2 & H2 & H3)%reads_app).
  eapply fullmatch_complete. unfold integer_pattern, seqs. cbn [foldr].
  apply matches_seq. do 2 eexists. split.
  { apply matches_group. eexists. split; [|done]. apply matches_sign. eauto. }
  apply matches_seq. do 2 eexists. split.
  { apply matches_group. eexists. split; [|done]. apply literal_matches. eauto. }
  apply matches_seq. do 2 eexists. split; [|by apply matches_eps].
  apply matches_star_set. eauto.
Qed.

(** ** The value, and unique decomposition *)

(** Decides a property of one character by trying them all. *)
Ltac all_chars c := destruct c as [[] [] [] [] [] [] [] []]; vm_compute; (done || congruence).

Lemma octal_plain c : is_octal c = true →
  char_eqb "x" (lower_char c) = false ∧ char_eqb "b" (lower_char c) = false.
Proof. all_chars c. Qed.

Lemma decimal_plain c : in_range 49 57 c = true →
  char_eqb "0" (lower_char c) = false ∧ char_eqb "0" c = false.
Proof. all_chars c. Qed.

Lemma literal_value_spec ds v : int_literal ds v → literal_value ds = v.
Proof.
  unfold literal_value. intros [x ds' Hx Hd Hf|x ds' Hx Hd Hf|ds' Hf|d ds' Hd Hf].
  - apply list_elem_of_In in Hx. destruct Hx as [<-|[<-|[]]]; done.
  - apply list_elem_of_In in Hx. destruct Hx as [<-|[<-|[]]]; done.
  - destruct ds' as [|c ds']; [done|]. apply Forall_cons in Hf as [Hc _].
    apply octal_plain in Hc as [Hx Hb].
    change (lower ("0"%char :: c :: ds')) with ("0"%char :: lower_char c :: lower ds').
    assert (∀ x t, starts_with ["0"%char; x] ("0"%char :: lower_char c :: t)
                   = char_eqb x (lower_char c)) as Hs
      by (intros x t; cbn [starts_with]; by rewrite char_eqb_refl, andb_true_r).
    change (py "0x") with ["0"%char; "x"%char]. change (py "0b") with ["0"%char; "b"%char].
    by rewrite !Hs, Hx, Hb.
  - apply decimal_plain in Hd as [H1 H2].
    assert (∀ t, starts_with ("0"%char :: t) (lower (d :: ds')) = false) as H
      by (intros t; cbn [lower map starts_with]; by rewrite H1).
    assert (starts_with (py "0") (d :: ds') = false) as -> by (change (py "0") with ["0"%char]; cbn [starts_with]; by rewrite H2).
    change (py "0x") with ["0"%char; "x"%char]. change (py "0b") with ["0"%char; "b"%char].
    by rewrite !H, andb_false_r.
Qed.

Lemma literal_head ds v :
  int_literal ds v → ∃ c ds', ds = c :: ds' ∧ is_digit c = true.
Proof.
  intros [x ds' _ _ _|x ds' _ _ _|ds' _|d ds' Hd _]; do 2 eexists; (split; [done|]); try done.
  revert Hd. all_chars d.
Qed.

Definition is_paren (c : ascii) : bool := char_eqb c "(" || char_eqb c ")".

(** A character of a literal is no suffix, no parenthesis and no white space. *)
Definition plain_char (c : ascii) : bool :=
  negb (is_suffix c) && negb (is_paren c) && negb (is_space c).

Lemma literal_plain ds v : int_literal ds v → every plain_char ds.
Proof.
  assert (∀ c, is_hex c || is_octal c || is_binary c || is_digit c || in_range 49 57 c = true →
            plain_char c = true) as Hp by (intros c; all_chars c).
  assert (∀ (f : ascii → bool) ds, every f ds →
            (∀ c, f c = true → plain_char c = true) → every plain_char ds) as Hall.
  { intros f t Ht Hf. eapply Forall_impl; [exact Ht|exact Hf]. }
  intros [x ds' Hx _ Hf|x ds' Hx _ Hf|ds' Hf|d ds' Hd Hf].
  1, 2: apply list_elem_of_In in Hx; destruct Hx as [<-|[<-|[]]].
  all: repeat (apply Forall_cons; split;
               [first [reflexivity | apply Hp; rewrite Hd; by rewrite !orb_true_r]|]).
  all: eapply Hall; [exact Hf|]; intros c Hc; apply Hp; rewrite Hc; by rewrite ?orb_true_r.
Qed.

Lemma plain_elim c :
  plain_char c = true → is_suffix c = false ∧ is_paren c = false ∧ is_space c = false.
Proof. unfold plain_char. intros H. bool_hyps. done. Qed.

Lemma literal_chars ds v : int_literal ds v → Forall (λ c, is_suffix c = false) ds.
Proof.
  intros H%literal_plain. eapply Forall_impl; [exact H|]. by intros c [? _]%plain_elim.
Qed.

Lemma split_unique (f : ascii → bool) a b a' b' :
  Forall (λ c, f c = false) a → Forall (λ c, f c = true) b →
  Forall (λ c, f c = false) a' → Forall (λ c, f c = true) b' →
  a ++ b = a' ++ b' → a = a'.
Proof.
  intros Ha Hb. revert a'. induction Ha as [|c a Hc Ha IH]; intros [|c' a'] Ha' Hb' H.
  - done.
  - apply Forall_cons in Ha' as [Hc' _]. simpl in H. subst b.
    apply Forall_cons in Hb as [? _]. congruence.
  - simpl in H. subst b'. apply Forall_cons in Hb' as [? _]. congruence.
  - injection H as -> H. apply Forall_cons in Ha' as [_ Ha']. f_equal. by apply IH.
Qed.

Lemma parts_unique c s d x v s' d' x' v' :
  parts c s d x v → parts c s' d' x' v' → s = s' ∧ v = v'.
Proof.
  intros (-> & Hs & Hd & Hx) (H & Hs' & Hd' & Hx').
  assert (∀ c, is_sign c = true → is_digit c = true → False) as Hne by (intros k; all_chars k).
  pose proof (literal_head _ _ Hd) as (h & t & -> & Hh).
  pose proof (literal_head _ _ Hd') as (h' & t' & -> & Hh').
  assert (s = s') as <-.
  { destruct Hs as [->|(k & -> & Hk)], Hs' as [->|(k' & -> & Hk')]; [done|..];
      simpl in H; injection H; intros; subst; try done; exfalso; eauto. }
  split; [done|]. apply app_inv_head in H.
  assert (h :: t = h' :: t') as Heq.
  { apply (split_unique is_suffix _ x _ x'); [by eapply literal_chars|exact Hx
    |by eapply literal_chars|exact Hx'|exact H]. }
  rewrite <- (literal_value_spec _ _ Hd), <- (literal_value_spec _ _ Hd'). by rewrite Heq.
Qed.

(** ** Unwrapping *)

Lemma paren_scan_skip t rest d :
  Forall (λ c, is_paren c = false) t → (0 ≤ d)%Z → paren_scan (t ++ rest) d = paren_scan rest d.
Proof.
  intros Ht Hd. induction Ht as [|c t Hc _ IH]; [done|]. cbn [app paren_scan].
  unfold is_paren in Hc. apply orb_false_iff in Hc as [-> ->].
  by rewrite (proj2 (Z.ltb_ge d 0)).
Qed.

(** An integer constant has neither parentheses nor white space. *)
Lemma parts_plain c s d x v :
  parts c s d x v → Forall (λ k, is_paren k = false ∧ is_space k = false) c.
Proof.
  intros (-> & Hs & Hd & Hx).
  assert (∀ k, is_sign k || is_suffix k = true → is_paren k = false ∧ is_space k = false) as Hk
    by (intros k; all_chars k).
  rewrite !Forall_app. split_and!.
  - destruct Hs as [->|(k & -> & Hs)]; repeat constructor; apply Hk; by rewrite Hs.
  - eapply Forall_impl; [by eapply literal_plain|]. by intros k (_ & ? & ?)%plain_elim.
  - eapply Forall_impl; [exact Hx|]. intros k Hs'. apply Hk. by rewrite Hs', orb_true_r.
Qed.

Lemma scan_constant e b :
  constant e b → ∀ rest d, (1 ≤ d)%Z → rest ≠ [] → paren_scan (e ++ rest) d = paren_scan rest d.
Proof.
  induction 1 as [s d v x Hs Hd Hx|e b H IH|e b H IH|u e v b Hu Hv H IH]; intros rest k Hk Hr.
  - apply paren_scan_skip; [|lia]. eapply Forall_impl; [by eapply (parts_plain _ s d x v)|].
    by intros c [? _].
  - rewrite <- !app_assoc. change (py "(") with ["("%char]. change (py ")") with [")"%char].
    cbn [app paren_scan]. rewrite char_eqb_refl, (proj2 (Z.ltb_ge (k + 1) 0)) by lia.
    rewrite IH by (done || lia). cbn [paren_scan]. rewrite char_eqb_refl.
    change (char_eqb ")" "(") with false. cbn iota.
    rewrite (proj2 (Z.eqb_neq (k + 1 - 1) 0)) by lia. cbn [andb].
    rewrite (proj2 (Z.ltb_ge (k + 1 - 1) 0)) by lia. by replace (k + 1 - 1)%Z with k by lia.
  - rewrite <- app_assoc. change (py "!") with ["!"%char]. cbn [app paren_scan].
    change (char_eqb "!" "(") with false. change (char_eqb "!" ")") with false. cbn iota.
    rewrite (proj2 (Z.ltb_ge k 0)) by lia. by apply IH.
  - assert (∀ t, all_space t → Forall (λ c, is_paren c = false) t) as Hsp.
    { intros t Ht. eapply Forall_impl; [exact Ht|]. intros c. all_chars c. }
    rewrite <- !app_assoc, paren_scan_skip by (auto || lia). rewrite IH; [|lia|by destruct v].
    apply paren_scan_skip; [by apply Hsp|lia].
Qed.

Lemma length_unwrapped c :
  starts_with (py "(") c = true → length (strip (slice c 1 (length c - 1))) < length c.
Proof.
  intros Hs. pose proof (length_strip (slice c 1 (length c - 1))) as H.
  unfold slice in *. rewrite length_take, length_drop in H. destruct c; [done|]. simpl in *. lia.
Qed.

Lemma unwrap_fuel n m c :
  length c < n → length c < m → unwrap_parens n c = unwrap_parens m c.
Proof.
  revert m c. induction n as [|n IH]; intros m c Hn Hm; [lia|]. destruct m as [|m]; [lia|].
  cbn [unwrap_parens]. destruct (starts_with (py "(") c) eqn:Es; [|done].
  pose proof (length_unwrapped c Es). cbn [andb]. destruct (ends_with _ c); [|done].
  destruct (paren_scan c 0) as [[d wraps]|]; [|done]. destruct (_ || _); [done|].
  apply IH; lia.
Qed.

(** The candidate that the loop leaves of an expression. *)
Definition unwrapped (e : text) : option text := unwrap_parens (S (length e)) (strip e).

Lemma unwrapped_strip e e' : strip e = strip e' → unwrapped e = unwrapped e'.
Proof.
  intros H. unfold unwrapped. rewrite H. pose proof (length_strip e). pose proof (length_strip e').
  rewrite <- H. apply unwrap_fuel; [lia|]. rewrite H. lia.
Qed.

Lemma wrapped_ends e : ends_with (py ")") (("("%char :: e) ++ [")"%char]) = true.
Proof. unfold ends_with. by rewrite rev_app_distr. Qed.

(** One round of the loop, where the outer pair wraps the candidate. *)
Lemma unwrap_step n c :
  starts_with (py "(") c = true → ends_with (py ")") c = true → paren_scan c 0 = Some (0%Z, true) →
  unwrap_parens (S n) c = unwrap_parens n (strip (slice c 1 (length c - 1))).
Proof. intros H1 H2 H3. cbn [unwrap_parens]. by rewrite H1, H2, H3. Qed.

Lemma scan_wrapped e b :
  constant e b → paren_scan (["("%char] ++ e ++ [")"%char]) 0 = Some (0%Z, true).
Proof.
  intros He. cbn [app paren_scan]. rewrite char_eqb_refl.
  change (0 + 1 <? 0)%Z with false. cbn iota. by rewrite (scan_constant e b He).
Qed.

Lemma unwrapped_paren e b : constant e b → unwrapped (py "(" ++ e ++ py ")") = unwrapped e.
Proof.
  intros He. change (py "(") with ["("%char]. change (py ")") with [")"%char].
  assert (strip (["("%char] ++ e ++ [")"%char]) = ["("%char] ++ e ++ [")"%char]) as Hst.
  { unfold strip. cbn [app]. rewrite lstrip_id by done. by apply (rstrip_id ("("%char :: e)). }
  assert (length (["("%char] ++ e ++ [")"%char]) = S (S (length e))) as Hl
    by (rewrite !length_app; simpl; lia).
  unfold unwrapped at 1. rewrite Hst, Hl, unwrap_step.
  - rewrite (slice_mid ["("%char] e [")"%char]) by (simpl; rewrite ?length_app; simpl; lia).
    pose proof (length_strip e). apply unwrap_fuel; lia.
  - done.
  - apply (wrapped_ends e).
  - by apply (scan_wrapped e b).
Qed.

Lemma unwrapped_id c :
  starts_with (py "(") c = false → strip c = c → unwrapped c = Some c.
Proof. intros Hs Hc. unfold unwrapped. rewrite Hc. cbn [unwrap_parens]. by rewrite Hs. Qed.

(** Unwrapping removes spaces and parentheses, which keep the truth of a constant. *)
Lemma strip_constant c b : constant (strip c) b → constant c b.
Proof.
  destruct (strip_split c) as (u & v & Hc & Hu & Hv). intros H. rewrite Hc.
  by apply const_space.
Qed.

Lemma wrapped_split c :
  starts_with (py "(") c = true → ends_with (py ")") c = true →
  c = py "(" ++ slice c 1 (length c - 1) ++ py ")".
Proof.
  intros H1 H2. destruct c as [|a c]; [done|]. change (py "(") with ["("%char] in *.
  cbn [starts_with] in H1. rewrite andb_true_r in H1. apply char_eqb_eq in H1 as <-.
  destruct c as [|z c _] using rev_ind; [done|].
  change ("("%char :: c ++ [z]) with (("("%char :: c) ++ [z]) in H2.
  unfold ends_with in H2. rewrite rev_app_distr in H2.
  change (rev (py ")")) with [")"%char] in H2. cbn [rev app starts_with] in H2.
  rewrite andb_true_r in H2. apply char_eqb_eq in H2 as <-.
  change ("("%char :: c ++ [")"%char]) with (["("%char] ++ c ++ [")"%char]).
  rewrite (slice_mid ["("%char] c [")"%char]); [done|done|].
  rewrite !length_app. simpl. lia.
Qed.

Lemma unwrap_constant n c c' b :
  unwrap_parens n c = Some c' → constant c' b → constant c b.
Proof.
  revert c. induction n as [|n IH]; intros c; cbn [unwrap_parens]; [by intros [= ->]|].
  destruct (starts_with (py "(") c) eqn:Hs, (ends_with (py ")") c) eqn:He;
    cbn [andb]; try by intros [= ->].
  destruct (paren_scan c 0) as [[d w]|]; [|done]. destruct (_ || _); [by intros [= ->]|].
  intros Hu Hc. rewrite (wrapped_split c Hs He). apply const_paren, strip_constant. by eapply IH.
Qed.

(** ** The truth of a constant *)

Lemma integer_truth_strip n e e' : strip e = strip e' → integer_truth n e = integer_truth n e'.
Proof.
  destruct n as [|n]; [done|]. intros H%unwrapped_strip. cbn [integer_truth].
  fold (unwrapped e). fold (unwrapped e'). by rewrite H.
Qed.

(** A sign does not change whether a value is zero. *)
Lemma signed_zero (minus : bool) v :
  negb ((if minus then - v else v) =? 0)%Z = negb (v =? 0)%Z.
Proof. destruct minus; [|done]. destruct (Z.eqb_spec v 0), (Z.eqb_spec (- v) 0); lia || done. Qed.

Lemma integer_truth_parts n e c s d x v :
  unwrapped e = Some c → parts c s d x v → integer_truth (S n) e = Some (negb (v =? 0)%Z).
Proof.
  intros Hu Hp. cbn [integer_truth]. fold (unwrapped e). rewrite Hu.
  assert (starts_with (py "!") c = false) as ->.
  { destruct Hp as (-> & Hs & Hd & _). apply literal_head in Hd as (h & t & -> & Hh).
    destruct Hs as [->|(k & -> & Hk)]; [revert Hh; all_chars h|revert Hk; all_chars k]. }
  destruct (integer_complete _ _ _ _ _ Hp) as [m Hm]. rewrite Hm.
  apply integer_sound in Hm as (s' & d' & x' & v' & Hp' & -> & ->).
  destruct (parts_unique _ _ _ _ _ _ _ _ _ Hp Hp') as [<- <-].
  rewrite (literal_value_spec d' v) by apply Hp'. by rewrite signed_zero.
Qed.

Lemma parts_unwrapped c s d x v : parts c s d x v → unwrapped c = Some c.
Proof.
  intros H%parts_plain. apply unwrapped_id.
  - destruct H as [|k c [Hk _] _]; [done|]. change (py "(") with ["("%char]. cbn [starts_with].
    apply orb_false_iff in Hk as [Hk _]. rewrite char_eqb_neq in Hk.
    rewrite andb_true_r. by apply char_eqb_neq.
  - apply strip_plain. eapply Forall_impl; [exact H|]. by intros k [_ ?].
Qed.

Lemma integer_truth_complete e b :
  constant e b → ∀ n, length e < n → integer_truth n e = Some b.
Proof.
  induction 1 as [s d v x Hs Hd Hx|e b H IH|e b H IH|u e v b Hu Hv H IH]; intros n Hn.
  - destruct n as [|n]; [lia|]. assert (parts (s ++ d ++ x) s d x v) as Hp by by split_and!.
    eapply integer_truth_parts; [by eapply parts_unwrapped|exact Hp].
  - destruct n as [|n]; [lia|]. rewrite !length_app in Hn.
    rewrite <- (IH (S n)) by lia. cbn [integer_truth].
    fold (unwrapped (py "(" ++ e ++ py ")")). fold (unwrapped e).
    by rewrite (unwrapped_paren e b).
  - destruct n as [|n]; [lia|]. rewrite length_app in Hn. change (py "!") with ["!"%char] in *.
    assert (strip (["!"%char] ++ e) = "!"%char :: rstrip e) as Hst
      by (unfold strip; cbn [app]; by rewrite lstrip_id, rstrip_cons).
    rewrite (integer_truth_strip _ (["!"%char] ++ e) ("!"%char :: rstrip e)).
    2: { rewrite Hst. symmetry. rewrite <- Hst. apply strip_idemp. }
    cbn [integer_truth]. fold (unwrapped ("!"%char :: rstrip e)).
    rewrite unwrapped_id; [|done|rewrite <- Hst; apply strip_idemp].
    change (starts_with (py "!") ("!"%char :: rstrip e)) with true.
    cbn iota. change (drop 1 ("!"%char :: rstrip e)) with (rstrip e).
    rewrite (integer_truth_strip n (rstrip e) e) by apply strip_rstrip.
    rewrite IH; [done|simpl in Hn; lia].
  - rewrite !length_app in Hn. rewrite (integer_truth_strip n (u ++ e ++ v) e).
    + apply IH. lia.
    + by apply strip_skip.
Qed.

Lemma integer_truth_sound n e b : integer_truth n e = Some b → constant e b.
Proof.
  revert e b. induction n as [|n IH]; intros e b; [done|]. cbn [integer_truth].
  fold (unwrapped e). destruct (unwrapped e) as [c|] eqn:Hu; [|done]. intros H.
  apply strip_constant. eapply unwrap_constant; [exact Hu|].
  destruct (starts_with (py "!") c) eqn:Hs.
  - destruct (integer_truth n (drop 1 c)) as [b'|] eqn:Hi; [|done]. injection H as <-.
    apply IH in Hi. apply starts_with_spec in Hs as [c' ->].
    by apply const_not.
  - destruct (re_fullmatch integer_pattern c) as [m|] eqn:Hm; [|done].
    apply integer_sound in Hm as (s & d & x & v & Hp & Hg1 & Hg2). rewrite Hg1, Hg2 in H.
    injection H as <-. pose proof Hp as (-> & Hsg & Hd & Hx).
    rewrite (literal_value_spec d v Hd), signed_zero. by apply (const_literal s d v x).
Qed.

Lemma preprocessor_integer_truth_iff (expression : text) (b : bool) :
  preprocessor_integer_truth expression = Some b ↔ constant expression b.
Proof.
  unfold preprocessor_integer_truth.
  split; [apply integer_truth_sound|intros H; by apply integer_truth_complete, Nat.lt_succ_diag_r].
Qed.

(** C27: [preprocessor_integer_truth] answers on exactly the constant conditions of the
    grammar (integer literals of C in the four bases, signed, with suffixes, under
    negations, parentheses and white space), with the truth the grammar assigns, and on
    every other expression it answers that it does not know. *)
Theorem preprocessor_integer_truth_spec (expression : text) (b : bool) :
  preprocessor_integer_truth expression = Some b ↔ constant expression b.
Proof. apply preprocessor_integer_truth_iff. Qed.
