(* ===== verification/CppFacts.v ===== *)
(** * Masking: in place, and only what no compilation can reach

    The reference is a preprocessor that is told the truth of every condition; the code must
    keep each line that some consistent answers make active. *)

From Stdlib Require Import Ascii.
From stdpp Require Import base list strings sets.
From S2P Require Import Prelude PyText PyRegex PyResult CLexer CPreproc TruthFacts.

(** ** Masking in place *)

(** The text has no line boundary but the newline. *)
Definition plain_lines (s : text) : Prop := Forall (λ c, is_linebreak c = true → c = nl) s.

Definition plain_char (c : ascii) : bool := negb (is_linebreak c) || char_eqb c nl.

Lemma plain_lines_check s : forallb plain_char s = true → plain_lines s.
Proof.
  rewrite forallb_forall. intros H. apply Forall_forall. intros c Hc%list_elem_of_In Hb.
  specialize (H c Hc). unfold plain_char in H. rewrite Hb in H. simpl in H. by bool_hyps.
Qed.

Lemma masks_plain s m : masks s m → plain_lines s → plain_lines m.
Proof.
  unfold plain_lines, masks. induction 1 as [|c d s m Hcd _ IH]; intros Hp; [constructor|].
  apply Forall_cons in Hp as [Hc Hp]. constructor; [|auto].
  destruct Hcd as [->|[-> _]]; [done|]. done.
Qed.

Lemma splitlines_plain_cons c s :
  plain_lines (c :: s) →
  splitlines_keep (c :: s) =
  if char_eqb c nl then [c] :: splitlines_keep s
  else match splitlines_keep s with [] => [[c]] | l :: ls => (c :: l) :: ls end.
Proof.
  intros [Hc _]%Forall_cons. cbn [splitlines_keep].
  destruct (is_linebreak c) eqn:E; simpl.
  - by rewrite (Hc eq_refl).
  - destruct (char_eqb c nl) eqn:En; [|done]. bool_hyps. by subst c.
Qed.

(** The lines of a text and of a masked version of it correspond. *)
Lemma masks_lines s m :
  plain_lines s → masks s m → Forall2 masks (splitlines_keep s) (splitlines_keep m).
Proof.
  intros Hp H. pose proof (masks_plain _ _ H Hp) as Hpm. unfold masks in H. revert Hp Hpm.
  induction H as [|c d s m Hcd H IH]; intros Hp Hpm; [constructor|].
  rewrite !splitlines_plain_cons by done.
  apply Forall_cons in Hp as [_ Hp]. apply Forall_cons in Hpm as [_ Hpm].
  specialize (IH Hp Hpm).
  assert (char_eqb d nl = char_eqb c nl) as ->.
  { destruct Hcd as [->|[-> Hc]]; [done|]. by apply char_eqb_neq in Hc as ->. }
  destruct (char_eqb c nl).
  - constructor; [|done]. constructor; [done|constructor].
  - destruct IH as [|l l' ls ls' Hl Hls].
    + constructor; [|constructor]. constructor; [done|constructor].
    + constructor; [|done]. by constructor.
Qed.

Lemma cpp_line_masks raw lex st st' out : cpp_line raw lex st = Ok (st', out) → masks raw out.
Proof.
  unfold cpp_line. destruct (line_directive lex) as [[d e]|].
  - destruct (cpp_directive _ _ _) as [st1|]; [|done]. intros [= _ <-].
    destruct (_ || _); auto with masking.
  - intros [= _ <-]. destruct (cpp_possible st); auto with masking.
Qed.

Lemma cpp_lines_masks raws lexs st st' outs :
  length raws = length lexs → cpp_lines (zip raws lexs) st = Ok (st', outs) →
  Forall2 masks raws outs.
Proof.
  revert lexs st outs. induction raws as [|raw raws IH]; intros [|lex lexs] st outs; simpl;
    try done.
  { intros _ [= _ <-]. constructor. }
  intros [= Hl]. destruct (cpp_line raw lex st) as [[st1 out]|] eqn:E; [|done].
  destruct (cpp_lines _ st1) as [[st2 outs']|] eqn:E2; [|done]. intros [= -> <-].
  constructor; [by eapply cpp_line_masks|by eapply IH].
Qed.

Lemma masks_concat ls ms : Forall2 masks ls ms → masks (concat ls) (concat ms).
Proof. induction 1; simpl; [constructor|]. by apply Forall2_app. Qed.

Lemma inactive_masks s out :
  plain_lines s → mask_c_definitely_inactive s = Ok out → masks s out.
Proof.
  intros Hp. unfold mask_c_definitely_inactive.
  pose proof (masks_lines _ _ Hp (mask_c_comments_and_literals_masks s)) as Hl.
  apply Forall2_length in Hl.
  destruct (cpp_lines _ _) as [[st outs]|] eqn:E; [|done].
  destruct (cpp_stack st); [|done]. intros [= <-].
  rewrite <- (concat_splitlines_keep s) at 1. by eapply masks_concat, cpp_lines_masks.
Qed.

Lemma live_code_masks literals s m :
  plain_lines s → mask_c_live_code literals s = Ok m → masks s m.
Proof.
  intros Hp. unfold mask_c_live_code.
  destruct (mask_c_definitely_inactive s) as [active|] eqn:E; [|done]. intros [= <-].
  apply inactive_masks in E; [|done]. etrans; [exact E|].
  destruct literals; auto with masking.
Qed.

(** C25: on a text whose only line boundaries are newlines, masking dead code, comments and
    literals works in place: the result has the length of the text, every newline stays, and
    every other character is kept or blanked.  Offsets found in the masked text are offsets
    of the original, and what is not blank there is in the original. *)
Theorem mask_in_place literals s m :
  plain_lines s → mask_c_live_code literals s = Ok m →
  length m = length s ∧ (∀ i, s !! i = Some nl ↔ m !! i = Some nl) ∧
  (∀ i c, m !! i = Some c → c ≠ blank → s !! i = Some c).
Proof.
  intros Hp H%live_code_masks; [|done]. split_and!.
  - by apply masks_length.
  - intros i. by apply masks_nl.
  - intros i c. by apply masks_lookup.
Qed.

Lemma mask_in_place_witness :
  plain_lines (py "#if 0\na\n#endif\nb /* c */\n") ∧
  mask_c_live_code true (py "#if 0\na\n#endif\nb /* c */\n")
  = Ok (py "     \n \n#endif\nb        \n") ∧
  length (py "     \n \n#endif\nb        \n") = length (py "#if 0\na\n#endif\nb /* c */\n").
Proof.
  assert (plain_lines (py "#if 0\na\n#endif\nb /* c */\n")) as Hp
    by (apply plain_lines_check; vm_compute; reflexivity).
  assert (mask_c_live_code true (py "#if 0\na\n#endif\nb /* c */\n")
          = Ok (py "     \n \n#endif\nb        \n")) as Hm by (vm_compute; reflexivity).
  split; [exact Hp|]. split; [exact Hm|].
  exact (proj1 (mask_in_place true _ _ Hp Hm)).
Defined.

(** ** The reference preprocessor *)

(** The stack holds, for each open conditional, whether the code around it is active and
    whether one of its branches was taken. *)
Record ref_state := RefState { ref_stack : list (bool * bool); ref_active : bool }.

(** A directive, given the truth of its condition. *)
Definition ref_directive (d : directive) (condition : bool) (st : ref_state) : ref_state :=
  match d, ref_stack st with
  | (DIf | DIfdef | DIfndef), stack =>
      RefState ((ref_active st, condition) :: stack) (ref_active st && condition)
  | DElif, (outer, taken) :: rest =>
      RefState ((outer, taken || condition) :: rest) (outer && negb taken && condition)
  | DElse, (outer, taken) :: rest => RefState ((outer, true) :: rest) (outer && negb taken)
  | DEndif, (outer, _) :: rest => RefState rest outer
  | _, [] => st
  end.

(** The activity of every line under an oracle for the conditions. *)
Fixpoint ref_run (oracle : nat → bool) (k : nat) (lines : list text) (st : ref_state)
    : list bool :=
  match lines with
  | [] => []
  | line :: rest =>
      let st' := match line_directive line with
                 | Some (d, _) => ref_directive d (oracle k) st
                 | None => st
                 end in
      ref_active st' :: ref_run oracle (S k) rest st'
  end.

(** The directives whose condition is an expression. *)
Definition conditional_expression (d : directive) : Prop := d = DIf ∨ d = DElif.

(** The oracle gives the conditions that are constants their truth; the others, and whether
    a symbol is defined, are free. *)
Definition consistent (oracle : nat → bool) (k : nat) (lines : list text) : Prop :=
  ∀ j line d e b, lines !! j = Some line → line_directive line = Some (d, e) →
                  conditional_expression d → constant e b → oracle (k + j) = b.

Lemma directive_truth_constant d e b :
  directive_truth d e = Some b ↔ conditional_expression d ∧ constant e b.
Proof.
  rewrite <- preprocessor_integer_truth_iff. unfold conditional_expression.
  destruct d; simpl; (split; [intros H; auto; done|intros [[?|?] ?]; done]).
Qed.

Fixpoint consistent_check (oracle : nat → bool) (k : nat) (lines : list text) : bool :=
  match lines with
  | [] => true
  | line :: rest =>
      match line_directive line with
      | Some (d, e) => match directive_truth d e with
                       | Some b => Bool.eqb (oracle k) b
                       | None => true
                       end
      | None => true
      end && consistent_check oracle (S k) rest
  end.

Lemma consistent_check_sound oracle k lines :
  consistent_check oracle k lines = true → consistent oracle k lines.
Proof.
  revert k. induction lines as [|l lines IH]; intros k; [done|]. simpl.
  intros [Hl Hr]%andb_true_iff [|j] line d e b; simpl.
  - intros [= <-] Hd Hc Hb. rewrite Hd, (proj2 (directive_truth_constant d e b)) in Hl by done. apply Bool.eqb_prop in Hl.
    by rewrite Nat.add_0_r.
  - intros H1 H2 H3 H4. rewrite Nat.add_succ_r. exact (IH (S k) Hr j line d e b H1 H2 H3 H4).
Qed.

(** The state of the code is less certain than the reference's. *)
Definition frame_covers (pt : bool * bool) (ot : bool * bool) : Prop :=
  (ot.1 = true → pt.1 = true) ∧ (pt.2 = true → ot.1 = true → ot.2 = true).

Definition covers (st : cpp_state) (ref : ref_state) : Prop :=
  (ref_active ref = true → cpp_possible st = true) ∧
  Forall2 frame_covers (cpp_stack st) (ref_stack ref).

Lemma is_Some_bool_spec b o : is_Some_bool b o = true ↔ o = Some b.
Proof.
  destruct o as [b'|]; simpl; [|done]. rewrite eqb_true_iff. split; [by intros ->|by intros [= ->]].
Qed.

Lemma covers_directive d truth condition st st' ref :
  covers st ref → (∀ b, truth = Some b → condition = b) →
  cpp_directive d truth st = Ok st' → covers st' (ref_directive d condition ref).
Proof.
  intros [Ha Hs] Ht. destruct st as [stack poss], ref as [rstack act]. simpl in *.
  assert (is_Some_bool true truth = true → condition = true) as Htrue
    by (intros ?%is_Some_bool_spec; auto).
  assert (condition = true → is_Some_bool false truth = false) as Hfalse.
  { intros ->. apply not_true_is_false. intros Hf%is_Some_bool_spec. by apply Ht in Hf. }
  assert (∀ rest rrest outer,
    Forall2 frame_covers rest rrest → (outer = true → poss = true) →
    covers (CppState ((poss, is_Some_bool true truth) :: rest)
                     (poss && negb (is_Some_bool false truth)))
           (RefState ((outer, condition) :: rrest) (outer && condition))) as Hpush.
  { intros rest rrest outer Hr Ho. split; simpl.
    - intros [H1 H2]%andb_true_iff. rewrite Ho, Hfalse by done. done.
    - constructor; [|done]. split; simpl; [done|]. intros H _. auto. }
  destruct d; simpl; try (intros [= <-]; by apply Hpush).
  all: destruct Hs as [|[p t] [o u] rest rrest [Hp Hu] Hrest]; [done|]; simpl in *;
    intros [= <-].
  - split; simpl.
    + intros [[Ho Hnu]%andb_true_iff Hc]%andb_true_iff. rewrite Hp, Hfalse by done. simpl.
      rewrite andb_true_r. apply negb_true_iff in Hnu. destruct t; [|done].
      by rewrite Hu in Hnu.
    + constructor; [|done]. split; simpl; [done|].
      intros [Ht'|Ht']%orb_true_iff Ho; [by rewrite Hu|]. rewrite (Htrue Ht'). apply orb_true_r.
  - split; simpl.
    + intros [Ho Hnu]%andb_true_iff. rewrite Hp by done. simpl.
      apply negb_true_iff in Hnu. destruct t; [|done]. by rewrite Hu in Hnu.
    + constructor; [|done]. by split.
  - by split.
Qed.

Lemma cpp_lines_keep oracle raws lexs k st ref st' outs :
  covers st ref → consistent oracle k lexs → length raws = length lexs →
  cpp_lines (zip raws lexs) st = Ok (st', outs) →
  ∀ j raw, raws !! j = Some raw → ref_run oracle k lexs ref !! j = Some true →
           outs !! j = Some raw.
Proof.
  revert lexs k st ref outs.
  induction raws as [|raw raws IH]; intros [|lex lexs] k st ref outs Hcov Hcon; try done.
  intros [= Hlen]. cbn [zip zip_with cpp_lines].
  destruct (cpp_line raw lex st) as [[st1 out]|] eqn:E; [|done].
  destruct (cpp_lines _ st1) as [[st2 outs']|] eqn:E2; [|done]. intros [= -> <-].
  set (ref1 := match line_directive lex with
               | Some (d, _) => ref_directive d (oracle k) ref
               | None => ref
               end).
  assert (covers st1 ref1 ∧ (ref_active ref1 = true → out = raw)) as [Hcov1 Hout].
  { unfold cpp_line in E. subst ref1. destruct (line_directive lex) as [[d e]|] eqn:Ed.
    - destruct (cpp_directive d _ st) as [st3|] eqn:Ec; [|done]. injection E as <- <-.
      apply (covers_directive _ _ (oracle k) _ _ ref) in Ec as Hc; [|done|].
      + split; [done|]. intros Ha. destruct Hc as [Hc _]. by rewrite (Hc Ha).
      + intros b [Hc Hb]%directive_truth_constant.
        specialize (Hcon 0 lex d e b eq_refl Ed Hc Hb). by rewrite Nat.add_0_r in Hcon.
    - injection E as <- <-. split; [done|]. intros Ha. destruct Hcov as [Hc _].
      by rewrite (Hc Ha). }
  intros [|j] raw'; simpl.
  - fold ref1. intros [= <-] [= Ha]. by rewrite Hout.
  - fold ref1. intros Hj Hact. eapply (IH lexs (S k) st1 ref1); try done.
    intros i line d e b Hi Hd Hc Hb. specialize (Hcon (S i) line d e b Hi Hd Hc Hb).
    by rewrite Nat.add_succ_r in Hcon.
Qed.

Definition ref_init : ref_state := RefState [] true.

(** C9: on a text whose only line boundaries are newlines, no line that some compilation can
    reach is blanked.  Whatever the truth of the conditions, as long as the conditions that are integer constants have their value, each
    line that the reference preprocessor then finds active is kept as it is. *)
Theorem active_lines_kept s out oracle :
  plain_lines s → mask_c_definitely_inactive s = Ok out →
  consistent oracle 0 (splitlines_keep (mask_c_comments_and_literals s)) →
  ∃ lines, out = concat lines ∧ length lines = length (splitlines_keep s) ∧
    ∀ j line, splitlines_keep s !! j = Some line →
      ref_run oracle 0 (splitlines_keep (mask_c_comments_and_literals s)) ref_init !! j
      = Some true →
      lines !! j = Some line.
Proof.
  intros Hp. unfold mask_c_definitely_inactive.
  pose proof (masks_lines _ _ Hp (mask_c_comments_and_literals_masks s)) as Hl.
  apply Forall2_length in Hl.
  destruct (cpp_lines _ _) as [[st outs]|] eqn:E; [|done].
  destruct (cpp_stack st); [|done]. intros [= <-] Hcon. exists outs. split; [done|].
  pose proof (cpp_lines_masks _ _ _ _ _ Hl E) as Hm. apply Forall2_length in Hm.
  split; [done|]. intros j line Hj Ha.
  by eapply (cpp_lines_keep oracle _ _ 0 cpp_init ref_init).
Qed.

Lemma active_lines_kept_witness :
  let s := py "#if 0\na\n#elif X\nb\n#endif\n" in
  let oracle := λ k, k =? 2 in
  ∃ lines, concat lines = py "     \n \n#elif X\nb\n#endif\n" ∧
           lines !! 3 = Some (py "b\n").
Proof.
  intros s oracle.
  assert (plain_lines s) as Hp by (apply plain_lines_check; vm_compute; reflexivity).
  assert (mask_c_definitely_inactive s = Ok (py "     \n \n#elif X\nb\n#endif\n")) as Hm
    by (vm_compute; reflexivity).
  assert (consistent oracle 0 (splitlines_keep (mask_c_comments_and_literals s))) as Hc
    by (apply consistent_check_sound; vm_compute; reflexivity).
  destruct (active_lines_kept s _ oracle Hp Hm Hc) as (lines & Hout & _ & Hk).
  exists lines. split; [symmetry; exact Hout|].
  apply (Hk 3); vm_compute; reflexivity.
Defined.

(** The hypothesis on line boundaries is needed.  A form feed inside a comment ends a
    line for [str.splitlines] in the original but not in the masked text, the two lists of
    lines are then paired wrongly, and the end of the text is lost. *)
Example form_feed_loses_text :
  let s := py "a /* " ++ [ascii_of_N 12] ++ py " */ b\nc\n" in
  mask_c_definitely_inactive s = Ok (take 12 s) ∧ length s = 14.
Proof. split; vm_compute; reflexivity. Qed.
