(* ===== verification/CScope.v ===== *)
(** * Locating a C scope and replacing code in it (install.py, [c_scope_bounds] to
    [insert_live_scope_start])

    Anchors are searched in the live code only; the offsets found there are used to edit the
    original text.  The parameter [path] of the definitions is the rendered path, which only
    appears in messages. *)

From Stdlib Require Import Ascii.
From stdpp Require Import base list strings.
From S2P Require Import Prelude PyText PyRegex PyResult CLexer CPreproc.

(** ** [c_scope_bounds] *)

(** The offsets of the non-overlapping occurrences of the anchor, from [cursor] on; each
    round moves the cursor past a non-empty anchor, so the length of the text bounds the
    rounds. *)
Fixpoint occurrences_from (fuel : nat) (anchor masked : text) (cursor : nat) : list nat :=
  match fuel with
  | O => []
  | S fuel' =>
      match find_from anchor masked cursor with
      | None => []
      | Some occurrence =>
          occurrence :: occurrences_from fuel' anchor masked (occurrence + length anchor)
      end
  end.

Definition occurrences (anchor masked : text) : list nat :=
  occurrences_from (S (length masked)) anchor masked 0.

(** The matching of braces: the stack of open offsets and the closed pairs, innermost
    first; a closing brace without an opening one is ignored. *)
Fixpoint brace_pairs (cs : text) (index : nat) (stack : list nat) (pairs : list (nat * nat))
    : list nat * list (nat * nat) :=
  match cs with
  | [] => (stack, pairs)
  | c :: cs' =>
      if char_eqb c "{" then brace_pairs cs' (S index) (index :: stack) pairs
      else if char_eqb c "}" then
        match stack with
        | start :: stack' => brace_pairs cs' (S index) stack' (pairs ++ [(start, index)])
        | [] => brace_pairs cs' (S index) [] pairs
        end
      else brace_pairs cs' (S index) stack pairs
  end.

(** [min(containing, key=lambda pair: pair[0])] *)
Fixpoint min_by_start (p : nat * nat) (ps : list (nat * nat)) : nat * nat :=
  match ps with
  | [] => p
  | q :: ps' => min_by_start (if q.1 <? p.1 then q else p) ps'
  end.

(** The pair an occurrence of the anchor selects, if any. *)
Definition scope_candidate (masked anchor : text) (pairs : list (nat * nat))
    (occurrence : nat) : option (nat * nat) :=
  match List.filter (λ pr, (pr.1 <? occurrence) && (occurrence <? pr.2)) pairs with
  | p :: ps => Some (min_by_start p ps)
  | [] =>
      let anchor_end := occurrence + length anchor in
      let by_start o := match o with
                        | Some brace => List.find (λ pr, pr.1 =? brace) pairs
                        | None => None
                        end in
      match find_range (py "{") masked occurrence anchor_end with
      | Some brace => by_start (Some brace)
      | None =>
          match find_from (py "{") masked anchor_end, find_from (py ";") masked anchor_end with
          | None, _ => None
          | Some brace, Some semicolon =>
              if semicolon <? brace then None else by_start (Some brace)
          | Some brace, None => by_start (Some brace)
          end
      end
  end.

Definition add_candidate (o : option (nat * nat)) (acc : list (nat * nat))
    : list (nat * nat) :=
  match o with
  | Some c => if existsb (λ d, (d.1 =? c.1) && (d.2 =? c.2)) acc then acc else c :: acc
  | None => acc
  end.

(** The set of the candidates of all occurrences, without repetition. *)
Fixpoint candidate_set (os : list (option (nat * nat))) : list (nat * nat) :=
  match os with
  | [] => []
  | o :: os' => add_candidate o (candidate_set os')
  end.

Definition c_scope_bounds (path s anchor : text) : result (nat * nat) :=
  match mask_c_live_code true s with
  | Err e => Err e
  | Ok masked =>
      match occurrences anchor masked with
      | [] => install_error (py "C scope anchor " ++ repr anchor ++ py " not found in " ++ path)
      | occs =>
          match brace_pairs masked 0 [] [] with
          | (_ :: _, _) =>
              install_error (py "unbalanced C scope while locating " ++ repr anchor
                             ++ py " in " ++ path)
          | ([], pairs) =>
              match candidate_set (map (scope_candidate masked anchor pairs) occs) with
              | [bounds] => Ok bounds
              | _ => install_error (py "C function scope for " ++ repr anchor
                                    ++ py " not found in " ++ path)
              end
          end
      end
  end.

Definition c_scope_containing (path s anchor : text) : result text :=
  match c_scope_bounds path s anchor with
  | Err e => Err e
  | Ok (start, stop) => Ok (slice s start (stop + 1))
  end.

(** ** [exact_injection_installed] *)

Definition all_counts (s : text) (expected : list (text * nat)) : bool :=
  forallb (λ te, count te.1 s =? te.2) expected.

Definition partial_injection {A} (path marker : text) : result A :=
  install_error (py "conflicting or partial ABK injection in " ++ path ++ py ": " ++ marker).

Definition exact_injection_installed (path s marker : text) (contexts : list text)
    (scope : option text) (forbidden : list text)
    (global_counts live_scope_counts live_global_counts code_global_counts
       : list (text * nat)) : result bool :=
  context_global ← mask_c_injection_context s marker;
  if negb (contains marker context_global) then
    if contains marker s then partial_injection path marker else Ok false
  else
    let inspected := match scope with None => s | Some sc => sc end in
    context_scope ← mask_c_injection_context inspected marker;
    live_scope ← mask_c_live_code true inspected;
    live_global ← mask_c_live_code true s;
    code_scope ← mask_c_live_code false inspected;
    code_global ← mask_c_live_code false s;
    let valid :=
      (count marker context_global =? 1) && (count marker context_scope =? 1)
      && forallb (λ context, count context context_scope =? 1) contexts
      && negb (existsb (λ f, contains f code_scope) forbidden)
      && all_counts context_global global_counts
      && all_counts live_scope live_scope_counts
      && all_counts live_global live_global_counts
      && all_counts code_global code_global_counts in
    if valid then Ok true else partial_injection path marker.

(** ** Replacements *)

Definition not_found_in {A} (error path : text) : result A :=
  install_error (error ++ py " in " ++ path).

Definition splice (s : text) (start stop : nat) (new : text) : text :=
  take start s ++ new ++ drop stop s.

Definition replace_live_in_scope (path s scope_anchor old new error : text) : result text :=
  bounds ← c_scope_bounds path s scope_anchor;
  let '(scope_start, scope_end) := bounds in
  live_scope ← mask_c_live_code false (slice s scope_start (scope_end + 1));
  match find old live_scope with
  | Some relative =>
      if count old live_scope =? 1 then
        let start := scope_start + relative in
        Ok (splice s start (start + length old) new)
      else not_found_in error path
  | None => not_found_in error path
  end.

Definition replace_live_global (path s old new error : text) : result text :=
  live ← mask_c_live_code false s;
  match find old live with
  | Some start =>
      if count old live =? 1 then Ok (splice s start (start + length old) new)
      else not_found_in error path
  | None => not_found_in error path
  end.

Definition replace_live_regex_global (path s : text) (pattern : regex)
    (replacement_prefix error : text) : result text :=
  live ← mask_c_live_code false s;
  match finditer pattern live with
  | [m] => Ok (splice s (m_start m) (m_start m) replacement_prefix)
  | _ => not_found_in error path
  end.

Definition replace_live_regex_in_scope (path s scope_anchor : text) (pattern : regex)
    (replacement error : text) : result text :=
  bounds ← c_scope_bounds path s scope_anchor;
  let '(scope_start, scope_end) := bounds in
  live_scope ← mask_c_live_code false (slice s scope_start (scope_end + 1));
  match finditer pattern live_scope with
  | [m] => Ok (splice s (scope_start + m_start m) (scope_start + m_end m) replacement)
  | _ => not_found_in error path
  end.

Definition insert_live_scope_start (path s scope_anchor insertion error : text)
    : result text :=
  bounds ← c_scope_bounds path s scope_anchor;
  let '(scope_start, _) := bounds in
  match s !! scope_start with
  | Some c =>
      if char_eqb c "{" then Ok (splice s (scope_start + 1) (scope_start + 1) insertion)
      else not_found_in error path
  | None => Err (OtherError (py "IndexError"))
  end.

(** ** Exceptions: the functions of this file make no system call *)

Lemma no_os_c_scope_bounds path s anchor : no_os (c_scope_bounds path s anchor).
Proof. unfold c_scope_bounds. no_os. Qed.
#[export] Hint Resolve no_os_c_scope_bounds : no_os.

Lemma no_os_c_scope_containing path s anchor : no_os (c_scope_containing path s anchor).
Proof. unfold c_scope_containing. no_os. Qed.

Lemma no_os_partial_injection A path marker : no_os (@partial_injection A path marker).
Proof. unfold partial_injection. no_os. Qed.

Lemma no_os_not_found_in A error path : no_os (@not_found_in A error path).
Proof. unfold not_found_in. no_os. Qed.
#[export] Hint Resolve no_os_c_scope_containing no_os_partial_injection no_os_not_found_in
  : no_os.

Lemma no_os_exact_injection_installed path s marker contexts scope forbidden g ls lg cg :
  no_os (exact_injection_installed path s marker contexts scope forbidden g ls lg cg).
Proof. unfold exact_injection_installed. no_os. Qed.

Lemma no_os_replace_live_in_scope path s a old new e :
  no_os (replace_live_in_scope path s a old new e).
Proof. unfold replace_live_in_scope. no_os. Qed.

Lemma no_os_replace_live_global path s old new e :
  no_os (replace_live_global path s old new e).
Proof. unfold replace_live_global. no_os. Qed.

Lemma no_os_replace_live_regex_global path s r new e :
  no_os (replace_live_regex_global path s r new e).
Proof. unfold replace_live_regex_global. no_os. Qed.

Lemma no_os_replace_live_regex_in_scope path s a r new e :
  no_os (replace_live_regex_in_scope path s a r new e).
Proof. unfold replace_live_regex_in_scope. no_os. Qed.

Lemma no_os_insert_live_scope_start path s a new e :
  no_os (insert_live_scope_start path s a new e).
Proof. unfold insert_live_scope_start. no_os. Qed.

#[export] Hint Resolve no_os_exact_injection_installed no_os_replace_live_in_scope
  no_os_replace_live_global no_os_replace_live_regex_global
  no_os_replace_live_regex_in_scope no_os_insert_live_scope_start : no_os.
