(* ===== verification/ScopeFacts.v ===== *)
(** * Scopes, insertions and replacements

    The bounds that [c_scope_bounds] returns are a pair of matching braces of the live code,
    selected by an occurrence of the anchor; and the edits change the text at one place of
    it only. *)

From Stdlib Require Import Ascii.
From stdpp Require Import base list strings sets.
From S2P Require Import Prelude PyText PyRegex PyResult CLexer CPreproc CppFacts CScope.

(** ** Balanced text *)

Definition open_brace : ascii := "{".






(** ** Slices *)





(** ** The matching of braces *)








(** ** Searching one character *)





(** ** Occurrences and candidates *)





Section candidate.
Context (m anchor : text) (pairs : list (nat * nat)).
Context (Hpairs : brace_pairs m 0 [] [] = ([], pairs)).





End candidate.






(** ** Edits *)













(** C12: an insertion at the start of a scope puts the text right after the opening brace of
    the anchor's scope and changes nothing else. *)
Theorem insert_live_scope_start_spec path s scope_anchor insertion error s' :
  insert_live_scope_start path s scope_anchor insertion error = Ok s' →
  ∃ a b j, s = a ++ open_brace :: b ∧ s' = a ++ open_brace :: insertion ++ b ∧
           c_scope_bounds path s scope_anchor = Ok (length a, j).
Proof.
  unfold insert_live_scope_start. intros H. apply bind_Ok in H as ([i j] & Hb & H).
  destruct (s !! i) as [c|] eqn:Ei; [|done]. destruct (char_eqb c "{") eqn:Ec; [|done].
  injection H as <-. bool_hyps. subst c.
  pose proof (lookup_lt_Some _ _ _ Ei) as Hlt.
  exists (take i s), (drop (S i) s), j. unfold splice. rewrite Nat.add_1_r.
  split_and!.
  - by rewrite (take_drop_middle s i).
  - by rewrite (take_S_r _ _ _ Ei), <- app_assoc.
  - rewrite length_take. by replace (i `min` length s) with i by lia.
Qed.

Lemma insert_live_scope_start_spec_witness :
  let s := py "int f(void)\n{\n}\n" in
  insert_live_scope_start [] s (py "int f(void)\n{") (py "\nx;") []
  = Ok (py "int f(void)\n{\nx;\n}\n") ∧
  ∃ a b, s = a ++ open_brace :: b ∧
         py "int f(void)\n{\nx;\n}\n" = a ++ open_brace :: py "\nx;" ++ b.
Proof.
  intros s.
  assert (insert_live_scope_start [] s (py "int f(void)\n{") (py "\nx;") []
          = Ok (py "int f(void)\n{\nx;\n}\n")) as H by (vm_compute; reflexivity).
  split; [exact H|].
  destruct (insert_live_scope_start_spec _ _ _ _ _ _ H) as (a & b & j & H1 & H2 & _).
  exists a, b. split; [exact H1|exact H2].
Defined.
