(* ===== verification/World.v ===== *)
(** * The installer's world: file system, process state and the monad of the code

    The file system is a tree of regular files and directories, with a separate table of
    symbolic links, so that the resolution of a path depends on the links only.  Its
    operations are the ones of [pathlib] and [shutil] that install.py calls, with the errors
    they raise.  Files have time stamps and modes, directories have not.  One mutating
    operation may be chosen to fail with an I/O error. *)

From Stdlib Require Import Ascii.
From stdpp Require Import base list strings gmap.
From S2P Require Import Prelude PyText PyResult.

(** ** Paths *)

(** An absolute path, from the root; [p / "a/b"] is [p ++ ["a"; "b"]]. *)
Abbreviation path := (list string).

Definition name_text (n : string) : text := String.list_ascii_of_string n.

(** [str(path)] *)
Definition path_text (p : path) : text :=
  match p with
  | [] => py "/"
  | _ => concat (map (λ n, "/"%char :: name_text n) p)
  end.

(** [path.parent] (the root is its own parent) and [path.name] *)
Definition parent (p : path) : path := removelast p.
Definition name (p : path) : string := List.last p "".

(** ** File system *)

Record file := FileData { f_data : text; f_mtime : N; f_mode : N }.

Inductive node :=
  | File (f : file)
  | Dir.

Record fsys := Fsys { nodes : gmap path node; links : gmap path path }.

(** Resolution follows the links met on the way, at most [hops] of them; a link holds the
    absolute path it denotes.  Components that are missing or are files stay in place: the
    look-up at the resulting location decides what is there. *)
Fixpoint walk (ls : gmap path path) (hops : nat) : path → path → option path :=
  fix go (done todo : path) {struct todo} : option path :=
    match todo with
    | [] => Some done
    | c :: rest =>
        match ls !! (done ++ [c]) with
        | None => go (done ++ [c]) rest
        | Some target =>
            match hops with
            | O => None
            | S hops' => walk ls hops' [] (target ++ rest)
            end
        end
    end.

Definition max_hops : nat := 40.

(** The location of a path, following a link in last position. *)
Definition loc (fs : fsys) (p : path) : option path := walk (links fs) max_hops [] p.

(** The location of a path, not following a link in last position. *)
Definition lloc (fs : fsys) (p : path) : option path :=
  match p with
  | [] => Some []
  | _ => match loc fs (parent p) with
         | Some d => Some (d ++ [name p])
         | None => None
         end
  end.

Definition stat (fs : fsys) (p : path) : option node :=
  match loc fs p with Some q => nodes fs !! q | None => None end.

(** [path.exists()], [path.is_file()], [path.is_dir()], [path.is_symlink()] *)
Definition exists_ (fs : fsys) (p : path) : bool :=
  match stat fs p with Some _ => true | None => false end.
Definition is_file (fs : fsys) (p : path) : bool :=
  match stat fs p with Some (File _) => true | _ => false end.
Definition is_dir (fs : fsys) (p : path) : bool :=
  match stat fs p with Some Dir => true | _ => false end.
Definition is_symlink (fs : fsys) (p : path) : bool :=
  match lloc fs p with
  | Some q => match links fs !! q with Some _ => true | None => false end
  | None => false
  end.

Fixpoint has_file_prefix (ns : gmap path node) (done todo : path) : bool :=
  match ns !! done with
  | Some (File _) => true
  | _ => match todo with
         | [] => false
         | c :: rest => has_file_prefix ns (done ++ [c]) rest
         end
  end.

(** The error of an operation on a location where nothing is. *)
Definition missing_errno (fs : fsys) (q : path) : errno :=
  if has_file_prefix (nodes fs) [] (parent q) then ENOTDIR else ENOENT.

Definition child_of (q k : path) : bool :=
  match k with [] => false | _ => bool_decide (parent k = q) end.

Definition has_children (fs : fsys) (q : path) : bool :=
  existsb (λ kv, child_of q kv.1) (map_to_list (nodes fs))
  || existsb (λ kv, child_of q kv.1) (map_to_list (links fs)).

(** [path.iterdir()]: the entries of a directory, in the order of the table. *)
Definition iterdir (fs : fsys) (p : path) : list path :=
  match loc fs p with
  | Some q =>
      map (λ k, p ++ [name k])
          (List.filter (child_of q)
             (map fst (map_to_list (nodes fs)) ++ map fst (map_to_list (links fs))))
  | None => []
  end.

(** The newline translation of text-mode reading. *)
Fixpoint universal_newlines (s : text) : text :=
  match s with
  | [] => []
  | c :: s' =>
      if char_eqb c cr then
        match s' with
        | d :: s'' => if char_eqb d nl then nl :: universal_newlines s''
                      else nl :: universal_newlines s'
        | [] => [nl]
        end
      else c :: universal_newlines s'
  end.

(** ** Process state *)

(** [InstallTransaction]: the recorded files in insertion order, each with its backup or
    [None] for a file that did not exist, and the recorded missing directories. *)
Record transaction := Transaction {
  tx_files : list (path * option file);
  tx_missing : list path
}.

Record world := World {
  w_fs : fsys;
  w_tx : option transaction;       (** [_ACTIVE_TRANSACTION] *)
  w_validation_only : bool;        (** [_VALIDATION_ONLY] *)
  w_work_mode : text;              (** the variable ABK_BUILD_WORK_MODE, empty by default *)
  w_clock : N;                     (** the time stamp the next write sets *)
  w_fault : option nat;            (** the number of mutating operations before one fails *)
  w_out : list text;               (** standard output, latest line first *)
  w_err : list text                (** standard error, latest line first *)
}.

Definition set_fs (fs : fsys) (w : world) : world :=
  World fs (w_tx w) (w_validation_only w) (w_work_mode w) (w_clock w) (w_fault w)
        (w_out w) (w_err w).
Definition set_tx (tx : option transaction) (w : world) : world :=
  World (w_fs w) tx (w_validation_only w) (w_work_mode w) (w_clock w) (w_fault w)
        (w_out w) (w_err w).
Definition set_validation (b : bool) (w : world) : world :=
  World (w_fs w) (w_tx w) b (w_work_mode w) (w_clock w) (w_fault w) (w_out w) (w_err w).
Definition set_clock (t : N) (w : world) : world :=
  World (w_fs w) (w_tx w) (w_validation_only w) (w_work_mode w) t (w_fault w)
        (w_out w) (w_err w).
Definition set_fault (f : option nat) (w : world) : world :=
  World (w_fs w) (w_tx w) (w_validation_only w) (w_work_mode w) (w_clock w) f
        (w_out w) (w_err w).
Definition add_out (line : text) (w : world) : world :=
  World (w_fs w) (w_tx w) (w_validation_only w) (w_work_mode w) (w_clock w) (w_fault w)
        (line :: w_out w) (w_err w).
Definition add_err (line : text) (w : world) : world :=
  World (w_fs w) (w_tx w) (w_validation_only w) (w_work_mode w) (w_clock w) (w_fault w)
        (w_out w) (line :: w_err w).

(** ** The monad: state and exceptions, the state surviving an exception *)

Definition M (A : Type) : Type := world → result A * world.

#[export] Instance M_ret : MRet M := λ _ a w, (Ok a, w).
#[export] Instance M_bind : MBind M := λ _ _ f m w,
  match m w with
  | (Ok a, w') => f a w'
  | (Err e, w') => (Err e, w')
  end.

Definition raise {A} (e : exn) : M A := λ w, (Err e, w).
Definition raise_install {A} (msg : text) : M A := raise (InstallError msg).
Definition lift {A} (r : result A) : M A := λ w, (r, w).
Definition gets {A} (f : world → A) : M A := λ w, (Ok (f w), w).
Definition modify (f : world → world) : M unit := λ w, (Ok tt, f w).
Definition ask {A} (f : fsys → A) : M A := gets (λ w, f (w_fs w)).
Definition print (line : text) : M unit := modify (add_out line).
Definition print_err (line : text) : M unit := modify (add_err line).
Definition when (b : bool) (m : M unit) : M unit := if b then m else mret tt.

(** [try: m except ...: handler] *)
Definition catch {A} (m : M A) (handler : exn → M A) : M A := λ w,
  match m w with
  | (Ok a, w') => (Ok a, w')
  | (Err e, w') => handler e w'
  end.

Fixpoint for_each {A} (l : list A) (body : A → M unit) : M unit :=
  match l with
  | [] => mret tt
  | a :: l' => body a ;; for_each l' body
  end.

(** ** Operations *)

(** Counts a mutating operation: [true] when it is the one that fails. *)
Definition tick : M bool := λ w,
  match w_fault w with
  | None => (Ok false, w)
  | Some O => (Ok true, set_fault None w)
  | Some (S n) => (Ok false, set_fault (Some n) w)
  end.

Definition os_error {A} (e : errno) (p : path) : M A := raise (OSError e (path_text p)).

Definition put_node (q : path) (n : option node) : M unit :=
  modify (λ w, set_fs (Fsys (partial_alter (λ _, n) q (nodes (w_fs w))) (links (w_fs w))) w).

Definition stat_file (p : path) : M file :=
  fs ← ask id;
  match loc fs p with
  | None => os_error ELOOP p
  | Some q =>
      match nodes fs !! q with
      | Some (File f) => mret f
      | Some Dir => os_error EISDIR p
      | None => os_error (missing_errno fs q) p
      end
  end.

(** [path.read_bytes()], [path.read_text()] *)
Definition read_bytes (p : path) : M text := f ← stat_file p; mret (f_data f).
Definition read_text (p : path) : M text := s ← read_bytes p; mret (universal_newlines s).

(** Opens a location for writing and stores a file there; a failing write leaves the file
    truncated. *)
Definition store (p : path) (f : file) : M unit :=
  fs ← ask id;
  match loc fs p with
  | None => os_error ELOOP p
  | Some q =>
      match nodes fs !! q, nodes fs !! parent q with
      | Some Dir, _ => os_error EISDIR p
      | _, Some Dir =>
          failed ← tick;
          if (failed : bool)
          then put_node q (Some (File (FileData [] (f_mtime f) (f_mode f)))) ;; os_error EIO p
          else put_node q (Some (File f))
      | _, _ => os_error (missing_errno fs q) p
      end
  end.

Definition default_mode : N := 420.

(** [path.write_text(s)] *)
Definition write_text (p : path) (s : text) : M unit :=
  now ← gets w_clock;
  fs ← ask id;
  modify (set_clock (now + 1)) ;;
  store p (FileData s now (match stat fs p with Some (File f) => f_mode f | _ => default_mode end)).

(** [path.unlink()] *)
Definition unlink (p : path) : M unit :=
  fs ← ask id;
  match lloc fs p with
  | None => os_error ELOOP p
  | Some q =>
      match links fs !! q, nodes fs !! q with
      | None, None => os_error (missing_errno fs q) p
      | None, Some Dir => os_error EISDIR p
      | Some _, _ =>
          failed ← tick;
          if (failed : bool) then os_error EIO p
          else modify (λ w, set_fs (Fsys (nodes (w_fs w)) (delete q (links (w_fs w)))) w)
      | None, Some (File _) =>
          failed ← tick;
          if (failed : bool) then os_error EIO p else put_node q None
      end
  end.

(** [path.rmdir()]; the root is never removed. *)
Definition rmdir (p : path) : M unit :=
  fs ← ask id;
  match lloc fs p with
  | None => os_error ELOOP p
  | Some [] => os_error EBUSY p
  | Some q =>
      match links fs !! q, nodes fs !! q with
      | Some _, _ => os_error ENOTDIR p
      | None, None => os_error (missing_errno fs q) p
      | None, Some (File _) => os_error ENOTDIR p
      | None, Some Dir =>
          if has_children fs q then os_error ENOTEMPTY p
          else
            failed ← tick;
            if (failed : bool) then os_error EIO p else put_node q None
      end
  end.

(** [os.mkdir(path)] *)
Definition os_mkdir (p : path) : M unit :=
  fs ← ask id;
  match lloc fs p with
  | None => os_error ELOOP p
  | Some q =>
      match links fs !! q, nodes fs !! q, nodes fs !! parent q with
      | None, None, Some Dir =>
          failed ← tick;
          if (failed : bool) then os_error EIO p else put_node q (Some Dir)
      | None, None, _ => os_error (missing_errno fs q) p
      | _, _, _ => os_error EEXIST p
      end
  end.

(** [if not exist_ok or not self.is_dir(): raise] *)
Definition unless_dir (p : path) (e : exn) : M unit :=
  fs ← ask id;
  if is_dir fs p then mret tt else raise e.

(** [path.mkdir(exist_ok=True)] *)
Definition mkdir_here (p : path) : M unit :=
  catch (os_mkdir p) (λ e,
    match e with
    | OSError ENOENT _ => raise e
    | OSError _ _ => unless_dir p e
    | _ => raise e
    end).

(** [path.mkdir(parents=True, exist_ok=True)]; the recursion is on the parents. *)
Fixpoint mkdir_from (fuel : nat) (p : path) : M unit :=
  catch (os_mkdir p) (λ e,
    match e with
    | OSError ENOENT _ =>
        match fuel, p with
        | S fuel', _ :: _ => mkdir_from fuel' (parent p) ;; mkdir_here p
        | _, _ => raise e
        end
    | OSError _ _ => unless_dir p e
    | _ => raise e
    end).

Definition mkdir_parents (p : path) : M unit := mkdir_from (length p) p.

(** ** Execution steps, for proofs *)

Lemma bind_eq {A B} (m : M A) (f : A → M B) w :
  (m ≫= f) w = match m w with
               | (Ok a, w') => f a w'
               | (Err e, w') => (Err e, w')
               end.
Proof. done. Qed.

Lemma bind_ok {A B} (m : M A) (f : A → M B) w a w' :
  m w = (Ok a, w') → (m ≫= f) w = f a w'.
Proof. intros H. by rewrite bind_eq, H. Qed.

Lemma bind_err {A B} (m : M A) (f : A → M B) w e w' :
  m w = (Err e, w') → (m ≫= f) w = (Err e, w').
Proof. intros H. by rewrite bind_eq, H. Qed.

Lemma bind_assoc {A B C} (m : M A) (f : A → M B) (g : B → M C) w :
  ((m ≫= f) ≫= g) w = (m ≫= (λ a, f a ≫= g)) w.
Proof. rewrite !bind_eq. by destruct (m w) as [[a|e] w1]. Qed.

Lemma bind_ext {A B} (m : M A) (f g : A → M B) w :
  (∀ a w', f a w' = g a w') → (m ≫= f) w = (m ≫= g) w.
Proof. intros H. rewrite !bind_eq. destruct (m w) as [[a|e] w1]; [apply H|done]. Qed.

Lemma ask_bind {A B} (f : fsys → A) (k : A → M B) w : (ask f ≫= k) w = k (f (w_fs w)) w.
Proof. done. Qed.

Lemma gets_bind {A B} (f : world → A) (k : A → M B) w : (gets f ≫= k) w = k (f w) w.
Proof. done. Qed.

Lemma modify_bind {B} (f : world → world) (k : unit → M B) w :
  (modify f ≫= k) w = k tt (f w).
Proof. done. Qed.

Lemma ret_bind {A B} (a : A) (k : A → M B) w : (mret (M := M) a ≫= k) w = k a w.
Proof. done. Qed.

Lemma tick_spec w b w' :
  tick w = (b, w') →
  ∃ f, b = Ok f ∧ w' = set_fault (w_fault w') w ∧ (w_fault w = None → f = false ∧ w' = w) ∧
       (f = true → w_fault w' = None) ∧ (w_fault w = None → w_fault w' = None).
Proof.
  unfold tick. destruct w as [fs tx v wm ck [[|n]|] o er]; simpl; intros [= <- <-]; simpl;
    eexists; (split; [done|]); split_and!; done.
Qed.

(** Runs the first operation of a sequence when it is one of the state accessors. *)
Ltac mstep :=
  first [ rewrite ask_bind | rewrite gets_bind | rewrite modify_bind | rewrite ret_bind ];
  cbv beta.

(** Inversion of a run [(m ≫= f) w = (r, w')]. *)
Ltac minv H a w1 E :=
  rewrite bind_eq in H;
  match type of H with
  | match ?m ?w with _ => _ end = _ => destruct (m w) as [[a|a] w1] eqn:E
  end.
