(* ===== verification/FsFacts.v ===== *)
(** * Facts about paths, resolution and the operations on the tree

    A well-formed tree has its root, every entry below a directory, and no location that is
    both a node and a link.  Resolution only looks at the links, so it is stable under every
    operation that leaves them alone. *)

From Stdlib Require Import Ascii.
From stdpp Require Import base list strings gmap.
From S2P Require Import Prelude PyText PyResult World.

Record fs_wf (fs : fsys) : Prop := FsWf {
  wf_root : nodes fs !! [] = Some Dir;
  wf_parent_node q c n : nodes fs !! (q ++ [c]) = Some n → nodes fs !! q = Some Dir;
  wf_parent_link q c t : links fs !! (q ++ [c]) = Some t → nodes fs !! q = Some Dir;
  wf_disjoint q n t : nodes fs !! q = Some n → links fs !! q = Some t → False
}.

(** The tree with only its root. *)
Definition empty_fs : fsys := Fsys {[ [] := Dir ]} ∅.

(** ** Paths *)

Lemma path_cases (p : path) : p = [] ∨ ∃ d c, p = d ++ [c].
Proof. destruct p as [|c d _] using rev_ind; eauto. Qed.

Lemma parent_snoc (d : path) c : parent (d ++ [c]) = d.
Proof. apply removelast_last. Qed.

Lemma name_snoc (d : path) c : name (d ++ [c]) = c.
Proof. apply last_last. Qed.

Lemma length_parent (p : path) : p ≠ [] → length p = S (length (parent p)).
Proof.
  destruct (path_cases p) as [->|(d & c & ->)]; [done|intros _].
  rewrite parent_snoc, length_app. simpl. lia.
Qed.

Lemma prefix_snoc_cases (c d : path) x : c `prefix_of` d ++ [x] → c = d ++ [x] ∨ c `prefix_of` d.
Proof.
  intros [k Hk]. destruct (path_cases k) as [->|(k' & y & ->)].
  - left. by rewrite app_nil_r in Hk.
  - right. rewrite app_assoc in Hk. apply app_inj_tail in Hk as [-> _]. by exists k'.
Qed.

Lemma prefix_parent (p : path) : parent p `prefix_of` p.
Proof.
  destruct (path_cases p) as [->|(d & c & ->)]; [done|]. rewrite parent_snoc. by exists [c].
Qed.

(** ** Resolution *)

Lemma walk_nil ls h d : walk ls h d [] = Some d.
Proof. by destruct h. Qed.

Lemma walk_cons ls h d c rest :
  walk ls h d (c :: rest) =
  match ls !! (d ++ [c]) with
  | None => walk ls h (d ++ [c]) rest
  | Some t => match h with O => None | S h' => walk ls h' [] (t ++ rest) end
  end.
Proof. by destruct h. Qed.

Lemma walk_snoc ls h : ∀ t d q c,
  walk ls h d t = Some q → ls !! (q ++ [c]) = None →
  walk ls h d (t ++ [c]) = Some (q ++ [c]).
Proof.
  induction h as [|h IHh]; induction t as [|x t IHt]; intros d q c; simpl app;
    rewrite ?walk_nil, ?walk_cons.
  - intros [= ->] ->. by rewrite walk_nil.
  - destruct (ls !! (d ++ [x])); [done|]. apply IHt.
  - intros [= ->] ->. by rewrite walk_nil.
  - destruct (ls !! (d ++ [x])) as [tg|].
    + rewrite app_assoc. apply IHh.
    + apply IHt.
Qed.

Lemma walk_snoc_inv ls h : ∀ t d c r,
  walk ls h d (t ++ [c]) = Some r → ∃ q, walk ls h d t = Some q.
Proof.
  induction h as [|h IHh]; induction t as [|x t IHt]; intros d c r; simpl app;
    rewrite ?walk_nil, ?walk_cons; eauto.
  - destruct (ls !! (d ++ [x])); [done|]. apply IHt.
  - destruct (ls !! (d ++ [x])) as [tg|].
    + rewrite app_assoc. apply IHh.
    + apply IHt.
Qed.

(** If the last component is a link, there is a link at its location. *)
Lemma walk_snoc_link ls h : ∀ t d q c r,
  walk ls h d t = Some q → walk ls h d (t ++ [c]) = Some r →
  r = q ++ [c] ∨ is_Some (ls !! (q ++ [c])).
Proof.
  intros t d q c r H1 H2. destruct (ls !! (q ++ [c])) eqn:E; [eauto|].
  left. rewrite (walk_snoc _ _ _ _ _ _ H1 E) in H2. congruence.
Qed.

Section resolution.
Context (fs fs' : fsys) (Hlinks : links fs' = links fs).

Lemma loc_stable p : loc fs' p = loc fs p.
Proof. unfold loc. by rewrite Hlinks. Qed.

Lemma lloc_stable p : lloc fs' p = lloc fs p.
Proof. unfold lloc. by rewrite loc_stable. Qed.

Lemma is_symlink_stable p : is_symlink fs' p = is_symlink fs p.
Proof. unfold is_symlink. by rewrite lloc_stable, Hlinks. Qed.
End resolution.

Lemma lloc_snoc fs p c : lloc fs (p ++ [c]) = (λ d, d ++ [c]) <$> loc fs p.
Proof.
  unfold lloc. rewrite parent_snoc, name_snoc.
  destruct (p ++ [c]) eqn:E; [by destruct p|]. by destruct (loc fs p).
Qed.

Lemma loc_of_lloc fs p q : lloc fs p = Some q → links fs !! q = None → loc fs p = Some q.
Proof.
  destruct (path_cases p) as [->|(d & c & ->)].
  - simpl. intros [= <-] _. by unfold loc; rewrite walk_nil.
  - rewrite lloc_snoc. destruct (loc fs d) as [r|] eqn:E; [|done].
    intros [= <-] Hl. unfold loc in *. by apply walk_snoc.
Qed.

(** A path that is no link is at the location of the path itself. *)
Lemma loc_not_symlink fs p : is_symlink fs p = false → loc fs p = lloc fs p.
Proof.
  unfold is_symlink. destruct (lloc fs p) as [q|] eqn:E.
  - destruct (links fs !! q) eqn:El; [done|]. intros _. by apply loc_of_lloc.
  - intros _. destruct (path_cases p) as [->|(d & c & ->)]; [done|].
    rewrite lloc_snoc in E. destruct (loc fs d) as [r|] eqn:Ed; [done|].
    apply eq_None_not_Some. intros [r Hr]. apply walk_snoc_inv in Hr as [q Hq].
    unfold loc in Ed. congruence.
Qed.

Lemma stat_lloc fs p q : lloc fs p = Some q → links fs !! q = None → stat fs p = nodes fs !! q.
Proof. intros H1 H2. unfold stat. by rewrite (loc_of_lloc _ _ _ H1 H2). Qed.

Lemma exists_stat fs p : exists_ fs p = true ↔ is_Some (stat fs p).
Proof.
  unfold exists_. destruct (stat fs p); split; intros H; [by eexists|done|done|by destruct H].
Qed.

Lemma exists_stat_false fs p : exists_ fs p = false ↔ stat fs p = None.
Proof. unfold exists_. by destruct (stat fs p). Qed.

Lemma is_file_stat fs p : is_file fs p = true ↔ ∃ f, stat fs p = Some (File f).
Proof.
  unfold is_file. destruct (stat fs p) as [[f|]|]; split; intros H;
    [by exists f|done|done|by destruct H as [? [=]]|done|by destruct H as [? [=]]].
Qed.

Lemma is_dir_stat fs p : is_dir fs p = true ↔ stat fs p = Some Dir.
Proof. unfold is_dir. by destruct (stat fs p) as [[]|]. Qed.

Lemma root_exists fs : fs_wf fs → exists_ fs [] = true.
Proof. intros Hwf. unfold exists_, stat, loc. rewrite walk_nil. by rewrite (wf_root _ Hwf). Qed.

Lemma exists_loc fs p : exists_ fs p = true → is_Some (loc fs p).
Proof. rewrite exists_stat. unfold stat. intros [n Hn]. by destruct (loc fs p). Qed.

Lemma is_dir_exists fs p : is_dir fs p = true → exists_ fs p = true.
Proof. rewrite is_dir_stat, exists_stat. intros ->. by eexists. Qed.

(** What exists is inside a directory. *)
Lemma exists_parent_dir fs p : fs_wf fs → exists_ fs p = true → is_dir fs (parent p) = true.
Proof.
  intros Hwf. destruct (path_cases p) as [->|(d & c & ->)].
  { intros _. apply is_dir_stat. unfold stat, loc. simpl. apply Hwf. }
  rewrite parent_snoc, exists_stat, is_dir_stat. intros [n Hn]. unfold stat in *.
  destruct (loc fs (d ++ [c])) as [r|] eqn:Er; [|done].
  destruct (walk_snoc_inv _ _ _ _ _ _ Er) as [q Hq]. fold (loc fs d) in Hq. rewrite Hq.
  destruct (walk_snoc_link _ _ _ _ _ _ _ Hq Er) as [->|[t Ht]].
  - by eapply wf_parent_node.
  - by eapply wf_parent_link.
Qed.

Lemma exists_prefix_dir fs d p :
  fs_wf fs → is_dir fs p = true → d `prefix_of` p → is_dir fs d = true.
Proof.
  intros Hwf. induction p as [|c p IH] using rev_ind; intros Hd Hpre.
  - by apply prefix_nil_inv in Hpre as ->.
  - apply prefix_snoc_cases in Hpre as [->|Hpre]; [done|]. apply IH; [|done].
    rewrite <- (parent_snoc p c). apply exists_parent_dir; [done|].
    unfold exists_. apply is_dir_stat in Hd. by rewrite Hd.
Qed.

(** ** Updates of the tree *)

Definition put (q : path) (n : option node) (fs : fsys) : fsys :=
  Fsys (partial_alter (λ _, n) q (nodes fs)) (links fs).

Lemma put_same q n fs : nodes (put q n fs) !! q = n.
Proof. simpl. apply lookup_partial_alter_eq. Qed.

Lemma put_other q q' n fs : q ≠ q' → nodes (put q n fs) !! q' = nodes fs !! q'.
Proof. intros. simpl. by apply lookup_partial_alter_ne. Qed.

(** A node below a directory, where no link is and, if it is not a directory, where nothing
    has children. *)
Lemma put_wf q c n fs :
  fs_wf fs → nodes fs !! q = Some Dir → links fs !! (q ++ [c]) = None →
  nodes fs !! (q ++ [c]) ≠ Some Dir → fs_wf (put (q ++ [c]) (Some n) fs).
Proof.
  intros Hwf Hq Hl Hn. assert (q ++ [c] ≠ []) as Hne by (by destruct q).
  assert (∀ q' n', nodes fs !! q' = Some n' → n' = Dir →
                   nodes (put (q ++ [c]) (Some n) fs) !! q' = Some n') as Hkeep.
  { intros q' n' H ->. destruct (decide (q ++ [c] = q')) as [<-|?]; [done|].
    by rewrite put_other. }
  split.
  - apply (Hkeep _ Dir); [apply Hwf|done].
  - intros q' c' n' H. apply (Hkeep _ Dir); [|done].
    destruct (decide (q ++ [c] = q' ++ [c'])) as [Heq|?].
    + apply app_inj_tail in Heq as [<- _]. done.
    + rewrite put_other in H by done. by eapply wf_parent_node.
  - intros q' c' t H. apply (Hkeep _ Dir); [|done]. by eapply wf_parent_link.
  - intros q' n' t. simpl. destruct (decide (q ++ [c] = q')) as [<-|?].
    + intros _ H. congruence.
    + rewrite lookup_partial_alter_ne by done. by apply wf_disjoint.
Qed.

Lemma delete_wf q fs :
  fs_wf fs → q ≠ [] →
  (∀ c, nodes fs !! (q ++ [c]) = None) → (∀ c, links fs !! (q ++ [c]) = None) →
  fs_wf (put q None fs).
Proof.
  intros Hwf Hq Hn Hl.
  assert (∀ q', q ≠ q' → nodes fs !! q' = Some Dir →
                nodes (put q None fs) !! q' = Some Dir) as Hkeep.
  { intros q' ? ?. by rewrite put_other. }
  split.
  - apply Hkeep; [done|apply Hwf].
  - intros q' c n H. simpl in H.
    destruct (decide (q = q' ++ [c])) as [->|?]; [by rewrite lookup_partial_alter_eq in H|].
    rewrite lookup_partial_alter_ne in H by done.
    apply Hkeep; [|by eapply wf_parent_node]. intros ->. by rewrite Hn in H.
  - intros q' c t H. simpl in H. apply Hkeep; [|by eapply wf_parent_link].
    intros ->. by rewrite Hl in H.
  - intros q' n t. simpl. destruct (decide (q = q')) as [<-|?].
    + by rewrite lookup_partial_alter_eq.
    + rewrite lookup_partial_alter_ne by done. by apply wf_disjoint.
Qed.

(** A file has nothing below it. *)
Lemma file_no_children fs q f c :
  fs_wf fs → nodes fs !! q = Some (File f) →
  nodes fs !! (q ++ [c]) = None ∧ links fs !! (q ++ [c]) = None.
Proof.
  intros Hwf Hf. split; apply eq_None_not_Some.
  - intros [n Hn]. eapply wf_parent_node in Hn; [|done]. congruence.
  - intros [t Ht]. eapply wf_parent_link in Ht; [|done]. congruence.
Qed.

Lemma child_of_spec q k : child_of q k = true ↔ ∃ c, k = q ++ [c].
Proof.
  destruct (path_cases k) as [->|(d & c & ->)]; simpl.
  - split; [done|]. intros [c Hc]. by destruct q.
  - unfold child_of. destruct (d ++ [c]) eqn:E; [by destruct d|]. rewrite <- E.
    rewrite bool_decide_eq_true, parent_snoc. split.
    + intros ->. eauto.
    + intros [c' H]. by apply app_inj_tail in H as [-> _].
Qed.

Lemma has_children_false fs q :
  has_children fs q = false ↔
  (∀ c, nodes fs !! (q ++ [c]) = None) ∧ (∀ c, links fs !! (q ++ [c]) = None).
Proof.
  assert (∀ V (m : gmap path V),
            existsb (λ kv, child_of q kv.1) (map_to_list m) = false ↔
            ∀ c, m !! (q ++ [c]) = None) as Hm.
  { intros V m. split.
    - intros H c. apply eq_None_not_Some. intros [v Hv].
      assert (existsb (λ kv, child_of q kv.1) (map_to_list m) = true); [|congruence].
      apply existsb_exists. exists (q ++ [c], v). split.
      + by apply list_elem_of_In, elem_of_map_to_list.
      + apply child_of_spec. eauto.
    - intros H. apply not_true_iff_false. rewrite existsb_exists.
      intros ([k v] & Hin & [c Hc]%child_of_spec). simpl in Hc. subst k.
      apply list_elem_of_In, elem_of_map_to_list in Hin. by rewrite H in Hin. }
  unfold has_children. by rewrite orb_false_iff, !Hm.
Qed.

Lemma has_children_true fs q :
  has_children fs q = true →
  ∃ c, is_Some (nodes fs !! (q ++ [c])) ∨ is_Some (links fs !! (q ++ [c])).
Proof.
  unfold has_children. rewrite orb_true_iff, !existsb_exists.
  intros [([k v] & Hin & [c Hc]%child_of_spec)|([k v] & Hin & [c Hc]%child_of_spec)];
    simpl in Hc; subst k; apply list_elem_of_In, elem_of_map_to_list in Hin; exists c;
    [left|right]; by eexists.
Qed.

(** The location of a path is not that of a link. *)
Lemma walk_no_link ls h : ∀ t d q,
  ls !! [] = None → ls !! d = None → walk ls h d t = Some q → ls !! q = None.
Proof.
  induction h as [|h IHh]; induction t as [|c t IHt]; intros d q Hr Hd;
    rewrite ?walk_nil, ?walk_cons; try by intros [= <-].
  all: destruct (ls !! (d ++ [c])) as [tgt|] eqn:E; [try done|by apply IHt].
  by apply IHh.
Qed.

Lemma wf_no_root_link fs : fs_wf fs → links fs !! [] = None.
Proof.
  intros Hwf. apply eq_None_not_Some. intros [t Ht].
  by eapply (wf_disjoint _ Hwf []); [apply Hwf|].
Qed.

Lemma loc_no_link fs p q : fs_wf fs → loc fs p = Some q → links fs !! q = None.
Proof.
  intros Hwf%wf_no_root_link. unfold loc. by apply walk_no_link.
Qed.

(** Removing a link keeps a tree a tree. *)
Lemma unlink_wf q fs : fs_wf fs → fs_wf (Fsys (nodes fs) (delete q (links fs))).
Proof.
  intros Hwf. split; simpl.
  - apply Hwf.
  - apply Hwf.
  - intros q' c t [_ H]%lookup_delete_Some. by eapply wf_parent_link.
  - intros q' n t Hn [_ Ht]%lookup_delete_Some. by eapply wf_disjoint.
Qed.
