(* ===== verification/Transaction.v ===== *)
(** * The installer transaction (install.py, [InstallTransaction], [read], [write],
    [remove_file])

    Every write is preceded by a record of what was at its path; when the body of the
    [with] statement raises, the records are undone in reverse order and the directories
    that were missing are removed, deepest first. *)

From Stdlib Require Import Ascii.
From stdpp Require Import base list strings gmap sorting.
From S2P Require Import Prelude PyText PyResult World.

Definition no_records : transaction := Transaction [] [].

Definition current_tx : M transaction :=
  gets (λ w, match w_tx w with Some tx => tx | None => no_records end).

Definition path_eqb (p q : path) : bool := bool_decide (p = q).

(** [self._missing_directories.add(path)], a set *)
Definition add_missing (p : path) : M unit :=
  tx ← current_tx;
  if existsb (path_eqb p) (tx_missing tx) then mret tt
  else modify (set_tx (Some (Transaction (tx_files tx) (tx_missing tx ++ [p])))).

(** [self._files[path] = backup] for a new key *)
Definition add_file (p : path) (backup : option file) : M unit :=
  tx ← current_tx;
  modify (set_tx (Some (Transaction (tx_files tx ++ [(p, backup)]) (tx_missing tx)))).

(** The loop of [_record_missing_directories], which climbs from the path to its first
    existing ancestor; the length of the path bounds the climb. *)
Fixpoint climb_missing (fuel : nat) (cursor : path) : M path :=
  fs ← ask id;
  if exists_ fs cursor then mret cursor
  else if is_symlink fs cursor then
    raise_install (py "refusing broken symlink in installer target: " ++ path_text cursor)
  else
    add_missing cursor ;;
    match fuel, cursor with
    | S fuel', _ :: _ => climb_missing fuel' (parent cursor)
    | _, _ => mret cursor
    end.

Definition record_missing_directories (p : path) : M unit :=
  cursor ← climb_missing (length p) p;
  fs ← ask id;
  if exists_ fs cursor && negb (is_dir fs cursor) then
    raise_install (py "installer target parent is not a directory: " ++ path_text cursor)
  else mret tt.

Definition record_directory (p : path) : M unit :=
  fs ← ask id;
  if is_symlink fs p then
    raise_install (py "refusing symlink installer directory target: " ++ path_text p)
  else if exists_ fs p then
    if negb (is_dir fs p) then
      raise_install (py "installer directory target is not a directory: " ++ path_text p)
    else mret tt
  else record_missing_directories p.

(** [shutil.copy2] into the backup directory, which lies outside of the model's tree. *)
Definition copy_to_backup (p : path) : M file :=
  f ← stat_file p;
  failed ← tick;
  if (failed : bool) then os_error EIO p else mret f.

Definition record_file (p : path) : M unit :=
  tx ← current_tx;
  if existsb (λ pb, path_eqb p pb.1) (tx_files tx) then mret tt
  else
    fs ← ask id;
    if is_symlink fs p then
      raise_install (py "refusing symlink installer file target: " ++ path_text p)
    else
      record_missing_directories (parent p) ;;
      fs ← ask id;
      if exists_ fs p then
        if negb (is_file fs p) then
          raise_install (py "installer file target is not a regular file: " ++ path_text p)
        else
          backup ← copy_to_backup p;
          add_file p (Some backup)
      else add_file p None.

(** ** Rollback *)

Definition errno_text (e : errno) : text :=
  match e with
  | ENOENT => py "[Errno 2] No such file or directory: "
  | EEXIST => py "[Errno 17] File exists: "
  | ENOTDIR => py "[Errno 20] Not a directory: "
  | EISDIR => py "[Errno 21] Is a directory: "
  | ENOTEMPTY => py "[Errno 39] Directory not empty: "
  | ELOOP => py "[Errno 40] Too many levels of symbolic links: "
  | EBUSY => py "[Errno 16] Device or resource busy: "
  | EIO => py "[Errno 5] Input/output error: "
  | EMESSAGE msg => msg
  end.

(** [str(exc)] of an [OSError] *)
Definition os_error_text (e : errno) (p : text) : text :=
  match e with
  | EMESSAGE msg => msg
  | _ => errno_text e ++ repr p
  end.

(** Runs [m]; an [OSError] is returned as a line of the failure report. *)
Definition failure_of (p : path) (m : M unit) : M (list text) :=
  catch (m ;; mret []) (λ e,
    match e with
    | OSError e q => mret [path_text p ++ py ": " ++ os_error_text e q]
    | _ => raise e
    end).

Definition message_error {A} (msg : text) : M A := raise (OSError (EMESSAGE msg) []).

(** One iteration of the loop over the recorded files. *)
Definition undo_file (p : path) (backup : option file) : M unit :=
  fs ← ask id;
  match backup with
  | None =>
      if is_symlink fs p || is_file fs p then unlink p
      else if exists_ fs p then
        message_error (py "new installer file was replaced by a directory")
      else mret tt
  | Some f =>
      (if is_symlink fs p then unlink p
       else if exists_ fs p && negb (is_file fs p) then
         message_error (py "installer file was replaced by a directory")
       else mret tt) ;;
      mkdir_parents (parent p) ;;
      store p f
  end.

(** One iteration of the loop over the missing directories. *)
Definition undo_directory (p : path) : M unit :=
  catch (rmdir p) (λ e,
    match e with
    | OSError ENOENT _ => mret tt
    | _ => raise e
    end).

Fixpoint collect_failures {A} (undo : A → M (list text)) (l : list A) : M (list text) :=
  match l with
  | [] => mret []
  | a :: l' =>
      fs1 ← undo a;
      fs2 ← collect_failures undo l';
      mret (fs1 ++ fs2)
  end.

(** [sorted(..., key=lambda item: len(item.parts), reverse=True)] *)
Definition deeper (p q : path) : Prop := length q ≤ length p.
#[export] Instance deeper_dec : RelDecision deeper := λ p q, decide (length q ≤ length p).
Definition deepest_first (ps : list path) : list path := merge_sort deeper ps.

Definition rollback : M unit :=
  tx ← current_tx;
  failures1 ← collect_failures (λ pb, failure_of pb.1 (undo_file pb.1 pb.2)) (rev (tx_files tx));
  failures2 ← collect_failures (λ p, failure_of p (undo_directory p)) (deepest_first (tx_missing tx));
  match failures1 ++ failures2 with
  | [] => mret tt
  | failures => raise_install (py "installation rollback failed: " ++ join (py "; ") failures)
  end.

(** [__exit__] for a body that raised [exc]. *)
Definition exit_with_exception {A} (exc : exn) : M A := λ w,
  match rollback w with
  | (Ok _, w') =>
      let recorded := match w_tx w' with
                      | Some (Transaction [] []) | None => false
                      | Some _ => true
                      end in
      let w'' := if recorded
                 then add_err (py "ABK KSU Sandbox: installation rolled back") w' else w' in
      (Err exc, set_tx None w'')
  | (Err rollback_error, w') => (Err rollback_error, set_tx None w')
  end.

(** [with InstallTransaction(): body] *)
Definition with_transaction {A} (body : M A) : M A := λ w,
  match w_tx w with
  | Some _ => (Err (InstallError (py "nested installer transaction is unsupported")), w)
  | None =>
      match body (set_tx (Some no_records) w) with
      | (Ok a, w') => (Ok a, set_tx None w')
      | (Err exc, w') => exit_with_exception exc w'
      end
  end.

(** ** File access of the installer *)

Definition read (p : path) : M text :=
  catch (read_text p) (λ e,
    match e with
    | OSError ENOENT _ => raise_install (py "required file not found: " ++ path_text p)
    | _ => raise e
    end).

Definition in_transaction (record : M unit) : M unit :=
  active ← gets (λ w, match w_tx w with Some _ => true | None => false end);
  when active record.

Definition write (p : path) (s : text) : M unit :=
  fs ← ask id;
  old ← (if exists_ fs p then t ← read_text p; mret (Some t) else mret None);
  if (match old with Some t => text_eqb t s | None => false end : bool) then mret tt
  else
    validating ← gets w_validation_only;
    if (validating : bool) then
      raise_install (py "incomplete sandbox injection: validation would update " ++ path_text p)
    else
      in_transaction (record_file p) ;;
      mkdir_parents (parent p) ;;
      write_text p s ;;
      print (py "ABK KSU Sandbox: updated " ++ path_text p).

Definition remove_file (p : path) (description : text) : M unit :=
  fs ← ask id;
  if negb (exists_ fs p) then mret tt
  else if is_symlink fs p || negb (is_file fs p) then
    raise_install (py "refusing non-regular installer removal target: " ++ path_text p)
  else
    in_transaction (record_file p) ;;
    unlink p ;;
    print (py "ABK KSU Sandbox: removed " ++ description ++ py " " ++ path_text p).
