(* ===== verification/Rollback.v ===== *)
(** * The rollback theorem of the installer transaction

    [tx_inv fs0 fs tx] relates the tree at the start of the transaction, the current tree and
    the records, location by location.  Every operation of the installer keeps it, whatever
    it returns, and from any state that satisfies it [rollback] restores [fs0]. *)

From Stdlib Require Import Ascii.
From stdpp Require Import base list strings gmap sorting.
From S2P Require Import Prelude PyText PyResult World FsFacts Transaction.

(** Unification must not unroll the resolution of paths. *)
#[local] Opaque walk.

Section rollback.
(** The tree when the transaction starts, and the names of the files that the body may
remove; no directory is ever created under such a name. *)
Context (fs0 : fsys) (removable : string → bool).

(** The first record whose path is at the location [q]. *)
Fixpoint first_record (files : list (path * option file)) (q : path)
    : option (option file) :=
  match files with
  | [] => None
  | (p, b) :: files' =>
      if bool_decide (lloc fs0 p = Some q) then Some b else first_record files' q
  end.

(** Every ancestor of [c], and [c] itself, was a directory or is recorded as missing. *)
Definition covered (missing : list path) (c : path) : Prop :=
  ∀ c', c' `prefix_of` c → is_dir fs0 c' = true ∨ c' ∈ missing.

(** What a location may hold, given the record of its file if there is one. *)
Definition node_ok (missing : list path) (q : path) (r : option (option file))
    (cur : option node) : Prop :=
  match r with
  | Some (Some f) =>
      nodes fs0 !! q = Some (File f) ∧
      (cur = None ∧ removable (name q) = true ∨ ∃ f', cur = Some (File f'))
  | Some None => nodes fs0 !! q = None ∧ (cur = None ∨ ∃ f', cur = Some (File f'))
  | None =>
      cur = nodes fs0 !! q ∨
      (nodes fs0 !! q = None ∧ cur = Some Dir ∧
       ∃ c, c ∈ missing ∧ lloc fs0 c = Some q ∧ covered missing c)
  end.

Record tx_inv (fs : fsys) (tx : transaction) : Prop := TxInv {
  inv_links : links fs = links fs0;
  inv_wf : fs_wf fs;
  inv_nodes q : node_ok (tx_missing tx) q (first_record (tx_files tx) q) (nodes fs !! q);
  inv_missing c : c ∈ tx_missing tx → is_symlink fs0 c = false ∧ stat fs0 c = None;
  inv_files p b : (p, b) ∈ tx_files tx →
    ∃ q, lloc fs0 p = Some q ∧ links fs0 !! q = None ∧
         (is_Some b → is_dir fs (parent p) = true)
}.

Lemma tx_inv_start : fs_wf fs0 → tx_inv fs0 no_records.
Proof.
  intros Hwf. split; simpl; [done|done|by left|..]; [intros c Hc|intros p b Hp];
    by inversion_clear Hc || inversion_clear Hp.
Qed.

(** ** Facts about records *)

Lemma first_record_app files files' q :
  first_record (files ++ files') q =
  match first_record files q with
  | Some b => Some b
  | None => first_record files' q
  end.
Proof.
  induction files as [|[p b] files IH]; simpl; [done|].
  destruct (bool_decide _); [done|]. apply IH.
Qed.

Lemma first_record_elem files q b :
  first_record files q = Some b → ∃ p, (p, b) ∈ files ∧ lloc fs0 p = Some q.
Proof.
  induction files as [|[p b'] files IH]; simpl; [done|].
  destruct (bool_decide _) eqn:E.
  - intros [= ->]. apply bool_decide_eq_true in E. exists p. split; [left|done].
  - intros (p' & ? & ?)%IH. exists p'. split; [by right|done].
Qed.

Lemma covered_mono missing missing' c :
  missing ⊆ missing' → covered missing c → covered missing' c.
Proof. intros Hs H c' Hc. destruct (H c' Hc); [by left|right; auto]. Qed.

Lemma covered_prefix missing c d : d `prefix_of` c → covered missing c → covered missing d.
Proof. intros Hd H c' Hc. apply H. by trans d. Qed.

Lemma node_ok_mono missing missing' q r cur :
  missing ⊆ missing' → node_ok missing q r cur → node_ok missing' q r cur.
Proof.
  intros Hs. destruct r as [[f|]|]; simpl; [done..|].
  intros [?|(? & ? & c & ? & ? & ?)]; [by left|]. right. split_and!; [done..|].
  exists c. split_and!; [auto|done|by eapply covered_mono].
Qed.

Section inv.
Context (fs : fsys) (tx : transaction) (Hinv : tx_inv fs tx).

(** The body never removes a directory. *)
Lemma dir_kept q : nodes fs0 !! q = Some Dir → nodes fs !! q = Some Dir.
Proof.
  intros H0. pose proof (inv_nodes _ _ Hinv q) as H. unfold node_ok in H.
  destruct (first_record _ q) as [[f|]|]; intuition congruence.
Qed.

Lemma is_dir_kept p : is_dir fs0 p = true → is_dir fs p = true.
Proof.
  rewrite !is_dir_stat. unfold stat. rewrite (loc_stable _ _ (inv_links _ _ Hinv)).
  destruct (loc fs0 p); [apply dir_kept|done].
Qed.

Lemma inv_lloc p : lloc fs p = lloc fs0 p.
Proof. apply lloc_stable, Hinv. Qed.

Lemma inv_loc p : loc fs p = loc fs0 p.
Proof. apply loc_stable, Hinv. Qed.

Lemma inv_symlink p : is_symlink fs p = is_symlink fs0 p.
Proof. apply is_symlink_stable, Hinv. Qed.
End inv.

(** ** Outcomes

[settled]: a file that did not exist and was recorded is there now, or had a
removable name.  An operation starts from a settled state and may leave an unsettled
one only by raising. *)
Definition settled (fs : fsys) (tx : transaction) : Prop :=
  ∀ q, first_record (tx_files tx) q = Some None → nodes fs !! q = None →
       removable (name q) = true.

(** The tree changes only by new directories. *)
Definition only_dirs (fs fs' : fsys) : Prop :=
  ∀ q, nodes fs' !! q = nodes fs !! q ∨ nodes fs' !! q = Some Dir.

Definition dirs_grow (fs fs' : fsys) : Prop :=
  ∀ q, nodes fs !! q = Some Dir → nodes fs' !! q = Some Dir.

Definition fault_spent {A} (r : result A) (w w' : world) : Prop :=
  (w_fault w = None → w_fault w' = None) ∧
  (∀ p, r = Err (OSError EIO p) → w_fault w' = None).

(** The outcome of an operation; when [keep], it records no missing directory. *)
Definition outcome {A} (keep : Prop) (tx : transaction) (r : result A) (w w' : world)
    : Prop :=
  ∃ tx', w_tx w' = Some tx' ∧ tx_inv (w_fs w') tx' ∧
         (is_ok r = true → settled (w_fs w') tx') ∧
         dirs_grow (w_fs w) (w_fs w') ∧ fault_spent r w w' ∧
         (keep → tx_missing tx' = tx_missing tx).

(** An operation that may run in the transaction when the paths [ds] are directories, and
that creates no directory. *)
Definition safe {A} (ds : list path) (m : M A) : Prop :=
  ∀ w tx r w',
    w_tx w = Some tx → tx_inv (w_fs w) tx → settled (w_fs w) tx →
    Forall (λ d, is_dir (w_fs w) d = true) ds →
    m w = (r, w') → outcome True tx r w w'.

(** What is needed of the ancestors of a path that may have to be created: an ancestor
that is a directory now was one at the start or is recorded, and one that is missing
has no removable name. *)
Definition ancestors_ok (fs : fsys) (tx : transaction) (d : path) : Prop :=
  ∀ c, c `prefix_of` d →
       (is_dir fs c = true → is_dir fs0 c = true ∨ c ∈ tx_missing tx) ∧
       (is_dir fs c = true ∨ removable (name c) = false).

Lemma dirs_grow_refl fs : dirs_grow fs fs.
Proof. by intros q. Qed.

Lemma dirs_grow_trans f1 f2 f3 : dirs_grow f1 f2 → dirs_grow f2 f3 → dirs_grow f1 f3.
Proof. unfold dirs_grow. auto. Qed.

Lemma dirs_grow_is_dir fs fs' d :
  links fs' = links fs → dirs_grow fs fs' → is_dir fs d = true → is_dir fs' d = true.
Proof.
  rewrite !is_dir_stat. unfold stat. intros Hl Hg. rewrite (loc_stable _ _ Hl).
  destruct (loc fs d); [apply Hg|done].
Qed.

(** ** Recording *)

Lemma stat_none_start fs tx c :
  tx_inv fs tx → exists_ fs c = false → is_symlink fs c = false →
  removable (name c) = false → stat fs0 c = None.
Proof.
  intros Hinv Hex Hsym Hrem. apply exists_stat_false in Hex.
  rewrite (inv_symlink _ _ Hinv) in Hsym. pose proof (loc_not_symlink _ _ Hsym) as Hll.
  unfold stat in *. rewrite (inv_loc _ _ Hinv) in Hex.
  destruct (loc fs0 c) as [q|] eqn:Eq; [|done].
  assert (removable (name q) = false) as Hq.
  { destruct (path_cases c) as [->|(d & x & ->)]; [by injection Hll as ->|].
    rewrite lloc_snoc in Hll. destruct (loc fs0 d); [|done]. injection Hll as ->.
    by rewrite name_snoc in *. }
  pose proof (inv_nodes _ _ Hinv q) as H. unfold node_ok in H. rewrite Hex in H.
  assert (nodes fs0 !! q = None ∨ removable (name q) = true); [|naive_solver congruence].
  destruct (first_record _ q) as [[f|]|].
  - destruct H as [_ [[_ ?]|[? [=]]]]. by right.
  - left. apply H.
  - destruct H as [H|(? & [=] & _)]. by left.
Qed.

Lemma tx_inv_add_missing fs tx c :
  tx_inv fs tx → exists_ fs c = false → is_symlink fs c = false →
  removable (name c) = false →
  tx_inv fs (Transaction (tx_files tx) (tx_missing tx ++ [c])).
Proof.
  intros Hinv Hex Hsym Hrem. split; simpl; try apply Hinv.
  - intros q. eapply node_ok_mono, Hinv. set_solver.
  - intros d [Hd|Hd%list_elem_of_singleton]%elem_of_app; [by apply Hinv|subst d].
    split; [by rewrite <- (inv_symlink _ _ Hinv)|by eapply stat_none_start].
Qed.

Lemma set_tx_eta w tx : w_tx w = Some tx →
  w = set_tx (Some (Transaction (tx_files tx) (tx_missing tx))) w.
Proof. intros H. destruct w, tx; simpl in *. by subst. Qed.

Lemma add_missing_spec p w tx :
  w_tx w = Some tx → tx_inv (w_fs w) tx →
  exists_ (w_fs w) p = false → is_symlink (w_fs w) p = false →
  removable (name p) = false →
  ∃ missing,
    add_missing p w = (Ok tt, set_tx (Some (Transaction (tx_files tx) missing)) w) ∧
    tx_inv (w_fs w) (Transaction (tx_files tx) missing) ∧
    tx_missing tx ⊆ missing ∧ p ∈ missing.
Proof.
  intros Htx Hinv Hex Hsym Hrem. unfold add_missing, current_tx. mstep. rewrite Htx.
  destruct (existsb (path_eqb p) (tx_missing tx)) eqn:E.
  - exists (tx_missing tx). split_and!; [by rewrite <- set_tx_eta|by destruct tx|done|].
    apply existsb_exists in E as (p' & Hin & He). apply bool_decide_eq_true in He as <-.
    by apply list_elem_of_In.
  - exists (tx_missing tx ++ [p]).
    split_and!; [done|by apply tx_inv_add_missing|set_solver|set_solver].
Qed.

(** What the climb leaves: the same tree, more missing directories, and every prefix of the
path either above the cursor or recorded and absent. *)
Definition climbed (fs : fsys) (missing : list path) (d cursor : path) : Prop :=
  exists_ fs cursor = true ∧ cursor `prefix_of` d ∧ is_Some (loc fs0 d) ∧
  ∀ c, c `prefix_of` d →
       c `prefix_of` cursor ∨
       (c ∈ missing ∧ exists_ fs c = false ∧ is_symlink fs c = false).

Lemma climb_spec fuel d w tx r w' :
  length d ≤ fuel → w_tx w = Some tx → tx_inv (w_fs w) tx →
  (∀ c, c `prefix_of` d → is_dir (w_fs w) c = true ∨ removable (name c) = false) →
  climb_missing fuel d w = (r, w') →
  ∃ missing,
    w' = set_tx (Some (Transaction (tx_files tx) missing)) w ∧
    tx_inv (w_fs w) (Transaction (tx_files tx) missing) ∧ tx_missing tx ⊆ missing ∧
    (∀ p, r ≠ Err (OSError EIO p)) ∧
    (exists_ (w_fs w) d = true → missing = tx_missing tx) ∧
    ∀ cursor, r = Ok cursor → climbed (w_fs w) missing d cursor.
Proof.
  revert d w tx. induction fuel as [|fuel IH]; intros d w tx Hlen Htx Hinv Hnames.
  all: cbn [climb_missing]; mstep; unfold id; destruct (exists_ (w_fs w) d) eqn:Ed.
  1,3: intros [= <- <-]; exists (tx_missing tx);
    split_and!; [by rewrite <- set_tx_eta|by destruct tx|done|done|done|];
    intros cursor [= <-]; split_and!; [done|done| |auto];
    rewrite <- (inv_loc _ _ Hinv); by apply exists_loc.
  all: destruct (path_cases d) as [->|(e & x & ->)];
    [by rewrite (root_exists _ (inv_wf _ _ Hinv)) in Ed|].
  { rewrite length_app in Hlen. simpl in Hlen. lia. }
  destruct (is_symlink (w_fs w) (e ++ [x])) eqn:Es.
  { intros [= <- <-]. exists (tx_missing tx).
    split_and!; [by rewrite <- set_tx_eta|by destruct tx|done|done|done|done]. }
  destruct (Hnames (e ++ [x])) as [Hd|Hrem]; [done|..].
  { apply is_dir_exists in Hd. congruence. }
  destruct (add_missing_spec (e ++ [x]) w tx) as (m1 & Hadd & Hinv1 & Hsub1 & Hin1); [done..|].
  erewrite bind_ok by exact Hadd. destruct (e ++ [x]) eqn:Eex; [by destruct e|].
  rewrite <- Eex in *. rewrite parent_snoc. intros Hrun.
  apply IH with (tx := Transaction (tx_files tx) m1) in Hrun as (m2 & -> & Hinv2 & Hsub2 & Hne & _ & Hok);
    [|rewrite length_app in Hlen; simpl in Hlen; lia|done|done
     |intros c Hc; apply Hnames; trans e; [done|by exists [x]]].
  exists m2. simpl in *. split_and!; [done|done|by trans m1|done|done|].
  intros cursor Hc. destruct (Hok cursor Hc) as (H1 & H2 & [q Hq] & H4). split_and!; [done|..].
  - trans e; [done|by exists [x]].
  - rewrite (inv_symlink _ _ Hinv) in Es. rewrite (loc_not_symlink _ _ Es), lloc_snoc, Hq. eauto.
  - intros c [->|Hpre]%prefix_snoc_cases; [|auto]. right. auto.
Qed.

(** Every ancestor is a directory, or is recorded and absent. *)
Definition planned (fs : fsys) (missing : list path) (d : path) : Prop :=
  ∀ c, c `prefix_of` d →
       is_dir fs c = true ∨
       (c ∈ missing ∧ exists_ fs c = false ∧ is_symlink fs c = false).

Lemma record_missing_spec d w tx r w' :
  w_tx w = Some tx → tx_inv (w_fs w) tx →
  is_dir (w_fs w) d = true ∨ ancestors_ok (w_fs w) tx d →
  record_missing_directories d w = (r, w') →
  ∃ missing,
    w' = set_tx (Some (Transaction (tx_files tx) missing)) w ∧
    tx_inv (w_fs w) (Transaction (tx_files tx) missing) ∧ tx_missing tx ⊆ missing ∧
    (∀ p, r ≠ Err (OSError EIO p)) ∧
    (is_dir (w_fs w) d = true → missing = tx_missing tx) ∧
    (r = Ok tt → planned (w_fs w) missing d ∧ is_Some (loc fs0 d) ∧
                 (is_dir (w_fs w) d = true ∨ covered missing d)).
Proof.
  intros Htx Hinv Hd. unfold record_missing_directories. intros H. minv H cursor w1 E.
  all: apply climb_spec with (tx := tx) in E as (m & -> & Hinv1 & Hsub & Hne & Hkeep & Hok);
    [|done..|intros c Hc; destruct Hd as [Hd|Ha];
             [left; by eapply exists_prefix_dir; [apply Hinv|..]|by apply Ha]].
  all: assert (is_dir (w_fs w) d = true → m = tx_missing tx) as Hkeep'
         by (intros ?%is_dir_exists; auto).
  2: { injection H as <- <-. exists m. split_and!; try done. intros p [= ->]. by eapply Hne. }
  destruct (Hok cursor eq_refl) as (Hex & Hpre & Hloc & Hcl).
  rewrite ask_bind in H. cbv beta in H. unfold id in H.
  change (w_fs (set_tx _ w)) with (w_fs w) in H. rewrite Hex in H. simpl in H.
  destruct (is_dir (w_fs w) cursor) eqn:Edir; injection H as <- <-;
    exists m; split_and!; try done; intros _.
  assert (planned (w_fs w) m d) as Hpl.
  { intros c [Hc|?]%Hcl; [|by right]. left. by eapply exists_prefix_dir; [apply Hinv|..]. }
  split_and!; [done..|]. destruct Hd as [Hd|Ha]; [by left|right]. intros c Hc.
  destruct (Hpl c Hc) as [Hc'|(? & _)]; [|by right].
  destruct (Ha c Hc) as [Ha' _]. destruct (Ha' Hc') as [?|?]; [by left|right; auto].
Qed.

Lemma tx_inv_add_file fs tx p q b :
  tx_inv fs tx → lloc fs0 p = Some q → links fs0 !! q = None →
  nodes fs !! q = File <$> b → (is_Some b → is_dir fs (parent p) = true) →
  tx_inv fs (Transaction (tx_files tx ++ [(p, b)]) (tx_missing tx)).
Proof.
  intros Hinv Hq Hl Hn Hd. split; simpl; try apply Hinv.
  - intros q'. pose proof (inv_nodes _ _ Hinv q') as H. rewrite first_record_app. simpl.
    destruct (first_record (tx_files tx) q') as [r|] eqn:Er; [done|].
    destruct (bool_decide (lloc fs0 p = Some q')) eqn:Eq; [|done].
    apply bool_decide_eq_true in Eq. assert (q' = q) as -> by congruence.
    unfold node_ok in H. rewrite Hn in *. destruct b as [f|]; simpl in *.
    + destruct H as [H|(_ & [=] & _)]. eauto.
    + destruct H as [H|(? & _ & _)]; eauto.
  - intros p' b' [H|H%list_elem_of_singleton]%elem_of_app; [by apply Hinv|].
    injection H as -> ->. eauto.
Qed.

Definition recorded_at (tx : transaction) (q : path) : Prop :=
  is_Some (first_record (tx_files tx) q).

Lemma recorded_elem tx p b :
  (p, b) ∈ tx_files tx → ∀ q, lloc fs0 p = Some q → recorded_at tx q.
Proof.
  unfold recorded_at. intros Hin q Hq.
  induction (tx_files tx) as [|[p' b'] files IH]; simpl; [by inversion Hin|].
  destruct (bool_decide _) eqn:E; [by eexists|].
  apply elem_of_cons in Hin as [[= <- <-]|Hin]; [|auto]. by bool_hyps.
Qed.

Lemma existsb_file_elem p (files : list (path * option file)) :
  existsb (λ pb, path_eqb p pb.1) files = true → ∃ b, (p, b) ∈ files.
Proof.
  intros ([p' b] & Hin & He)%existsb_exists. apply bool_decide_eq_true in He. simpl in He.
  subst p'. exists b. by apply list_elem_of_In.
Qed.

Lemma add_file_spec p b w tx :
  w_tx w = Some tx →
  add_file p b w =
  (Ok tt, set_tx (Some (Transaction (tx_files tx ++ [(p, b)]) (tx_missing tx))) w).
Proof. intros Htx. unfold add_file, current_tx. mstep. by rewrite Htx. Qed.

Lemma stat_file_ok p f w : stat (w_fs w) p = Some (File f) → stat_file p w = (Ok f, w).
Proof.
  unfold stat, stat_file. intros H. mstep. unfold id.
  destruct (loc (w_fs w) p) as [q|]; [|done]. by rewrite H.
Qed.

Lemma fault_spent_refl {A} (r : result A) w w' :
  w_fault w' = w_fault w → (∀ p, r ≠ Err (OSError EIO p)) → fault_spent r w w'.
Proof. intros H Hne. split; [congruence|]. intros p Hp. by destruct (Hne p). Qed.

Lemma settled_snoc fs tx p q b :
  settled fs tx → lloc fs0 p = Some q →
  ∀ q', q' ≠ q → first_record (tx_files tx ++ [(p, b)]) q' = Some None →
        nodes fs !! q' = None → removable (name q') = true.
Proof.
  intros Hset Hq q' Hne. rewrite first_record_app. simpl.
  destruct (first_record (tx_files tx) q') eqn:E; [intros [= ->]; by apply Hset|].
  rewrite bool_decide_eq_false_2; [done|]. congruence.
Qed.

(** What [record_file] establishes for the path: its location [q] is recorded, and nothing
else is unsettled. *)
Definition file_recorded (fs : fsys) (tx : transaction) (p q : path) : Prop :=
  lloc fs0 p = Some q ∧ links fs0 !! q = None ∧ recorded_at tx q ∧
  (∀ q', q' ≠ q → first_record (tx_files tx) q' = Some None →
         nodes fs !! q' = None → removable (name q') = true) ∧
  planned fs (tx_missing tx) (parent p) ∧
  (is_dir fs (parent p) = true ∨ covered (tx_missing tx) (parent p)).

Lemma file_recorded_snoc fs tx m p q b :
  settled fs tx → lloc fs0 p = Some q → links fs0 !! q = None →
  planned fs m (parent p) → is_dir fs (parent p) = true ∨ covered m (parent p) →
  file_recorded fs (Transaction (tx_files tx ++ [(p, b)]) m) p q.
Proof.
  intros Hset Hq Hl Hpl Hd. pose proof (settled_snoc _ _ _ _ b Hset Hq).
  split_and!; simpl; try done.
  apply (recorded_elem (Transaction (tx_files tx ++ [(p, b)]) m) p b); [|done].
  apply elem_of_app. right. by left.
Qed.

Definition may_create (fs : fsys) (tx : transaction) (p : path) : Prop :=
  is_dir fs (parent p) = true ∨
  (ancestors_ok fs tx (parent p) ∧
   existsb (λ pb, path_eqb p pb.1) (tx_files tx) = false).

(** Where a path that is no link is, in the old tree and in the present one. *)
Lemma place_of fs tx p d :
  tx_inv fs tx → is_symlink fs p = false → loc fs0 (parent p) = Some d →
  ∃ q, lloc fs0 p = Some q ∧ links fs0 !! q = None ∧ stat fs p = nodes fs !! q.
Proof.
  intros Hinv Hs Hd. assert (∃ q, lloc fs0 p = Some q) as [q Hq].
  { destruct (path_cases p) as [->|(e & x & ->)]; [by exists []|].
    rewrite parent_snoc in Hd. rewrite lloc_snoc, Hd. eauto. }
  assert (links fs0 !! q = None) as Hl.
  { rewrite (inv_symlink _ _ Hinv) in Hs. unfold is_symlink in Hs. rewrite Hq in Hs.
    by destruct (links fs0 !! q). }
  exists q. split_and!; [done|done|].
  apply stat_lloc; [by rewrite (inv_lloc _ _ Hinv)|by rewrite (inv_links _ _ Hinv)].
Qed.

(** The file is added to the records. *)
Lemma add_file_records fs tx m p q b w r w' :
  settled fs tx → tx_inv fs (Transaction (tx_files tx) m) →
  lloc fs0 p = Some q → links fs0 !! q = None → planned fs m (parent p) →
  is_dir fs (parent p) = true ∨ covered m (parent p) →
  nodes fs !! q = File <$> b → (is_Some b → is_dir fs (parent p) = true) →
  w_tx w = Some (Transaction (tx_files tx) m) → w_fs w = fs →
  add_file p b w = (r, w') →
  r = Ok tt ∧ w_fault w' = w_fault w ∧
  ∃ tx', w_tx w' = Some tx' ∧ w_fs w' = fs ∧ tx_inv fs tx' ∧ tx_missing tx' = m ∧
         file_recorded fs tx' p q.
Proof.
  intros Hset Hinv Hq Hl Hpl Hcov Hb Hbd Htx Hfs. rewrite (add_file_spec _ _ _ _ Htx).
  intros [= <- <-]. split_and!; [done|done|]. eexists. split_and!; [done|done| |done|].
  - by apply (tx_inv_add_file _ (Transaction (tx_files tx) m) _ q).
  - by apply file_recorded_snoc.
Qed.

(** A file that is in the records already. *)
Lemma recorded_before fs tx p :
  tx_inv fs tx → settled fs tx → may_create fs tx p →
  existsb (λ pb, path_eqb p pb.1) (tx_files tx) = true → ∃ q, file_recorded fs tx p q.
Proof.
  intros Hinv Hset Hpar Hex. destruct Hpar as [Hpar|[_ Hpar]]; [|congruence].
  apply existsb_file_elem in Hex as [b Hb].
  destruct (inv_files _ _ Hinv _ _ Hb) as (q & Hq & Hl & _). exists q.
  unfold file_recorded. split_and!;
    [done|by apply Hl|by eapply recorded_elem|by intros ? _; apply Hset| |].
  - intros c Hc. left. by eapply exists_prefix_dir; [apply Hinv|..].
  - by left.
Qed.

Lemma record_file_spec p w tx r w' :
  w_tx w = Some tx → tx_inv (w_fs w) tx → settled (w_fs w) tx →
  may_create (w_fs w) tx p →
  record_file p w = (r, w') →
  ∃ tx',
    w_tx w' = Some tx' ∧ w_fs w' = w_fs w ∧ tx_inv (w_fs w) tx' ∧ fault_spent r w w' ∧
    (is_dir (w_fs w) (parent p) = true → tx_missing tx' = tx_missing tx) ∧
    (r = Ok tt → ∃ q, file_recorded (w_fs w) tx' p q).
Proof.
  intros Htx Hinv Hset Hpar. unfold record_file, current_tx. mstep. rewrite Htx.
  destruct (existsb _ _) eqn:Eex.
  { intros [= <- <-]. exists tx. split_and!; [done..|by split|done|]. intros _.
    by apply recorded_before. }
  mstep. unfold id at 1. destruct (is_symlink (w_fs w) p) eqn:Esym.
  { intros [= <- <-]. exists tx. split_and!; [done..|by apply fault_spent_refl|done|done]. }
  intros H. minv H u w1 E.
  all: apply record_missing_spec with (tx := tx) in E
    as (m & -> & Hinv1 & Hsub & Hne & Hkeep & Hok); [|done..|destruct Hpar as [?|[? _]]; by auto].
  2: { injection H as <- <-. eexists. split_and!; [done..| |done|done].
       apply fault_spent_refl; [done|]. intros q [= ->]. by eapply Hne. }
  destruct u. destruct (Hok eq_refl) as (Hpl & [d Hd] & Hcov). clear Hok Hne.
  rewrite ask_bind in H. cbv beta in H. unfold id in H.
  change (w_fs (set_tx _ w)) with (w_fs w) in H.
  destruct (place_of _ _ _ _ Hinv Esym Hd) as (q & Hq & Hl & Hst).
  pose proof (λ b, add_file_records (w_fs w) tx m p q b) as Hadd.
  set (tx1 := Transaction (tx_files tx) m) in *.
  destruct (exists_ (w_fs w) p) eqn:Ep.
  - destruct (is_file (w_fs w) p) eqn:Ef; simpl in H.
    2: { injection H as <- <-. exists tx1. split_and!; [done..|by apply fault_spent_refl|done|done]. }
    apply is_file_stat in Ef as [f Hf].
    unfold copy_to_backup in H. rewrite bind_eq in H.
    erewrite bind_ok in H by (by apply stat_file_ok).
    rewrite bind_eq in H. destruct (tick _) as [b w2] eqn:Et.
    apply tick_spec in Et as (failed & -> & Hw2 & Ht1 & Ht2 & Ht3). simpl in Ht1, Ht3.
    destruct failed.
    + injection H as <- <-. exists tx1. rewrite Hw2. split_and!; [done..| |done|done].
      split; simpl; auto.
    + simpl in H. apply Hadd in H
        as (-> & H1 & tx' & H2 & H3 & H4 & <- & H5); try done;
        try (by rewrite Hw2); try (by rewrite <- Hst).
      * exists tx'. split_and!; [done..| |done|by eauto]. split; [|done].
        intros. rewrite H1. auto.
      * intros _. apply exists_parent_dir; [apply Hinv|done].
  - apply Hadd in H as (-> & H1 & tx' & H2 & H3 & H4 & <- & H5); try done;
      try (by intros [? [=]]).
    + exists tx'. split_and!; [done..| |done|by eauto]. by apply fault_spent_refl.
    + rewrite <- Hst. by apply exists_stat_false.
Qed.
(** ** Creating directories *)

(** A path whose missing ancestors may become directories. *)
Definition creatable (fs : fsys) (tx : transaction) (d : path) : Prop :=
  covered (tx_missing tx) d ∧
  ∀ c, c `prefix_of` d →
       is_dir fs c = true ∨
       (c ∈ tx_missing tx ∧ is_symlink fs0 c = false ∧
        ∀ q, lloc fs0 c = Some q →
             nodes fs0 !! q = None ∧ first_record (tx_files tx) q = None).

Lemma creatable_prefix fs tx c d : c `prefix_of` d → creatable fs tx d → creatable fs tx c.
Proof.
  intros Hc [H1 H2]. split; [by eapply covered_prefix|]. intros c' Hc'. apply H2. by trans c.
Qed.

Lemma creatable_grow fs fs' tx d :
  links fs' = links fs → dirs_grow fs fs' → creatable fs tx d → creatable fs' tx d.
Proof.
  intros Hl Hg [H1 H2]. split; [done|]. intros c Hc.
  destruct (H2 c Hc); [left; by eapply dirs_grow_is_dir|by right].
Qed.

(** The relation between the worlds around an operation that only creates directories. *)
Record mkdir_step (w w' : world) (tx : transaction) : Prop := MkdirStep {
  ms_tx : w_tx w' = Some tx;
  ms_inv : tx_inv (w_fs w') tx;
  ms_only : only_dirs (w_fs w) (w_fs w');
  ms_fault : w_fault w = None → w_fault w' = None
}.

Lemma only_dirs_refl fs : only_dirs fs fs.
Proof. by left. Qed.

Lemma only_dirs_grow fs fs' : only_dirs fs fs' → dirs_grow fs fs'.
Proof. intros H q Hq. destruct (H q) as [->|]; done. Qed.

Lemma only_dirs_trans f1 f2 f3 : only_dirs f1 f2 → only_dirs f2 f3 → only_dirs f1 f3.
Proof.
  intros H1 H2 q. destruct (H2 q) as [E2|]; [|by right]. rewrite E2. apply H1.
Qed.

Lemma only_dirs_settled fs fs' tx : only_dirs fs fs' → settled fs tx → settled fs' tx.
Proof.
  intros Ho Hs q Hq Hn. apply Hs; [done|]. destruct (Ho q) as [E|E]; congruence.
Qed.

Lemma mkdir_step_refl w tx : w_tx w = Some tx → tx_inv (w_fs w) tx → mkdir_step w w tx.
Proof. intros. split; [done..|apply only_dirs_refl|done]. Qed.

Lemma mkdir_step_trans w1 w2 w3 tx :
  mkdir_step w1 w2 tx → mkdir_step w2 w3 tx → mkdir_step w1 w3 tx.
Proof.
  intros [???] [???]. split; [done..|by eapply only_dirs_trans|auto].
Qed.

Lemma tx_inv_put_dir fs tx d x c :
  tx_inv fs tx → nodes fs !! d = Some Dir → nodes fs !! (d ++ [x]) = None →
  c ∈ tx_missing tx → lloc fs0 c = Some (d ++ [x]) → links fs0 !! (d ++ [x]) = None →
  nodes fs0 !! (d ++ [x]) = None → first_record (tx_files tx) (d ++ [x]) = None →
  covered (tx_missing tx) c →
  tx_inv (put (d ++ [x]) (Some Dir) fs) tx.
Proof.
  intros Hinv Hd Hn Hc Hlc Hl H0 Hr Hcov. split; simpl; try apply Hinv.
  - apply put_wf; [apply Hinv|done|by rewrite (inv_links _ _ Hinv)|congruence].
  - intros q. destruct (decide (d ++ [x] = q)) as [<-|Hne].
    + rewrite lookup_partial_alter_eq, Hr. right. eauto 8.
    + rewrite lookup_partial_alter_ne by done. apply Hinv.
  - intros p b Hp. destruct (inv_files _ _ Hinv _ _ Hp) as (q & ? & ? & Hb).
    exists q. split_and!; [done..|]. intros Hb'%Hb.
    eapply dirs_grow_is_dir; [| |apply Hb']; [done|]. intros q' Hq'.
    destruct (decide (d ++ [x] = q')) as [<-|?]; [congruence|by rewrite put_other].
Qed.

Lemma put_only_dirs q fs : only_dirs fs (put q (Some Dir) fs).
Proof.
  intros q'. destruct (decide (q = q')) as [<-|?].
  - right. apply put_same.
  - left. by apply put_other.
Qed.

(** One [os.mkdir] on a creatable path. *)
Lemma os_mkdir_spec d w tx r w' :
  w_tx w = Some tx → tx_inv (w_fs w) tx → creatable (w_fs w) tx d →
  os_mkdir d w = (r, w') →
  mkdir_step w w' tx ∧
  match r with
  | Ok _ => is_dir (w_fs w') d = true
  | Err (OSError EIO _) => is_dir (w_fs w) d = false ∧ w_fs w' = w_fs w ∧ w_fault w' = None
  | Err (OSError _ _) => w' = w
  | Err _ => False
  end.
Proof.
  intros Htx Hinv [Hcov Hcr]. unfold os_mkdir. mstep. unfold id.
  pose proof (mkdir_step_refl _ _ Htx Hinv) as Hrefl.
  rewrite (inv_lloc _ _ Hinv), (inv_links _ _ Hinv).
  destruct (lloc fs0 d) as [q|] eqn:Eq; [|by intros [= <- <-]].
  destruct (links fs0 !! q) eqn:El; [by intros [= <- <-]|].
  destruct (nodes (w_fs w) !! q) as [n|] eqn:En; [by intros [= <- <-]|].
  destruct (nodes (w_fs w) !! parent q) as [[f|]|] eqn:Ep; cycle 1.
  2,3: unfold os_error, missing_errno; destruct (has_file_prefix _ _ _);
       by intros [= <- <-].
  assert (is_dir (w_fs w) d = false) as Hnd.
  { unfold is_dir. erewrite stat_lloc;
      [by rewrite En|by rewrite (inv_lloc _ _ Hinv)|by rewrite (inv_links _ _ Hinv)]. }
  destruct (Hcr d) as [?|(Hin & Hsym & Hq)]; [done|congruence|].
  destruct (Hq q Eq) as [H0 Hr].
  intros H. rewrite bind_eq in H. destruct (tick w) as [b w2] eqn:Et.
  apply tick_spec in Et as (failed & -> & Hw2 & Ht1 & Ht2 & Ht3).
  assert (w_fs w2 = w_fs w) as Hfs2 by by rewrite Hw2.
  assert (w_tx w2 = Some tx) as Htx2 by by rewrite Hw2.
  destruct (path_cases q) as [->|(e & x & ->)].
  { by rewrite (wf_root _ (inv_wf _ _ Hinv)) in En. }
  rewrite parent_snoc in Ep. destruct failed; injection H as <- <-.
  - split; [|by auto]. split; [done|by rewrite Hfs2|rewrite Hfs2; apply only_dirs_refl|done].
  - simpl in *. rewrite Hfs2. split.
    + split; simpl; [done|..|done];
        [by eapply (tx_inv_put_dir _ _ _ _ d)|apply put_only_dirs].
    + change (Fsys _ _) with (put (e ++ [x]) (Some Dir) (w_fs w)).
      apply is_dir_stat. erewrite stat_lloc; [apply put_same|..|].
      * by rewrite (lloc_stable (w_fs w)), (inv_lloc _ _ Hinv).
      * simpl. by rewrite (inv_links _ _ Hinv).
Qed.
(** The handler of a failed [os.mkdir] that is not for a missing parent. *)
Lemma unless_dir_spec d w w1 tx en q r w' :
  unless_dir d (OSError en q) w1 = (r, w') → mkdir_step w w1 tx →
  match en with
  | EIO => is_dir (w_fs w) d = false ∧ w_fs w1 = w_fs w ∧ w_fault w1 = None
  | _ => w1 = w
  end →
  mkdir_step w w' tx ∧ (r = Ok tt → is_dir (w_fs w') d = true) ∧
  (∀ p, r = Err (OSError EIO p) → w_fault w' = None).
Proof.
  unfold unless_dir. mstep. unfold id.
  destruct (is_dir (w_fs w1) d) eqn:Ed; intros [= <- <-] Hs He; split_and!; try done.
  intros p [= -> _]. apply He.
Qed.

Lemma mkdir_here_spec d w tx r w' :
  w_tx w = Some tx → tx_inv (w_fs w) tx → creatable (w_fs w) tx d →
  mkdir_here d w = (r, w') →
  mkdir_step w w' tx ∧ (r = Ok tt → is_dir (w_fs w') d = true) ∧
  (∀ p, r = Err (OSError EIO p) → w_fault w' = None).
Proof.
  intros Htx Hinv Hcr. unfold mkdir_here, catch.
  destruct (os_mkdir d w) as [[u|e] w1] eqn:E;
    apply (os_mkdir_spec _ _ _ _ _ Htx Hinv Hcr) in E as [Hs He].
  { intros [= <- <-]. by split_and!. }
  destruct e as [|en ?|]; [done| |done].
  destruct en; try (intros H; by eapply unless_dir_spec). by intros [= <- <-].
Qed.

Lemma mkdir_from_spec fuel d w tx r w' :
  length d ≤ fuel → w_tx w = Some tx → tx_inv (w_fs w) tx → creatable (w_fs w) tx d →
  mkdir_from fuel d w = (r, w') →
  mkdir_step w w' tx ∧ (r = Ok tt → is_dir (w_fs w') d = true) ∧
  (∀ p, r = Err (OSError EIO p) → w_fault w' = None).
Proof.
  revert d w r w'. induction fuel as [|fuel IH]; intros d w r w' Hlen Htx Hinv Hcr;
    cbn [mkdir_from]; unfold catch;
    destruct (os_mkdir d w) as [[u|e] w1] eqn:E;
    apply (os_mkdir_spec _ _ _ _ _ Htx Hinv Hcr) in E as [Hs He];
    try (intros [= <- <-]; by split_and!);
    (destruct e as [|en ?|]; [done| |done]);
    destruct en; try (intros H; by eapply unless_dir_spec).
  { by intros [= <- <-]. }
  subst w1. destruct d as [|c0 d0] eqn:Ed; [by intros [= <- <-]|]. rewrite <- Ed in *.
  assert (d ≠ []) as Hne by by rewrite Ed. clear Ed. intros H. minv H u w1 E.
  all: apply IH in E as (Hs1 & Hd1 & He1); [|pose proof (length_parent d Hne); lia|done..
    |eapply creatable_prefix, Hcr; apply prefix_parent].
  - destruct Hs1 as [Htx1 Hinv1 Ho1 Hf1].
    apply mkdir_here_spec with (tx := tx) in H as (Hs2 & Hd2 & He2); [|done..|].
    + split_and!; [|done..]. eapply mkdir_step_trans; [by split|done].
    + eapply creatable_grow, Hcr; [|by apply only_dirs_grow].
      by rewrite (inv_links _ _ Hinv), (inv_links _ _ Hinv1).
  - injection H as <- <-. split_and!; [done..|]. intros p [= ->]. by eapply He1.
Qed.
Lemma lloc_of_dir fs d : is_dir fs d = true → ∃ q, lloc fs d = Some q ∧
  (is_Some (links fs !! q) ∨ nodes fs !! q = Some Dir).
Proof.
  intros Hd. pose proof (exists_loc _ _ (is_dir_exists _ _ Hd)) as [l Hl].
  assert (∃ q, lloc fs d = Some q) as [q Hq].
  { destruct (path_cases d) as [->|(e & x & ->)]; [by exists []|].
    destruct (walk_snoc_inv _ _ _ _ _ _ Hl) as [q Hq]. rewrite lloc_snoc.
    unfold loc. rewrite Hq. by eexists. }
  exists q. split; [done|]. destruct (links fs !! q) eqn:El; [left; by eexists|right].
  apply is_dir_stat in Hd. by rewrite (stat_lloc _ _ _ Hq El) in Hd.
Qed.

Lemma mkdir_parents_existing d w :
  is_dir (w_fs w) d = true → mkdir_parents d w = (Ok tt, w).
Proof.
  intros Hd. destruct (lloc_of_dir _ _ Hd) as (q & Hq & Hn).
  assert (os_mkdir d w = (Err (OSError EEXIST (path_text d)), w)) as Hos.
  { unfold os_mkdir. mstep. unfold id. rewrite Hq. destruct Hn as [[t ->]| ->]; [done|].
    by destruct (links (w_fs w) !! q). }
  unfold mkdir_parents. destruct d; cbn [length mkdir_from]; unfold catch; rewrite Hos;
    unfold unless_dir; mstep; unfold id; by rewrite Hd.
Qed.

Lemma mkdir_parents_spec d w tx r w' :
  w_tx w = Some tx → tx_inv (w_fs w) tx →
  is_dir (w_fs w) d = true ∨ creatable (w_fs w) tx d →
  mkdir_parents d w = (r, w') →
  mkdir_step w w' tx ∧ (r = Ok tt → is_dir (w_fs w') d = true) ∧
  (∀ p, r = Err (OSError EIO p) → w_fault w' = None).
Proof.
  intros Htx Hinv [Hd|Hcr].
  - rewrite (mkdir_parents_existing _ _ Hd). intros [= <- <-].
    split_and!; [by apply mkdir_step_refl|done|done].
  - by apply mkdir_from_spec.
Qed.

(** Below a missing path no link is met. *)
Lemma loc_below_missing fs tx m c rest q :
  tx_inv fs tx → planned fs m (c ++ rest) → exists_ fs c = false → loc fs0 c = Some q →
  loc fs0 (c ++ rest) = Some (q ++ rest).
Proof.
  intros Hinv Hpl Hc Hq. induction rest as [|x rest IH] using rev_ind.
  { by rewrite !app_nil_r. }
  assert (planned fs m (c ++ rest)) as Hpl'.
  { intros c' Hc'. apply Hpl. trans (c ++ rest); [done|]. exists [x]. by rewrite app_assoc. }
  specialize (IH Hpl'). rewrite app_assoc in *.
  assert (is_symlink fs0 ((c ++ rest) ++ [x]) = false) as Hs.
  { destruct (Hpl ((c ++ rest) ++ [x])) as [Hd|(_ & _ & Hs)]; [done|..].
    - assert (is_dir fs c = true) as Hcd.
      { eapply exists_prefix_dir; [apply Hinv|apply Hd|]. exists (rest ++ [x]).
        by rewrite app_assoc. }
      apply is_dir_exists in Hcd. congruence.
    - by rewrite <- (inv_symlink _ _ Hinv). }
  rewrite (loc_not_symlink _ _ Hs), lloc_snoc, IH. simpl. by rewrite app_assoc.
Qed.

Definition names_ok (fs : fsys) (d : path) : Prop :=
  ∀ c, c `prefix_of` d → is_dir fs c = true ∨ removable (name c) = false.

(** A planned and covered path is creatable when no file is recorded, and still missing,
at the location of one of its missing prefixes. *)
Lemma planned_creatable fs tx d :
  tx_inv fs tx → planned fs (tx_missing tx) d → covered (tx_missing tx) d →
  names_ok fs d →
  (∀ c qc, c `prefix_of` d → exists_ fs c = false → loc fs0 c = Some qc →
           nodes fs !! qc = None → removable (name qc) = false →
           first_record (tx_files tx) qc = Some None → False) →
  creatable fs tx d.
Proof.
  intros Hinv Hpl Hcov Hnames Hnone.
  split; [done|]. intros c Hc. destruct (Hpl c Hc) as [?|(Hin & Hex & Hsym)]; [by left|right].
  destruct (Hnames c Hc) as [Hd|Hrem]; [apply is_dir_exists in Hd; congruence|].
  pose proof Hsym as Hsym0. rewrite (inv_symlink _ _ Hinv) in Hsym0.
  split_and!; [done..|]. intros qc Hqc.
  pose proof (loc_not_symlink _ _ Hsym0) as Hlc. rewrite Hqc in Hlc.
  assert (nodes fs !! qc = None) as Hn.
  { apply exists_stat_false in Hex. unfold stat in Hex. rewrite (inv_loc _ _ Hinv), Hlc in Hex.
    done. }
  assert (removable (name qc) = false) as Hrq.
  { destruct (path_cases c) as [->|(e & x & ->)]; [by injection Hqc as <-|].
    rewrite lloc_snoc in Hqc. destruct (loc fs0 e); [|done]. injection Hqc as <-.
    by rewrite name_snoc in *. }
  split.
  { pose proof (stat_none_start _ _ _ Hinv Hex Hsym Hrem) as H. unfold stat in H.
    by rewrite Hlc in H. }
  pose proof (inv_nodes _ _ Hinv qc) as Hok. unfold node_ok in Hok. rewrite Hn in Hok.
  destruct (first_record (tx_files tx) qc) as [[f|]|] eqn:Er; [| |done].
  - destruct Hok as [_ [[_ ?]|[? [=]]]]. congruence.
  - by destruct (Hnone c qc Hc Hex Hlc Hn Hrq).
Qed.

Lemma recorded_creatable fs tx p q :
  tx_inv fs tx → file_recorded fs tx p q → names_ok fs (parent p) →
  is_dir fs (parent p) = true ∨ creatable fs tx (parent p).
Proof.
  intros Hinv (Hq & Hl & Hrec & Hset & Hpl & [Hd|Hcov]) Hnames; [by left|right].
  apply planned_creatable; [done..|]. intros c qc [rest Hrest] Hex Hlc Hn Hrq Er.
  assert (qc ≠ q) as Hne; [|rewrite (Hset qc Hne Er Hn) in Hrq; done].
  intros ->. assert (loc fs0 (parent p) = Some (q ++ rest)) as Hlp.
  { rewrite Hrest in Hpl |- *. by eapply loc_below_missing. }
  destruct (path_cases p) as [->|(d & x & ->)].
  - simpl in Hrest. destruct c; [|done]. by rewrite (root_exists _ (inv_wf _ _ Hinv)) in Hex.
  - rewrite parent_snoc in Hlp. rewrite lloc_snoc, Hlp in Hq. injection Hq as Hq.
    apply (f_equal length) in Hq. rewrite !length_app in Hq. simpl in Hq. lia.
Qed.

(** ** Writing and removing files *)

Lemma recorded_not_dir fs tx q :
  tx_inv fs tx → recorded_at tx q → nodes fs !! q = None ∨ ∃ f, nodes fs !! q = Some (File f).
Proof.
  intros Hinv [r Hr]. pose proof (inv_nodes _ _ Hinv q) as H. rewrite Hr in H.
  destruct r as [f|]; simpl in H; naive_solver.
Qed.

Lemma put_grow q n fs : nodes fs !! q ≠ Some Dir → dirs_grow fs (put q n fs).
Proof.
  intros Hn q' Hq'. destruct (decide (q = q')) as [<-|?]; [done|by rewrite put_other].
Qed.

Lemma tx_inv_put_file fs tx q d x f :
  tx_inv fs tx → recorded_at tx q → q = d ++ [x] → nodes fs !! d = Some Dir →
  links fs0 !! q = None → tx_inv (put q (Some (File f)) fs) tx.
Proof.
  intros Hinv Hrec -> Hd Hl.
  pose proof (recorded_not_dir _ _ _ Hinv Hrec) as Hn.
  assert (nodes fs !! (d ++ [x]) ≠ Some Dir) as Hnd by naive_solver.
  split; simpl; try apply Hinv.
  - apply put_wf; [apply Hinv|done|by rewrite (inv_links _ _ Hinv)|done].
  - intros q. destruct (decide (d ++ [x] = q)) as [<-|Hne].
    + rewrite lookup_partial_alter_eq. destruct Hrec as [r Hr].
      pose proof (inv_nodes _ _ Hinv (d ++ [x])) as H. rewrite Hr in *.
      destruct r as [f0|]; simpl in *; destruct H; eauto.
    + rewrite lookup_partial_alter_ne by done. apply Hinv.
  - intros p b Hp. destruct (inv_files _ _ Hinv _ _ Hp) as (q & ? & ? & Hb).
    exists q. split_and!; [done..|]. intros Hb'%Hb.
    eapply dirs_grow_is_dir; [| |apply Hb']; [done|by apply put_grow].
Qed.
Lemma store_spec p f w tx q r w' :
  w_tx w = Some tx → tx_inv (w_fs w) tx → lloc fs0 p = Some q → links fs0 !! q = None →
  recorded_at tx q → is_dir (w_fs w) (parent p) = true →
  store p f w = (r, w') →
  w_tx w' = Some tx ∧ tx_inv (w_fs w') tx ∧ dirs_grow (w_fs w) (w_fs w') ∧
  fault_spent r w w' ∧ ∃ f', w_fs w' = put q (Some (File f')) (w_fs w).
Proof.
  intros Htx Hinv Hq Hl Hrec Hd. unfold store. mstep. unfold id.
  rewrite (inv_loc _ _ Hinv), (loc_of_lloc _ _ _ Hq Hl).
  pose proof (recorded_not_dir _ _ _ Hinv Hrec) as Hn.
  assert (nodes (w_fs w) !! q ≠ Some Dir) as Hnd by naive_solver.
  assert (∃ d x, q = d ++ [x] ∧ nodes (w_fs w) !! d = Some Dir) as (d & x & -> & Hdd).
  { destruct (path_cases p) as [->|(e & x & ->)].
    - injection Hq as <-. by rewrite (wf_root _ (inv_wf _ _ Hinv)) in Hnd.
    - rewrite parent_snoc in Hd. apply is_dir_stat in Hd. unfold stat in Hd.
      rewrite (inv_loc _ _ Hinv) in Hd. rewrite lloc_snoc in Hq.
      destruct (loc fs0 e) as [d|]; [|done]. injection Hq as <-. eauto. }
  rewrite parent_snoc, Hdd.
  assert (∀ f', tx_inv (put (d ++ [x]) (Some (File f')) (w_fs w)) tx ∧
                dirs_grow (w_fs w) (put (d ++ [x]) (Some (File f')) (w_fs w))) as Hput.
  { intros f'. split; [by eapply tx_inv_put_file|by apply put_grow]. }
  destruct Hn as [Hn|[f0 Hn]]; rewrite Hn; intros H;
    rewrite bind_eq in H; destruct (tick w) as [b w2] eqn:Et;
    apply tick_spec in Et as (failed & -> & Hw2 & Ht1 & Ht2 & Ht3);
    assert (w_fs w2 = w_fs w) as Hfs2 by (by rewrite Hw2);
    assert (w_tx w2 = Some tx) as Htx2 by (by rewrite Hw2);
    destruct failed; injection H as <- <-; simpl; rewrite Hfs2;
    (split_and!; [done|apply Hput|apply Hput|split; simpl; auto; by intros ? [=]|by eexists]).
Qed.

Lemma read_text_spec p w r w' :
  read_text p w = (r, w') →
  w' = w ∧ (∀ q, r ≠ Err (OSError EIO q)) ∧
  (is_ok r = true → is_file (w_fs w) p = true).
Proof.
  unfold read_text, read_bytes, is_file, stat. intros H. rewrite bind_eq in H.
  rewrite bind_eq in H. unfold stat_file in H. rewrite ask_bind in H. unfold id in H.
  destruct (loc (w_fs w) p) as [q|]; [|by injection H as <- <-].
  destruct (nodes (w_fs w) !! q) as [[f|]|]; [by injection H as <- <-..|].
  unfold missing_errno in H. destruct (has_file_prefix _ _ _); by injection H as <- <-.
Qed.

Lemma outcome_same {A} (r : result A) w tx :
  w_tx w = Some tx → tx_inv (w_fs w) tx → settled (w_fs w) tx →
  (∀ p, r ≠ Err (OSError EIO p)) → ∀ keep, outcome keep tx r w w.
Proof.
  intros. exists tx. split_and!; [done..|apply dirs_grow_refl|by apply fault_spent_refl|done].
Qed.

Lemma names_ok_dir fs d : fs_wf fs → is_dir fs d = true → names_ok fs d.
Proof. intros ?? c ?. left. by eapply exists_prefix_dir. Qed.

Lemma may_create_names fs tx p : fs_wf fs → may_create fs tx p → names_ok fs (parent p).
Proof. intros Hwf [Hd|[Ha _]]; [by apply names_ok_dir|]. intros c Hc. by apply Ha. Qed.

(** The writing part of [write], once the text is known to differ. *)
Lemma write_tail_spec p s w tx r w' :
  w_tx w = Some tx → tx_inv (w_fs w) tx → settled (w_fs w) tx →
  may_create (w_fs w) tx p →
  (in_transaction (record_file p) ;;
   mkdir_parents (parent p) ;;
   write_text p s ;;
   print (py "ABK KSU Sandbox: updated " ++ path_text p)) w = (r, w') →
  outcome (is_dir (w_fs w) (parent p) = true) tx r w w'.
Proof.
  intros Htx Hinv Hset Hmay H.
  pose proof (may_create_names _ _ _ (inv_wf _ _ Hinv) Hmay) as Hnames.
  assert (in_transaction (record_file p) w = record_file p w) as Hin.
  { unfold in_transaction. mstep. by rewrite Htx. }
  rewrite bind_eq, Hin in H. clear Hin.
  destruct (record_file p w) as [[u|u] w1] eqn:E.
  all: apply record_file_spec with (tx := tx) in E
    as (tx1 & Htx1 & Hfs1 & Hinv1 & Hft1 & Hkeep & Hok1); [|done..].
  2: { injection H as <- <-. exists tx1. rewrite Hfs1.
       split_and!; [done..|apply dirs_grow_refl| |done]. destruct Hft1 as [? Hf].
       split; [done|]. intros q [= ->]. by eapply Hf. }
  destruct u. destruct (Hok1 eq_refl) as [q Hrec]. rewrite <- Hfs1 in Hinv1, Hrec.
  assert (is_dir (w_fs w1) (parent p) = true ∨ creatable (w_fs w1) tx1 (parent p)) as Hcr.
  { eapply recorded_creatable; [done..|]. by rewrite Hfs1. }
  minv H u w2 E. all: apply mkdir_parents_spec with (tx := tx1) in E
    as ([Htx2 Hinv2 Ho2 Hf2] & Hd2 & He2); [|done..].
  all: rewrite Hfs1 in Ho2; destruct Hft1 as [Hf1 _].
  2: { injection H as <- <-. exists tx1. split_and!; [done..|by apply only_dirs_grow| |done].
       split; [auto|]. intros p' [= ->]. by eapply He2. }
  destruct u. specialize (Hd2 eq_refl).
  destruct Hrec as (Hq & Hl & Hrec & Hoth & _).
  minv H u w3 E. all: unfold write_text in E; rewrite gets_bind, ask_bind, modify_bind in E.
  all: apply store_spec with (tx := tx1) (q := q) in E
    as (Htx3 & Hinv3 & Hg3 & [Hf3 He3] & f' & Hfs3); [|done..].
  all: simpl in Hfs3, Hf3, Hg3.
  all: assert (dirs_grow (w_fs w) (w_fs w3)) as Hg
         by (eapply dirs_grow_trans; [by apply only_dirs_grow|done]).
  - injection H as <- <-. exists tx1. split_and!; [done..| |done|by split; simpl; auto|done].
    intros _ q' Hq' Hn'. simpl in Hn'. rewrite Hfs3 in Hn'.
    destruct (decide (q' = q)) as [->|Hne]; [by rewrite put_same in Hn'|].
    rewrite put_other in Hn' by done. apply Hoth; [done..|]. rewrite Hfs1.
    destruct (Ho2 q'); congruence.
  - injection H as <- <-. exists tx1. split_and!; [done..| |done]. split; [auto|].
    intros p' [= ->]. by eapply He3.
Qed.

Lemma write_spec p s w tx r w' :
  w_tx w = Some tx → tx_inv (w_fs w) tx → settled (w_fs w) tx →
  may_create (w_fs w) tx p → write p s w = (r, w') →
  outcome (is_dir (w_fs w) (parent p) = true) tx r w w'.
Proof.
  intros Htx Hinv Hset Hmay. unfold write. mstep. unfold id. intros H.
  assert (∀ old, (if (match old with Some t => text_eqb t s | None => false end : bool)
                  then mret tt
                  else validating ← gets w_validation_only;
                       if (validating : bool) then
                         raise_install (py "incomplete sandbox injection: validation would update "
                                        ++ path_text p)
                       else in_transaction (record_file p) ;;
                            mkdir_parents (parent p) ;;
                            write_text p s ;;
                            print (py "ABK KSU Sandbox: updated " ++ path_text p)) w = (r, w')
                 → outcome (is_dir (w_fs w) (parent p) = true) tx r w w') as Hrest.
  { intros old. destruct (match old with Some t => _ | None => _ end).
    { intros [= <- <-]. by eapply outcome_same. }
    mstep. destruct (w_validation_only w).
    { intros [= <- <-]. by eapply outcome_same. }
    by apply (write_tail_spec p s w tx). }
  destruct (exists_ (w_fs w) p).
  - rewrite bind_eq, bind_eq in H.
    destruct (read_text p w) as [[t|e] w1] eqn:Er;
      apply read_text_spec in Er as (-> & Hne & _).
    + by apply (Hrest (Some t)).
    + injection H as <- <-. eapply outcome_same; try done. intros q [= ->]. by eapply Hne.
  - rewrite ret_bind in H. by apply (Hrest None).
Qed.
(** [record_directory] followed by [mkdir], for a directory that may have to be created. *)
Lemma ensure_directory_spec d w tx r w' :
  w_tx w = Some tx → tx_inv (w_fs w) tx → settled (w_fs w) tx →
  is_dir (w_fs w) d = true ∨ ancestors_ok (w_fs w) tx d →
  (in_transaction (record_directory d) ;; mkdir_parents d) w = (r, w') →
  outcome (is_dir (w_fs w) d = true) tx r w w' ∧ (r = Ok tt → is_dir (w_fs w') d = true).
Proof.
  intros Htx Hinv Hset Hd H.
  assert (in_transaction (record_directory d) w = record_directory d w) as Hin.
  { unfold in_transaction. mstep. by rewrite Htx. }
  rewrite bind_eq, Hin in H. clear Hin.
  assert (∀ w1 tx1, w_tx w1 = Some tx1 → w_fs w1 = w_fs w → w_fault w1 = w_fault w →
            tx_inv (w_fs w1) tx1 → settled (w_fs w1) tx1 →
            (is_dir (w_fs w) d = true → tx_missing tx1 = tx_missing tx) →
            is_dir (w_fs w1) d = true ∨ creatable (w_fs w1) tx1 d →
            mkdir_parents d w1 = (r, w') →
            outcome (is_dir (w_fs w) d = true) tx r w w' ∧
            (r = Ok tt → is_dir (w_fs w') d = true)) as Hmk.
  { intros w1 tx1 Htx1 Hfs1 Hf1 Hinv1 Hset1 Hkeep Hc E.
    apply mkdir_parents_spec with (tx := tx1) in E as ([Htx2 Hinv2 Ho2 Hf2] & Hd2 & He2);
      [|done..]. split; [|done]. exists tx1. rewrite Hfs1 in Ho2.
    split_and!; [done|done| |by apply only_dirs_grow| |done].
    - intros _. rewrite Hfs1 in Hset1. by eapply only_dirs_settled.
    - split; [rewrite <- Hf1; done|done]. }
  unfold record_directory in H. rewrite ask_bind in H. unfold id in H.
  destruct (is_symlink (w_fs w) d) eqn:Es.
  { injection H as <- <-. split; [|done]. by eapply outcome_same. }
  destruct (exists_ (w_fs w) d) eqn:Ee.
  - destruct (is_dir (w_fs w) d) eqn:Ed; simpl in H.
    + eapply (Hmk w tx); try done. by left.
    + injection H as <- <-. split; [|done]. by eapply outcome_same.
  - destruct (record_missing_directories d w) as [[u|u] w1] eqn:E.
    all: apply record_missing_spec with (tx := tx) in E
      as (m & -> & Hinv1 & Hsub & Hne & Hkeep & Hok); [|done..].
    + destruct u. destruct (Hok eq_refl) as (Hpl & _ & Hcov).
      apply (Hmk (set_tx (Some (Transaction (tx_files tx) m)) w)
                 (Transaction (tx_files tx) m)); try done.
      destruct Hcov as [?|Hcov]; [by left|right].
      apply planned_creatable; simpl; try done.
      * destruct Hd as [Hd|Ha]; [by apply names_ok_dir; [apply Hinv|]|].
        intros c Hc. by apply Ha.
      * intros c qc _ _ _ Hn Hrem Hr. by rewrite (Hset qc Hr Hn) in Hrem.
    + injection H as <- <-. split; [|done].
      eexists. split_and!; [done..|apply dirs_grow_refl| |done].
      apply fault_spent_refl; [done|]. intros q [= ->]. by eapply Hne.
Qed.

Lemma tx_inv_put_none fs tx q f :
  tx_inv fs tx → recorded_at tx q → nodes fs !! q = Some (File f) →
  removable (name q) = true → tx_inv (put q None fs) tx.
Proof.
  intros Hinv Hrec Hn Hrem. split; simpl; try apply Hinv.
  - apply delete_wf; [apply Hinv| |intros c; by eapply file_no_children, Hn; apply Hinv..].
    intros ->. rewrite (wf_root _ (inv_wf _ _ Hinv)) in Hn. done.
  - intros q'. destruct (decide (q = q')) as [<-|Hne].
    + rewrite lookup_partial_alter_eq. destruct Hrec as [r Hr].
      pose proof (inv_nodes _ _ Hinv q) as H. rewrite Hr in *.
      destruct r as [f0|]; simpl in *; destruct H; eauto.
    + rewrite lookup_partial_alter_ne by done. apply Hinv.
  - intros p b Hp. destruct (inv_files _ _ Hinv _ _ Hp) as (q' & ? & ? & Hb).
    exists q'. split_and!; [done..|]. intros Hb'%Hb.
    eapply dirs_grow_is_dir; [| |apply Hb']; [done|apply put_grow; congruence].
Qed.

Lemma removable_place p q :
  lloc fs0 p = Some q → removable (name p) = true → removable (name q) = true.
Proof.
  intros Hq Hrem. destruct (path_cases p) as [->|(e & x & ->)]; [by injection Hq as <-|].
  rewrite lloc_snoc in Hq. destruct (loc fs0 e); [|done]. injection Hq as <-.
  by rewrite name_snoc in *.
Qed.

Lemma remove_file_spec p description w tx r w' :
  w_tx w = Some tx → tx_inv (w_fs w) tx → settled (w_fs w) tx →
  removable (name p) = true → remove_file p description w = (r, w') →
  outcome True tx r w w'.
Proof.
  intros Htx Hinv Hset Hrem. unfold remove_file. mstep. unfold id.
  destruct (exists_ (w_fs w) p) eqn:Eex; simpl; [|intros [= <- <-]; by eapply outcome_same].
  destruct (is_symlink (w_fs w) p) eqn:Es; simpl; [intros [= <- <-]; by eapply outcome_same|].
  destruct (is_file (w_fs w) p) eqn:Ef; simpl; [|intros [= <- <-]; by eapply outcome_same].
  assert (is_dir (w_fs w) (parent p) = true) as Hd
    by (apply exists_parent_dir; [apply Hinv|done]).
  intros H.
  assert (in_transaction (record_file p) w = record_file p w) as Hin.
  { unfold in_transaction. mstep. by rewrite Htx. }
  rewrite bind_eq, Hin in H. clear Hin.
  destruct (record_file p w) as [[u|u] w1] eqn:E.
  all: apply record_file_spec with (tx := tx) in E
    as (tx1 & Htx1 & Hfs1 & Hinv1 & Hft1 & Hkeep & Hok1); [|try done; by left..].
  2: { injection H as <- <-. exists tx1. rewrite Hfs1.
       split_and!; [done..|apply dirs_grow_refl| |auto]. destruct Hft1 as [? Hf].
       split; [done|]. intros q [= ->]. by eapply Hf. }
  destruct u. destruct (Hok1 eq_refl) as (q & Hq & Hl & Hrec & Hoth & _).
  apply is_file_stat in Ef as [f Hf].
  assert (nodes (w_fs w) !! q = Some (File f)) as Hn.
  { rewrite <- Hf. symmetry. apply stat_lloc.
    - by rewrite (inv_lloc _ _ Hinv).
    - by rewrite (inv_links _ _ Hinv). }
  pose proof (removable_place _ _ Hq Hrem) as Hrq.
  assert (settled (w_fs w) tx1) as Hset1.
  { intros q' Hq' Hn'. apply Hoth; [congruence|done..]. }
  destruct Hft1 as [Hft1 _].
  rewrite bind_eq in H. unfold unlink in H. rewrite ask_bind in H. unfold id in H.
  rewrite Hfs1, (inv_lloc _ _ Hinv), Hq, (inv_links _ _ Hinv), Hl, Hn in H.
  rewrite bind_eq in H. destruct (tick w1) as [b w2] eqn:Et.
  apply tick_spec in Et as (failed & -> & Hw2 & Ht1 & Ht2 & Ht3).
  assert (w_fs w2 = w_fs w) as Hfs2 by (by rewrite Hw2, <- Hfs1).
  assert (w_tx w2 = Some tx1) as Htx2 by (by rewrite Hw2).
  destruct failed; simpl in H; injection H as <- <-; exists tx1.
  - rewrite Hfs2. split_and!; [done|done|done|apply dirs_grow_refl|by split; auto|auto].
  - simpl. rewrite Hfs2. change (Fsys _ _) with (put q None (w_fs w)).
    split_and!; [done|by eapply tx_inv_put_none| |apply put_grow; congruence
                |by split; auto|auto].
    intros _ q' Hq' Hn'. destruct (decide (q' = q)) as [->|Hne]; [done|].
    rewrite put_other in Hn' by done. by apply Hset1.
Qed.
(** ** Undoing the records *)

(** What a location holds while the records [rem] (a prefix of all of [files]) are still to
be undone. *)
Definition undo_node (files rem : list (path * option file)) (missing : list path)
    (q : path) (cur : option node) : Prop :=
  match first_record rem q with
  | Some r => nodes fs0 !! q = File <$> r ∧ (cur = None ∨ ∃ f, cur = Some (File f))
  | None => match first_record files q with
            | Some _ => cur = nodes fs0 !! q
            | None => node_ok missing q None cur
            end
  end.

Record undo_inv (files rem : list (path * option file)) (missing : list path) (fs : fsys)
    : Prop := UndoInv {
  ui_links : links fs = links fs0;
  ui_wf : fs_wf fs;
  ui_nodes q : undo_node files rem missing q (nodes fs !! q);
  ui_files p b : (p, b) ∈ files →
    ∃ q, lloc fs0 p = Some q ∧ links fs0 !! q = None ∧
         (is_Some b → is_dir fs (parent p) = true)
}.

Lemma tx_inv_undo fs tx :
  tx_inv fs tx → undo_inv (tx_files tx) (tx_files tx) (tx_missing tx) fs.
Proof.
  intros Hinv. split; try apply Hinv. intros q. pose proof (inv_nodes _ _ Hinv q) as H.
  unfold undo_node. destruct (first_record (tx_files tx) q) as [[f|]|]; [| |done];
    simpl in *; naive_solver.
Qed.

Lemma first_record_snoc rem p b q :
  lloc fs0 p = Some q →
  first_record (rem ++ [(p, b)]) q =
  Some (match first_record rem q with Some r => r | None => b end).
Proof.
  intros Hq. rewrite first_record_app. simpl.
  destruct (first_record rem q); [done|]. by rewrite bool_decide_eq_true_2.
Qed.

Lemma undo_file_or_none files rem p b missing fs q :
  undo_inv files (rem ++ [(p, b)]) missing fs → lloc fs0 p = Some q →
  nodes fs !! q = None ∨ ∃ f, nodes fs !! q = Some (File f).
Proof.
  intros Hui Hq. pose proof (ui_nodes _ _ _ _ Hui q) as H. unfold undo_node in H.
  rewrite (first_record_snoc _ _ _ _ Hq) in H. apply H.
Qed.

(** A record is undone: the file at its location becomes [n]. *)
Lemma undo_inv_put files rem p b missing q n fs fs' :
  undo_inv files (rem ++ [(p, b)]) missing fs → rem ++ [(p, b)] `prefix_of` files →
  lloc fs0 p = Some q → n = File <$> b → fs' = put q n fs → fs_wf fs' →
  undo_inv files rem missing fs'.
Proof.
  intros Hui [rest Hrest] Hq Hn -> Hwf. split; simpl; [apply Hui|done|..].
  - intros q'. pose proof (ui_nodes _ _ _ _ Hui q') as H. unfold undo_node in *.
    rewrite first_record_app in H. simpl in H.
    destruct (decide (q = q')) as [<-|Hne].
    + rewrite lookup_partial_alter_eq. rewrite bool_decide_eq_true_2 in H by done.
      destruct (first_record rem q) as [r|] eqn:Er.
      * split; [apply H|]. subst n. destruct b; simpl; eauto.
      * assert (first_record files q = Some b) as ->; [|rewrite Hn; symmetry; apply H].
        rewrite Hrest, !first_record_app, Er. simpl. by rewrite bool_decide_eq_true_2.
    + rewrite lookup_partial_alter_ne by done.
      destruct (first_record rem q'); [done|].
      rewrite bool_decide_eq_false_2 in H; [done|]. congruence.
  - intros p' b' Hp. destruct (ui_files _ _ _ _ Hui _ _ Hp) as (q' & Hq1 & Hq2 & Hb).
    exists q'. split_and!; [done..|]. intros Hb'%Hb.
    eapply dirs_grow_is_dir; [| |apply Hb']; [done|].
    apply put_grow. by destruct (undo_file_or_none _ _ _ _ _ _ _ Hui Hq) as [->|[? ->]].
Qed.

Lemma undo_inv_skip files rem p missing q fs :
  undo_inv files (rem ++ [(p, None)]) missing fs → rem ++ [(p, None)] `prefix_of` files →
  lloc fs0 p = Some q → nodes fs !! q = None → undo_inv files rem missing fs.
Proof.
  intros Hui Hpre Hq Hn.
  assert (put q None fs = fs) as Hput.
  { unfold put. destruct fs as [ns ls]. f_equal. simpl in *. apply map_eq. intros q'.
    destruct (decide (q = q')) as [<-|?];
      [by rewrite lookup_partial_alter_eq|by rewrite lookup_partial_alter_ne]. }
  apply (undo_inv_put files rem p None missing q None fs); [done..|by symmetry|apply Hui].
Qed.

Lemma tick_none w : w_fault w = None → tick w = (Ok false, w).
Proof. unfold tick. by intros ->. Qed.

Lemma store_ok p f q w :
  w_fault w = None → loc (w_fs w) p = Some q → nodes (w_fs w) !! q ≠ Some Dir →
  nodes (w_fs w) !! parent q = Some Dir →
  store p f w = (Ok tt, set_fs (put q (Some (File f)) (w_fs w)) w).
Proof.
  intros Hft Hq Hn Hp. unfold store. mstep. unfold id. rewrite Hq, Hp.
  destruct (nodes (w_fs w) !! q) as [[|]|]; [|done|];
    by rewrite bind_eq, (tick_none _ Hft).
Qed.

Lemma unlink_ok p q f w :
  w_fault w = None → lloc (w_fs w) p = Some q → links (w_fs w) !! q = None →
  nodes (w_fs w) !! q = Some (File f) →
  unlink p w = (Ok tt, set_fs (put q None (w_fs w)) w).
Proof.
  intros Hft Hq Hl Hn. unfold unlink. mstep. unfold id. rewrite Hq, Hl, Hn.
  by rewrite bind_eq, (tick_none _ Hft).
Qed.

(** The outcome of one iteration of the rollback loops: no exception escapes, only the
tree and nothing else that matters for the next iteration changes. *)
Definition undone (w w' : world) : Prop := w_fault w' = None ∧ w_tx w' = w_tx w.

Lemma undo_file_spec files rem p b missing w :
  undo_inv files (rem ++ [(p, b)]) missing (w_fs w) → rem ++ [(p, b)] `prefix_of` files →
  w_fault w = None →
  ∃ w', undo_file p b w = (Ok tt, w') ∧ undone w w' ∧ undo_inv files rem missing (w_fs w').
Proof.
  intros Hui Hpre Hft.
  assert ((p, b) ∈ files) as Hin.
  { destruct Hpre as [rest ->]. apply elem_of_app. left. apply elem_of_app. right. by left. }
  destruct (ui_files _ _ _ _ Hui _ _ Hin) as (q & Hq & Hl & Hdir).
  assert (lloc (w_fs w) p = Some q) as Hq' by (by rewrite (lloc_stable fs0 _ (ui_links _ _ _ _ Hui))).
  assert (links (w_fs w) !! q = None) as Hl' by by rewrite (ui_links _ _ _ _ Hui).
  pose proof (stat_lloc _ _ _ Hq' Hl') as Hst.
  assert (is_symlink (w_fs w) p = false) as Hsym by (unfold is_symlink; by rewrite Hq', Hl').
  assert (nodes (w_fs w) !! q = None ∨ ∃ f, nodes (w_fs w) !! q = Some (File f)) as Hn
    by exact (undo_file_or_none _ _ _ _ _ _ _ Hui Hq).
  unfold undo_file. mstep. unfold id. rewrite Hsym. destruct b as [f|].
  - specialize (Hdir ltac:(by eexists)).
    assert (exists_ (w_fs w) p && negb (is_file (w_fs w) p) = false) as ->.
    { unfold exists_, is_file. rewrite Hst. by destruct Hn as [->|[? ->]]. }
    rewrite ret_bind, bind_eq, (mkdir_parents_existing _ _ Hdir).
    assert (∃ d x, q = d ++ [x] ∧ nodes (w_fs w) !! d = Some Dir) as (d & x & -> & Hdd).
    { destruct (path_cases p) as [->|(e & x & ->)].
      - injection Hq as <-. rewrite (wf_root _ (ui_wf _ _ _ _ Hui)) in Hn.
        by destruct Hn as [?|[? ?]].
      - rewrite parent_snoc in Hdir. apply is_dir_stat in Hdir. unfold stat in Hdir.
        rewrite lloc_snoc in Hq'. destruct (loc (w_fs w) e) as [d|]; [|done].
        injection Hq' as <-. eauto. }
    assert (nodes (w_fs w) !! (d ++ [x]) ≠ Some Dir) as Hnd
      by (by destruct Hn as [->|[? ->]]).
    rewrite (store_ok p f (d ++ [x]) w Hft (loc_of_lloc _ _ _ Hq' Hl') Hnd);
      [|by rewrite parent_snoc].
    eexists. split; [reflexivity|]. split; [by split|].
    eapply (undo_inv_put files rem p (Some f)); [exact Hui|exact Hpre|exact Hq|done|done|].
    simpl. apply put_wf; [apply Hui|done..].
  - unfold is_file, exists_. rewrite Hst. destruct Hn as [Hn|[f Hn]]; rewrite Hn; simpl.
    + eexists. split; [reflexivity|]. split; [by split|].
      exact (undo_inv_skip _ _ _ _ _ _ Hui Hpre Hq Hn).
    + rewrite (unlink_ok p q f w Hft Hq' Hl' Hn).
      eexists. split; [reflexivity|]. split; [by split|].
      eapply (undo_inv_put files rem p None); [exact Hui|exact Hpre|exact Hq|done|done|].
      simpl. apply delete_wf;
        [apply Hui| |intros c; by eapply file_no_children, Hn; apply Hui..].
      intros ->. by rewrite (wf_root _ (ui_wf _ _ _ _ Hui)) in Hn.
Qed.

Lemma undo_files_spec files rem missing w :
  undo_inv files rem missing (w_fs w) → rem `prefix_of` files → w_fault w = None →
  ∃ w', collect_failures (λ pb, failure_of pb.1 (undo_file pb.1 pb.2)) (rev rem) w
        = (Ok [], w') ∧ undone w w' ∧ undo_inv files [] missing (w_fs w').
Proof.
  revert w. induction rem as [|[p b] rem IH] using rev_ind; intros w Hui Hpre Hft.
  { exists w. split_and!; [done|by split|done]. }
  destruct (undo_file_spec _ _ _ _ _ _ Hui Hpre Hft) as (w1 & H1 & [Hf1 Ht1] & Hui1).
  destruct (IH w1 Hui1) as (w2 & H2 & [Hf2 Ht2] & Hui2); [|done|].
  { trans (rem ++ [(p, b)]); [by exists [(p, b)]|done]. }
  exists w2. rewrite rev_app_distr. simpl. rewrite bind_eq. unfold failure_of at 1, catch.
  rewrite bind_eq. simpl. rewrite H1. simpl. rewrite bind_eq, H2. simpl.
  split_and!; [done|split; congruence|done].
Qed.
(** ** Removing the directories *)

(** The state of the second loop: a location is as at the start, or holds a directory that
a remaining path names, all of whose ancestors remain or were there. *)
Record dirs_inv (rem : list path) (fs : fsys) : Prop := DirsInv {
  di_links : links fs = links fs0;
  di_wf : fs_wf fs;
  di_nodes q : node_ok rem q None (nodes fs !! q)
}.

Lemma undo_inv_dirs files missing ps fs :
  undo_inv files [] missing fs → missing ≡ₚ ps → dirs_inv ps fs.
Proof.
  intros Hui Hperm. split; try apply Hui. intros q.
  pose proof (ui_nodes _ _ _ _ Hui q) as H. unfold undo_node in H. simpl first_record at 1 in H.
  assert (missing ⊆ ps) as Hsub by (intros c; by rewrite Hperm).
  destruct (first_record files q); [by left|]. by eapply node_ok_mono.
Qed.

(** [os.rmdir] on a recorded directory: it is removed, or nothing changes and either
nothing is there or something is below it. *)
Lemma rmdir_spec c w r w' :
  w_fault w = None → rmdir c w = (r, w') →
  undone w w' ∧
  ((∃ q, r = Ok tt ∧ lloc (w_fs w) c = Some q ∧ nodes (w_fs w) !! q = Some Dir ∧
         has_children (w_fs w) q = false ∧ w_fs w' = put q None (w_fs w)) ∨
   (w' = w ∧ (∃ e p, r = Err (OSError e p)) ∧
    ∀ q, lloc (w_fs w) c = Some q → q ≠ [] → links (w_fs w) !! q = None →
         nodes (w_fs w) !! q = Some Dir → has_children (w_fs w) q = true)).
Proof.
  intros Hft. unfold rmdir. mstep. unfold id.
  destruct (lloc (w_fs w) c) as [q|] eqn:Eq.
  2: { intros [= <- <-]. split; [by split|]. right. split_and!; [done|by do 2 eexists|done]. }
  destruct q as [|x q0] eqn:E0; [|rewrite <- E0 in *; clear x q0 E0].
  { intros [= <- <-]. split; [by split|]. right. split_and!; [done|by do 2 eexists|].
    by intros ? [= <-]. }
  destruct (links (w_fs w) !! q) eqn:El.
  { intros [= <- <-]. split; [by split|]. right. split_and!; [done|by do 2 eexists|].
    intros ? [= <-]. congruence. }
  destruct (nodes (w_fs w) !! q) as [[f|]|] eqn:En.
  1,3: intros [= <- <-]; (split; [by split|]); right;
    (split_and!; [done|by do 2 eexists|]); intros ? [= <-]; congruence.
  destruct (has_children (w_fs w) q) eqn:Ech.
  { intros [= <- <-]. split; [by split|]. right. split_and!; [done|by do 2 eexists|].
    by intros ? [= <-]. }
  rewrite bind_eq, (tick_none _ Hft). intros [= <- <-]. split; [by split|]. left.
  exists q. by split_and!.
Qed.

Lemma undo_directory_report c w r w' :
  failure_of c (undo_directory c) w = (r, w') →
  ∃ r1, rmdir c w = (r1, w') ∧
        (r1 = Ok tt ∨ (∃ e p, r1 = Err (OSError e p)) → ∃ fs, r = Ok fs).
Proof.
  unfold failure_of, undo_directory, catch. rewrite bind_eq.
  destruct (rmdir c w) as [[u|e] w1] eqn:E.
  - intros [= <- <-]. eexists. split; [done|]. eauto.
  - destruct e as [m|en p|cls].
    + intros [= <- <-]. eexists. split; [done|]. intros [?|(? & ? & ?)]; done.
    + destruct en; intros [= <- <-]; (eexists; split; [done|]); eauto.
    + intros [= <- <-]. eexists. split; [done|]. intros [?|(? & ? & ?)]; done.
Qed.

Section loop.
Context (c : path) (rem : list path).
Context (Hrem : Forall (λ d, is_symlink fs0 d = false ∧ stat fs0 d = None) (c :: rem)).
Context (Hmax : Forall (λ d, length d ≤ length c) rem).

Lemma remaining_loc d q : d ∈ c :: rem → lloc fs0 d = Some q → loc fs0 d = Some q.
Proof.
  intros Hd Hq. rewrite Forall_forall in Hrem. destruct (Hrem d Hd) as [Hs _].
  by rewrite (loc_not_symlink _ _ Hs).
Qed.

Lemma remaining_absent d q : d ∈ c :: rem → lloc fs0 d = Some q → nodes fs0 !! q = None.
Proof.
  intros Hd Hq. pose proof (remaining_loc _ _ Hd Hq) as Hl.
  rewrite Forall_forall in Hrem. destruct (Hrem d Hd) as [_ Hs].
  unfold stat in Hs. by rewrite Hl in Hs.
Qed.

(** Once [c], a longest one, is dealt with, the others do not depend on it. *)
Lemma covered_tail d : d ∈ rem → d ≠ c → covered (c :: rem) d → covered rem d.
Proof.
  intros Hd Hne Hcov c' Hc'.
  destruct (Hcov c' Hc') as [?|[->|?]%elem_of_cons]; [by left| |by right].
  exfalso. rewrite Forall_forall in Hmax. pose proof (Hmax d Hd) as Hlen.
  destruct Hc' as [k ->]. rewrite length_app in Hlen. destruct k; [|simpl in Hlen; lia].
  by rewrite app_nil_r in Hne.
Qed.

(** A child directory that is still there has its parent among the remaining paths. *)
Lemma child_parent_remains q x d :
  fs_wf fs0 → nodes fs0 !! q = None → d ∈ c :: rem → lloc fs0 d = Some (q ++ [x]) →
  covered (c :: rem) d →
  ∃ e, e ∈ rem ∧ e ≠ c ∧ lloc fs0 e = Some q ∧ covered (c :: rem) e.
Proof.
  intros Hwf H0 Hd Hl Hcov.
  destruct (path_cases d) as [->|(e & y & ->)]; [by destruct q|].
  rewrite lloc_snoc in Hl. destruct (loc fs0 e) as [qe|] eqn:Ee; [|done].
  injection Hl as Hl. apply app_inj_tail in Hl as [-> ->].
  assert (e `prefix_of` e ++ [x]) as Hpre by by exists [x].
  assert (length e < length c) as Hlen.
  { apply elem_of_cons in Hd as [<-|Hd]; [rewrite length_app; simpl; lia|].
    rewrite Forall_forall in Hmax. apply Hmax in Hd. rewrite length_app in Hd. simpl in Hd. lia. }
  assert (e ≠ c) as Hne by (intros ->; lia).
  destruct (Hcov e Hpre) as [Hdir|Hin].
  { apply is_dir_stat in Hdir. unfold stat in Hdir. rewrite Ee in Hdir. congruence. }
  apply elem_of_cons in Hin as [?|Hin]; [done|]. exists e. split_and!; [done|done| |].
  - assert (is_symlink fs0 e = false) as Hs.
    { rewrite Forall_forall in Hrem. apply Hrem. by right. }
    by rewrite <- (loc_not_symlink _ _ Hs).
  - by eapply covered_prefix.
Qed.
End loop.

Lemma undo_directory_step c rem w r w' :
  fs_wf fs0 →
  Forall (λ d, is_symlink fs0 d = false ∧ stat fs0 d = None) (c :: rem) →
  Forall (λ d, length d ≤ length c) rem →
  dirs_inv (c :: rem) (w_fs w) → w_fault w = None →
  failure_of c (undo_directory c) w = (r, w') →
  (∃ fs, r = Ok fs) ∧ undone w w' ∧ dirs_inv rem (w_fs w').
Proof.
  intros Hwf Hrem Hmax Hdi Hft H.
  apply undo_directory_report in H as (r1 & H & Hr).
  pose proof (rmdir_spec _ _ _ _ Hft H) as [Hun Hcase].
  assert (∀ d, lloc (w_fs w) d = lloc fs0 d) as Hll.
  { intros d. apply lloc_stable, Hdi. }
  destruct Hcase as [(q & -> & Hq & Hn & Hch & Hfs)|(-> & He & Hch)].
  - split; [by auto|]. split; [done|]. rewrite Hfs. rewrite Hll in Hq.
    pose proof (remaining_absent _ _ Hrem c q ltac:(by left) Hq) as H0.
    apply has_children_false in Hch as [Hc1 Hc2]. split.
    + apply Hdi.
    + apply delete_wf; [apply Hdi| |done..]. intros ->. by rewrite (wf_root _ Hwf) in H0.
    + intros q'. simpl. destruct (decide (q = q')) as [<-|Hne].
      { rewrite lookup_partial_alter_eq. by left. }
      rewrite lookup_partial_alter_ne by done.
      destruct (di_nodes _ _ Hdi q') as [?|(? & ? & d & Hd & Hld & Hcov)]; [by left|right].
      assert (d ≠ c) as Hdc by congruence.
      apply elem_of_cons in Hd as [?|Hd]; [done|].
      split_and!; [done..|]. exists d. split_and!; [done..|].
      by eapply covered_tail.
  - split; [by auto|]. split; [done|]. split; [apply Hdi..|]. intros q'.
    destruct (di_nodes _ _ Hdi q') as [?|(H0 & Hn & d & Hd & Hld & Hcov)]; [by left|right].
    split_and!; [done..|].
    assert (∀ e, e ∈ rem → e ≠ c → lloc fs0 e = Some q' → covered (c :: rem) e →
                 ∃ c0, c0 ∈ rem ∧ lloc fs0 c0 = Some q' ∧ covered rem c0) as Hwit.
    { intros e ? ? ? ?. exists e. split_and!; [done..|]. by eapply covered_tail. }
    destruct (decide (d = c)) as [->|Hne].
    2: { apply elem_of_cons in Hd as [?|Hd]; [done|]. by apply (Hwit d). }
    assert (links (w_fs w) !! q' = None) as Hl.
    { apply eq_None_not_Some. intros [t Ht]. by eapply wf_disjoint; [apply Hdi|..]. }
    assert (q' ≠ []) as Hroot by (intros ->; by rewrite (wf_root _ Hwf) in H0).
    rewrite <- Hll in Hld. pose proof (Hch q' Hld Hroot Hl Hn) as Hkids.
    rewrite Hll in Hld.
    apply has_children_true in Hkids as [x [[n Hx]|[t Ht]]].
    + destruct (di_nodes _ _ Hdi (q' ++ [x])) as [Heq|(_ & _ & d2 & Hd2 & Hl2 & Hcov2)].
      * rewrite Hx in Heq. symmetry in Heq. apply (wf_parent_node _ Hwf) in Heq. congruence.
      * destruct (child_parent_remains _ _ Hrem Hmax q' x d2) as (e & ? & ? & ? & ?);
          [done..|]. by apply (Hwit e).
    + rewrite (di_links _ _ Hdi) in Ht. apply (wf_parent_link _ Hwf) in Ht. congruence.
Qed.

Lemma undo_directories_spec ps w :
  fs_wf fs0 → StronglySorted deeper ps →
  Forall (λ d, is_symlink fs0 d = false ∧ stat fs0 d = None) ps →
  dirs_inv ps (w_fs w) → w_fault w = None →
  ∃ fs w', collect_failures (λ p, failure_of p (undo_directory p)) ps w = (Ok fs, w') ∧
           undone w w' ∧ dirs_inv [] (w_fs w').
Proof.
  intros Hwf. revert w. induction ps as [|c ps IH]; intros w Hs Hall Hdi Hft; simpl.
  { exists [], w. split_and!; [done|by split|done]. }
  inversion Hs as [|? ? Hs' Hmax]; subst.
  assert (Forall (λ d, is_symlink fs0 d = false ∧ stat fs0 d = None) ps) as Hall'
    by (by inversion Hall).
  rewrite bind_eq. destruct (failure_of c (undo_directory c) w) as [r w1] eqn:E.
  apply undo_directory_step with (rem := ps) in E as ((fs1 & ->) & [Hf1 Ht1] & Hdi1);
    [|done..].
  destruct (IH w1) as (fs2 & w2 & H2 & [Hf2 Ht2] & Hdi2); [done..|].
  exists (fs1 ++ fs2), w2. rewrite bind_eq, H2. split_and!; [done|split; congruence|done].
Qed.

Lemma dirs_inv_done fs : dirs_inv [] fs → fs = fs0.
Proof.
  intros Hdi. assert (nodes fs = nodes fs0) as Hn.
  { apply map_eq. intros q. destruct (di_nodes _ _ Hdi q) as [?|(_ & _ & c & Hc & _)]; [done|].
    by inversion Hc. }
  pose proof (di_links _ _ Hdi). destruct fs, fs0; simpl in *; congruence.
Qed.

(** From any state the operations of the transaction can reach, a rollback that meets no
I/O error restores the tree, contents, time stamps and modes included. *)
Lemma rollback_restores w tx r w' :
  fs_wf fs0 → w_tx w = Some tx → tx_inv (w_fs w) tx → w_fault w = None →
  rollback w = (r, w') →
  w_fs w' = fs0 ∧ w_tx w' = Some tx ∧ (r = Ok tt ∨ ∃ msg, r = Err (InstallError msg)).
Proof.
  intros Hwf Htx Hinv Hft. unfold rollback, current_tx. mstep. rewrite Htx.
  destruct (undo_files_spec (tx_files tx) (tx_files tx) (tx_missing tx) w)
    as (w1 & H1 & [Hf1 Ht1] & Hui); [by apply tx_inv_undo|done..|].
  rewrite bind_eq, H1.
  assert (Permutation (tx_missing tx) (deepest_first (tx_missing tx))) as Hperm.
  { symmetry. apply merge_sort_Permutation. }
  destruct (undo_directories_spec (deepest_first (tx_missing tx)) w1)
    as (fs & w2 & H2 & [Hf2 Ht2] & Hdi); [done|..|done|].
  - apply StronglySorted_merge_sort; unfold deeper; [intros ? ? ?; lia|intros ? ?; lia].
  - rewrite <- Hperm. apply Forall_forall, Hinv.
  - by eapply undo_inv_dirs.
  - rewrite bind_eq, H2. simpl. apply dirs_inv_done in Hdi.
    destruct fs; intros [= <- <-]; (split_and!; [done|congruence|eauto]).
Qed.
(** ** Composition *)

Lemma safe_ret {A} ds (a : A) : safe ds (mret a).
Proof. intros w tx r w' ? ? ? _ [= <- <-]. by eapply outcome_same. Qed.

Lemma safe_raise {A} ds e : no_os (@Err A e) → safe ds (@raise A e).
Proof. intros He w tx r w' ? ? ? _ [= <- <-]. by eapply outcome_same. Qed.

Lemma safe_lift {A} ds (m : result A) : no_os m → safe ds (lift m).
Proof. intros He w tx r w' ? ? ? _ [= <- <-]. by eapply outcome_same. Qed.

Lemma safe_gets {A} ds (f : world → A) : safe ds (gets f).
Proof. intros w tx r w' ? ? ? _ [= <- <-]. by eapply outcome_same. Qed.

Lemma safe_print ds line : safe ds (print line).
Proof.
  intros w tx r w' ? ? ? _ [= <- <-]. exists tx. simpl.
  split_and!; [done..|apply dirs_grow_refl|by split|done].
Qed.

Lemma outcome_trans {A B} tx (r1 : result A) (r2 : result B) w w1 w2 :
  outcome True tx r1 w w1 →
  (∀ tx1, w_tx w1 = Some tx1 → tx_inv (w_fs w1) tx1 → tx_missing tx1 = tx_missing tx →
          (is_ok r1 = true → settled (w_fs w1) tx1) → outcome True tx1 r2 w1 w2) →
  outcome True tx r2 w w2.
Proof.
  intros (tx1 & Htx1 & Hinv1 & Hset1 & Hg1 & [Hf1 _] & Hk1) H.
  destruct (H tx1) as (tx2 & Htx2 & Hinv2 & Hset2 & Hg2 & [Hf2 He2] & Hk2); auto.
  exists tx2. split_and!; [done..|by eapply dirs_grow_trans|by split; auto|].
  intros _. rewrite Hk2; auto.
Qed.

Lemma safe_dirs_kept ds w w' tx tx' :
  tx_inv (w_fs w) tx → tx_inv (w_fs w') tx' → dirs_grow (w_fs w) (w_fs w') →
  Forall (λ d, is_dir (w_fs w) d = true) ds → Forall (λ d, is_dir (w_fs w') d = true) ds.
Proof.
  intros Hi Hi' Hg Hds. eapply Forall_impl; [exact Hds|]. intros d.
  apply dirs_grow_is_dir; [|done].
  by rewrite (inv_links _ _ Hi), (inv_links _ _ Hi').
Qed.

Lemma safe_bind {A B} ds (m : M A) (f : A → M B) :
  safe ds m → (∀ a, safe ds (f a)) → safe ds (m ≫= f).
Proof.
  intros Hm Hf w tx r w' Htx Hinv Hset Hds H. minv H a w1 E.
  all: pose proof (Hm w tx _ _ Htx Hinv Hset Hds E) as Ho.
  - destruct Ho as (tx1 & Htx1 & Hinv1 & Hset1 & Hg1 & Hf1 & Hk1).
    eapply (outcome_trans _ (Ok a)); [exists tx1; by split_and!|].
    intros tx1' Htx1' Hinv1' _ Hset1'. eapply Hf; [done..|by apply Hset1'| |done].
    exact (safe_dirs_kept _ _ _ _ _ Hinv Hinv1 Hg1 Hds).
  - injection H as <- <-. destruct Ho as (tx1 & Htx1 & Hinv1 & Hset1 & Hg1 & [Hf1 He1] & Hk1).
    exists tx1. split_and!; [done..| |done]. split; [done|].
    intros p [= ->]. by eapply He1.
Qed.

(** What is read is inside a directory. *)
Lemma read_spec p w r w' :
  read p w = (r, w') →
  w' = w ∧ (∀ q, r ≠ Err (OSError EIO q)) ∧ (is_ok r = true → is_file (w_fs w) p = true).
Proof.
  unfold read, catch. destruct (read_text p w) as [[t|e] w1] eqn:E;
    apply read_text_spec in E as (-> & Hne & Hex).
  - intros [= <- <-]. by split_and!.
  - destruct e as [m|en q|cls]; [|destruct en|]; intros [= <- <-];
      (split_and!; [done| |done]); intros q'; solve [done | exact (Hne q')|intros [= ->]; by eapply Hne].
Qed.

Lemma is_file_exists fs p : is_file fs p = true → exists_ fs p = true.
Proof. rewrite is_file_stat, exists_stat. intros [f ->]. by eexists. Qed.

Lemma safe_read_bind {B} ds p (f : text → M B) :
  (∀ t, safe (parent p :: ds) (f t)) → safe ds (read p ≫= f).
Proof.
  intros Hf w tx r w' Htx Hinv Hset Hds H. minv H a w1 E.
  all: apply read_spec in E as (-> & Hne & Hex).
  - eapply Hf; [done..| |done]. constructor; [|done].
    apply exists_parent_dir; [apply Hinv|]. by apply is_file_exists, Hex.
  - injection H as <- <-. eapply outcome_same; try done. intros q [= ->]. by eapply Hne.
Qed.

Lemma safe_read ds p : safe ds (read p).
Proof.
  intros w tx r w' Htx Hinv Hset _ (-> & Hne & _)%read_spec. by eapply outcome_same.
Qed.

Lemma safe_write ds p s : parent p ∈ ds → safe ds (write p s).
Proof.
  intros Hp w tx r w' Htx Hinv Hset Hds H. rewrite Forall_forall in Hds.
  specialize (Hds _ Hp).
  apply write_spec with (tx := tx) in H as (tx1 & ? & ? & ? & ? & ? & ?); [|done..|by left].
  exists tx1. split_and!; auto.
Qed.

Lemma safe_remove_file ds p description :
  removable (name p) = true → safe ds (remove_file p description).
Proof. intros Hrem w tx r w' ? ? ? _. by apply remove_file_spec. Qed.

Lemma safe_when ds b m : safe ds m → safe ds (when b m).
Proof. destruct b; [done|]. intros _. apply safe_ret. Qed.

Lemma safe_for_each {A} ds (l : list A) body :
  (∀ a, a ∈ l → safe ds (body a)) → safe ds (for_each l body).
Proof.
  induction l as [|a l IH]; intros H; simpl; [apply safe_ret|].
  apply safe_bind; [apply H; by left|intros _; apply IH; intros; apply H; by right].
Qed.

Lemma safe_weaken {A} ds ds' (m : M A) : ds ⊆ ds' → safe ds m → safe ds' m.
Proof.
  intros Hsub Hm w tx r w' ? ? ? Hds ?. eapply Hm; [done..| |done].
  rewrite Forall_forall in *. auto.
Qed.
End rollback.

(** ** The [with] statement *)

Definition never_os {A} (m : M A) : Prop := ∀ w r w', m w = (r, w') → no_os r.

Lemma never_os_bind {A B} (m : M A) (f : A → M B) :
  never_os m → (∀ a, never_os (f a)) → never_os (m ≫= f).
Proof.
  intros Hm Hf w r w' H. minv H a w1 E; [by eapply Hf|]. injection H as <- <-.
  intros en p [= ->]. by eapply Hm.
Qed.

Lemma never_os_failure p m : never_os (failure_of p m).
Proof.
  intros w r w'. unfold failure_of, catch. destruct ((m ;; mret []) w) as [[l|e] w1];
    [by intros [= <- <-]|]. destruct e; by intros [= <- <-].
Qed.

Lemma never_os_collect {A} (undo : A → M (list text)) l :
  (∀ a, never_os (undo a)) → never_os (collect_failures undo l).
Proof.
  intros Hu. induction l as [|a l IH]; simpl; [by intros w r w' [= <- <-]|].
  apply never_os_bind; [done|intros f1]. apply never_os_bind; [done|intros f2].
  by intros w r w' [= <- <-].
Qed.

Lemma never_os_rollback : never_os rollback.
Proof.
  unfold rollback. apply never_os_bind; [by intros w r w' [= <- <-]|intros tx].
  apply never_os_bind; [apply never_os_collect; intros; apply never_os_failure|intros f1].
  apply never_os_bind; [apply never_os_collect; intros; apply never_os_failure|intros f2].
  destruct (f1 ++ f2); by intros w r w' [= <- <-].
Qed.

(** If every run of the body from the state where the transaction starts keeps the
    invariant, then a body that raises leaves the tree as it was, provided no I/O error is
    left to strike the rollback: none was to come, or the body raised because of it. *)
Lemma with_transaction_restores removable {A} (body : M A) w e w' :
  fs_wf (w_fs w) → w_tx w = None →
  (∀ r w1, body (set_tx (Some no_records) w) = (r, w1) →
     outcome (w_fs w) removable True no_records r (set_tx (Some no_records) w) w1 ∨
     outcome (w_fs w) removable False no_records r (set_tx (Some no_records) w) w1) →
  w_fault w = None ∨ (∃ p, e = OSError EIO p) →
  with_transaction body w = (Err e, w') →
  w_fs w' = w_fs w ∧ w_tx w' = None.
Proof.
  intros Hwf Htx Hbody Hft. unfold with_transaction. rewrite Htx.
  destruct (body _) as [[a|exc] w1] eqn:E; [done|].
  assert (outcome (w_fs w) removable False no_records (@Err A exc)
            (set_tx (Some no_records) w) w1) as Ho.
  { destruct (Hbody _ _ eq_refl) as [(tx & ? & ? & ? & ? & ? & _)|?]; [|done].
    exists tx. by split_and!. }
  destruct Ho as (tx1 & Htx1 & Hinv1 & _ & _ & [Hf1 Hf2] & _).
  unfold exit_with_exception. destruct (rollback w1) as [r2 w2] eqn:Er.
  intros H.
  assert (w_fault w1 = None) as Hft1.
  { destruct Hft as [Hft|[p ->]]; [by apply Hf1|].
    destruct r2 as [u|e2]; injection H as H1 H2.
    - subst exc. by eapply Hf2.
    - subst e2. apply never_os_rollback in Er. by destruct (Er EIO p). }
  destruct (rollback_restores _ _ _ _ _ _ Hwf Htx1 Hinv1 Hft1 Er) as (Hfs & _ & _).
  destruct r2 as [u|e2]; injection H as <- <-; [|done].
  simpl. split; [|done]. by destruct (w_tx w2) as [[[|] [|]]|].
Qed.
