(* ===== verification/Kbuild.v ===== *)
(** * Kbuild and Kconfig wiring (install.py, the constants at the top,
    [render_kbuild_block] to [installed_kconfig_block], [install_kbuild],
    [insert_before_last])

    The installer owns one block of the KernelSU Kbuild file, in one of several historical
    shapes, and one entry of its Kconfig file. *)

From Stdlib Require Import Ascii.
From stdpp Require Import base list strings.
From S2P Require Import Prelude PyText PyRegex PyResult World Transaction.

Definition MARKER : text := py "ABK_KSU_SANDBOX_V1".

(** [f"{MARKER}: {what}"] *)
Definition marked (what : text) : text := MARKER ++ py ": " ++ what.

Definition kbuild_head : text :=
  py "\n\n# " ++ MARKER ++
  py "\nifneq ($(CONFIG_KSU_ABK_SANDBOX),y)\n$(error ABK KSU Sandbox requires CONFIG_KSU_ABK_SANDBOX=y; run both ABK stages)\nendif\n".

Definition kbuild_objects : text :=
  py "kernelsu-objs += abk_sandbox/core.o\nkernelsu-objs += abk_sandbox/policy.o\nkernelsu-objs += abk_sandbox/namespace.o\nkernelsu-objs += abk_sandbox/lsm.o\n".

Definition KBUILD_BLOCK_LEGACY : text := kbuild_head ++ kbuild_objects.

Definition KCONFIG_BLOCK : text :=
  py "\n\n# " ++ MARKER ++
  py "\nconfig KSU_ABK_SANDBOX\n    bool `ABK per-app KernelSU sandbox`\n    depends on KSU=y && SECURITY_SELINUX && NAMESPACES\n    default n\n    help\n      Put authorized untrusted-app su sessions in per-app SELinux and\n      mount namespaces. Unsupported or incomplete initialization fails closed.\n".

Definition RUNTIME_KSU_TAIL_NEVER : text := py "never".
Definition RUNTIME_KSU_TAIL_RESUKISU_SUSFS : text := py "resukisu-susfs".

Definition render_kbuild_block (tail_flags : text) : text :=
  kbuild_head ++ tail_flags ++ py "\n" ++ kbuild_objects.

Definition never_tail_flags : text :=
  py "subdir-ccflags-y += -DABK_KSU_RUNTIME_TAIL_SOURCE_VERIFIED=0".

Definition manual_hook_guards : text :=
  py "ifeq ($(CONFIG_KSU_MANUAL_HOOK),y)\n$(error ABK KSU Sandbox does not support ReSukiSU manual hook mode)\nendif\nifeq ($(CONFIG_KSU_MANUAL_HOOK_AUTO_SETUID_HOOK),y)\n$(error ABK KSU Sandbox does not support ReSukiSU manual setuid LSM hooks)\nendif\nifeq ($(CONFIG_KSU_MANUAL_HOOK_AUTO_INITRC_HOOK),y)\n$(error ABK KSU Sandbox does not support ReSukiSU manual initrc LSM hooks)\nendif\n".

Definition resukisu_tail_flags : text :=
  manual_hook_guards ++ py "subdir-ccflags-y += -DABK_KSU_RUNTIME_TAIL_SOURCE_VERIFIED=1".

Definition kbuild_block (runtime_ksu_tail_policy : text) : result text :=
  if text_eqb runtime_ksu_tail_policy RUNTIME_KSU_TAIL_NEVER then
    Ok (render_kbuild_block never_tail_flags)
  else if text_eqb runtime_ksu_tail_policy RUNTIME_KSU_TAIL_RESUKISU_SUSFS then
    Ok (render_kbuild_block resukisu_tail_flags)
  else
    install_error (py "unknown runtime KSU LSM-tail policy: " ++ runtime_ksu_tail_policy).

Definition intermediate_kbuild_blocks : text * text :=
  (render_kbuild_block (py "CFLAGS_abk_sandbox/lsm.o += -DABK_KSU_ALLOW_RUNTIME_KSU_TAIL=0"),
   render_kbuild_block
     (manual_hook_guards ++
      py "ifeq ($(CONFIG_KSU_TRACEPOINT_HOOK),y)\nCFLAGS_abk_sandbox/lsm.o += -DABK_KSU_ALLOW_RUNTIME_KSU_TAIL=0\nelse ifeq ($(CONFIG_KSU_SUSFS),y)\nCFLAGS_abk_sandbox/lsm.o += -DABK_KSU_ALLOW_RUNTIME_KSU_TAIL=1\nelse\nCFLAGS_abk_sandbox/lsm.o += -DABK_KSU_ALLOW_RUNTIME_KSU_TAIL=0\nendif")).

(** [tuple(dict.fromkeys(blocks))] *)
Fixpoint unique_texts (seen : list text) (ts : list text) : list text :=
  match ts with
  | [] => []
  | t :: ts' =>
      if existsb (text_eqb t) seen then unique_texts seen ts'
      else t :: unique_texts (t :: seen) ts'
  end.

Definition owned_kbuild_blocks : list text :=
  unique_texts []
    [strip KBUILD_BLOCK_LEGACY;
     strip (render_kbuild_block never_tail_flags);
     strip (render_kbuild_block resukisu_tail_flags);
     strip intermediate_kbuild_blocks.1;
     strip intermediate_kbuild_blocks.2].

(** ** Kbuild *)

Definition override_pattern : regex :=
  seqs [RBol; blanks; lit (py "override"); RAlt (any_of [blank; tab]) (REol true);
        star dot; REol true].

Definition validate_kbuild_directives (path s : text) : result unit :=
  match findall override_pattern s with
  | [] => Ok tt
  | _ => install_error (py "unsupported override directive in " ++ path)
  end.

(** The loops over the stripped lines that track the depth of conditionals: [opens] and
    [closes] recognise a line, and a depth below zero is an error. *)
Fixpoint conditional_depth (opens closes : text → bool) (error : text)
    (lines : list text) (depth : Z) : result Z :=
  match lines with
  | [] => Ok depth
  | line :: rest =>
      let stripped := strip line in
      if (match stripped with [] => true | _ => false end) || starts_with (py "#") stripped
      then conditional_depth opens closes error rest depth
      else if opens stripped then conditional_depth opens closes error rest (depth + 1)
      else if closes stripped then
        if (depth - 1 <? 0)%Z then install_error error
        else conditional_depth opens closes error rest (depth - 1)
      else conditional_depth opens closes error rest depth
  end.

Definition matches_at_start (r : regex) (s : text) : bool :=
  match re_match r s with Some _ => true | None => false end.

Definition make_opens : text → bool :=
  matches_at_start
    (seqs [RBol; alts [lit (py "ifeq"); lit (py "ifneq"); lit (py "ifdef"); lit (py "ifndef")];
           RWordB]).
Definition make_closes : text → bool :=
  matches_at_start (seqs [RBol; lit (py "endif"); RWordB]).

Definition make_conditional_depth (path s : text) (boundary : nat) : result Z :=
  depth ← conditional_depth make_opens make_closes
            (py "unbalanced Make conditional in " ++ path) (splitlines (take boundary s)) 0;
  if (depth =? 0)%Z then Ok depth
  else install_error (py "ABK Kbuild block is nested in a conditional in " ++ path).

Definition space_or_end : regex := RAlt space (REol false).

Definition kconfig_opens : text → bool :=
  matches_at_start (seqs [RBol; lit (py "if"); space_or_end]).
Definition kconfig_closes : text → bool :=
  matches_at_start (seqs [RBol; lit (py "endif"); space_or_end]).

Definition kconfig_condition_depth (path s : text) (boundary : nat) : result Z :=
  depth ← conditional_depth kconfig_opens kconfig_closes
            (py "unbalanced Kconfig conditional in " ++ path) (splitlines (take boundary s)) 0;
  if (depth =? 0)%Z then Ok depth
  else install_error (py "ABK Kconfig block is nested in a conditional in " ++ path).

Definition kbuild_conflict {A} (path : text) : result A :=
  install_error (py "conflicting or partial ABK Kbuild injection in " ++ path).

Definition runtime_tail_tokens : list text :=
  [py "ABK_KSU_RUNTIME_TAIL_SOURCE_VERIFIED"; py "ABK_KSU_ALLOW_RUNTIME_KSU_TAIL"].

Definition installed_kbuild_block (path s : text) : result text :=
  validate_kbuild_directives path s ;;
  let marker_count := count MARKER s in
  if marker_count =? 0 then
    install_error (py "incomplete sandbox injection: ABK Kbuild block missing in " ++ path)
  else if negb (marker_count =? 1) then kbuild_conflict path
  else
    match concat (map (λ candidate, replicate (count candidate s) candidate)
                      owned_kbuild_blocks) with
    | [installed] =>
        match find installed s with
        | None => Err (OtherError (py "ValueError"))
        | Some start =>
            make_conditional_depth path s start ;;
            if negb (text_eqb (strip (drop (start + length installed) s)) []) then
              kbuild_conflict path
            else if existsb (λ token, negb (count token s =? count token installed))
                            runtime_tail_tokens
            then kbuild_conflict path
            else Ok installed
        end
    | _ => kbuild_conflict path
    end.

Definition install_kbuild (path : path) (block : text) : M unit :=
  s ← read path;
  lift (validate_kbuild_directives (path_text path) s) ;;
  let desired := strip block in
  if negb (contains MARKER s) then write path (rstrip s ++ py "\n" ++ lstrip_nl block)
  else
    installed ← lift (installed_kbuild_block (path_text path) s);
    if text_eqb installed desired then mret tt
    else write path (replace_first installed desired s).

(** ** Kconfig *)

Definition kconfig_definition_pattern : regex :=
  seqs [RBol; blanks; RAlt (lit (py "menuconfig")) (lit (py "config"));
        plus (any_of [blank; tab]); lit (py "KSU_ABK_SANDBOX"); RWordB].

Definition endmenu_suffix_pattern : regex :=
  seqs [RBol; star (any_of [blank; tab; cr; nl]); lit (py "endmenu"); space_or_end].

Definition kconfig_conflict {A} (path : text) : result A :=
  install_error (py "conflicting or partial ABK Kconfig injection in " ++ path).

Definition installed_kconfig_block (path s : text) : result text :=
  let desired := strip KCONFIG_BLOCK in
  let definitions := findall kconfig_definition_pattern s in
  if negb (count MARKER s =? 1) || negb (length definitions =? 1)
     || negb (count desired s =? 1)
  then kconfig_conflict path
  else
    match find desired s with
    | None => Err (OtherError (py "ValueError"))
    | Some start =>
        kconfig_condition_depth path s start ;;
        if matches_at_start endmenu_suffix_pattern (drop (start + length desired) s)
        then Ok desired
        else kconfig_conflict path
    end.

Definition needle_line_pattern (needle : text) : regex :=
  seqs [RBol; blanks; lit needle; blanks; opt (RSeq (lit (py "#")) (star dot)); REol true].

Definition insert_before_last (path : path) (needle block : text) : M unit :=
  s ← read path;
  if contains MARKER s
     || match re_search kconfig_definition_pattern s with Some _ => true | None => false end
  then lift (installed_kconfig_block (path_text path) s) ;; mret tt
  else
    match List.rev (finditer (needle_line_pattern needle) s) with
    | [] => raise_install (py "injection anchor " ++ repr needle ++ py " not found in "
                           ++ path_text path)
    | m :: _ =>
        let index := m_start m in
        lift (kconfig_condition_depth (path_text path) s index) ;;
        write path (take index s ++ block ++ py "\n" ++ drop index s)
    end.
