(* ===== verification/KbuildFacts.v ===== *)
(** * The Kbuild block

    [installed_kbuild_block] against a declarative description of an installed block, and
    what [install_kbuild] leaves in the file. *)

From Stdlib Require Import Ascii.
From stdpp Require Import base list strings sets.
From S2P Require Import Prelude PyText Strip Occurrences PyRegex RegexFacts PyResult World.
From S2P Require Import Transaction Kbuild.

(** ** The shape of the owned blocks *)

Definition owned_head : text := py "# " ++ MARKER.
Definition owned_last : text := py "kernelsu-objs += abk_sandbox/lsm.o".

(** A block between its first line and its last line. *)
Definition owned_mid (b : text) : text :=
  slice b (S (length owned_head)) (length b - S (length owned_last)).

Definition wrap_block (mid : text) : text := owned_head ++ nl :: mid ++ nl :: owned_last.

Definition owned_shape (b : text) : bool :=
  text_eqb b (wrap_block (owned_mid b)) && border_free b
  && (length (findall override_pattern (owned_mid b)) =? 0)
  && (count MARKER (owned_mid b) =? 0).

(** No owned block is a prefix of another. *)
Definition owned_apart (b c : text) : bool :=
  text_eqb b c || (negb (starts_with b c) && negb (starts_with c b)).

Lemma owned_shapes : forallb owned_shape owned_kbuild_blocks = true.
Proof. vm_compute. reflexivity. Qed.

Lemma owned_distinct :
  forallb (λ b, forallb (owned_apart b) owned_kbuild_blocks) owned_kbuild_blocks = true.
Proof. vm_compute. reflexivity. Qed.

Fixpoint distinct_texts (ts : list text) : bool :=
  match ts with
  | [] => true
  | t :: ts' => negb (existsb (text_eqb t) ts') && distinct_texts ts'
  end.

Lemma distinct_texts_NoDup ts : distinct_texts ts = true → NoDup ts.
Proof.
  induction ts as [|t ts IH]; simpl; [constructor|]. intros H. bool_hyps.
  constructor; [|auto]. intros Hin. rewrite (proj2 (existsb_exists _ _)) in H; [done|].
  exists t. split; [by apply list_elem_of_In|by apply text_eqb_refl].
Qed.

Lemma owned_NoDup : NoDup owned_kbuild_blocks.
Proof. apply distinct_texts_NoDup. vm_compute. reflexivity. Qed.

#[local] Opaque owned_kbuild_blocks MARKER runtime_tail_tokens.

Lemma owned_elim b :
  b ∈ owned_kbuild_blocks →
  b = wrap_block (owned_mid b) ∧ border_free b = true ∧
  findall override_pattern (owned_mid b) = [] ∧ count MARKER (owned_mid b) = 0.
Proof.
  intros Hb. pose proof owned_shapes as H. rewrite forallb_forall in H.
  specialize (H b). rewrite <- list_elem_of_In in H. specialize (H Hb).
  unfold owned_shape in H. bool_hyps. split_and!; try done. by apply nil_length_inv.
Qed.

Lemma owned_same b c r :
  b ∈ owned_kbuild_blocks → c ∈ owned_kbuild_blocks → starts_with c (b ++ r) = true → c = b.
Proof.
  intros Hb Hc Hs. pose proof owned_distinct as H. rewrite forallb_forall in H.
  specialize (H b). rewrite <- list_elem_of_In in H. specialize (H Hb). simpl in H.
  rewrite forallb_forall in H. specialize (H c). rewrite <- list_elem_of_In in H.
  specialize (H Hc). unfold owned_apart in H.
  destruct (text_eqb b c) eqn:E; bool_hyps; [done|]. simpl in H. bool_hyps.
  apply starts_with_app_inv in Hs as [Hs|Hs]; congruence.
Qed.

(** ** Counting in a text around a block *)

(** A pattern without a border, white space or a hash: a word of the Makefile. *)
Definition plain_word (p : text) : bool :=
  border_free p && negb (text_eqb p []) && forallb (λ c, negb (is_space c)) p
  && negb (existsb (char_eqb "#") p).

Lemma MARKER_word : plain_word MARKER = true.
Proof. vm_compute. reflexivity. Qed.

Lemma runtime_tail_words : forallb plain_word runtime_tail_tokens = true.
Proof. vm_compute. reflexivity. Qed.

Lemma plain_word_elim p :
  plain_word p = true →
  border_free p = true ∧ p ≠ [] ∧ (∀ c, is_space c = true → c ∉ p) ∧ "#"%char ∉ p.
Proof.
  unfold plain_word. intros H. bool_hyps. split_and!; [done|done| |].
  - intros c Hc Hin. rewrite forallb_forall in H1. apply list_elem_of_In, H1 in Hin.
    bool_hyps. congruence.
  - intros Hin. rewrite (proj2 (existsb_exists _ _)) in H0; [done|].
    eexists. split; [by apply list_elem_of_In|by apply char_eqb_refl].
Qed.

Lemma count_spaces p suf :
  plain_word p = true → Forall (λ c, is_space c = true) suf → count p suf = 0.
Proof.
  intros (Hb & Hp & Hs & _)%plain_word_elim Hf. apply count_zero; [done|].
  apply not_true_iff_false. intros (a & b & ->)%contains_spec.
  destruct p as [|c p]; [done|]. rewrite !Forall_app, Forall_cons in Hf.
  destruct Hf as (_ & [Hc _] & _). apply (Hs c Hc). by left.
Qed.

(** Before a hash and after it, up to white space at the end. *)
Lemma count_around p pre x suf :
  plain_word p = true → Forall (λ c, is_space c = true) suf →
  count p (pre ++ ("#"%char :: x) ++ suf) = count p pre + count p ("#"%char :: x).
Proof.
  intros Hw Hf. pose proof (count_spaces p suf Hw Hf) as Hz.
  destruct (plain_word_elim p Hw) as (Hb & Hp & Hs & Hh).
  cbn [app]. rewrite count_across by done.
  assert (∀ y, count p ("#"%char :: y) = count p y) as Hcons.
  { intros y. change ("#"%char :: y) with ([] ++ "#"%char :: y).
    rewrite count_across by done. by destruct p. }
  rewrite Hcons. f_equal. destruct suf as [|c suf]; [by rewrite app_nil_r|].
  apply Forall_cons in Hf as [Hc Hf]. rewrite count_across by auto.
  rewrite (count_spaces p suf) by done. lia.
Qed.

Lemma owned_hash b : b ∈ owned_kbuild_blocks → ∃ x, b = "#"%char :: x.
Proof. intros (Hb & _)%owned_elim. rewrite Hb. by eexists. Qed.

Lemma count_in_block p pre b suf :
  plain_word p = true → b ∈ owned_kbuild_blocks → Forall (λ c, is_space c = true) suf →
  count p (pre ++ b ++ suf) = count p pre + count p b.
Proof. intros Hw [x ->]%owned_hash Hf. by apply count_around. Qed.

Lemma count_marker_block b : b ∈ owned_kbuild_blocks → count MARKER b = 1.
Proof.
  intros (Hw & _ & _ & Hm)%owned_elim. rewrite Hw. unfold wrap_block.
  destruct (plain_word_elim _ MARKER_word) as (Hb & Hp & Hs & Hh).
  rewrite !count_across by auto. rewrite Hm. vm_compute. reflexivity.
Qed.

(** Every occurrence of an owned block holds the marker, two characters further on. *)
Lemma owned_marker b s i :
  b ∈ owned_kbuild_blocks → occurs_at b s i = true → occurs_at MARKER s (2 + i) = true.
Proof.
  intros (Hb & _)%owned_elim [r Hr]%starts_with_spec. unfold occurs_at.
  rewrite Nat.add_comm, <- drop_drop, Hr, Hb. unfold wrap_block, owned_head.
  rewrite <- !app_assoc. cbn [drop]. apply starts_with_self.
Qed.

(** ** [installed_kbuild_block] *)

(** The file holds the block [b] at its end, once, outside of any conditional, and nothing
    else that the installer writes. *)
Record kbuild_installed (path s b : text) : Prop := KbuildInstalled {
  ki_owned : b ∈ owned_kbuild_blocks;
  ki_directives : findall override_pattern s = [];
  ki_place : ∃ pre suf, s = pre ++ b ++ suf ∧ Forall (λ c, is_space c = true) suf ∧
    contains MARKER pre = false ∧
    (∀ token, token ∈ runtime_tail_tokens → contains token pre = false) ∧
    make_conditional_depth path s (length pre) = Ok 0%Z
}.

Lemma plain_count_zero p s : plain_word p = true → count p s = 0 ↔ contains p s = false.
Proof.
  intros (Hb & Hp & _)%plain_word_elim. rewrite count_occ by done. by apply occ_zero.
Qed.

Lemma tail_token_word token : token ∈ runtime_tail_tokens → plain_word token = true.
Proof.
  intros Hin. pose proof runtime_tail_words as H. rewrite forallb_forall in H.
  by apply H, list_elem_of_In.
Qed.

(** The only candidates are the owned blocks the text contains. *)
Lemma candidates_elem s ts x :
  concat (map (λ c, replicate (count c s) c) ts) = [x] → x ∈ ts ∧ count x s ≠ 0.
Proof.
  intros H. assert (In x (concat (map (λ c, replicate (count c s) c) ts))) as Hin
    by (rewrite H; by left).
  apply in_concat in Hin as (l & Hl & Hx). apply in_map_iff in Hl as (c & <- & Hc).
  apply list_elem_of_In, elem_of_replicate in Hx as [-> Hn].
  split; [by apply list_elem_of_In|done].
Qed.

Lemma candidates_one s ts b :
  NoDup ts → b ∈ ts → count b s = 1 → (∀ c, c ∈ ts → c ≠ b → count c s = 0) →
  concat (map (λ c, replicate (count c s) c) ts) = [b].
Proof.
  intros Hnd Hb H1 H0.
  assert (∀ us, b ∉ us → (∀ c, c ∈ us → c ∈ ts) →
            concat (map (λ c, replicate (count c s) c) us) = []) as Hnone.
  { intros us Hus Hsub. induction us as [|u us IH]; [done|]. simpl.
    rewrite H0, IH; [done|set_solver..]. }
  induction Hnd as [|c ts Hc Hnd IH]; [by apply not_elem_of_nil in Hb|]. simpl.
  apply elem_of_cons in Hb as [->|Hb].
  - rewrite H1, (Hnone ts); [done|done|set_solver].
  - rewrite H0, IH; [done|done|set_solver|set_solver|set_solver|set_solver].
Qed.

Lemma marker_unique s k pre b suf :
  (∀ i, occurs_at MARKER s i = true ↔ i = k) → b ∈ owned_kbuild_blocks →
  s = pre ++ b ++ suf → k = 2 + length pre ∧ contains MARKER pre = false.
Proof.
  intros Hk Hb ->.
  assert (k = 2 + length pre) as ->.
  { symmetry. apply Hk. eapply (owned_marker b); [done|]. unfold occurs_at.
    rewrite drop_app_length. apply starts_with_self. }
  split; [done|]. apply not_true_iff_false. intros (x & y & ->)%contains_spec.
  assert (length x = 2 + length (x ++ MARKER ++ y)) as Hl; [|rewrite length_app in Hl; lia].
  apply Hk. unfold occurs_at. rewrite <- !app_assoc, drop_app_length.
  apply starts_with_self.
Qed.

Lemma tokens_absent pre b suf :
  b ∈ owned_kbuild_blocks → Forall (λ c, is_space c = true) suf →
  existsb (λ token, negb (count token (pre ++ b ++ suf) =? count token b))
    runtime_tail_tokens = false ↔
  ∀ token, token ∈ runtime_tail_tokens → contains token pre = false.
Proof.
  intros Hb Hf. rewrite <- not_true_iff_false, existsb_exists. split.
  - intros H token Hin. apply tail_token_word in Hin as Hw. apply plain_count_zero; [done|].
    destruct (decide (count token pre = 0)) as [|Hn]; [done|]. destruct H. exists token.
    split; [by apply list_elem_of_In|]. rewrite count_in_block by done.
    apply negb_true_iff, Nat.eqb_neq. lia.
  - intros H (token & Hin%list_elem_of_In & Hc).
    apply tail_token_word in Hin as Hw. rewrite count_in_block in Hc by done.
    rewrite (proj2 (plain_count_zero token pre Hw)) in Hc by auto.
    simpl in Hc. by rewrite Nat.eqb_refl in Hc.
Qed.

Lemma count_marker_one b pre suf :
  b ∈ owned_kbuild_blocks → Forall (λ c, is_space c = true) suf →
  contains MARKER pre = false → count MARKER (pre ++ b ++ suf) = 1.
Proof.
  intros Hb Hf Hp. pose proof MARKER_word as Hw.
  rewrite count_in_block, (count_marker_block b) by done.
  by rewrite (proj2 (plain_count_zero MARKER pre Hw)).
Qed.

Lemma marker_offset s :
  count MARKER s = 1 → ∃ k, ∀ i, occurs_at MARKER s i = true ↔ i = k.
Proof.
  intros H. destruct (plain_word_elim _ MARKER_word) as (Hb & Hp & _).
  by apply count_one.
Qed.

(** In an installed text the only owned block is the installed one, at its only place. *)
Lemma owned_place b pre suf c i :
  b ∈ owned_kbuild_blocks → c ∈ owned_kbuild_blocks →
  Forall (λ c, is_space c = true) suf → contains MARKER pre = false →
  occurs_at c (pre ++ b ++ suf) i = true → i = length pre ∧ c = b.
Proof.
  intros Hb Hc Hf Hp Hi. destruct (marker_offset (pre ++ b ++ suf)) as [k Hk].
  { by apply count_marker_one. }
  destruct (marker_unique _ k pre b suf Hk Hb eq_refl) as [Hk' _].
  apply owned_marker in Hi as Hm; [|done]. apply Hk in Hm.
  assert (i = length pre) as -> by lia. split; [done|].
  unfold occurs_at in Hi. rewrite drop_app_length in Hi. by eapply owned_same.
Qed.

Lemma count_owned_one b pre suf :
  b ∈ owned_kbuild_blocks → Forall (λ c, is_space c = true) suf →
  contains MARKER pre = false → count b (pre ++ b ++ suf) = 1.
Proof.
  intros Hb Hf Hp. destruct (owned_hash b Hb) as [x Hx].
  apply count_one; [by apply owned_elim|by rewrite Hx|]. exists (length pre). intros i. split.
  - intros Hi. by eapply owned_place in Hi as [? _].
  - intros ->. unfold occurs_at. rewrite drop_app_length. apply starts_with_self.
Qed.

Lemma find_owned b pre suf :
  b ∈ owned_kbuild_blocks → Forall (λ c, is_space c = true) suf →
  contains MARKER pre = false → find b (pre ++ b ++ suf) = Some (length pre).
Proof.
  intros Hb Hf Hp. destruct (find b (pre ++ b ++ suf)) as [i|] eqn:E.
  - apply find_Some in E as (x & y & Hs & -> & _). f_equal.
    eapply (owned_place b pre suf b); [done..|]. unfold occurs_at.
    rewrite Hs, drop_app_length. apply starts_with_self.
  - assert (contains b (pre ++ b ++ suf) = true) as Hc by (apply contains_spec; eauto).
    unfold contains in Hc. by rewrite E in Hc.
Qed.

Lemma make_depth_zero path s n d :
  make_conditional_depth path s n = Ok d → make_conditional_depth path s n = Ok 0%Z.
Proof.
  unfold make_conditional_depth. intros (z & -> & H)%bind_Ok.
  cbn. by destruct (z =? 0)%Z eqn:E; [apply Z.eqb_eq in E as ->|].
Qed.

Lemma installed_block_iff path s b :
  installed_kbuild_block path s = Ok b ↔ kbuild_installed path s b.
Proof.
  split.
  - unfold installed_kbuild_block. intros ([] & Hv & H)%bind_Ok.
    destruct (count MARKER s =? 0) eqn:E0; [done|].
    destruct (count MARKER s =? 1) eqn:E1; [|done]. cbn [negb] in H. bool_hyps.
    destruct (concat _) as [|x [|]] eqn:Ec; try done.
    apply candidates_elem in Ec as [Hx _].
    destruct (find x s) as [start|] eqn:Ef; [|done].
    apply find_Some in Ef as (pre & suf & -> & -> & _).
    apply bind_Ok in H as (d & Hd & H).
    destruct (negb (text_eqb (strip _) [])) eqn:Es; [done|]. bool_hyps.
    rewrite app_assoc, <- length_app, drop_app_length in Es. apply strip_nil in Es.
    destruct (existsb (λ _, _) _) eqn:Et; [done|]. injection H as <-.
    destruct (marker_offset _ E1) as [k Hk].
    destruct (marker_unique _ k pre x suf Hk Hx eq_refl) as [_ Hp].
    split; [done| |].
    + unfold validate_kbuild_directives in Hv. by destruct (findall _ _).
    + exists pre, suf. split_and!; [done..|by eapply tokens_absent|].
      by eapply make_depth_zero.
  - intros [Hb Hv (pre & suf & -> & Hf & Hp & Ht & Hd)]. unfold installed_kbuild_block.
    unfold validate_kbuild_directives. rewrite Hv. cbn [mbind result_bind].
    rewrite count_marker_one by done. cbn [Nat.eqb negb].
    rewrite (candidates_one _ _ b owned_NoDup Hb).
    + rewrite find_owned, Hd by done. cbn [mbind result_bind].
      rewrite app_assoc, <- length_app, drop_app_length, (proj2 (strip_nil suf) Hf).
      cbn [text_eqb negb]. rewrite <- app_assoc. by rewrite (proj2 (tokens_absent _ _ _ Hb Hf)).
    + by apply count_owned_one.
    + intros c Hc Hne. apply count_zero; [by destruct (owned_hash c Hc) as [x ->]|].
      apply not_true_iff_false. intros [i Hi]%contains_occurs.
      by eapply owned_place in Hi as [_ ?].
Qed.

(** C21: [installed_kbuild_block] recognises exactly the installed blocks: it returns [b] when
    and only when the text ends, up to white space, with the owned block [b], and before it
    there is no marker, no token of a runtime policy and no open conditional, and nowhere an
    override directive. *)
Theorem installed_kbuild_block_spec path s b :
  installed_kbuild_block path s = Ok b ↔ kbuild_installed path s b.
Proof. apply installed_block_iff. Qed.
