(* ===== verification/DepthFacts.v ===== *)
(** * Conditional depth

    The counters of open conditionals in a makefile and in a Kconfig file, against the sums of
    the directives above a place. *)

From Stdlib Require Import Ascii.
From stdpp Require Import base list strings.
From S2P Require Import Prelude PyText PyResult Kbuild.

#[local] Open Scope Z_scope.

Section depth.
Context (opens closes : text → bool).

(** What a line adds to the depth; an empty line or a comment adds nothing. *)
Definition weight (line : text) : Z :=
  let stripped := strip line in
  if (match stripped with [] => true | _ => false end) || starts_with (py "#") stripped then 0
  else if opens stripped then 1
  else if closes stripped then -1
  else 0.

(** The depth after the first [k] lines. *)
Definition depth_after (lines : list text) (k : nat) : Z :=
  foldr Z.add 0 (map weight (take k lines)).

(** No line closes what no line above has opened. *)
Definition never_negative (lines : list text) (depth : Z) : Prop :=
  ∀ k, 0 ≤ depth + depth_after lines k.

Lemma depth_after_cons line lines k :
  depth_after (line :: lines) (S k) = weight line + depth_after lines k.
Proof. done. Qed.

Lemma never_negative_cons line lines depth :
  0 ≤ depth →
  never_negative (line :: lines) depth ↔
  0 ≤ depth + weight line ∧ never_negative lines (depth + weight line).
Proof.
  intros Hd. split.
  - intros H. split; [specialize (H 1%nat); unfold depth_after in H; simpl in H; lia|].
    intros k. specialize (H (S k)). rewrite depth_after_cons in H. lia.
  - intros [H0 H] [|k]; [unfold depth_after; simpl; lia|]. specialize (H k).
    rewrite depth_after_cons. lia.
Qed.

Lemma conditional_depth_cons error line lines depth :
  0 ≤ depth →
  conditional_depth opens closes error (line :: lines) depth =
  if depth + weight line <? 0 then install_error error
  else conditional_depth opens closes error lines (depth + weight line).
Proof.
  intros Hd. cbn [conditional_depth]. unfold weight. cbv zeta.
  destruct (_ || _); [|destruct (opens _); [|destruct (closes _)]].
  - by rewrite Z.add_0_r, (proj2 (Z.ltb_ge _ _)).
  - by rewrite (proj2 (Z.ltb_ge _ _)) by lia.
  - done.
  - by rewrite Z.add_0_r, (proj2 (Z.ltb_ge _ _)).
Qed.

Lemma conditional_depth_spec error lines depth :
  0 ≤ depth →
  (never_negative lines depth ∧
   conditional_depth opens closes error lines depth =
   Ok (depth + depth_after lines (length lines))) ∨
  (¬ never_negative lines depth ∧
   conditional_depth opens closes error lines depth = install_error error).
Proof.
  revert depth. induction lines as [|line lines IH]; intros depth Hd.
  - left. split; [intros [|k]; unfold depth_after; simpl; lia|].
    unfold depth_after. simpl. by rewrite Z.add_0_r.
  - rewrite conditional_depth_cons, never_negative_cons by done.
    destruct (Z.ltb_spec (depth + weight line) 0); [right; split; [lia|done]|].
    cbn [length]. rewrite depth_after_cons, Z.add_assoc.
    destruct (IH (depth + weight line)) as [[Hn ->]|[Hn ->]]; [done|by left|right].
    split; [by intros [_ ?]|done].
Qed.

(** The three outcomes for the lines above a place. *)
Definition depth_outcome (lines : list text) (unbalanced nested : text) (r : result Z) : Prop :=
  (never_negative lines 0 ∧ depth_after lines (length lines) = 0 ∧ r = Ok 0) ∨
  (never_negative lines 0 ∧ depth_after lines (length lines) ≠ 0 ∧ r = install_error nested) ∨
  (¬ never_negative lines 0 ∧ r = install_error unbalanced).

Lemma depth_outcome_of lines unbalanced nested :
  depth_outcome lines unbalanced nested
    (depth ← conditional_depth opens closes unbalanced lines 0;
     if depth =? 0 then Ok depth else install_error nested).
Proof.
  unfold depth_outcome.
  destruct (conditional_depth_spec unbalanced lines 0 (Z.le_refl 0)) as [[Hn ->]|[Hn ->]].
  - cbn [mbind result_bind]. rewrite Z.add_0_l.
    destruct (Z.eqb_spec (depth_after lines (length lines)) 0) as [E|E]; [left|right; left];
      by rewrite ?E.
  - by right; right.
Qed.
End depth.

(** C29: the bounds of the conditional depth.  Above a place of a makefile or of a Kconfig file
    the depth is reported as 0 exactly when no prefix of the lines closes more conditionals
    than it opens and all of them together balance; a prefix with more closings is the error
    of an unbalanced file, whatever follows, and otherwise an open conditional is the error of
    a nested block. *)
Theorem conditional_depth_bounds path s boundary :
  let lines := splitlines (take boundary s) in
  depth_outcome make_opens make_closes lines
    (py "unbalanced Make conditional in " ++ path)
    (py "ABK Kbuild block is nested in a conditional in " ++ path)
    (make_conditional_depth path s boundary) ∧
  depth_outcome kconfig_opens kconfig_closes lines
    (py "unbalanced Kconfig conditional in " ++ path)
    (py "ABK Kconfig block is nested in a conditional in " ++ path)
    (kconfig_condition_depth path s boundary).
Proof. split; apply depth_outcome_of. Qed.
