(* ===== verification/Defconfig.v ===== *)
(** * The kernel configuration fragment (install.py, [config_state],
    [validate_runtime_ksu_tail_config], [validate_defconfig])

    A defconfig is text; a symbol is looked up with a multi-line pattern, and the list of
    security modules is checked field by field. *)

From Stdlib Require Import Ascii.
From stdpp Require Import base list strings.
From S2P Require Import Prelude PyText PyRegex PyResult World Transaction Kbuild.

(** ** [config_state] *)

Definition config_pattern (symbol : text) : regex :=
  seqs [RBol;
        RAlt (seqs [lit (py "CONFIG_" ++ symbol ++ py "="); RGroup 1 (plus (none_of [nl]))])
             (lit (py "# CONFIG_" ++ symbol ++ py " is not set"));
        REol true].

(** [pattern.findall(text)]: the text of the group, [None] where it took no part. *)
Definition config_entries (symbol s : text) : list (option text) :=
  map (λ m, group s m 1) (finditer (config_pattern symbol) s).

Definition config_state_of (symbol s : text) : result (option text) :=
  match config_entries symbol s with
  | [] => Ok None
  | [Some value] => Ok (Some value)
  | [None] => Ok (Some (py "n"))
  | _ => install_error (py "defconfig contains duplicate CONFIG_" ++ symbol ++ py " entries")
  end.

Definition config_state (defconfig : path) (symbol : text) : M (option text) :=
  s ← read defconfig;
  lift (config_state_of symbol s).

Definition state_is (value : text) (state : option text) : bool :=
  match state with Some v => text_eqb v value | None => false end.

(** ** [validate_runtime_ksu_tail_config] *)

Definition hook_modes : list text :=
  [py "KSU_TRACEPOINT_HOOK"; py "KSU_MANUAL_HOOK"; py "KSU_SUSFS"].

Definition optional_lsm_hooks : list text :=
  [py "KSU_MANUAL_HOOK_AUTO_SETUID_HOOK"; py "KSU_MANUAL_HOOK_AUTO_INITRC_HOOK"].

Fixpoint config_states (defconfig : path) (symbols : list text)
    : M (list (text * option text)) :=
  match symbols with
  | [] => mret []
  | symbol :: rest =>
      state ← config_state defconfig symbol;
      states ← config_states defconfig rest;
      mret ((symbol, state) :: states)
  end.

Definition validate_runtime_ksu_tail_config (policy : text) (defconfig : option path)
    : M unit :=
  match defconfig with
  | None => mret tt
  | Some defconfig =>
      if negb (text_eqb policy RUNTIME_KSU_TAIL_RESUKISU_SUSFS) then mret tt
      else
        modes ← config_states defconfig hook_modes;
        let enabled := map fst (List.filter (λ m, state_is (py "y") m.2) modes) in
        if 1 <? length enabled then
          raise_install (py "ReSukiSU defconfig enables multiple hook modes: "
                         ++ join (py ", ") enabled)
        else if existsb (text_eqb (py "KSU_MANUAL_HOOK")) enabled then
          raise_install
            (py "ReSukiSU manual LSM credential hooks are unsupported with ABK KSU Sandbox")
        else
          for_each optional_lsm_hooks (λ symbol,
            state ← config_state defconfig symbol;
            if state_is (py "y") state then
              raise_install (py "ReSukiSU optional LSM hook CONFIG_" ++ symbol
                             ++ py "=y is unsupported")
            else mret tt)
  end.

(** ** [validate_defconfig] *)

Definition lsm_line_pattern : regex :=
  seqs [RBol; RSeq (lit (py "CONFIG_LSM=")) (star dot); REol true].

Definition is_lsm_char (c : ascii) : bool :=
  in_range 65 90 c || in_range 97 122 c || is_digit c || existsb (char_eqb c) (py "_,.-").

Definition lsm_value_pattern : regex :=
  seqs [lit (py "CONFIG_LSM=`"); RGroup 1 (plus (RSet is_lsm_char)); lit (py "`")].

Fixpoint has_duplicates (ts : list text) : bool :=
  match ts with
  | [] => false
  | t :: ts' => existsb (text_eqb t) ts' || has_duplicates ts'
  end.

Definition occurrences_of (t : text) (ts : list text) : nat :=
  length (List.filter (text_eqb t) ts).

Definition sandbox_lsm : text := py "abk_ksu_sandbox".

(** The checks on the CONFIG_LSM assignment. *)
Definition validate_lsm_list (config : text) : result unit :=
  match findall lsm_line_pattern config with
  | [line] =>
      match re_fullmatch lsm_value_pattern line with
      | None => install_error (py "CONFIG_LSM must be a quoted comma-separated list")
      | Some m =>
          match group line m 1 with
          | None => Err (OtherError (py "AttributeError"))
          | Some value =>
              let lsms := split_char "," value in
              if existsb (λ lsm, text_eqb lsm []) lsms then
                install_error (py "CONFIG_LSM must not contain empty entries")
              else if has_duplicates lsms then
                install_error (py "CONFIG_LSM must not contain duplicate entries")
              else if negb (existsb (text_eqb (py "selinux")) lsms) then
                install_error (py "CONFIG_LSM must include selinux")
              else if negb (occurrences_of sandbox_lsm lsms =? 1) then
                install_error (py "CONFIG_LSM must include abk_ksu_sandbox exactly once")
              else if negb (text_eqb (List.last lsms []) sandbox_lsm) then
                install_error (py "abk_ksu_sandbox must be the last CONFIG_LSM entry")
              else Ok tt
          end
      end
  | _ => install_error (py "defconfig must contain exactly one quoted CONFIG_LSM assignment")
  end.

Definition required_symbols : list (text * text) :=
  [(py "KSU", py "built-in CONFIG_KSU=y is required");
   (py "SECURITY_SELINUX", py "CONFIG_SECURITY_SELINUX=y is required");
   (py "NAMESPACES", py "CONFIG_NAMESPACES=y is required")].

Definition require_symbol (defconfig : path) (symbol message : text) : M unit :=
  state ← config_state defconfig symbol;
  if state_is (py "y") state then mret tt else raise_install message.

Definition validate_defconfig (defconfig : path) (require_sandbox : bool) : M unit :=
  config ← read defconfig;
  ksu_state ← config_state defconfig (py "KSU");
  if state_is (py "m") ksu_state then
    raise_install (py "CONFIG_KSU=m is unsupported; built-in CONFIG_KSU=y is required")
  else
    for_each required_symbols (λ sm, require_symbol defconfig sm.1 sm.2) ;;
    when require_sandbox
      (require_symbol defconfig (py "KSU_ABK_SANDBOX")
         (py "CONFIG_KSU_ABK_SANDBOX=y is missing from defconfig")) ;;
    when require_sandbox (lift (validate_lsm_list config)).
