(* ===== verification/Discovery.v ===== *)
(** * Finding the kernel and KernelSU sources (install.py, [Layout], [kernel_common] to
    [discover])

    The installer accepts one layout: a supported kernel line with exactly one built-in
    KernelSU tree of a known variant. *)

From Stdlib Require Import Ascii.
From stdpp Require Import base list strings gmap.
From S2P Require Import Prelude PyText PyRegex PyResult World Transaction.

Record layout := Layout {
  l_root : path;
  l_common : path;
  l_ksu : path;
  l_variant : text;
  l_version : text
}.

(** [SUPPORTED_KERNELS], in the order [sorted] gives *)
Definition SUPPORTED_KERNELS : list text :=
  [py "5.10"; py "5.15"; py "6.1"; py "6.12"; py "6.6"].

Definition kernel_common (root : path) : M path :=
  fs ← ask id;
  let common := root ++ ["common"] in
  if is_file fs (common ++ ["Makefile"]) then mret common
  else if is_file fs (root ++ ["Makefile"]) then mret root
  else raise_install (py "kernel Makefile not found below " ++ path_text root).

Definition version_pattern (key : text) : regex :=
  seqs [RBol; lit key; star space; lit (py "="); star space; RGroup 1 (plus digit);
        star space; REol true].

Definition makefile_value (makefile : path) (s key : text) : result text :=
  match re_search (version_pattern key) s with
  | None => install_error (py "cannot read " ++ key ++ py " from " ++ path_text makefile)
  | Some m =>
      match group s m 1 with
      | Some value => Ok value
      | None => Err (OtherError (py "TypeError"))
      end
  end.

Definition version_of (makefile : path) (s : text) : result text :=
  major ← makefile_value makefile s (py "VERSION");
  minor ← makefile_value makefile s (py "PATCHLEVEL");
  let version := major ++ py "." ++ minor in
  if existsb (text_eqb version) SUPPORTED_KERNELS then Ok version
  else install_error (py "unsupported kernel line " ++ version ++ py "; expected one of "
                      ++ join (py ", ") SUPPORTED_KERNELS).

Definition kernel_version (common : path) : M text :=
  s ← read (common ++ ["Makefile"]);
  lift (version_of (common ++ ["Makefile"]) s).

(** ** Candidate KernelSU trees *)

Definition preferred_candidates (root common : path) : list path :=
  [common ++ ["drivers"; "kernelsu"]; root ++ ["drivers"; "kernelsu"];
   root ++ ["KernelSU"; "kernel"]; root ++ ["kernel"]].

Definition is_ksu_tree (fs : fsys) (candidate : path) : bool :=
  is_file fs (candidate ++ ["Kbuild"])
  && is_file fs (candidate ++ ["policy"; "app_profile.c"])
  && is_file fs (candidate ++ ["selinux"; "sepolicy.c"]).

(** The loop over the preferred candidates; [seen] holds the resolved ones. *)
Fixpoint unseen_candidates (fs : fsys) (seen : list (option path)) (candidates : list path)
    : list path :=
  match candidates with
  | [] => []
  | candidate :: rest =>
      if negb (is_ksu_tree fs candidate) then unseen_candidates fs seen rest
      else
        let resolved := loc fs candidate in
        if bool_decide (resolved ∈ seen) then unseen_candidates fs seen rest
        else candidate :: unseen_candidates fs (resolved :: seen) rest
  end.

Definition ksu_candidates (fs : fsys) (root common : path) : list path :=
  unseen_candidates fs [] (preferred_candidates root common).

(** ** Variants *)

Definition variant_of (ksu : path) (corpus : text) : result text :=
  if contains (py "ReSukiSU") corpus || contains (py "REPO_NAME := ReSukiSU") corpus
  then Ok (py "resukisu")
  else if contains (py "SukiSU") corpus || contains (py "SUSFS") corpus
  then Ok (py "sukisu")
  else if contains (py "escape_with_root_profile") corpus
          && contains (py "kernelsu-objs") corpus
  then Ok (py "official")
  else install_error (py "unrecognized KernelSU source shape: " ++ path_text ksu).

Definition detect_variant (ksu : path) : M text :=
  kbuild ← read (ksu ++ ["Kbuild"]);
  kconfig ← read (ksu ++ ["Kconfig"]);
  app_profile ← read (ksu ++ ["policy"; "app_profile.c"]);
  lift (variant_of ksu (join [nl] [kbuild; kconfig; app_profile])).

Definition discover (root : path) : M layout :=
  common ← kernel_common root;
  work_mode ← gets w_work_mode;
  if text_eqb (lower work_mode) (py "lkm") then
    raise_install
      (py "KernelSU LKM mode is unsupported; ABK KSU Sandbox requires built-in KSU")
  else
    candidates ← ask (λ fs, ksu_candidates fs root common);
    match candidates with
    | [ksu] =>
        variant ← detect_variant ksu;
        version ← kernel_version common;
        mret (Layout root common ksu variant version)
    | _ =>
        let rendered := match candidates with
                        | [] => py "none"
                        | _ => join (py ", ") (map path_text candidates)
                        end in
        raise_install (py "expected exactly one built-in KernelSU source tree, found: "
                       ++ rendered)
    end.
