(* ===== verification/Resukisu.v ===== *)
(** * Audit of the ReSukiSU runtime hooks (install.py,
    [extract_resukisu_modern_lsm_branch] to [runtime_ksu_tail_policy])

    ReSukiSU registers its own security hooks at run time.  The installer accepts them only in
    the one shape it knows: the branch for modern kernels of hook/lsm_hooks.c, and no other
    registration anywhere in the tree. *)

From Stdlib Require Import Ascii.
From stdpp Require Import base list strings gmap sorting.
From S2P Require Import Prelude PyText PyRegex PyResult CLexer CPreproc World Transaction.
From S2P Require Import Kbuild Discovery.

(** ** [extract_resukisu_modern_lsm_branch] *)

(** The texts [ts] in order, with blanks and tabs allowed after each. *)
Definition blank_separated (ts : list text) : regex :=
  foldr (λ t r, RSeq (lit t) (RSeq blanks r)) REps ts.

(** The same with any white space. *)
Definition spaced (ts : list text) : regex :=
  foldr (λ t r, RSeq (lit t) (RSeq (star space) r)) REps ts.

Definition some_blanks : regex := plus (any_of [blank; tab]).

Definition modern_branch_pattern : regex :=
  seqs [RBol; blanks; lit (py "#"); blanks; lit (py "if"); some_blanks;
        blank_separated
          (map py ["LINUX_VERSION_CODE"; ">="; "KERNEL_VERSION"; "("; "4"; ","; "2"; ",";
                   "0"; ")"; "||"; "defined"; "("; "KSU_COMPAT_HAS_LIST_OF_LSM_HOOKS";
                   ")"]);
        opt (RSeq (opt (lit [cr])) (lit [nl])); REol false].

Definition conditional_pattern : regex :=
  seqs [RBol; blanks; lit (py "#"); blanks;
        RGroup 1 (alts (map (λ nd, lit nd.1)
          [(py "if", DIf); (py "ifdef", DIfdef); (py "ifndef", DIfndef);
           (py "elif", DElif); (py "else", DElse); (py "endif", DEndif)]));
        RWordB].

Definition conditional_kind (line : text) : option directive :=
  match re_match conditional_pattern line with
  | Some m => match group line m 1 with
              | Some name => directive_of_name name
              | None => None
              end
  | None => None
  end.

Definition opens_conditional (d : directive) : bool :=
  match d with DIf | DIfdef | DIfndef => true | _ => false end.

Definition is_modern_branch (line : text) : bool :=
  match re_fullmatch modern_branch_pattern line with Some _ => true | None => false end.

(** The first loop: the final depth and the indices of the conditionals of the right form at
    the outermost level. *)
Fixpoint modern_candidates (path : text) (lines : list text) (index : nat) (depth : Z)
    (candidates : list nat) : result (Z * list nat) :=
  match lines with
  | [] => Ok (depth, candidates)
  | line :: rest =>
      match conditional_kind line with
      | None => modern_candidates path rest (S index) depth candidates
      | Some kind =>
          if opens_conditional kind then
            let candidates' := if is_modern_branch line && (depth =? 0)%Z
                               then candidates ++ [index] else candidates in
            modern_candidates path rest (S index) (depth + 1) candidates'
          else match kind with
               | DEndif =>
                   if (depth - 1 <? 0)%Z then
                     install_error (py "unbalanced preprocessor conditional in " ++ path)
                   else modern_candidates path rest (S index) (depth - 1) candidates
               | _ => modern_candidates path rest (S index) depth candidates
               end
      end
  end.

Definition unsupported_shape {A} (what : text) : result A :=
  install_error (py "unsupported ReSukiSU runtime LSM hook shape: " ++ what).

(** The second loop, over the indices after the candidate: the indices of the [#else] and
    the [#endif] of the branch, where they were found. *)
Fixpoint modern_branch_bounds (lexical_lines : list text) (indices : list nat) (nested : Z)
    (branch_end : option nat) : result (option nat * option nat) :=
  match indices with
  | [] => Ok (branch_end, None)
  | index :: rest =>
      match lexical_lines !! index with
      | None => Err (OtherError (py "IndexError"))
      | Some line =>
          match conditional_kind line with
          | None => modern_branch_bounds lexical_lines rest nested branch_end
          | Some kind =>
              if opens_conditional kind
              then modern_branch_bounds lexical_lines rest (nested + 1) branch_end
              else match kind with
                   | DEndif =>
                       if (nested - 1 =? 0)%Z then Ok (branch_end, Some index)
                       else modern_branch_bounds lexical_lines rest (nested - 1) branch_end
                   | DElse =>
                       if (nested =? 1)%Z then
                         match branch_end with
                         | Some _ => unsupported_shape (py "modern branch")
                         | None =>
                             modern_branch_bounds lexical_lines rest nested (Some index)
                         end
                       else modern_branch_bounds lexical_lines rest nested branch_end
                   | _ =>
                       if (nested =? 1)%Z then unsupported_shape (py "modern branch")
                       else modern_branch_bounds lexical_lines rest nested branch_end
                   end
          end
      end
  end.

Definition extract_resukisu_modern_lsm_branch (path s : text) : result text :=
  let lines := splitlines_keep s in
  let lexical_lines := splitlines_keep (mask_c_comments_and_literals s) in
  found ← modern_candidates path lexical_lines 0 0 [];
  match found with
  | (0%Z, [candidate]) =>
      let indices := seq (S candidate) (length lines - S candidate) in
      bounds ← modern_branch_bounds lexical_lines indices 1 None;
      match bounds with
      | (Some branch_end, Some _) =>
          Ok (concat (take (branch_end - S candidate) (drop (S candidate) lines)))
      | _ => unsupported_shape (py "modern branch")
      end
  | _ => unsupported_shape (py "modern branch")
  end.

(** ** [resukisu_registration_sources] *)

Definition audited_suffixes : list text :=
  map py [".c"; ".h"; ".inc"; ".inl"; ".s"; ".S"].

(** [path.suffix]: the last dot of the name starts it, unless it is the first or the last
    character. *)
Fixpoint from_last_dot (s : text) : option text :=
  match s with
  | [] => None
  | c :: s' => match from_last_dot s' with
               | Some t => Some t
               | None => if char_eqb c "." then Some s else None
               end
  end.

Definition suffix (p : path) : text :=
  match name_text (name p) with
  | [] => []
  | _ :: rest => match from_last_dot rest with
                 | Some [_] | None => []
                 | Some t => t
                 end
  end.

(** The order of paths: component by component. *)
Fixpoint path_leb (p q : path) : bool :=
  match p, q with
  | [], _ => true
  | _ :: _, [] => false
  | a :: p', b :: q' =>
      match String.compare a b with
      | Lt => true
      | Gt => false
      | Eq => path_leb p' q'
      end
  end.

Definition path_le (p q : path) : Prop := path_leb p q = true.
#[export] Instance path_le_dec : RelDecision path_le := λ p q, decide (path_leb p q = true).

(** [sorted(p.rglob("*"))] without the prefix [p]: everything below the directory, links to
    directories not being entered. *)
Definition below (q k : path) : option path :=
  if bool_decide (take (length q) k = q) && negb (length k =? length q)
  then Some (drop (length q) k) else None.

Definition rglob (fs : fsys) (p : path) : list path :=
  match loc fs p with
  | Some q =>
      merge_sort path_le
        (omap (below q) (map fst (map_to_list (nodes fs)) ++ map fst (map_to_list (links fs))))
  | None => []
  end.

Definition token_paste_pattern : regex :=
  seqs [RWordB; lit (py "security_add_"); star space; lit (py "##"); star space;
        lit (py "hooks"); RWordB].

Definition registration_pattern : regex :=
  seqs [RWordB; lit (py "security_add_hooks"); RWordB].

(** The number of registrations in a source, which may not paste the token together. *)
Definition registration_count (raw : text) : result nat :=
  let code := collapse_c_line_continuations (mask_c_comments_and_literals raw) in
  match re_search token_paste_pattern code with
  | Some _ => unsupported_shape (py "token-pasted registration")
  | None => Ok (length (findall registration_pattern code))
  end.

Definition is_audited (fs : fsys) (ksu relative : path) : bool :=
  negb (existsb (String.eqb "abk_sandbox") relative)
  && is_file fs (ksu ++ relative)
  && existsb (text_eqb (suffix (ksu ++ relative))) audited_suffixes.

Fixpoint registration_sources (ksu : path) (relatives : list path) : M (list (path * nat)) :=
  match relatives with
  | [] => mret []
  | relative :: rest =>
      fs ← ask id;
      if negb (is_audited fs ksu relative) then registration_sources ksu rest
      else
        raw ← read_bytes (ksu ++ relative);
        if negb (contains (py "security_add_") raw) then registration_sources ksu rest
        else
          n ← lift (registration_count raw);
          sources ← registration_sources ksu rest;
          mret (if n =? 0 then sources else (ksu ++ relative, n) :: sources)
  end.

Definition resukisu_registration_sources (ksu : path) : M (list (path * nat)) :=
  relatives ← ask (λ fs, rglob fs ksu);
  registration_sources ksu relatives.

(** ** [validate_resukisu_runtime_lsm_hooks] *)

Definition modern_shape_pattern : regex :=
  seqs [star space; spaced (map py ["#"; "include"; "<linux/lsm_hooks.h>"]);
        lit (py "static"); plus space; lit (py "struct"); plus space;
        lit (py "security_hook_list"); plus space;
        spaced (map py ["ksu_hooks[]"; "="]);
        lit (py "{"); RGroup 1 (lazy_star any_char); spaced (map py ["};"]);
        lit (py "void"); plus space; lit (py "__init"); plus space;
        spaced (map py ["ksu_lsm_hook_built_in_init"; "("; "void"; ")"]);
        RGroup 2 (seqs [lit (py "{"); star any_char; lit (py "}")]); star space].

(** [LSM_HOOK_INIT(hook, handler),] with white space between the tokens *)
Definition hook_entry (hook handler : string) : regex :=
  spaced (map py ["LSM_HOOK_INIT"; "("; hook; ","; handler; ")"; ","]).

Definition guarded_entry (symbol hook handler : string) : regex :=
  seqs [spaced (map py ["#"]); lit (py "ifdef"); plus space; lit (py symbol); RWordB;
        star space; hook_entry hook handler; spaced (map py ["#"; "endif"])].

Definition audited_shape : regex :=
  seqs [star space; hook_entry "inode_rename" "ksu_inode_rename";
        guarded_entry "CONFIG_KSU_MANUAL_HOOK_AUTO_SETUID_HOOK"
          "task_fix_setuid" "ksu_task_fix_setuid";
        guarded_entry "CONFIG_KSU_MANUAL_HOOK_AUTO_INITRC_HOOK"
          "file_permission" "ksu_file_permission"].

Definition audited_registration : regex :=
  seqs [spaced (map py ["{"; "if"; "("; "ARRAY_SIZE"; "("; "ksu_hooks"; ")"; "=="; "0"; ")";
                        "return"; ";"; "#"]);
        lit (py "if"); plus space;
        spaced (map py ["LINUX_VERSION_CODE"; ">="; "KERNEL_VERSION"; "("; "4"; ","; "11";
                        ","; "0"; ")"; "||"; "defined"; "(";
                        "KSU_COMPAT_REQUIRE_PROVIDE_LSM_NAME"; ")";
                        "security_add_hooks"; "("; "ksu_hooks"; ","; "ARRAY_SIZE"; "(";
                        "ksu_hooks"; ")"; ","; "`ksu`"; ")"; ";"; "#"; "else";
                        "security_add_hooks"; "("; "ksu_hooks"; ","; "ARRAY_SIZE"; "(";
                        "ksu_hooks"; ")"; ")"; ";"; "#"; "endif"]);
        lit (py "}")].

Definition full_matches (r : regex) (s : text) : bool :=
  match re_fullmatch r s with Some _ => true | None => false end.

(** The shape of hook/lsm_hooks.c. *)
Definition validate_hook_shape (hook_path raw_text : text) : result unit :=
  branch ← extract_resukisu_modern_lsm_branch hook_path raw_text;
  let s := collapse_c_line_continuations (mask_c_comments branch) in
  match re_fullmatch modern_shape_pattern s with
  | None => unsupported_shape (py "ksu_hooks array")
  | Some m =>
      match group s m 1, group s m 2 with
      | Some body, Some registration_scope =>
          if negb (full_matches audited_shape body) then
            unsupported_shape (py "array contents")
          else if negb (full_matches audited_registration registration_scope) then
            unsupported_shape (py "registration function")
          else Ok tt
      | _, _ => Err (OtherError (py "TypeError"))
      end
  end.

Definition hook_file (ksu : path) : path := ksu ++ ["hook"; "lsm_hooks.c"].

Definition validate_resukisu_runtime_lsm_hooks (ksu : path) : M unit :=
  raw_text ← read (hook_file ksu);
  lift (validate_hook_shape (path_text (hook_file ksu)) raw_text) ;;
  sources ← resukisu_registration_sources ksu;
  if bool_decide (sources = [(hook_file ksu, 2)]) then mret tt
  else lift (unsupported_shape (py "extra registration token")).

(** ** [runtime_ksu_tail_policy] *)

(** [int(s)]: an optional sign and digits, single underscores between digits, in white
    space. *)
Definition py_int_pattern : regex :=
  seqs [RGroup 1 (opt (any_of (py "+-"))); plus digit;
        star (seqs [lit (py "_"); plus digit])].

Definition py_int (s : text) : result Z :=
  let t := strip s in
  match re_fullmatch py_int_pattern t with
  | None => Err (OtherError (py "ValueError"))
  | Some _ =>
      let value := int_of_digits 10 (List.filter is_digit t) in
      Ok (if starts_with (py "-") t then (- value)%Z else value)
  end.

Definition tail_supported_version (version : text) : result bool :=
  match split_char "." version with
  | [a; b] =>
      major ← py_int a;
      minor ← py_int b;
      Ok (negb ((6 <? major) || ((major =? 6) && (8 <=? minor))))%Z
  | _ => Err (OtherError (py "ValueError"))
  end.

Definition runtime_ksu_tail_policy (l : layout) : M text :=
  if negb (text_eqb (l_variant l) (py "resukisu")) then mret RUNTIME_KSU_TAIL_NEVER
  else
    supported ← lift (tail_supported_version (l_version l));
    if negb (supported : bool) then mret RUNTIME_KSU_TAIL_NEVER
    else
      validate_resukisu_runtime_lsm_hooks (l_ksu l) ;;
      mret RUNTIME_KSU_TAIL_RESUKISU_SUSFS.
