(* ===== verification/KsuPatches.v ===== *)
(** * Patches of the KernelSU sources (install.py, [add_include] to [patch_lsm_count])

    Each patch reads one file, decides whether the injection is already there in its exact
    form, and otherwise computes the new text; the computation on texts ([None]: nothing to
    do) is separate from the file access. *)

From Stdlib Require Import Ascii.
From stdpp Require Import base list strings.
From S2P Require Import Prelude PyText PyRegex PyResult CLexer CPreproc CScope World.
From S2P Require Import Transaction Kbuild Discovery.

(** The new text of a file, [None] when it is to be left alone. *)
Definition patch : Type := text → text → result (option text).

Definition write_new (p : path) (new : option text) : M unit :=
  match new with Some s => write p s | None => mret tt end.

Definition patch_file (p : path) (f : patch) : M unit :=
  s ← read p;
  new ← lift (f (path_text p) s);
  write_new p new.

(** The shape the patches share: nothing to do when installed, an edit otherwise. *)
Definition unless_installed (installed : result bool) (edit : result text)
    : result (option text) :=
  done ← installed;
  if (done : bool) then Ok None else Some <$> edit.

(** ** [add_include] *)

Definition include_pattern : regex :=
  seqs [RBol; blanks; lit (py "#"); blanks; lit (py "include"); RWordB].

Definition is_include (line : text) : bool :=
  match re_match include_pattern line with Some _ => true | None => false end.

(** The lines before the first include, and the rest from it on. *)
Fixpoint split_first (f : text → bool) (lines : list text)
    : option (list text * text * list text) :=
  match lines with
  | [] => None
  | line :: rest =>
      if f line then Some ([], line, rest)
      else match split_first f rest with
           | Some (before, first, after) => Some (line :: before, first, after)
           | None => None
           end
  end.

(** The lines of the run of includes, and the lines after it. *)
Fixpoint span (f : text → bool) (lines : list text) : list text * list text :=
  match lines with
  | [] => ([], [])
  | line :: rest =>
      if f line then let '(run, after) := span f rest in (line :: run, after)
      else ([], lines)
  end.

Definition add_include (s include path : text) : result text :=
  let lines := List.filter (λ line, negb (text_eqb (strip line) include)) (splitlines_keep s) in
  match split_first is_include lines with
  | None => install_error (py "include anchor not found in " ++ path)
  | Some (before, first, after) =>
      let '(run, rest) := span is_include after in
      let newline := if ends_with [cr; nl] first then [cr; nl] else [nl] in
      Ok (concat (before ++ first :: run) ++ (include ++ newline) ++ concat rest)
  end.

Definition sandbox_include : text := py "#include `abk_sandbox/abk_sandbox.h`".

(** ** [patch_escape] *)

Definition escape_signature : text := py "int escape_with_root_profile(void)\n{".

Definition escape_hook : text :=
  py "\n\n#ifdef CONFIG_KSU_ABK_SANDBOX\n    /* " ++ marked (py "escape") ++
  py " */\n    {\n        bool handled = false;\n        int sandbox_ret = abk_sandbox_try_escape(&handled);\n\n        if (handled)\n            return sandbox_ret;\n    }\n#endif".

Definition escape_patch : patch := λ path s,
  scope ← c_scope_containing path s escape_signature;
  unless_installed
    (exact_injection_installed path s (marked (py "escape")) [py "{" ++ escape_hook]
       (Some scope) [] []
       [(py "abk_sandbox_try_escape", 1)] [(py "abk_sandbox_try_escape", 1)]
       [(sandbox_include, 1)])
    (s ← add_include s sandbox_include path;
     insert_live_scope_start path s escape_signature escape_hook
       (py "escape_with_root_profile anchor not found")).

Definition patch_escape (ksu : path) : M unit :=
  patch_file (ksu ++ ["policy"; "app_profile.c"]) escape_patch.

(** ** [patch_supercall_dispatch] *)

Definition dispatch_anchor : text :=
  py "long ksu_supercall_handle_ioctl(unsigned int cmd, void __user *argp)\n{".

Definition dispatch_body_hook : text :=
  py "#ifdef CONFIG_KSU_ABK_SANDBOX\n    /* " ++ marked (py "deny sandbox supercalls") ++
  py " */\n    if (abk_sandbox_current(NULL, NULL))\n        return -EPERM;\n#endif\n".

Definition dispatch_patch : patch := λ path s,
  scope ← c_scope_containing path s dispatch_anchor;
  unless_installed
    (exact_injection_installed path s (marked (py "deny sandbox supercalls"))
       [py "{\n" ++ dispatch_body_hook] (Some scope) []
       [(dispatch_anchor, 1)]
       [(py "abk_sandbox_current", 1)] [(py "abk_sandbox_current", 1)]
       [(sandbox_include, 1)])
    (s ← add_include s sandbox_include path;
     insert_live_scope_start path s dispatch_anchor (py "\n" ++ dispatch_body_hook)
       (py "KernelSU supercall dispatch anchor not found")).

Definition patch_supercall_dispatch (ksu : path) : M unit :=
  patch_file (ksu ++ ["supercall"; "dispatch.c"]) dispatch_patch.

(** ** [patch_allowlist] *)

Definition revoke_hook : text :=
  py "#ifdef CONFIG_KSU_ABK_SANDBOX\n    /* " ++ marked (py "revoke") ++
  py " */\n    if (!result && !profile->allow_su)\n        abk_sandbox_revoke_uid_async(profile->curr_uid);\n#endif\n".

Definition prune_hook : text :=
  py "#ifdef CONFIG_KSU_ABK_SANDBOX\n            /* " ++ marked (py "prune") ++
  py " */\n            abk_sandbox_revoke_uid_async(uid);\n#endif\n".

Definition profile_anchor : text :=
  py "int ksu_set_app_profile(struct app_profile *profile)".
Definition prune_anchor : text := py "void ksu_prune_allowlist(".
Definition return_line : text := py "    return result;".
Definition removal_line : text := py "            hlist_del_rcu(&np->list);".

Definition allowlist_installed (path s : text) : result unit :=
  profile_scope ← c_scope_containing path s profile_anchor;
  prune_scope ← c_scope_containing path s prune_anchor;
  exact_injection_installed path s (marked (py "revoke")) [revoke_hook ++ return_line]
    (Some profile_scope) [] []
    [(py "abk_sandbox_revoke_uid_async", 1)] [] [(sandbox_include, 1)] ;;
  exact_injection_installed path s (marked (py "prune")) [prune_hook ++ removal_line]
    (Some prune_scope) [] []
    [(py "abk_sandbox_revoke_uid_async", 1)] [(py "abk_sandbox_revoke_uid_async", 2)] [] ;;
  Ok tt.

Definition allowlist_patch : patch := λ path s,
  if contains (marked (py "revoke")) s || contains (marked (py "prune")) s then
    allowlist_installed path s ;; Ok None
  else
    s ← add_include s sandbox_include path;
    s ← replace_live_in_scope path s profile_anchor return_line (revoke_hook ++ return_line)
          (py "ksu_set_app_profile return anchor not found");
    s ← replace_live_in_scope path s prune_anchor removal_line (prune_hook ++ removal_line)
          (py "allowlist prune removal anchor not found");
    Ok (Some s).

Definition patch_allowlist (ksu : path) : M unit :=
  patch_file (ksu ++ ["policy"; "allowlist.c"]) allowlist_patch.

(** ** [patch_policy_lock_order] *)

Definition rules_anchor : text := py "void apply_kernelsu_rules()".
Definition old_declaration : text :=
  py "struct selinux_policy *pol, *old_pol = selinux_state.policy;".
Definition new_declaration : text := py "struct selinux_policy *pol, *old_pol;".
Definition policy_lock : text := py "    mutex_lock(&selinux_state.policy_mutex);".
Definition lock_assignment : text :=
  py "\n    /* " ++ marked (py "policy snapshot under lock") ++
  py " */\n    old_pol = rcu_dereference_protected(selinux_state.policy,\n                    lockdep_is_held(&selinux_state.policy_mutex));".

Definition lock_order_patch : patch := λ path s,
  scope ← c_scope_containing path s rules_anchor;
  unless_installed
    (exact_injection_installed path s (marked (py "policy snapshot under lock"))
       [new_declaration; policy_lock ++ lock_assignment] (Some scope) [old_declaration] []
       [(py "old_pol = rcu_dereference_protected(selinux_state.policy", 1)] [] [])
    (s ← replace_live_in_scope path s rules_anchor old_declaration new_declaration
           (py "SELinux policy snapshot declaration anchor not found");
     replace_live_in_scope path s rules_anchor policy_lock (policy_lock ++ lock_assignment)
       (py "SELinux policy lock anchor not found")).

Definition patch_policy_lock_order (ksu : path) : M unit :=
  patch_file (ksu ++ ["selinux"; "rules.c"]) lock_order_patch.

(** ** [patch_policy_reapply] *)

Definition database_assignment : text := py "    db = &pol->policydb;".
Definition reapply_hook : text :=
  py "\n#ifdef CONFIG_KSU_ABK_SANDBOX\n    /* " ++ marked (py "policy reapply") ++
  py " */\n    if (abk_sandbox_policy_reapply(db)) {\n        ksu_destroy_sepolicy(pol);\n        goto out_unlock;\n    }\n#endif".

Definition reapply_patch : patch := λ path s,
  scope ← c_scope_containing path s rules_anchor;
  unless_installed
    (exact_injection_installed path s (marked (py "policy reapply"))
       [database_assignment ++ reapply_hook] (Some scope) [] []
       [(py "abk_sandbox_policy_reapply", 1)] [(py "abk_sandbox_policy_reapply", 1)]
       [(sandbox_include, 1)])
    (s ← add_include s sandbox_include path;
     replace_live_in_scope path s rules_anchor database_assignment
       (database_assignment ++ reapply_hook) (py "policy database anchor not found")).

Definition patch_policy_reapply (ksu : path) : M unit :=
  patch_file (ksu ++ ["selinux"; "rules.c"]) reapply_patch.

(** ** [patch_sucompat_fail_closed] and [patch_resukisu_manual_fail_closed] *)

Definition sucompat_anchor : text :=
  py "    ret = escape_with_root_profile();\n    if (ret) {\n        pr_err(`escape_with_root_profile failed: %ld\\n`, ret);\n    }".

Definition sucompat_replacement : text :=
  py "    ret = escape_with_root_profile();\n    if (ret) {\n        /* " ++
  marked (py "sucompat fail closed") ++
  py " */\n        pr_err(`escape_with_root_profile failed: %ld\\n`, ret);\n        ksu_sulog_emit_pending(pending_sucompat, ret, GFP_KERNEL);\n        ksu_close_fd(tmp_fd);\n        regs->__PT_PARM1_REG = orig_regs[0];\n        regs->__PT_PARM2_REG = orig_regs[1];\n        regs->__PT_PARM3_REG = orig_regs[2];\n        regs->__PT_SYSCALL_PARM4_REG = orig_regs[3];\n        regs->__PT_PARM5_REG = orig_regs[4];\n        return ret;\n    }".

Definition sucompat_scope : text := py "long ksu_handle_execve_sucompat(".

Definition sucompat_patch : patch := λ path s,
  scope ← c_scope_containing path s sucompat_scope;
  unless_installed
    (exact_injection_installed path s (marked (py "sucompat fail closed"))
       [sucompat_replacement] (Some scope) [sucompat_anchor] []
       [(py "escape_with_root_profile", 1)] [] [])
    (replace_live_in_scope path s sucompat_scope sucompat_anchor sucompat_replacement
       (py "sucompat fail-closed anchor not found")).

Definition patch_sucompat_fail_closed (l : layout) : M unit :=
  when (existsb (text_eqb (l_variant l)) [py "official"; py "sukisu"])
    (patch_file (l_ksu l ++ ["feature"; "sucompat.c"]) sucompat_patch).

Definition manual_anchor : text := py "    escape_with_root_profile();".
Definition manual_hook : text :=
  py "    /* " ++ marked (py "manual su fail closed") ++
  py " */\n    {\n        int sandbox_ret = escape_with_root_profile();\n\n        if (sandbox_ret)\n            return sandbox_ret;\n    }".
Definition manual_scope : text := py "static inline int do_ksu_handle_execveat_sucompat(".

Definition manual_patch : patch := λ path s,
  scope ← c_scope_containing path s manual_scope;
  unless_installed
    (exact_injection_installed path s (marked (py "manual su fail closed"))
       [manual_hook] (Some scope) [manual_anchor] []
       [(py "escape_with_root_profile", 1)] [] [])
    (replace_live_in_scope path s manual_scope manual_anchor manual_hook
       (py "ReSukiSU manual su anchor not found")).

Definition patch_resukisu_manual_fail_closed (l : layout) : M unit :=
  when (text_eqb (l_variant l) (py "resukisu"))
    (patch_file (l_ksu l ++ ["feature"; "sucompat.c"]) manual_patch).

(** ** [patch_common_header] *)

Definition template_dir (module_root : path) : path :=
  module_root ++ ["files"; "abk_ksu_sandbox"].
Definition api_header : string := "abk_ksu_sandbox_api.h".
Definition common_header (common : path) : path :=
  common ++ ["include"; "linux"; "abk_ksu_sandbox.h"].

Definition patch_common_header (common module_root : path) : M unit :=
  let source := template_dir module_root ++ [api_header] in
  let target := common_header common in
  fs ← ask id;
  foreign ← (if exists_ fs target
             then s ← read target; mret (negb (contains MARKER s))
             else mret false);
  if (foreign : bool) then
    raise_install (py "refusing to overwrite non-ABK header: " ++ path_text target)
  else
    s ← read source;
    write target s.

(** ** [patch_lsm_count] *)

Definition lsm_definition_pattern : regex :=
  seqs [RBol; lit (py "#define"); plus (any_of [blank; tab]); lit (py "MAX_LSM_COUNT");
        plus (any_of [blank; tab]); lit (py "\\"); opt (lit [cr]); lit [nl]].

Definition lsm_list_anchor : text := py "\t\tIPE_ENABLED)".
Definition lsm_definition : text :=
  py "/* " ++ marked (py "lsm count") ++
  py " */\n#if IS_ENABLED(CONFIG_KSU_ABK_SANDBOX)\n#define ABK_KSU_SANDBOX_ENABLED 1,\n#else\n#define ABK_KSU_SANDBOX_ENABLED\n#endif\n\n".
Definition lsm_list_injection : text :=
  py "\t\tABK_KSU_SANDBOX_ENABLED\\\n" ++ lsm_list_anchor.

Definition lsm_count_patch : patch := λ path s,
  unless_installed
    (exact_injection_installed path s (marked (py "lsm count"))
       [lsm_definition; lsm_list_injection] None []
       [(py "ABK_KSU_SANDBOX_ENABLED", 3)] [] [] [])
    (s ← replace_live_regex_global path s lsm_definition_pattern lsm_definition
           (py "LSM count definition anchor not found");
     replace_live_global path s lsm_list_anchor lsm_list_injection
       (py "LSM count list anchor not found")).

Definition patch_lsm_count (common : path) (version : text) : M unit :=
  when (text_eqb version (py "6.12"))
    (patch_file (common ++ ["include"; "linux"; "lsm_count.h"]) lsm_count_patch).
