(* ===== verification/KernelHooks.v ===== *)
(** * Hooks in the common kernel sources (install.py, [patch_kernel_hooks])

    One function of the source edits seccomp.c, namespace.c, ptrace.c and signal.c in turn;
    here each injection is a patch of its own, and [patch_kernel_hooks] runs them in the
    order of the source with the reads and writes in between. *)

From Stdlib Require Import Ascii.
From stdpp Require Import base list strings.
From S2P Require Import Prelude PyText PyRegex PyResult CLexer CPreproc CScope World.
From S2P Require Import Transaction Kbuild KsuPatches.

Definition common_include : text := py "#include <linux/abk_ksu_sandbox.h>".

(** Reads a source and makes sure of its include line; the text it now has. *)
Definition with_include (p : path) : M text :=
  s ← read p;
  normalized ← lift (add_include s common_include (path_text p));
  when (negb (text_eqb normalized s)) (write p normalized) ;;
  mret normalized.

(** One injection into a text that is in memory. *)
Definition inject (p : path) (f : patch) (s : text) : M unit :=
  new ← lift (f (path_text p) s);
  write_new p new.

(** ** kernel/seccomp.c *)

Definition seccomp_marker : text := marked (py "seccomp entry").
Definition seccomp_hook : text :=
  py "\n\t/* " ++ seccomp_marker ++
  py " */\n\tif (abk_ksu_sandbox_seccomp_allow_syscall(this_syscall))\n\t\treturn 0;\n".
Definition seccomp_anchor : text := py "this_syscall = sd ? sd->nr :".
Definition seccomp_call : text := py "abk_ksu_sandbox_seccomp_allow_syscall(this_syscall)".
Definition seccomp_pattern : regex :=
  seqs [RBol;
        RGroup 1 (seqs [star space; lit (seccomp_anchor ++ [nl]); star space;
                        lit (py "syscall_get_nr(current, current_pt_regs());")]);
        REol true].

Definition seccomp_patch : patch := λ path s,
  incomplete ← (if contains seccomp_marker s
                then live ← mask_c_live_code false s; Ok (negb (contains seccomp_call live))
                else Ok false);
  if (incomplete : bool) then
    install_error (py "incomplete sandbox injection: " ++ repr seccomp_call
                   ++ py " missing from " ++ path)
  else
    scope ← c_scope_containing path s seccomp_anchor;
    live_scope ← mask_c_live_code false scope;
    match finditer seccomp_pattern live_scope with
    | [m] =>
        unless_installed
          (exact_injection_installed path s seccomp_marker
             [slice scope (m_start m) (m_end m) ++ seccomp_hook] (Some scope) [] []
             [(py "abk_ksu_sandbox_seccomp_allow_syscall", 1)]
             [(py "abk_ksu_sandbox_seccomp_allow_syscall", 1)]
             [(common_include, 1)])
          (match find scope s with
           | Some scope_start =>
               let insertion := scope_start + m_end m in
               Ok (splice s insertion insertion seccomp_hook)
           | None => Err (OtherError (py "ValueError"))
           end)
    | _ => install_error (py "__secure_computing entry anchor not found in " ++ path)
    end.

(** ** fs/namespace.c: privilege of a mount *)

Definition privilege_anchor : text := py "\tif (!may_mount())\n\t\treturn -EPERM;".
Definition privilege_hook (what : text) : text :=
  py "\t/* " ++ marked what ++
  py " */\n\tif (!may_mount() && !abk_ksu_sandbox_may_mount())\n\t\treturn -EPERM;".
Definition path_mount_anchor : text := py "int path_mount(".

Definition mount_privilege_patch : patch := λ path s,
  live ← mask_c_live_code true s;
  if negb (contains path_mount_anchor live) then
    install_error (py "path_mount privilege anchor not found in " ++ path)
  else
    scope ← c_scope_containing path s path_mount_anchor;
    unless_installed
      (exact_injection_installed path s (marked (py "legacy mount privilege"))
         [privilege_hook (py "legacy mount privilege")] (Some scope) [privilege_anchor] []
         [(py "abk_ksu_sandbox_may_mount", 1)] [] [(common_include, 1)])
      (replace_live_in_scope path s path_mount_anchor privilege_anchor
         (privilege_hook (py "legacy mount privilege"))
         (py "path_mount privilege anchor not found")).

(** ** fs/namespace.c: the source of a bind mount *)

Definition bind_marker : text := marked (py "resolved bind source").
Definition old_bind_validation : text := py "abk_ksu_sandbox_bind_validate(&old_path, path)".
Definition new_bind_validation : text :=
  py "abk_ksu_sandbox_bind_validate(&old_path, path, recurse)".
Definition loopback_anchor : text := py "static int do_loopback(".

(** The upgrade of an earlier injection. *)
Definition legacy_bind_patch : patch := λ path s,
  if contains bind_marker s && contains old_bind_validation s then
    Some <$> replace_live_in_scope path s loopback_anchor old_bind_validation
               new_bind_validation (py "legacy bind validation anchor not found")
  else Ok None.

Definition bind_pattern : regex :=
  RGroup 1 (lit (py "\terr = kern_path(old_name, LOOKUP_FOLLOW|LOOKUP_AUTOMOUNT, &old_path);\n\tif (err)\n\t\treturn err;")).

Definition bind_hook (bind_anchor : text) : text :=
  bind_anchor ++ py "\n\n\t/* " ++ bind_marker ++
  py " */\n\terr = abk_ksu_sandbox_bind_validate(&old_path, path, recurse);\n\tif (err)\n\t\tgoto out;".

Definition bind_patch : patch := λ path s,
  scope ← c_scope_containing path s loopback_anchor;
  live_scope ← mask_c_live_code false scope;
  match finditer bind_pattern live_scope with
  | [m] =>
      let hook := bind_hook (slice scope (m_start m) (m_end m)) in
      unless_installed
        (exact_injection_installed path s bind_marker [hook] (Some scope) [] []
           [(py "abk_ksu_sandbox_bind_validate", 1); (py "kern_path(old_name", 1)]
           [(py "abk_ksu_sandbox_bind_validate", 1)] [])
        (match find scope s with
         | Some scope_start =>
             Ok (splice s (scope_start + m_start m) (scope_start + m_end m) hook)
         | None => Err (OtherError (py "ValueError"))
         end)
  | _ => install_error (py "do_loopback resolved-source anchor not found in " ++ path)
  end.

(** The two steps on one text: the upgrade is written before the injection is examined. *)
Definition patch_bind (p : path) : M unit :=
  s ← read p;
  upgraded ← lift (legacy_bind_patch (path_text p) s);
  write_new p upgraded ;;
  inject p bind_patch (match upgraded with Some s' => s' | None => s end).

(** ** fs/namespace.c: privilege of an unmount *)

Definition can_umount_anchor : text := py "static int can_umount(".

Definition umount_privilege_patch : patch := λ path s,
  scope ← c_scope_containing path s can_umount_anchor;
  unless_installed
    (exact_injection_installed path s (marked (py "legacy umount privilege"))
       [privilege_hook (py "legacy umount privilege")] (Some scope) [privilege_anchor] []
       [(py "abk_ksu_sandbox_may_mount", 1)] [] [])
    (replace_live_in_scope path s can_umount_anchor privilege_anchor
       (privilege_hook (py "legacy umount privilege"))
       (py "can_umount privilege anchor not found")).

(** ** fs/namespace.c: the result of a mount *)

Definition mount_result_marker : text := marked (py "mount result").
Definition security_anchor : text :=
  py "\tret = security_sb_mount(dev_name, path, type_page, flags, data_page);\n\tif (ret)\n\t\treturn ret;".
Definition security_hook : text :=
  py "\tret = security_sb_mount(dev_name, path, type_page, flags, data_page);\n\tif (ret) {\n\t\t/* "
  ++ mount_result_marker ++
  py " */\n\t\tabk_ksu_sandbox_mount_result(path, ret);\n\t\treturn ret;\n\t}".
Definition mount_bind_anchor : text :=
  py "\tif (flags & MS_BIND)\n\t\treturn do_loopback(path, dev_name, flags & MS_REC);".
Definition mount_bind_hook : text :=
  py "\tif (flags & MS_BIND) {\n\t\tret = do_loopback(path, dev_name, flags & MS_REC);\n\t\tabk_ksu_sandbox_mount_result(path, ret);\n\t\treturn ret;\n\t}".
Definition new_mount_pattern : regex :=
  seqs [RBol;
        lit (py "\treturn do_new_mount(path, type_page, sb_flags, mnt_flags, dev_name,\n");
        plus space; lit (py "data_page);"); REol true].
Definition new_mount_hook : text :=
  py "\tret = do_new_mount(path, type_page, sb_flags, mnt_flags, dev_name,\n\t\t\t   data_page);\n\tabk_ksu_sandbox_mount_result(path, ret);\n\treturn ret;".

Definition mount_result_patch : patch := λ path s,
  scope ← c_scope_containing path s path_mount_anchor;
  installed ← exact_injection_installed path s mount_result_marker
    [security_hook; mount_bind_hook; new_mount_hook] (Some scope)
    [security_anchor; mount_bind_anchor] []
    [(py "abk_ksu_sandbox_mount_result", 3)] [(py "abk_ksu_sandbox_mount_result", 3)] [];
  live_scope ← mask_c_live_code false scope;
  if (installed : bool) then
    match finditer new_mount_pattern live_scope with
    | [] => Ok None
    | _ => partial_injection path mount_result_marker
    end
  else
    s ← replace_live_in_scope path s path_mount_anchor security_anchor security_hook
          (py "path_mount security anchor not found");
    s ← replace_live_in_scope path s path_mount_anchor mount_bind_anchor mount_bind_hook
          (py "path_mount bind anchor not found");
    s ← replace_live_regex_in_scope path s path_mount_anchor new_mount_pattern new_mount_hook
          (py "path_mount new-mount anchor not found");
    Ok (Some s).

(** ** fs/namespace.c: validation of an unmount *)

Definition path_umount_anchor : text := py "int path_umount(".
Definition umount_anchor : text :=
  py "\tret = can_umount(path, flags);\n\tif (!ret)\n\t\tret = do_umount(mnt, flags);".
Definition umount_hook : text :=
  py "\t/* " ++ marked (py "umount validate") ++
  py " */\n\tret = abk_ksu_sandbox_umount_validate(path, flags);\n\tif (!ret)\n\t\tret = can_umount(path, flags);\n\tif (!ret)\n\t\tret = do_umount(mnt, flags);\n\tabk_ksu_sandbox_umount_result(path, ret);".
Definition umount_calls : list (text * nat) :=
  [(py "abk_ksu_sandbox_umount_validate", 1); (py "abk_ksu_sandbox_umount_result", 1)].

Definition umount_validate_patch : patch := λ path s,
  scope ← c_scope_containing path s path_umount_anchor;
  unless_installed
    (exact_injection_installed path s (marked (py "umount validate")) [umount_hook]
       (Some scope) [] [] umount_calls umount_calls [])
    (replace_live_in_scope path s path_umount_anchor umount_anchor umount_hook
       (py "path_umount anchor not found")).

(** ** kernel/ptrace.c *)

Definition ptrace_anchor : text := py "\ttcred = __task_cred(task);".
Definition ptrace_code : text :=
  ptrace_anchor ++ py "\n\t/* " ++ marked (py "ptrace") ++
  py " */\n\tif (abk_ksu_sandbox_may_ptrace(tcred))\n\t\tgoto ok;".
Definition dumpable : text :=
  py "\tif (mm &&\n\t    ((get_dumpable(mm) != SUID_DUMP_USER) &&\n\t     !ptrace_has_cap(mm->user_ns, mode)))".
Definition dumpable_hook : text :=
  py "\tif (mm &&\n\t    ((get_dumpable(mm) != SUID_DUMP_USER) &&\n\t     !abk_ksu_sandbox_may_ptrace_task(task) &&\n\t     !ptrace_has_cap(mm->user_ns, mode)))".

Definition ptrace_patch : patch := λ path s,
  scope ← c_scope_containing path s ptrace_anchor;
  unless_installed
    (exact_injection_installed path s (marked (py "ptrace")) [ptrace_code; dumpable_hook]
       (Some scope) [dumpable] []
       [(py "abk_ksu_sandbox_may_ptrace(", 1); (py "abk_ksu_sandbox_may_ptrace_task(", 1)]
       [] [(common_include, 1)])
    (s ← replace_live_in_scope path s ptrace_anchor ptrace_anchor ptrace_code
           (py "ptrace target credential anchor not found");
     replace_live_in_scope path s ptrace_anchor dumpable dumpable_hook
       (py "ptrace dumpability anchor not found")).

(** ** kernel/signal.c *)

Definition signal_marker : text := marked (py "signal").
Definition signal_anchor : text := py "if (!same_thread_group(current, t) &&".
Definition signal_pattern : regex :=
  seqs [lit (signal_anchor ++ [nl]); star space; lit (py "!kill_ok_by_cred(t)) {")].
Definition signal_replacement : text :=
  py "if (!same_thread_group(current, t) &&\n\t    /* " ++ signal_marker ++
  py " */\n\t    !abk_ksu_sandbox_may_signal(t) &&\n\t    !kill_ok_by_cred(t)) {".

Definition signal_patch : patch := λ path s,
  live ← mask_c_live_code true s;
  if negb (contains signal_anchor live) then
    install_error (py "check_kill_permission credential anchor not found in " ++ path)
  else
    scope ← c_scope_containing path s signal_anchor;
    live_scope ← mask_c_live_code false scope;
    installed ← exact_injection_installed path s signal_marker [signal_replacement]
      (Some scope) [] []
      [(py "abk_ksu_sandbox_may_signal", 1)] [(py "abk_ksu_sandbox_may_signal", 1)]
      [(common_include, 1)];
    if (installed : bool) then
      match finditer signal_pattern live_scope with
      | [] => Ok None
      | _ => partial_injection path signal_marker
      end
    else
      Some <$> replace_live_regex_in_scope path s signal_anchor signal_pattern
                 signal_replacement (py "check_kill_permission credential anchor not found").

(** ** The whole function *)

Definition patch_seccomp (p : path) : M unit :=
  s ← with_include p;
  inject p seccomp_patch s.

Definition patch_namespace (p : path) : M unit :=
  s ← with_include p;
  inject p mount_privilege_patch s ;;
  patch_bind p ;;
  patch_file p umount_privilege_patch ;;
  patch_file p mount_result_patch ;;
  patch_file p umount_validate_patch.

Definition patch_ptrace (p : path) : M unit :=
  s ← with_include p;
  inject p ptrace_patch s.

Definition patch_signal (p : path) : M unit :=
  s ← with_include p;
  inject p signal_patch s.

Definition patch_kernel_hooks (common : path) : M unit :=
  patch_seccomp (common ++ ["kernel"; "seccomp.c"]) ;;
  patch_namespace (common ++ ["fs"; "namespace.c"]) ;;
  patch_ptrace (common ++ ["kernel"; "ptrace.c"]) ;;
  patch_signal (common ++ ["kernel"; "signal.c"]).
