(* ===== verification/IncludeFacts.v ===== *)
(** * The include line of the sandbox

    [add_include] leaves exactly one line of the sandbox in a source, right after the first
    run of includes, and a second application changes nothing. *)

From Stdlib Require Import Ascii.
From stdpp Require Import base list strings.
From S2P Require Import Prelude PyText Strip PyRegex PyResult CLexer CPreproc CppFacts CScope.
From S2P Require Import KsuPatches KernelHooks.

(** ** Lines *)

(** A line with its end, the newline being its only line boundary. *)
Definition full_line (l : text) : Prop := ∃ b, l = b ++ [nl] ∧ (nl ∉ b) ∧ plain_lines b.

Lemma splitlines_line b s :
  nl ∉ b → plain_lines b → plain_lines s →
  splitlines_keep (b ++ nl :: s) = (b ++ [nl]) :: splitlines_keep s.
Proof.
  intros Hb Hp Hs. assert (plain_lines (nl :: s)) as Hnl by by apply Forall_cons.
  induction b as [|c b IH]; cbn [app].
  - by rewrite splitlines_plain_cons.
  - apply not_elem_of_cons in Hb as [Hc Hb]. apply Forall_cons in Hp as [Hpc Hp].
    rewrite splitlines_plain_cons; [|apply Forall_cons; split; [done|by apply Forall_app]].
    rewrite IH by done. by rewrite (proj2 (char_eqb_neq c nl)) by congruence.
Qed.

Lemma full_line_plain l : full_line l → plain_lines l.
Proof. intros (b & -> & _ & Hp). apply Forall_app. split; [done|]. by repeat constructor. Qed.

Lemma splitlines_concat ls : Forall full_line ls → splitlines_keep (concat ls) = ls.
Proof.
  induction 1 as [|l ls Hl Hls IH]; [done|]. cbn [concat].
  destruct Hl as (b & -> & Hb & Hp). rewrite <- app_assoc. cbn [app].
  rewrite splitlines_line; [by rewrite IH|done|done|]. clear IH.
  induction Hls as [|l ls Hl _ IH]; [constructor|]. cbn [concat]. apply Forall_app.
  split; [by apply full_line_plain|done].
Qed.

(** A text that ends with a newline is made of full lines. *)
Lemma splitlines_full s : plain_lines (s ++ [nl]) → Forall full_line (splitlines_keep (s ++ [nl])).
Proof.
  induction s as [|c s IH]; intros Hp; cbn [app].
  - rewrite splitlines_plain_cons by done. constructor; [|constructor].
    exists []. split_and!; [done|by apply not_elem_of_nil|constructor].
  - rewrite splitlines_plain_cons by done. apply Forall_cons in Hp as [Hc Hp].
    specialize (IH Hp). destruct (char_eqb c nl) eqn:Ec.
    + apply char_eqb_eq in Ec as ->. constructor; [|done].
      exists []. split_and!; [done|by apply not_elem_of_nil|constructor].
    + pose proof (concat_splitlines_keep (s ++ [nl])) as Hcat.
      destruct (splitlines_keep (s ++ [nl])) as [|l ls]; [by destruct s|].
      apply Forall_cons in IH as [(b & -> & Hb & Hpb) Hls].
      constructor; [|done]. exists (c :: b). split_and!; [done| |by constructor].
      apply not_elem_of_cons. split; [|done]. intros <-. by rewrite char_eqb_refl in Ec.
Qed.

Lemma ends_with_nl s : ends_with [nl] s = true → ∃ u, s = u ++ [nl].
Proof.
  unfold ends_with. intros [r Hr]%starts_with_spec. exists (rev r).
  rewrite <- (rev_involutive s), Hr. by rewrite rev_app_distr.
Qed.

(** ** The two searches *)

Lemma split_first_ok f lines before first after :
  split_first f lines = Some (before, first, after) ↔
  lines = before ++ first :: after ∧ Forall (λ l, f l = false) before ∧ f first = true.
Proof.
  split.
  - revert before. induction lines as [|l lines IH]; intros before; [done|]. cbn [split_first].
    destruct (f l) eqn:E; [by intros [= <- <- <-]|].
    destruct (split_first f lines) as [[[b x] a]|]; [|done]. intros [= <- <- <-].
    destruct (IH b eq_refl) as (-> & Hb & Hx). split_and!; [done|by constructor|done].
  - intros (-> & Hb & Hx). induction Hb as [|l before Hl _ IH]; cbn [app split_first].
    + by rewrite Hx.
    + by rewrite Hl, IH.
Qed.

(** No line, or a line that is none of the run. *)
Definition stops (f : text → bool) (lines : list text) : Prop :=
  match lines with [] => True | l :: _ => f l = false end.

Lemma span_ok f lines run rest :
  span f lines = (run, rest) ↔
  lines = run ++ rest ∧ Forall (λ l, f l = true) run ∧ stops f rest.
Proof.
  split.
  - revert run. induction lines as [|l lines IH]; intros run; cbn [span]; [by intros [= <- <-]|].
    destruct (f l) eqn:E; [|by intros [= <- <-]].
    destruct (span f lines) as [r a]. intros [= <- <-].
    destruct (IH r eq_refl) as (-> & Hr & Hs). split_and!; [done|by constructor|done].
  - intros (-> & Hr & Hs). induction Hr as [|l run Hl _ IH]; cbn [app span].
    + destruct rest as [|l rest]; [done|]. cbn [stops] in Hs. cbn [span]. by rewrite Hs.
    + by rewrite Hl, IH.
Qed.

(** ** [add_include] *)

Section include.
Context (include : text).
(** A line of text without white space around it that is an include directive. *)
Context (Hstrip : strip include = include) (Hline : full_line (include ++ [nl])).

Definition foreign (l : text) : bool := negb (text_eqb (strip l) include).

Lemma own_line : foreign (include ++ [nl]) = false.
Proof.
  unfold foreign. change (include ++ [nl]) with ([] ++ include ++ [nl]).
  rewrite strip_skip; [|constructor|by repeat constructor].
  by rewrite Hstrip, text_eqb_refl.
Qed.

(** The placement of the line: after the first run of includes, once. *)
Record included (lines : list text) (before run rest : list text) : Prop := Included {
  in_lines : lines = before ++ run ++ rest;
  in_before : Forall (λ l, is_include l = false) before;
  in_some : run ≠ [];
  in_run : Forall (λ l, is_include l = true) run;
  in_rest : stops is_include rest
}.

Lemma add_include_places s path before run rest :
  Forall full_line (splitlines_keep s) →
  included (List.filter foreign (splitlines_keep s)) before run rest →
  add_include s include path = Ok (concat (before ++ run ++ (include ++ [nl]) :: rest)).
Proof.
  intros Hfull [Hl Hb Hne Hr Hs]. unfold add_include. fold foreign. rewrite Hl.
  destruct run as [|first run]; [done|]. apply Forall_cons in Hr as [Hf Hr].
  rewrite (proj2 (split_first_ok is_include _ before first (run ++ rest))) by done.
  rewrite (proj2 (span_ok is_include _ run rest)) by done.
  assert (ends_with [cr; nl] first = false) as ->.
  { assert (In first (splitlines_keep s)) as Hin.
    { eapply incl_filter. rewrite Hl. apply in_app_iff. right. by left. }
    rewrite Forall_forall in Hfull. apply list_elem_of_In, Hfull in Hin as (b & -> & _ & Hp).
    unfold ends_with. rewrite rev_app_distr. cbn [rev app starts_with].
    destruct (rev b) as [|c r] eqn:E; [by rewrite andb_false_r|]. rewrite char_eqb_refl, andb_true_r.
    cbn [andb]. apply char_eqb_neq. intros <-. unfold plain_lines in Hp.
    rewrite Forall_forall in Hp. assert (cr ∈ b) as Hc.
    { apply list_elem_of_In, in_rev. rewrite E. by left. }
    by specialize (Hp _ Hc eq_refl). }
  f_equal. rewrite !concat_app. cbn [concat]. by rewrite <- !app_assoc.
Qed.

Lemma add_include_ok s path s' :
  Forall full_line (splitlines_keep s) → add_include s include path = Ok s' →
  ∃ before run rest, included (List.filter foreign (splitlines_keep s)) before run rest ∧
    s' = concat (before ++ run ++ (include ++ [nl]) :: rest).
Proof.
  intros Hfull H. pose proof H as H'. unfold add_include in H. fold foreign in H.
  destruct (split_first _ _) as [[[before first] after]|] eqn:Es; [|done].
  destruct (span is_include after) as [run rest] eqn:Ep.
  apply split_first_ok in Es as (Hl & Hb & Hf). apply span_ok in Ep as (-> & Hr & Hs).
  assert (included (List.filter foreign (splitlines_keep s)) before (first :: run) rest) as Hi
    by (split; [done|done|done|by constructor|done]).
  rewrite (add_include_places _ _ _ _ _ Hfull Hi) in H'. injection H' as <-. eauto.
Qed.

Lemma added_lines s before run rest :
  Forall full_line (splitlines_keep s) →
  included (List.filter foreign (splitlines_keep s)) before run rest →
  let lines := before ++ run ++ (include ++ [nl]) :: rest in
  splitlines_keep (concat lines) = lines ∧ List.filter foreign lines = before ++ run ++ rest ∧
  Forall full_line lines.
Proof.
  intros Hfull [Hl _ _ _ _]. cbv zeta.
  assert (Forall full_line (before ++ run ++ rest)) as Hall.
  { rewrite <- Hl. rewrite Forall_forall in *. intros l Hin%list_elem_of_In.
    apply Hfull, list_elem_of_In. by eapply incl_filter. }
  assert (Forall (λ l, foreign l = true) (before ++ run ++ rest)) as Hfor.
  { rewrite <- Hl. apply Forall_forall. intros l Hin%list_elem_of_In.
    by apply filter_In in Hin as [_ ?]. }
  assert (∀ ls, Forall (λ l, foreign l = true) ls → List.filter foreign ls = ls) as Hid.
  { induction 1 as [|l ls E _ IH]; cbn [List.filter]; [done|]. by rewrite E, IH. }
  rewrite !Forall_app in Hall, Hfor. destruct Hall as (? & ? & ?), Hfor as (? & ? & ?).
  assert (Forall full_line (before ++ run ++ (include ++ [nl]) :: rest)) as Hlines.
  { rewrite !Forall_app. split_and!; [done|done|by constructor]. }
  split_and!; [by apply splitlines_concat| |done].
  rewrite !List.filter_app. cbn [List.filter]. rewrite own_line. by rewrite !Hid.
Qed.
End include.

(** The two lines that the installer adds. *)
Definition own_includes : list text := [sandbox_include; common_include].

Lemma own_include_line include :
  include ∈ own_includes → strip include = include ∧ full_line (include ++ [nl]).
Proof.
  assert (∀ t, strip t = t → existsb (char_eqb nl) t = false → forallb plain_char t = true →
            strip t = t ∧ full_line (t ++ [nl])) as H.
  { intros t Hs Hn Hp. split; [done|]. exists t. split_and!; [done| |by apply plain_lines_check].
    intros Hin%list_elem_of_In. apply not_true_iff_false in Hn. apply Hn, existsb_exists.
    exists nl. split; [done|apply char_eqb_refl]. }
  unfold own_includes. rewrite !elem_of_cons.
  intros [->|[->|?%not_elem_of_nil]]; [..|done]; apply H; vm_compute; reflexivity.
Qed.

(** C31: adding an include line of the installer.  On a source whose only line boundaries are
    newlines and whose lines all end, [add_include] drops every line that is the include line
    up to white space, adds it once, right after the first run of include directives, and
    keeps every other line in order; applied again it changes nothing. *)
Theorem add_include_once include s path s' :
  include ∈ own_includes → plain_lines s → ends_with [nl] s = true →
  add_include s include path = Ok s' →
  (∃ before run rest,
     included (List.filter (foreign include) (splitlines_keep s)) before run rest ∧
     splitlines_keep s' = before ++ run ++ (include ++ [nl]) :: rest) ∧
  add_include s' include path = Ok s'.
Proof.
  intros [Hst Hln]%own_include_line Hp [u ->]%ends_with_nl H.
  pose proof (splitlines_full u Hp) as Hfull.
  apply (add_include_ok include) in H as (before & run & rest & Hi & ->); [|done].
  destruct (added_lines include Hst Hln _ _ _ _ Hfull Hi) as (Hl & Hf & Hfl). split; [by eauto|].
  apply add_include_places; rewrite Hl; [done|]. rewrite Hf.
  destruct Hi. by split.
Qed.

Lemma add_include_once_witness :
  let s := py "#include <a.h>\n  #include `abk_sandbox/abk_sandbox.h` \nint x;\n" in
  let s' := py "#include <a.h>\n#include `abk_sandbox/abk_sandbox.h`\nint x;\n" in
  add_include s sandbox_include [] = Ok s' ∧ add_include s' sandbox_include [] = Ok s'.
Proof.
  intros s s'. assert (add_include s sandbox_include [] = Ok s') as H by (vm_compute; reflexivity).
  split; [exact H|]. apply (add_include_once sandbox_include s [] s').
  - by left.
  - apply plain_lines_check. vm_compute. reflexivity.
  - vm_compute. reflexivity.
  - exact H.
Defined.

(** The last line must end.  Where the first run of includes reaches the end of a source
    whose last line does not end, the new line is glued to it: no line of the result is the
    include line. *)
Example glued_include :
  let s := py "int x;\n#include <a.h>" in
  add_include s sandbox_include [] = Ok (s ++ sandbox_include ++ [nl]) ∧
  Forall (λ l, foreign sandbox_include l = true) (splitlines_keep (s ++ sandbox_include ++ [nl])).
Proof. split; [vm_compute; reflexivity|]. repeat constructor; vm_compute; reflexivity. Qed.
