(* ===== verification/Sources.v ===== *)
(** * The copied module sources (install.py, [KBUILD_ARTIFACT_PATTERNS],
    [trusted_kbuild_artifact], [copy_sources])

    The directory abk_sandbox below the KernelSU tree belongs to the installer: it holds the
    module sources, files of an earlier version, and what Kbuild builds from them, and
    anything else makes the installer refuse. *)

From Stdlib Require Import Ascii.
From stdpp Require Import base list strings gmap.
From S2P Require Import Prelude PyText PyRegex PyResult World Transaction Kbuild KsuPatches.

Definition unit_names : regex := alts (map (λ n, lit (py n)) ["core"; "policy"; "namespace"; "lsm"]).

(** One of the given texts. *)
Definition one_of (ts : list string) : regex := alts (map (λ t, lit (py t)) ts).

Definition KBUILD_ARTIFACT_PATTERNS : list regex :=
  [RSeq unit_names (lit (py ".o"));
   seqs [lit (py "."); unit_names; lit (py ".o."); one_of ["cmd"; "d"]];
   seqs [unit_names; lit (py "."); one_of ["ko"; "mod"; "mod.c"; "mod.o"]];
   seqs [lit (py "."); unit_names; lit (py "."); one_of ["ko"; "mod"; "mod.o"];
         lit (py ".cmd")];
   lit (py "built-in.a");
   lit (py ".built-in.a.cmd");
   lit (py "modules.order");
   lit (py ".modules.order.cmd");
   lit (py "Module.symvers")].

Definition LEGACY_SOURCE_NAMES : list string := [api_header].

Definition is_artifact_name (n : string) : bool :=
  existsb (λ r, match re_fullmatch r (name_text n) with Some _ => true | None => false end)
    KBUILD_ARTIFACT_PATTERNS.

Definition trusted_kbuild_artifact (p : path) : bool := is_artifact_name (name p).

Definition has_name (ns : list string) (n : string) : bool := existsb (String.eqb n) ns.

(** The names of the files of the template directory, without the public header. *)
Definition source_files (fs : fsys) (source : path) : list string :=
  map name (List.filter (λ item, negb (String.eqb (name item) api_header) && is_file fs item)
              (iterdir fs source)).

Definition sandbox_dir (ksu : path) : path := ksu ++ ["abk_sandbox"].

Definition refuse {A} (what : string) (p : path) : M A :=
  raise_install (py "refusing " ++ py what ++ py " in sandbox source target: " ++ path_text p).

(** The loop over the entries of an existing target: the artifacts and the legacy files. *)
Fixpoint classify_existing (owned_names : list string) (entries : list path)
    : M (list path * list path) :=
  match entries with
  | [] => mret ([], [])
  | existing :: rest =>
      fs ← ask id;
      if is_symlink fs existing then refuse "symlink" existing
      else if is_dir fs existing then refuse "unexpected directory" existing
      else if negb (is_file fs existing) then refuse "unexpected entry" existing
      else if has_name owned_names (name existing) then
        s ← read existing;
        if contains MARKER s then classify_existing owned_names rest
        else refuse "non-ABK file" existing
      else if has_name LEGACY_SOURCE_NAMES (name existing) then
        s ← read existing;
        if negb (contains MARKER s) then refuse "non-ABK legacy file" existing
        else
          found ← classify_existing owned_names rest;
          mret (found.1, existing :: found.2)
      else if negb (trusted_kbuild_artifact existing) then refuse "unexpected file" existing
      else
        found ← classify_existing owned_names rest;
        mret (existing :: found.1, found.2)
  end.

(** [{name: read(path) for name, path in source_files.items()}] *)
Fixpoint read_sources (source : path) (names : list string) : M (list (string * text)) :=
  match names with
  | [] => mret []
  | n :: rest =>
      s ← read (source ++ [n]);
      texts ← read_sources source rest;
      mret ((n, s) :: texts)
  end.

(** [any(not (target / name).is_file() or read(target / name) != source_text ...)] *)
Fixpoint any_changed (target : path) (texts : list (string * text)) : M bool :=
  match texts with
  | [] => mret false
  | (n, source_text) :: rest =>
      fs ← ask id;
      if negb (is_file fs (target ++ [n])) then mret true
      else
        s ← read (target ++ [n]);
        if negb (text_eqb s source_text) then mret true else any_changed target rest
  end.

Definition stale_artifact : text := py "stale build artifact".

(** [if _ACTIVE_TRANSACTION is not None: ...record_directory(target)] and
    [target.mkdir(parents=True, exist_ok=True)] *)
Definition ensure_target (target : path) : M unit :=
  in_transaction (record_directory target) ;;
  mkdir_parents target.

Definition write_source (source target : path) (nt : string * text) : M unit :=
  if negb (contains MARKER nt.2) then
    raise_install (py "module source is missing ownership marker: "
                   ++ path_text (source ++ [nt.1]))
  else write (target ++ [nt.1]) nt.2.

(** What precedes the first change of the tree: the classified entries and the texts. *)
Definition survey_target (target : path) (names : list string) : M (list path * list path) :=
  fs ← ask id;
  if is_dir fs target
  then entries ← ask (λ fs, iterdir fs target); classify_existing names entries
  else mret ([], []).

Definition copy_sources (ksu module_root : path) : M unit :=
  let source := template_dir module_root in
  let target := sandbox_dir ksu in
  fs ← ask id;
  if negb (is_dir fs source) then
    raise_install (py "module source directory missing: " ++ path_text source)
  else if is_symlink fs target || (exists_ fs target && negb (is_dir fs target)) then
    raise_install (py "refusing conflicting sandbox source target: " ++ path_text target)
  else
    let names := source_files fs source in
    found ← survey_target target names;
    let '(build_artifacts, legacy_sources) := found in
    source_texts ← read_sources source names;
    sources_changed ← any_changed target source_texts;
    when sources_changed
      (for_each build_artifacts (λ artifact, remove_file artifact stale_artifact)) ;;
    for_each legacy_sources (λ legacy, remove_file legacy (py "legacy source")) ;;
    ensure_target target ;;
    for_each source_texts (write_source source target) ;;
    print (py "ABK KSU Sandbox: synchronized sources to " ++ path_text target).
