(* ===== verification/Artifacts.v ===== *)
(** * The names of build artifacts

    The patterns of the names that Kbuild may have left behind denote a finite language; here
    it is spelled out, so that what the installer is ready to remove can be read off. *)

From Stdlib Require Import Ascii.
From stdpp Require Import base list strings sets.
From S2P Require Import Prelude PyText PyRegex RegexFacts World KsuPatches Sources.

(** ** Patterns with a finite language *)

(** The pattern matches exactly the given texts, and captures nothing. *)
Definition denotes (r : regex) (ws : list text) : Prop :=
  ∀ c g c' g', matches r c g c' g' ↔ g' = g ∧ ∃ w, w ∈ ws ∧ reads c w c'.

Lemma denotes_lit t : denotes (lit t) [t].
Proof.
  intros c g c' g'. rewrite matches_lit. setoid_rewrite list_elem_of_singleton. naive_solver.
Qed.

Lemma denotes_eps : denotes REps [[]].
Proof.
  intros c g c' g'. rewrite matches_eps. setoid_rewrite list_elem_of_singleton. split.
  - intros [-> ->]. split; [done|]. exists []. by split; [|apply reads_nil].
  - intros (-> & w & -> & ->%reads_nil). done.
Qed.

Lemma denotes_seq r1 r2 ws1 ws2 :
  denotes r1 ws1 → denotes r2 ws2 →
  denotes (RSeq r1 r2) (flat_map (λ u, map (app u) ws2) ws1).
Proof.
  intros H1 H2 c g c' g'. rewrite matches_seq. split.
  - intros (c1 & g1 & (-> & u & Hu & Hr1)%H1 & (-> & v & Hv & Hr2)%H2). split; [done|].
    exists (u ++ v). split; [|apply reads_app; eauto].
    apply list_elem_of_In, in_flat_map. exists u. split; [by apply list_elem_of_In|].
    apply in_map. by apply list_elem_of_In.
  - intros (-> & w & Hw & Hr). apply list_elem_of_In, in_flat_map in Hw as (u & Hu & Hw).
    apply in_map_iff in Hw as (v & <- & Hv). apply reads_app in Hr as (c1 & Hr1 & Hr2).
    exists c1, g. split; [apply H1|apply H2]; (split; [done|]); eexists;
      (split; [by apply list_elem_of_In|done]).
Qed.

Lemma denotes_alt r1 r2 ws1 ws2 :
  denotes r1 ws1 → denotes r2 ws2 → denotes (RAlt r1 r2) (ws1 ++ ws2).
Proof.
  intros H1 H2 c g c' g'. rewrite matches_alt, (H1 c g c' g'), (H2 c g c' g').
  setoid_rewrite elem_of_app. naive_solver.
Qed.

Lemma denotes_alts ts : ts ≠ [] → denotes (alts (map (λ t, lit (py t)) ts)) (map py ts).
Proof.
  induction ts as [|t ts IH]; [done|intros _]. destruct ts as [|t' ts]; [apply denotes_lit|].
  apply (denotes_alt _ _ [py t]); [apply denotes_lit|by apply IH].
Qed.

Lemma denotes_fullmatch r ws s :
  denotes r ws → (match re_fullmatch r s with Some _ => true | None => false end = true ↔ s ∈ ws).
Proof.
  intros Hd. split.
  - destruct (re_fullmatch r s) as [m|] eqn:E; [intros _|done].
    apply fullmatch_sound, Hd in E as (_ & w & Hw & Hr).
    by apply reads_line_end in Hr as [<- _].
  - intros Hs. destruct (fullmatch_complete r s []) as [m ->]; [|done].
    apply Hd. split; [done|]. exists s. split; [done|apply reads_whole].
Qed.

(** ** The names *)

Definition units : list string := ["core"; "policy"; "namespace"; "lsm"].

(** Each unit between a prefix and each of the suffixes. *)
Definition unit_files (prefix : string) (suffixes : list string) : list string :=
  flat_map (λ u, map (λ s, prefix +:+ u +:+ s)%string suffixes) units.

Definition artifact_names : list string :=
  unit_files "" [".o"] ++
  unit_files "." [".o.cmd"; ".o.d"] ++
  unit_files "" [".ko"; ".mod"; ".mod.c"; ".mod.o"] ++
  unit_files "." [".ko.cmd"; ".mod.cmd"; ".mod.o.cmd"] ++
  ["built-in.a"; ".built-in.a.cmd"; "modules.order"; ".modules.order.cmd"; "Module.symvers"].

(** The languages of the nine patterns. *)
Definition pattern_words : list (list text) :=
  map (map name_text)
    [unit_files "" [".o"]; unit_files "." [".o.cmd"; ".o.d"];
     unit_files "" [".ko"; ".mod"; ".mod.c"; ".mod.o"];
     unit_files "." [".ko.cmd"; ".mod.cmd"; ".mod.o.cmd"];
     ["built-in.a"]; [".built-in.a.cmd"]; ["modules.order"]; [".modules.order.cmd"];
     ["Module.symvers"]].

(** The language of a pattern, along its syntax. *)
Ltac language :=
  lazymatch goal with
  | |- denotes (RSeq _ _) _ => eapply denotes_seq; language
  | |- denotes (alts _) _ => apply denotes_alts; discriminate
  | |- denotes (lit _) _ => apply denotes_lit
  | |- denotes REps _ => apply denotes_eps
  end.

Lemma artifact_patterns : Forall2 denotes KBUILD_ARTIFACT_PATTERNS pattern_words.
Proof.
  assert (∀ r ws ws', denotes r ws → ws = ws' → denotes r ws') as Heq by (by intros ? ? ? ? <-).
  unfold KBUILD_ARTIFACT_PATTERNS, pattern_words, unit_names, one_of, seqs.
  cbn [foldr].
  repeat (apply Forall2_cons_2; [|]); [..|apply Forall2_nil_2];
    (eapply Heq; [language|vm_compute; reflexivity]).
Qed.

Lemma name_text_inj m n : name_text m = name_text n → m = n.
Proof.
  unfold name_text. intros H.
  rewrite <- (String.string_of_list_ascii_of_string m), H.
  apply String.string_of_list_ascii_of_string.
Qed.

Lemma existsb_Forall2 {A B} (P : A → B → Prop) (f : A → bool) (g : B → bool) l k :
  (∀ a b, P a b → f a = g b) → Forall2 P l k → existsb f l = existsb g k.
Proof. intros H. induction 1; simpl; [done|]. by rewrite (H x y), IHForall2. Qed.

(** C32: the files that [copy_sources] may take for build artifacts are exactly the 45 of the
    list: for each unit its object, dependency and module files, and five files of the
    directory.  No other name is accepted, whatever surrounds or extends one of these. *)
Theorem artifact_names_exact n : is_artifact_name n = true ↔ n ∈ artifact_names.
Proof.
  assert (is_artifact_name n = existsb (λ ws, bool_decide (name_text n ∈ ws)) pattern_words)
    as ->.
  { unfold is_artifact_name. eapply existsb_Forall2; [|apply artifact_patterns].
    intros r ws Hd. apply Bool.eq_true_iff_eq.
    by rewrite (denotes_fullmatch r ws), bool_decide_eq_true. }
  assert (concat pattern_words = map name_text artifact_names) as Hc
    by (vm_compute; reflexivity).
  rewrite existsb_exists. split.
  - intros (ws & Hws & Hn%bool_decide_eq_true).
    assert (In (name_text n) (map name_text artifact_names)) as Hin.
    { rewrite <- Hc. apply in_concat. exists ws. split; [done|by apply list_elem_of_In]. }
    apply in_map_iff in Hin as (m & ->%name_text_inj & Hm). by apply list_elem_of_In.
  - intros Hn%list_elem_of_In. apply (in_map name_text) in Hn. rewrite <- Hc in Hn.
    apply in_concat in Hn as (ws & Hws & Hn). exists ws. split; [done|].
    apply bool_decide_eq_true. by apply list_elem_of_In.
Qed.
