(* ===== verification/Installer.v ===== *)
(** * The commands (install.py, [install], [validate_patch_sources], [verify], [main])

    [install] runs every patch inside one transaction; [verify] runs the same patches in
    validation mode, where an update is an error, and then checks the sources one by one. *)

From Stdlib Require Import Ascii.
From stdpp Require Import base list strings gmap.
From S2P Require Import Prelude PyText PyRegex PyResult CLexer CPreproc CScope World.
From S2P Require Import Transaction Kbuild Defconfig Discovery Resukisu KsuPatches KernelHooks.
From S2P Require Import Sources.

(** ** [install] *)

(** The patches that [install] and [validate_patch_sources] share. *)
Definition patch_all (l : layout) (module_root : path) : M unit :=
  patch_escape (l_ksu l) ;;
  patch_supercall_dispatch (l_ksu l) ;;
  patch_allowlist (l_ksu l) ;;
  patch_policy_lock_order (l_ksu l) ;;
  patch_policy_reapply (l_ksu l) ;;
  patch_sucompat_fail_closed l ;;
  patch_resukisu_manual_fail_closed l ;;
  patch_common_header (l_common l) module_root ;;
  patch_lsm_count (l_common l) (l_version l) ;;
  patch_kernel_hooks (l_common l).

(** The body of the [with] statement. *)
Definition install_body (l : layout) (module_root : path) (tail_policy : text) : M unit :=
  copy_sources (l_ksu l) module_root ;;
  block ← lift (kbuild_block tail_policy);
  install_kbuild (l_ksu l ++ ["Kbuild"]) block ;;
  insert_before_last (l_ksu l ++ ["Kconfig"]) (py "endmenu") KCONFIG_BLOCK ;;
  patch_all l module_root.

Definition report (verb : text) (l : layout) (tail_policy : text) : M unit :=
  print (py "ABK KSU Sandbox: " ++ verb ++ py " variant=" ++ l_variant l ++ py " kernel="
         ++ l_version l ++ py " runtime_ksu_tail_policy=" ++ tail_policy ++ py " ksu="
         ++ path_text (l_ksu l)).

Definition install (l : layout) (module_root : path) (defconfig : option path) : M unit :=
  match defconfig with
  | Some d => validate_defconfig d false
  | None => mret tt
  end ;;
  tail_policy ← runtime_ksu_tail_policy l;
  validate_runtime_ksu_tail_config tail_policy defconfig ;;
  with_transaction (install_body l module_root tail_policy) ;;
  report (py "installed") l tail_policy.

(** ** [validate_patch_sources] *)

(** [previous = _VALIDATION_ONLY; _VALIDATION_ONLY = True; try: body finally: restore] *)
Definition validating {A} (body : M A) : M A := λ w,
  let previous := w_validation_only w in
  let '(r, w') := body (set_validation true w) in
  (r, set_validation previous w').

Definition validate_patch_sources (l : layout) (module_root : path) : M unit :=
  validating (patch_all l module_root).

(** ** [verify] *)

Definition needle_missing {A} (p : path) (needle : text) : M A :=
  raise_install (py "incomplete sandbox injection: " ++ repr needle ++ py " missing from "
                 ++ path_text p).

Definition ksu_checks (l : layout) : list (path * list text) :=
  [(l_ksu l ++ ["Kbuild"],
    MARKER :: map py
      ["requires CONFIG_KSU_ABK_SANDBOX=y"; "ABK_KSU_RUNTIME_TAIL_SOURCE_VERIFIED";
       "abk_sandbox/core.o"; "abk_sandbox/policy.o"; "abk_sandbox/namespace.o";
       "abk_sandbox/lsm.o"]);
   (l_ksu l ++ ["Kconfig"],
    MARKER :: map py
      ["config KSU_ABK_SANDBOX"; "depends on KSU=y && SECURITY_SELINUX && NAMESPACES"]);
   (l_ksu l ++ ["policy"; "app_profile.c"],
    marked (py "escape") :: map py
      ["abk_sandbox_try_escape(&handled)"; "if (handled)"; "return sandbox_ret;"]);
   (l_ksu l ++ ["supercall"; "dispatch.c"],
    [marked (py "deny sandbox supercalls"); sandbox_include;
     py "abk_sandbox_current(NULL, NULL)"; py "return -EPERM;"]);
   (l_ksu l ++ ["policy"; "allowlist.c"],
    [marked (py "revoke"); marked (py "prune");
     py "abk_sandbox_revoke_uid_async(profile->curr_uid)";
     py "abk_sandbox_revoke_uid_async(uid)"]);
   (l_ksu l ++ ["selinux"; "rules.c"],
    [marked (py "policy snapshot under lock");
     py "old_pol = rcu_dereference_protected(selinux_state.policy,";
     marked (py "policy reapply"); py "abk_sandbox_policy_reapply(db)"])].

Definition common_checks (l : layout) : list (path * list text) :=
  [(l_common l ++ ["kernel"; "seccomp.c"],
    [marked (py "seccomp entry"); py "abk_ksu_sandbox_seccomp_allow_syscall(this_syscall)"]);
   (l_common l ++ ["fs"; "namespace.c"],
    [marked (py "legacy mount privilege");
     py "!may_mount() && !abk_ksu_sandbox_may_mount()";
     marked (py "resolved bind source");
     py "abk_ksu_sandbox_bind_validate(&old_path, path, recurse)";
     marked (py "legacy umount privilege");
     marked (py "mount result");
     py "abk_ksu_sandbox_mount_result(path, ret)";
     marked (py "umount validate");
     py "abk_ksu_sandbox_umount_validate(path, flags)";
     py "abk_ksu_sandbox_umount_result(path, ret)"]);
   (l_common l ++ ["kernel"; "ptrace.c"],
    [marked (py "ptrace"); py "abk_ksu_sandbox_may_ptrace(tcred)";
     py "abk_ksu_sandbox_may_ptrace_task(task)"]);
   (l_common l ++ ["kernel"; "signal.c"],
    [marked (py "signal"); py "abk_ksu_sandbox_may_signal(t)"]);
   (common_header (l_common l), [MARKER])].

Definition checks (l : layout) : list (path * list text) := ksu_checks l ++ common_checks l.

Definition check_needles (pn : path * list text) : M unit :=
  s ← read pn.1;
  for_each pn.2 (λ needle,
    if negb (contains needle s) then needle_missing pn.1 needle else mret tt).

(** The sources whose include line must come before the hook. *)
Definition include_checks : list (path * text) :=
  [(["kernel"; "seccomp.c"], marked (py "seccomp entry"));
   (["fs"; "namespace.c"], marked (py "legacy mount privilege"));
   (["kernel"; "ptrace.c"], marked (py "ptrace"));
   (["kernel"; "signal.c"], marked (py "signal"))].

Definition check_include (common : path) (rm : path * text) : M unit :=
  let p := common ++ rm.1 in
  let late : M unit :=
    raise_install (py "ABK public header is missing or appears after its hook in "
                   ++ path_text p) in
  s ← read p;
  match find common_include s, find rm.2 s with
  | None, _ => late
  | Some _, None => raise (OtherError (py "ValueError"))
  | Some i, Some j => if j <? i then late else mret tt
  end.

Definition check_lsm_count (l : layout) : M unit :=
  when (text_eqb (l_version l) (py "6.12"))
    (s ← read (l_common l ++ ["include"; "linux"; "lsm_count.h"]);
     if negb (contains (marked (py "lsm count")) s) then
       raise_install (py "ABK LSM slot is missing from include/linux/lsm_count.h")
     else mret tt).

Definition check_sucompat (l : layout) : M unit :=
  s ← read (l_ksu l ++ ["feature"; "sucompat.c"]);
  if text_eqb (l_variant l) (py "resukisu") then
    if negb (contains (marked (py "manual su fail closed")) s)
       || negb (contains (py "return sandbox_ret;") s)
    then raise_install (py "ReSukiSU manual su path is not fail closed")
    else mret tt
  else
    if negb (contains (marked (py "sucompat fail closed")) s)
       || negb (contains (py "ksu_close_fd(tmp_fd);") s)
       || negb (contains (py "return ret;") s)
    then raise_install (py "KernelSU sucompat path is not fail closed")
    else mret tt.

Definition verified_sources : list string :=
  ["Makefile"; "core.c"; "policy.c"; "namespace.c"; "lsm.c"; "abk_sandbox.h";
   "lsm_build_config.h"; "lsm_order.h"].

(** [if read(installed) != read(template): raise InstallError(message)] *)
Definition check_same (installed template : path) (message : text) : M unit :=
  s ← read installed;
  t ← read template;
  if negb (text_eqb s t) then raise_install (message ++ path_text installed) else mret tt.

Definition check_source (l : layout) (module_root : path) (source : string) : M unit :=
  check_same (sandbox_dir (l_ksu l) ++ [source]) (template_dir module_root ++ [source])
    (py "installed source differs from module template: ").

Definition check_kbuild (l : layout) (tail_policy : text) : M unit :=
  block ← lift (kbuild_block tail_policy);
  s ← read (l_ksu l ++ ["Kbuild"]);
  installed ← lift (installed_kbuild_block (path_text (l_ksu l ++ ["Kbuild"])) s);
  if negb (text_eqb installed (strip block)) then
    raise_install (py "incomplete sandbox injection: installed ABK Kbuild runtime LSM-tail policy does not match the target configuration")
  else mret tt.

Definition check_kconfig (l : layout) : M unit :=
  s ← read (l_ksu l ++ ["Kconfig"]);
  lift (installed_kconfig_block (path_text (l_ksu l ++ ["Kconfig"])) s) ;;
  mret tt.

Definition verify (l : layout) (module_root : path) (defconfig : option path) : M unit :=
  tail_policy ← runtime_ksu_tail_policy l;
  validate_runtime_ksu_tail_config tail_policy defconfig ;;
  check_kbuild l tail_policy ;;
  validate_patch_sources l module_root ;;
  check_kconfig l ;;
  for_each (checks l) check_needles ;;
  for_each include_checks (check_include (l_common l)) ;;
  check_lsm_count l ;;
  check_sucompat l ;;
  for_each verified_sources (check_source l module_root) ;;
  check_same (common_header (l_common l)) (template_dir module_root ++ [api_header])
    (py "installed public header differs from module template: ") ;;
  match defconfig with
  | Some d => validate_defconfig d true
  | None => mret tt
  end ;;
  report (py "verified") l tail_policy.

(** ** [main] *)

Inductive command := Install | Verify | Detect.

(** The parsed arguments; the paths are already resolved. *)
Record arguments := Arguments_ {
  a_command : command;
  a_kernel_root : path;
  a_module_root : path;
  a_defconfig : option path
}.

Definition run_command (args : arguments) : M unit :=
  l ← discover (a_kernel_root args);
  match a_command args with
  | Detect =>
      print (py "variant=" ++ l_variant l ++ py " kernel=" ++ l_version l ++ py " ksu="
             ++ path_text (l_ksu l))
  | Install => install l (a_module_root args) (a_defconfig args)
  | Verify => verify l (a_module_root args) (a_defconfig args)
  end.

(** [main]: the exit status; an exception other than [InstallError] escapes. *)
Definition main (args : arguments) : M nat :=
  catch (run_command args ;; mret 0) (λ e,
    match e with
    | InstallError msg =>
        print_err (py "ABK KSU Sandbox: error: " ++ msg) ;; mret 1
    | _ => raise e
    end).
