(* ===== verification/ArgParse.v ===== *)
(** * The command line of the installer

    [parse_args] builds an [argparse] parser with one positional argument, three options with
    a value and the help option that argparse adds.  The file follows the parser of Python
    3.11 for that declaration: the classification of the arguments, abbreviated options,
    values in the next argument or after an equals sign, the argument `--`, and the order in
    which the errors are found.  The usage and error texts are not modelled; a usage error
    carries its reason. *)

From Stdlib Require Import Ascii.
From stdpp Require Import base list strings.
From S2P Require Import Prelude PyText PyRegex PyResult World Installer.

(** ** The declaration of the parser *)

Inductive action := HelpAction | KernelRoot | ModuleRoot | DefconfigPath.

#[export] Instance action_eq_dec : EqDecision action.
Proof. solve_decision. Defined.

(** [parser._option_string_actions], in the order of the declarations *)
Definition option_string_actions : list (text * action) :=
  [(py "-h", HelpAction); (py "--help", HelpAction); (py "--kernel-root", KernelRoot);
   (py "--module-root", ModuleRoot); (py "--defconfig", DefconfigPath)].

(** The choices of the positional argument *)
Definition command_word (c : command) : text :=
  match c with
  | Install => py "install"
  | Verify => py "verify"
  | Detect => py "detect"
  end.

Definition choices : list command := [Install; Verify; Detect].

Definition choice_of (s : text) : option command :=
  List.find (λ c, text_eqb (command_word c) s) choices.

(** ** Outcomes *)

Inductive usage_error :=
  | Ambiguous (argument : text)
  | ExpectedOneArgument (a : action)
  | IgnoredExplicitArgument (argument : text)
  | InvalidChoice (word : text)
  | RequiredArguments
  | UnrecognizedArguments (arguments : list text).

(** The value of an option: a path text, or the empty list that argparse stores for `--`
    after an equals sign. *)
Inductive value := Given (s : text) | EmptyList.

(** The attributes; an option that is not given is [None]. *)
Record namespace := Namespace {
  ns_command : option command;
  ns_kernel_root : option value;
  ns_module_root : option value;
  ns_defconfig : option value
}.

Inductive outcome :=
  | Parsed (ns : namespace)
  | HelpRequested
  | UsageError (u : usage_error).

Definition no_arguments : namespace := Namespace None None None None.

Definition set_command (c : command) (ns : namespace) : namespace :=
  Namespace (Some c) (ns_kernel_root ns) (ns_module_root ns) (ns_defconfig ns).

Definition store (a : action) (v : value) (ns : namespace) : namespace :=
  match a with
  | HelpAction => ns
  | KernelRoot => Namespace (ns_command ns) (Some v) (ns_module_root ns) (ns_defconfig ns)
  | ModuleRoot => Namespace (ns_command ns) (ns_kernel_root ns) (Some v) (ns_defconfig ns)
  | DefconfigPath => Namespace (ns_command ns) (ns_kernel_root ns) (ns_module_root ns) (Some v)
  end.

(** ** Classification of the arguments *)

Definition dash : ascii := "-"%char.

(** [_parse_optional]: a positional argument, or an option string with the option it denotes
    and the value after an equals sign. *)
Inductive kind :=
  | Argument
  | DoubleDash
  | OptionString (a : option action) (s : text) (explicit : option text).

Definition lookup_option (s : text) : option action :=
  snd <$> List.find (λ o, text_eqb o.1 s) option_string_actions.

(** [s.split('=', 1)], where there is an equals sign *)
Fixpoint split_equals (s : text) : option (text * text) :=
  match s with
  | [] => None
  | c :: s' =>
      if char_eqb c "=" then Some ([], s')
      else match split_equals s' with
           | Some (o, v) => Some (c :: o, v)
           | None => None
           end
  end.

(** [_get_option_tuples], for an option string of two characters at least *)
Definition get_option_tuples (s : text) : list (action * text * option text) :=
  match s with
  | c :: d :: tail =>
      if char_eqb d dash then
        let '(prefix, explicit) :=
          match split_equals s with
          | Some (o, v) => (o, Some v)
          | None => (s, None)
          end in
        omap (λ o, if starts_with prefix o.1 then Some (o.2, o.1, explicit) else None)
             option_string_actions
      else
        omap (λ o, if text_eqb o.1 [c; d] then Some (o.2, o.1, Some tail)
                   else if starts_with s o.1 then Some (o.2, o.1, None) else None)
             option_string_actions
  | _ => []
  end.

(** [^-\d+$|^-\d*\.\d+$] *)
Definition negative_number_pattern : regex :=
  alts [seqs [lit (py "-"); plus digit; REol false];
        seqs [lit (py "-"); star digit; lit (py "."); plus digit; REol false]].

Definition found_option (o : action * text * option text) : kind :=
  OptionString (Some o.1.1) o.1.2 o.2.

(** The last resort: what starts with a dash and is no option of the parser. *)
Definition unknown_option (s : text) : kind :=
  match re_match negative_number_pattern s with
  | Some _ => Argument
  | None => if contains [blank] s then Argument else OptionString None s None
  end.

Definition explicit_option (s : text) : option kind :=
  match split_equals s with
  | Some (o, v) => (λ a, OptionString (Some a) o (Some v)) <$> lookup_option o
  | None => None
  end.

Definition parse_optional (s : text) : usage_error + kind :=
  match s with
  | [] => inr Argument
  | c :: tail =>
      if negb (char_eqb c dash) then inr Argument
      else match lookup_option s with
      | Some a => inr (OptionString (Some a) s None)
      | None =>
          match tail with
          | [] => inr Argument
          | _ =>
              match explicit_option s with
              | Some k => inr k
              | None =>
                  match get_option_tuples s with
                  | [] => inr (unknown_option s)
                  | [o] => inr (found_option o)
                  | _ => inl (Ambiguous s)
                  end
              end
          end
      end
  end.

Fixpoint classify (argv : list text) : usage_error + list (text * kind) :=
  match argv with
  | [] => inr []
  | s :: rest =>
      if text_eqb s (py "--") then inr ((s, DoubleDash) :: map (λ t, (t, Argument)) rest)
      else match parse_optional s with
           | inl u => inl u
           | inr k =>
               match classify rest with
               | inl u => inl u
               | inr ks => inr ((s, k) :: ks)
               end
           end
  end.

(** ** Consumption of the arguments *)

(** The help option with a value: further letters of the same argument must be `h`. *)
Fixpoint help_letters (explicit : text) : outcome :=
  match explicit with
  | [] => HelpRequested
  | c :: rest =>
      if char_eqb c "h" then help_letters rest
      else UsageError (IgnoredExplicitArgument explicit)
  end.

Definition explicit_help (s explicit : text) : outcome :=
  match explicit with
  | [] => UsageError (IgnoredExplicitArgument explicit)
  | _ => if text_eqb s (py "-h") then help_letters explicit
         else UsageError (IgnoredExplicitArgument explicit)
  end.

(** [_get_values] drops the argument `--`. *)
Definition explicit_value (explicit : text) : value :=
  if text_eqb explicit (py "--") then EmptyList else Given explicit.

Definition is_option (k : text * kind) : bool :=
  match k.2 with OptionString _ _ _ => true | _ => false end.

(** The end of [parse_args]: the required arguments, then the ones left over. *)
Definition finish (ns : namespace) (extras : list text) : outcome :=
  match ns_command ns, ns_kernel_root ns with
  | Some _, Some _ =>
      match extras with
      | [] => Parsed ns
      | _ => UsageError (UnrecognizedArguments extras)
      end
  | _, _ => UsageError RequiredArguments
  end.

(** The positional argument takes its word. *)
Definition take_command (word : text) (ns : namespace) (k : namespace → outcome) : outcome :=
  match choice_of word with
  | Some c => k (set_command c ns)
  | None => UsageError (InvalidChoice word)
  end.

(** [consume_positionals] after the last option, and what is left. *)
Definition last_positionals (ns : namespace) (extras : list text) (todo : list (text * kind)) :
    outcome :=
  match ns_command ns with
  | Some _ => finish ns (extras ++ map fst todo)
  | None =>
      match todo with
      | (word, Argument) :: (_, DoubleDash) :: rest
      | (_, DoubleDash) :: (word, Argument) :: rest
      | (word, Argument) :: rest =>
          take_command word ns (λ ns', finish ns' (extras ++ map fst rest))
      | _ => finish ns (extras ++ map fst todo)
      end
  end.

(** The loop of [_parse_known_args]. *)
Fixpoint consume (ns : namespace) (extras : list text) (todo : list (text * kind)) : outcome :=
  if negb (existsb is_option todo) then last_positionals ns extras todo
  else match todo with
  | (s, OptionString None _ _) :: rest => consume ns (extras ++ [s]) rest
  | (_, OptionString (Some HelpAction) s (Some explicit)) :: _ => explicit_help s explicit
  | (_, OptionString (Some HelpAction) _ None) :: _ => HelpRequested
  | (_, OptionString (Some a) _ (Some explicit)) :: rest =>
      consume (store a (explicit_value explicit) ns) extras rest
  | (_, OptionString (Some a) _ None) :: rest =>
      match rest with
      | (v, Argument) :: rest' => consume (store a (Given v) ns) extras rest'
      | _ => UsageError (ExpectedOneArgument a)
      end
  | (s, Argument) :: rest =>
      match ns_command ns with
      | None => take_command s ns (λ ns', consume ns' extras rest)
      | Some _ => consume ns (extras ++ [s]) rest
      end
  | _ => last_positionals ns extras todo
  end.

(** [parse_args] on [sys.argv[1:]] *)
Definition parse_args (argv : list text) : outcome :=
  match classify argv with
  | inl u => UsageError u
  | inr todo => consume no_arguments [] todo
  end.

(** ** Examples *)

Example parse_abbreviated :
  parse_args [py "--k=root"; py "install"; py "--def"; py "gki"] =
  Parsed (Namespace (Some Install) (Some (Given (py "root"))) None (Some (Given (py "gki")))).
Proof. reflexivity. Qed.

Example parse_ambiguous : parse_args [py "--=x"; py "--help"] = UsageError (Ambiguous (py "--=x")).
Proof. reflexivity. Qed.

Example parse_empty_list :
  parse_args [py "verify"; py "--kernel-root=--"; py "--"] =
  UsageError (UnrecognizedArguments [py "--"]).
Proof. reflexivity. Qed.
