(* ===== verification/ArgFacts.v ===== *)
(** * What the command line means

    Any sequence of command words and of options with values, in any order and in any of the
    accepted spellings, is read back as the arguments it writes. *)

From Stdlib Require Import Ascii.
From stdpp Require Import base list strings.
From S2P Require Import Prelude PyText PyRegex PyResult World Installer ArgParse.

(** ** Writing a command line *)

(** An option with a value, its full name and its shortest abbreviation. *)
Definition full_name (a : action) : text :=
  match a with
  | HelpAction => py "--help"
  | KernelRoot => py "--kernel-root"
  | ModuleRoot => py "--module-root"
  | DefconfigPath => py "--defconfig"
  end.

Definition short_name (a : action) : text := take 3 (full_name a).

(** [o] is an accepted spelling of the option. *)
Definition spells (a : action) (o : text) : bool :=
  bool_decide (a ≠ HelpAction) && starts_with (short_name a) o && starts_with o (full_name a).

(** A value that stands in an argument of its own starts with no dash. *)
Definition plain (v : text) : bool :=
  match v with c :: _ => negb (char_eqb c dash) | [] => true end.

Inductive item :=
  | Word (c : command)
  | Separate (a : action) (o v : text)    (** `--option value` *)
  | Joined (a : action) (o v : text).     (** `--option=value` *)

Definition write_item (i : item) : list text :=
  match i with
  | Word c => [command_word c]
  | Separate _ o v => [o; v]
  | Joined _ o v => [o ++ py "=" ++ v]
  end.

Definition valid_item (i : item) : bool :=
  match i with
  | Word _ => true
  | Separate a o v => spells a o && plain v
  | Joined a o v => spells a o && negb (text_eqb v (py "--"))
  end.

(** ** What it says *)

Definition words (items : list item) : list command :=
  omap (λ i, match i with Word c => Some c | _ => None end) items.

Definition value_of (a : action) (i : item) : option value :=
  match i with
  | Word _ => None
  | Separate b _ v | Joined b _ v => if bool_decide (a = b) then Some (Given v) else None
  end.

(** The last value of an option. *)
Definition last_value (a : action) (items : list item) : option value :=
  list.last (omap (value_of a) items).

Definition meaning (items : list item) : outcome :=
  match words items, last_value KernelRoot items with
  | [c], Some root =>
      Parsed (Namespace (Some c) (Some root) (last_value ModuleRoot items)
                (last_value DefconfigPath items))
  | _ :: more, Some _ => UsageError (UnrecognizedArguments (map command_word more))
  | _, _ => UsageError RequiredArguments
  end.

(** ** Classification *)

Fixpoint prefixes (s : text) : list text :=
  [] :: match s with [] => [] | c :: s' => map (cons c) (prefixes s') end.

Lemma starts_with_prefixes o s : starts_with o s = true → o ∈ prefixes s.
Proof.
  revert s. induction o as [|c o IH]; intros [|d s] H; try done; [by left|by left|].
  simpl in H. apply andb_true_iff in H as [Hc H]. apply char_eqb_eq in Hc as ->.
  simpl. right. apply list_elem_of_In, in_map, list_elem_of_In. by apply IH.
Qed.

(** The spellings of the options: there are few, so that a fact of each can be computed. *)
Definition spellings : list (action * text) :=
  List.filter (λ ao, spells ao.1 ao.2)
    (flat_map (λ a, map (pair a) (prefixes (full_name a))) [KernelRoot; ModuleRoot; DefconfigPath]).

Lemma spells_ind (P : action → text → Prop) a o :
  spells a o = true → Forall (λ ao, P ao.1 ao.2) spellings → P a o.
Proof.
  intros Ho HP. rewrite Forall_forall in HP. apply (HP (a, o)). unfold spellings.
  apply list_elem_of_In, filter_In. split; [|exact Ho].
  unfold spells in Ho. rewrite !andb_true_iff in Ho. destruct Ho as [[Ha%bool_decide_eq_true _] Ho].
  apply in_flat_map. exists a. split.
  - destruct a; [done|by left|by right; left|by right; right; left].
  - apply in_map, list_elem_of_In. by apply starts_with_prefixes.
Qed.

Lemma parse_spelled a o :
  spells a o = true → ∃ n, parse_optional o = inr (OptionString (Some a) n None).
Proof.
  intros H. apply (spells_ind (λ a o, ∃ n, parse_optional o = inr (OptionString (Some a) n None)) a o H).
  vm_compute spellings. repeat constructor; eexists; reflexivity.
Qed.

Lemma parse_joined a o v :
  spells a o = true →
  ∃ n, parse_optional (o ++ py "=" ++ v) = inr (OptionString (Some a) n (Some v)).
Proof.
  intros H. apply (spells_ind (λ a o, ∃ n, parse_optional (o ++ py "=" ++ v) =
                                 inr (OptionString (Some a) n (Some v))) a o H).
  vm_compute spellings. repeat constructor; eexists; reflexivity.
Qed.

Lemma spelled_not_dashes a o w : spells a o = true → text_eqb (o ++ w) (py "--") = false.
Proof.
  intros H. apply (spells_ind (λ a o, text_eqb (o ++ w) (py "--") = false) a o H).
  vm_compute spellings. repeat constructor; reflexivity.
Qed.

Lemma parse_plain v : plain v = true → parse_optional v = inr Argument.
Proof. destruct v as [|c v]; [done|]. simpl. by intros ->. Qed.

Lemma plain_not_dashes v : plain v = true → text_eqb v (py "--") = false.
Proof.
  destruct v as [|c v]; [done|]. unfold plain. intros H%negb_true_iff.
  change (char_eqb c dash && text_eqb v [dash] = false). by rewrite H.
Qed.

Lemma plain_word c : plain (command_word c) = true.
Proof. by destruct c. Qed.

(** The arguments of an item, classified; the option string is of no concern. *)
Inductive classified : item → list (text * kind) → Prop :=
  | classified_word c : classified (Word c) [(command_word c, Argument)]
  | classified_separate a o v n :
      a ≠ HelpAction →
      classified (Separate a o v) [(o, OptionString (Some a) n None); (v, Argument)]
  | classified_joined a o v n :
      a ≠ HelpAction → v ≠ py "--" →
      classified (Joined a o v) [(o ++ py "=" ++ v, OptionString (Some a) n (Some v))].

Lemma classify_cons s k rest todo :
  text_eqb s (py "--") = false → parse_optional s = inr k → classify rest = inr todo →
  classify (s :: rest) = inr ((s, k) :: todo).
Proof. intros Hs Hk Hr. cbn [classify]. by rewrite Hs, Hk, Hr. Qed.

Lemma classify_item i rest todo :
  valid_item i = true → classify rest = inr todo →
  ∃ ks, classified i ks ∧ classify (write_item i ++ rest) = inr (ks ++ todo).
Proof.
  intros Hi Hr. destruct i as [c|a o v|a o v]; simpl in Hi.
  - eexists. split; [constructor|]. pose proof (plain_word c) as Hp.
    apply classify_cons; [by apply plain_not_dashes|by apply parse_plain|done].
  - apply andb_true_iff in Hi as [Ho Hv]. destruct (parse_spelled a o Ho) as [n Hn].
    exists [(o, OptionString (Some a) n None); (v, Argument)]. split.
    { constructor. unfold spells in Ho. by bool_hyps. }
    apply classify_cons; [|done|].
    + rewrite <- (app_nil_r o). by eapply spelled_not_dashes.
    + apply classify_cons; [by apply plain_not_dashes|by apply parse_plain|done].
  - apply andb_true_iff in Hi as [Ho Hv]. destruct (parse_joined a o v Ho) as [n Hn].
    exists [(o ++ py "=" ++ v, OptionString (Some a) n (Some v))]. split.
    { constructor; [unfold spells in Ho; by bool_hyps|]. by apply text_eqb_neq, negb_true_iff. }
    apply classify_cons; [by eapply spelled_not_dashes|done|done].
Qed.

Inductive classified_all : list item → list (text * kind) → Prop :=
  | classified_nil : classified_all [] []
  | classified_more i items ks todo :
      classified i ks → classified_all items todo → classified_all (i :: items) (ks ++ todo).

Lemma classify_items items :
  forallb valid_item items = true →
  ∃ todo, classified_all items todo ∧ classify (flat_map write_item items) = inr todo.
Proof.
  induction items as [|i items IH]; simpl; intros H; [by exists []; split; [constructor|]|].
  apply andb_true_iff in H as [Hi H]. destruct (IH H) as (todo & Ht & Hc).
  destruct (classify_item i _ todo Hi Hc) as (ks & Hk & Hc').
  exists (ks ++ todo). split; [by constructor|done].
Qed.

(** ** Consumption *)

Definition no_dashes (todo : list (text * kind)) : Prop := Forall (λ k, k.2 ≠ DoubleDash) todo.

Lemma classified_no_dashes items todo : classified_all items todo → no_dashes todo.
Proof.
  induction 1 as [|i items ks todo Hi _ IH]; [constructor|]. apply Forall_app. split; [|done].
  destruct Hi; repeat constructor; discriminate.
Qed.

Lemma consume_no_option ns extras todo :
  existsb is_option todo = false → consume ns extras todo = last_positionals ns extras todo.
Proof. intros H. destruct todo; cbn [consume]; by rewrite H. Qed.

Lemma consume_argument ns extras s rest :
  no_dashes rest →
  consume ns extras ((s, Argument) :: rest) =
  match ns_command ns with
  | None => take_command s ns (λ ns', consume ns' extras rest)
  | Some _ => consume ns (extras ++ [s]) rest
  end.
Proof.
  intros Hd. destruct (existsb is_option rest) eqn:E.
  { cbn [consume existsb is_option snd orb]. by rewrite E. }
  rewrite !consume_no_option by done. unfold last_positionals.
  destruct (ns_command ns) as [c|]; [by rewrite <- app_assoc|].
  assert (∀ ns', consume ns' extras rest = last_positionals ns' extras rest) as Hc
    by (intros ns'; by apply consume_no_option).
  assert (∀ k, take_command s ns k =
    take_command s ns (λ ns', k (set_command (default Install (choice_of s)) ns))) as Hk.
  { intros k. unfold take_command. by destruct (choice_of s). }
  rewrite (Hk (λ ns', consume ns' extras rest)), Hc. unfold last_positionals. simpl ns_command.
  cbn iota. rewrite <- (Hk (λ ns', finish ns' _)).
  destruct rest as [|[t []] rest]; [done|done| |done]. by inversion Hd.
Qed.

(** What an item adds to the attributes and to the arguments left over. *)
Definition step_item (st : namespace * list text) (i : item) : namespace * list text :=
  match i with
  | Word c =>
      match ns_command st.1 with
      | None => (set_command c st.1, st.2)
      | Some _ => (st.1, st.2 ++ [command_word c])
      end
  | Separate a _ v | Joined a _ v => (store a (Given v) st.1, st.2)
  end.

Lemma consume_items items todo :
  classified_all items todo →
  ∀ ns extras, consume ns extras todo =
    let st := foldl step_item (ns, extras) items in finish st.1 st.2.
Proof.
  induction 1 as [|i items ks todo Hi Ht IH]; intros ns extras.
  { simpl. unfold last_positionals. rewrite app_nil_r. by destruct (ns_command ns). }
  pose proof (classified_no_dashes _ _ Ht) as Hd. destruct Hi as [c|a o v n Ha|a o v n Ha Hv].
  - simpl app. rewrite consume_argument by done. cbn [foldl step_item fst snd].
    destruct (ns_command ns); [apply IH|]. unfold take_command.
    replace (choice_of (command_word c)) with (Some c) by (by destruct c). apply IH.
  - cbn [foldl step_item fst snd]. rewrite <- IH. by destruct a.
  - cbn [foldl step_item fst snd]. rewrite <- IH. apply text_eqb_neq in Hv.
    destruct a; [done|..]; cbn [app consume existsb is_option snd orb negb]; unfold explicit_value;
      by rewrite Hv.
Qed.

(** ** The attributes after all the items *)

Definition attribute (a : action) (ns : namespace) : option value :=
  match a with
  | HelpAction => None
  | KernelRoot => ns_kernel_root ns
  | ModuleRoot => ns_module_root ns
  | DefconfigPath => ns_defconfig ns
  end.

Definition or_else {A} (o o' : option A) : option A := match o with Some _ => o | None => o' end.

Lemma last_value_cons a i items :
  last_value a (i :: items) = or_else (last_value a items) (value_of a i).
Proof.
  unfold last_value. simpl. destruct (value_of a i) as [v|]; [|by destruct (list.last _)].
  rewrite last_cons. by destruct (list.last _).
Qed.

Lemma attribute_items a items ns extras :
  a ≠ HelpAction → Forall (λ i, valid_item i = true) items →
  attribute a (foldl step_item (ns, extras) items).1 =
  or_else (last_value a items) (attribute a ns).
Proof.
  intros Ha Hi. revert ns extras. induction Hi as [|i items Hi _ IH]; intros ns extras; [done|].
  cbn [foldl]. destruct (step_item (ns, extras) i) as [ns1 extras1] eqn:E.
  rewrite IH, last_value_cons. destruct (last_value a items); [done|]. simpl.
  destruct i as [c|b o v|b o v]; simpl in *.
  - destruct (ns_command ns); injection E as <- <-; [done|]. by destruct a.
  - injection E as <- <-. by destruct a, b.
  - injection E as <- <-. by destruct a, b.
Qed.

Lemma command_items items ns extras :
  let st := foldl step_item (ns, extras) items in
  match ns_command ns with
  | Some c => ns_command st.1 = Some c ∧ st.2 = extras ++ map command_word (words items)
  | None => ns_command st.1 = head (words items) ∧
            st.2 = extras ++ map command_word (tail (words items))
  end.
Proof.
  revert ns extras. induction items as [|i items IH]; intros ns extras.
  { simpl. rewrite app_nil_r. by destruct (ns_command ns). }
  cbn [foldl]. specialize (IH (step_item (ns, extras) i).1 (step_item (ns, extras) i).2).
  rewrite <- surjective_pairing in IH. revert IH.
  destruct i as [c|a o v|a o v]; simpl; [|by destruct a..].
  destruct (ns_command ns) as [d|] eqn:E; simpl; [|done]. rewrite E.
  intros [-> ->]. split; [done|]. by rewrite <- app_assoc.
Qed.

(** C19: the command line means what it writes.  For every sequence of command words and of
    options with a value, in any order, with any accepted abbreviation and in both forms
    (`--option value`, the value not starting with a dash, and `--option=value`, the value
    not being two dashes), the parser answers the arguments written: one command and a kernel
    root give the attributes, the last value of an option counting; without them the
    arguments are rejected, and so is every further command word. *)
Theorem parse_args_meaning items :
  forallb valid_item items = true → parse_args (flat_map write_item items) = meaning items.
Proof.
  intros Hi. destruct (classify_items items Hi) as (todo & Ht & Hc). unfold parse_args.
  rewrite Hc, (consume_items _ _ Ht). cbv zeta.
  assert (Forall (λ i, valid_item i = true) items) as Hv
    by (apply Forall_forall; intros i ?%list_elem_of_In; by eapply forallb_forall in Hi).
  pose proof (λ a Ha, attribute_items a items no_arguments [] Ha Hv) as Hat.
  pose proof (command_items items no_arguments []) as Hcmd. cbv zeta in Hcmd. simpl in Hcmd.
  destruct (foldl _ _ _) as [[c k m d] extras]. destruct Hcmd as [Hc1 Hc2]. simpl in Hc1, Hc2.
  pose proof (Hat KernelRoot ltac:(done)) as Hk. pose proof (Hat ModuleRoot ltac:(done)) as Hm.
  pose proof (Hat DefconfigPath ltac:(done)) as Hd. simpl in Hk, Hm, Hd.
  assert (∀ o : option value, or_else o None = o) as Hn by (by intros []). rewrite Hn in *.
  subst. unfold meaning, finish. simpl.
  destruct (words items) as [|c [|c' more]], (last_value KernelRoot items); done.
Qed.

Lemma parse_args_meaning_witness :
  let items := [Joined KernelRoot (py "--kern") (py "a=b"); Word Install;
                Separate DefconfigPath (py "--defconfig") (py "gki");
                Separate KernelRoot (py "--kernel-root") (py "/kernel")] in
  parse_args (flat_map write_item items) =
  Parsed (Namespace (Some Install) (Some (Given (py "/kernel"))) None (Some (Given (py "gki")))).
Proof.
  intros items. apply (parse_args_meaning items). reflexivity.
Defined.
