(* ===== verification/Example.v ===== *)
(** * A sample source tree

    The smallest tree that the installer accepts, in each variant and kernel line: the same
    one the repository's tests build.  The witnesses run the commands on it. *)

From Stdlib Require Import Ascii.
From stdpp Require Import base list strings gmap.
From S2P Require Import Prelude PyText PyResult World FsFacts Transaction Kbuild Defconfig.
From S2P Require Import Discovery Resukisu KsuPatches KernelHooks Sources Installer.

Definition seccomp_c : text :=
  py "#include <linux/seccomp.h>\nint __secure_computing(const struct seccomp_data *sd)\n" ++
  py "{\n\tint mode = current->seccomp.mode;\n\tint this_syscall;\n" ++
  py "\tthis_syscall = sd ? sd->nr :\n\t\tsyscall_get_nr(current, current_pt_regs());\n" ++
  py "\treturn mode + this_syscall;\n}\n".

Definition namespace_c : text :=
  py "#include <linux/mount.h>\nstatic int do_loopback(struct path *path, const char *old_name, int recurse)\n" ++
  py "{\n\tstruct path old_path;\n\tint err;\n\terr = kern_path(old_name, LOOKUP_FOLLOW|LOOKUP_AUTOMOUNT, &old_path);\n" ++
  py "\tif (err)\n\t\treturn err;\n\terr = 0;\nout:\n\tpath_put(&old_path);\n" ++
  py "\treturn err;\n}\nstatic int can_umount(const struct path *path, int flags)\n" ++
  py "{\n\tif (!may_mount())\n\t\treturn -EPERM;\n\treturn 0;\n}\nint path_umount(struct path *path, int flags)\n" ++
  py "{\n\tstruct mount *mnt = real_mount(path->mnt);\n\tint ret;\n" ++
  py "\tret = can_umount(path, flags);\n\tif (!ret)\n\t\tret = do_umount(mnt, flags);\n" ++
  py "\treturn ret;\n}\nstatic inline bool may_mount(void)\n{\n\treturn capable(CAP_SYS_ADMIN);\n" ++
  py "}\nint path_mount(const char *dev_name, struct path *path,\n\t\tconst char *type_page, unsigned long flags, void *data_page)\n" ++
  py "{\n\tunsigned int mnt_flags = 0, sb_flags = 0;\n\tint ret;\n\tret = security_sb_mount(dev_name, path, type_page, flags, data_page);\n" ++
  py "\tif (ret)\n\t\treturn ret;\n\tif (!may_mount())\n\t\treturn -EPERM;\n" ++
  py "\tif (flags & MS_BIND)\n\t\treturn do_loopback(path, dev_name, flags & MS_REC);\n" ++
  py "\treturn do_new_mount(path, type_page, sb_flags, mnt_flags, dev_name,\n" ++
  py "\t\t\t    data_page);\n}\n".

Definition ptrace_c : text :=
  py "#include <linux/ptrace.h>\nstatic int ptrace_may_access(struct task_struct *task)\n" ++
  py "{\n\tconst struct cred *tcred;\n\tstruct mm_struct *mm = task->mm;\n" ++
  py "\tunsigned int mode = 0;\n\ttcred = __task_cred(task);\n\tif (uid_eq(current_uid(), tcred->uid))\n" ++
  py "\t\tgoto ok;\n\treturn -EPERM;\nok:\n\tif (mm &&\n\t    ((get_dumpable(mm) != SUID_DUMP_USER) &&\n" ++
  py "\t     !ptrace_has_cap(mm->user_ns, mode)))\n\t\treturn -EPERM;\n" ++
  py "\treturn 0;\n}\n".

Definition signal_c : text :=
  py "#include <linux/sched/signal.h>\nstatic int check_kill_permission(struct task_struct *t)\n" ++
  py "{\n\tif (!same_thread_group(current, t) &&\n\t    !kill_ok_by_cred(t)) {\n" ++
  py "\t\treturn -EPERM;\n\t}\n\treturn 0;\n}\n#ifdef CONFIG_KGDB_KDB\n" ++
  py "#include <linux/kdb.h>\n#endif\n".

Definition ksu_kconfig : text :=
  py "menu `KernelSU`\nconfig KSU\n    bool `KernelSU`\nendmenu\n".

Definition lsm_hooks_c : text :=
  py "#include <linux/lsm_hooks.h>\n#if LINUX_VERSION_CODE >= KERNEL_VERSION(4, 2, 0) || defined(KSU_COMPAT_HAS_LIST_OF_LSM_HOOKS)\n" ++
  py "#include <linux/lsm_hooks.h>\nstatic struct security_hook_list ksu_hooks[] = {\n" ++
  py "    LSM_HOOK_INIT(inode_rename, ksu_inode_rename),\n#ifdef CONFIG_KSU_MANUAL_HOOK_AUTO_SETUID_HOOK\n" ++
  py "    LSM_HOOK_INIT(task_fix_setuid, ksu_task_fix_setuid),\n#endif\n" ++
  py "#ifdef CONFIG_KSU_MANUAL_HOOK_AUTO_INITRC_HOOK\n    LSM_HOOK_INIT(file_permission, ksu_file_permission),\n" ++
  py "#endif\n};\nvoid __init ksu_lsm_hook_built_in_init(void)\n{\n" ++
  py "    if (ARRAY_SIZE(ksu_hooks) == 0)\n        return;\n#if LINUX_VERSION_CODE >= KERNEL_VERSION(4, 11, 0) || defined(KSU_COMPAT_REQUIRE_PROVIDE_LSM_NAME)\n" ++
  py "    security_add_hooks(ksu_hooks, ARRAY_SIZE(ksu_hooks), `ksu`);\n" ++
  py "#else\n    security_add_hooks(ksu_hooks, ARRAY_SIZE(ksu_hooks));\n" ++
  py "#endif\n}\n#else\nvoid __init ksu_lsm_hook_built_in_init(void)\n" ++
  py "{\n}\n#endif\n".

Definition app_profile_c : text :=
  py "#include <linux/cred.h>\nint escape_with_root_profile(void)\n" ++
  py "{\n    return 0;\n}\n".

Definition sepolicy_c : text :=
  py "/* synthetic sepolicy */\n".

Definition rules_c : text :=
  py "#include `sepolicy.h`\nvoid apply_kernelsu_rules()\n{\n    struct selinux_policy *pol, *old_pol = selinux_state.policy;\n" ++
  py "    struct policydb *db;\n    mutex_lock(&selinux_state.policy_mutex);\n" ++
  py "    pol = ksu_dup_sepolicy(old_pol);\n    db = &pol->policydb;\n" ++
  py "out_unlock:\n    mutex_unlock(&selinux_state.policy_mutex);\n" ++
  py "    return;\n}\n".

Definition allowlist_c : text :=
  py "#include <linux/init.h>\nint ksu_set_app_profile(struct app_profile *profile)\n" ++
  py "{\n    int result = 0;\n    return result;\n}\n\nvoid ksu_prune_allowlist(bool (*is_uid_valid)(uid_t uid, char *package, void *data))\n" ++
  py "{\n    int uid = 10000;\n    struct profile_node *np = 0;\n            hlist_del_rcu(&np->list);\n" ++
  py "}\n\nvoid __init ksu_allowlist_init(void)\n{\n}\n".

Definition dispatch_c : text :=
  py "#include <linux/cred.h>\n#include `supercall/internal.h`\nlong ksu_supercall_handle_ioctl(unsigned int cmd, void __user *argp)\n" ++
  py "{\n    int i;\n    return i + cmd + (argp != 0);\n}\n".

Definition manual_sucompat_c : text :=
  py "static inline int do_ksu_handle_execveat_sucompat(struct pt_regs *regs)\n" ++
  py "{\n    escape_with_root_profile();\n    return regs != 0;\n}\n".

Definition sucompat_c : text :=
  py "long ksu_handle_execve_sucompat(struct pt_regs *regs)\n{\n    long ret, orig_regs[5];\n" ++
  py "    int tmp_fd = 0;\n    struct ksu_sulog_pending_event *pending_sucompat = 0;\n" ++
  py "    ret = escape_with_root_profile();\n    if (ret) {\n        pr_err(`escape_with_root_profile failed: %ld\\n`, ret);\n" ++
  py "    }\n    ksu_sulog_emit_pending(pending_sucompat, ret, GFP_KERNEL);\n" ++
  py "    ret = ksu_syscall_table[__NR_execveat](regs);\n    return ret;\n" ++
  py "}\n".

Definition lsm_count_h : text :=
  py "#if IS_ENABLED(CONFIG_SECURITY_IPE)\n#define IPE_ENABLED 1,\n" ++
  py "#else\n#define IPE_ENABLED\n#endif\n\n/*\n *  There is a trailing comma that we need to be accounted for.\n" ++
  py " */\n#define MAX_LSM_COUNT\t\t\t\\\n\tCOUNT_LSMS( \\\n\t\tIPE_ENABLED)\n".

Definition api_h : text :=
  py "/* ABK_KSU_SANDBOX_V1: synthetic public API */\n".


(** ** Building a tree *)

(** Every prefix of a path, the path excluded. *)
Fixpoint ancestors (done todo : path) : list path :=
  match todo with
  | [] => []
  | c :: rest => done :: ancestors (done ++ [c]) rest
  end.

Definition add_text_file (ft : path * text) (ns : gmap path node) : gmap path node :=
  <[ft.1 := File (FileData ft.2 0 default_mode)]>
    (foldr (λ d ns, <[d := Dir]> ns) ns (ancestors [] ft.1)).

Definition tree_of (files : list (path * text)) : fsys :=
  Fsys (foldr add_text_file ∅ files) ∅.

Definition sample_root : path := ["kernel-root"].
Definition sample_module : path := ["module-root"].
Definition sample_common : path := sample_root ++ ["common"].
Definition sample_ksu : path := sample_common ++ ["drivers"; "kernelsu"].
Definition sample_defconfig : path := sample_root ++ ["gki_defconfig"].

Definition variant_mark (variant : text) : text :=
  if text_eqb variant (py "resukisu") then py "# ReSukiSU\n"
  else if text_eqb variant (py "sukisu") then py "# SukiSU Ultra with SUSFS\n"
  else [].

Definition sample_sources : list (path * text) :=
  map (λ n, (sample_module ++ ["files"; "abk_ksu_sandbox"; n],
             py "/* ABK_KSU_SANDBOX_V1 */\n/* synthetic " ++ name_text n ++ py " */\n"))
    verified_sources
  ++ [(sample_module ++ ["files"; "abk_ksu_sandbox"; api_header], api_h)].

Definition sample_files (variant version : text) : list (path * text) :=
  let ksu := λ p, sample_ksu ++ p in
  let common := λ p, sample_common ++ p in
  let resukisu := text_eqb variant (py "resukisu") in
  sample_sources ++
  [(sample_defconfig,
    py "CONFIG_KSU=y\nCONFIG_SECURITY_SELINUX=y\nCONFIG_NAMESPACES=y\nCONFIG_LSM=`selinux,abk_ksu_sandbox`\nCONFIG_KSU_ABK_SANDBOX=y\n");
   (common ["Makefile"],
    match split_char "." version with
    | [a; b] => py "VERSION = " ++ a ++ py "\nPATCHLEVEL = " ++ b ++ py "\nSUBLEVEL = 0\n"
    | _ => []
    end);
   (common ["kernel"; "seccomp.c"], seccomp_c);
   (common ["fs"; "namespace.c"], namespace_c);
   (common ["kernel"; "ptrace.c"], ptrace_c);
   (common ["kernel"; "signal.c"], signal_c);
   (* present in every kernel tree; it makes the header's directory exist *)
   (common ["include"; "linux"; "lsm_count.h"], lsm_count_h);
   (ksu ["Kbuild"], variant_mark variant ++ py "kernelsu-objs := main.o\n");
   (ksu ["Kconfig"], ksu_kconfig);
   (ksu ["policy"; "app_profile.c"], app_profile_c);
   (ksu ["selinux"; "sepolicy.c"], sepolicy_c);
   (ksu ["selinux"; "rules.c"], rules_c);
   (ksu ["policy"; "allowlist.c"], allowlist_c);
   (ksu ["supercall"; "dispatch.c"], dispatch_c);
   (ksu ["feature"; "sucompat.c"], if resukisu then manual_sucompat_c else sucompat_c)]
  ++ (if resukisu then [(ksu ["hook"; "lsm_hooks.c"], lsm_hooks_c)] else []).

Definition sample_tree (variant version : text) : fsys :=
  tree_of (sample_files variant version).

Definition sample_world (fs : fsys) : world :=
  World fs None false [] 1 None [] [].

Definition sample_args (c : command) : arguments :=
  Arguments_ c sample_root sample_module (Some sample_defconfig).

(** ** Checking that a tree is a tree *)

Definition is_dir_at (ns : gmap path node) (q : path) : bool :=
  match ns !! q with Some Dir => true | _ => false end.

Definition below_dir (ns : gmap path node) (k : path) : bool :=
  match k with [] => true | _ => is_dir_at ns (parent k) end.

Definition fs_wf_check (fs : fsys) : bool :=
  is_dir_at (nodes fs) []
  && forallb (λ kn, below_dir (nodes fs) kn.1) (map_to_list (nodes fs))
  && forallb (λ kt, below_dir (nodes fs) kt.1) (map_to_list (links fs))
  && forallb (λ kt, bool_decide (nodes fs !! kt.1 = None)) (map_to_list (links fs)).

Lemma is_dir_at_true ns q : is_dir_at ns q = true → ns !! q = Some Dir.
Proof. unfold is_dir_at. by destruct (ns !! q) as [[]|]. Qed.

Lemma below_dir_snoc ns q c : below_dir ns (q ++ [c]) = is_dir_at ns q.
Proof.
  unfold below_dir. rewrite parent_snoc. destruct (q ++ [c]) eqn:E; [|done].
  by apply app_eq_nil in E as [_ ?].
Qed.

Lemma fs_wf_check_sound fs : fs_wf_check fs = true → fs_wf fs.
Proof.
  unfold fs_wf_check. rewrite !andb_true_iff, !forallb_forall. intros [[[Hr H3] H1] H0].
  split.
  - by apply is_dir_at_true.
  - intros q c n Hn%elem_of_map_to_list%list_elem_of_In. apply is_dir_at_true.
    rewrite <- (below_dir_snoc _ q c). by apply (H3 (q ++ [c], n)).
  - intros q c t Ht%elem_of_map_to_list%list_elem_of_In. apply is_dir_at_true.
    rewrite <- (below_dir_snoc _ q c). by apply (H1 (q ++ [c], t)).
  - intros q n t Hn Ht%elem_of_map_to_list%list_elem_of_In.
    specialize (H0 (q, t) Ht). bool_hyps. simpl in *. congruence.
Qed.

Definition sample_layout : layout :=
  Layout sample_root sample_common sample_ksu (py "official") (py "6.6").

(** A tree on which the last patch fails, after all the others have written. *)
Definition broken_tree : fsys :=
  let fs := sample_tree (py "official") (py "6.6") in
  Fsys (<[sample_common ++ ["kernel"; "signal.c"] :=
            File (FileData (py "#include <linux/sched/signal.h>\n") 0 default_mode)]>
          (nodes fs)) (links fs).
