(* ===== verification/Frames.v ===== *)
(** * What an operation leaves alone

    [preserves R m]: whatever [m] returns, the worlds before and after are related by the
    preorder [R].  The predicate is closed under the constructs of the monad, so a fact about
    a whole command follows from the facts about its reads and writes. *)

From Stdlib Require Import Ascii.
From stdpp Require Import base list strings gmap.
From S2P Require Import Prelude PyText PyResult World Transaction.

#[local] Opaque walk.

Definition preserves (R : world → world → Prop) {A} (m : M A) : Prop :=
  ∀ w r w', m w = (r, w') → R w w'.

Section preserves.
Context (R : world → world → Prop) `{!PreOrder R}.

Lemma preserves_ret {A} (a : A) : preserves R (mret a).
Proof. by intros w r w' [= <- <-]. Qed.

Lemma preserves_raise {A} e : preserves R (@raise A e).
Proof. by intros w r w' [= <- <-]. Qed.

Lemma preserves_lift {A} (m : result A) : preserves R (lift m).
Proof. by intros w r w' [= <- <-]. Qed.

Lemma preserves_gets {A} (f : world → A) : preserves R (gets f).
Proof. by intros w r w' [= <- <-]. Qed.

Lemma preserves_bind {A B} (m : M A) (f : A → M B) :
  preserves R m → (∀ a, preserves R (f a)) → preserves R (m ≫= f).
Proof.
  intros Hm Hf w r w' H. minv H a w1 E; [by etrans; [eapply Hm|eapply Hf]|].
  injection H as <- <-. by eapply Hm.
Qed.

(** The continuation may use what the first step returned. *)
Lemma preserves_bind_dep {A B} (m : M A) (f : A → M B) :
  preserves R m → (∀ w a w', m w = (Ok a, w') → preserves R (f a)) → preserves R (m ≫= f).
Proof.
  intros Hm Hf w r w' H. minv H a w1 E; [by etrans; [eapply Hm|eapply Hf]|].
  injection H as <- <-. by eapply Hm.
Qed.

Lemma preserves_catch {A} (m : M A) h :
  preserves R m → (∀ e, preserves R (h e)) → preserves R (catch m h).
Proof.
  intros Hm Hh w r w'. unfold catch. destruct (m w) as [[a|e] w1] eqn:E.
  - intros [= <- <-]. by eapply Hm.
  - intros H. etrans; [by eapply Hm|by eapply Hh].
Qed.

Lemma preserves_when b m : preserves R m → preserves R (when b m).
Proof. destruct b; [done|]. intros _. apply preserves_ret. Qed.

Lemma preserves_for_each {A} (l : list A) body :
  (∀ a, a ∈ l → preserves R (body a)) → preserves R (for_each l body).
Proof.
  induction l as [|a l IH]; intros H; simpl; [apply preserves_ret|].
  apply preserves_bind; [apply H; by left|]. intros _. apply IH. intros; apply H; by right.
Qed.

Lemma preserves_stat_file p : preserves R (stat_file p).
Proof.
  intros w r w'. unfold stat_file. mstep.
  repeat split_match; intros [= <- <-]; reflexivity.
Qed.

Lemma preserves_read_bytes p : preserves R (read_bytes p).
Proof.
  apply preserves_bind; [apply preserves_stat_file|intros f; apply preserves_ret].
Qed.

Lemma preserves_read_text p : preserves R (read_text p).
Proof.
  apply preserves_bind; [apply preserves_read_bytes|intros f; apply preserves_ret].
Qed.

Lemma preserves_read p : preserves R (read p).
Proof.
  apply preserves_catch; [apply preserves_read_text|].
  intros [m|[] q|c]; apply preserves_raise.
Qed.
End preserves.

Create HintDb frames.
#[export] Hint Resolve preserves_ret preserves_raise preserves_lift preserves_gets
  preserves_read_text preserves_read_bytes preserves_read : frames.

(** Proves [preserves R m] along the structure of [m]; [tac] is tried on the leaves. *)
Ltac preserves_with tac :=
  repeat first
    [ solve [auto with frames typeclass_instances]
    | solve [tac]
    | apply preserves_bind; [auto with typeclass_instances| |intros ?]
    | apply preserves_when; [auto with typeclass_instances|]
    | apply preserves_for_each; [auto with typeclass_instances|intros ? ?]
    | match goal with
      | |- preserves _ (match ?x with _ => _ end) =>
          let E := fresh "E" in destruct x eqn:E
      | |- preserves _ (let '_ := ?x in _) => destruct x
      | |- preserves _ (raise_install _) => apply preserves_raise
      | |- preserves _ (ask _) => apply preserves_gets
      end ].

Ltac preserves := preserves_with idtac.

(** ** Equal state: everything but the output *)

Definition same_state (w w' : world) : Prop :=
  w_fs w' = w_fs w ∧ w_tx w' = w_tx w ∧ w_validation_only w' = w_validation_only w ∧
  w_work_mode w' = w_work_mode w ∧ w_clock w' = w_clock w ∧ w_fault w' = w_fault w.

#[export] Instance same_state_equivalence : Equivalence same_state.
Proof.
  split; unfold same_state.
  - by intros w.
  - intros w1 w2. intuition congruence.
  - intros w1 w2 w3. intuition congruence.
Qed.

(** In validation mode the state stays equal. *)
Definition validation_frame (w w' : world) : Prop :=
  w_validation_only w = true → same_state w w'.

#[export] Instance validation_frame_preorder : PreOrder validation_frame.
Proof.
  split; unfold validation_frame; [done|].
  intros w1 w2 w3 H12 H23 Hv. specialize (H12 Hv). etrans; [done|].
  apply H23. destruct H12 as (_ & _ & -> & _). done.
Qed.

Lemma preserves_print line : preserves same_state (print line).
Proof. by intros w r w' [= <- <-]. Qed.
#[export] Hint Resolve preserves_print : frames.

Lemma write_validation p s : preserves validation_frame (write p s).
Proof.
  unfold write. apply preserves_bind; [auto with typeclass_instances|apply preserves_gets; apply _|].
  intros fs. apply preserves_bind; [auto with typeclass_instances|preserves|].
  intros old. destruct (match old with Some t => _ | None => _ end); [preserves|].
  intros w r w' H Hv. rewrite gets_bind, Hv in H. simpl in H. by injection H as <- <-.
Qed.
#[export] Hint Resolve write_validation : frames.

(** ** Inversion and execution of the reading steps *)

Lemma lift_bind {A B} (m : result A) (f : A → M B) w :
  (lift m ≫= f) w = match m with Ok a => f a w | Err e => (Err e, w) end.
Proof. by destruct m. Qed.

Lemma lift_bind_ok {A B} (m : result A) (f : A → M B) w b w' :
  (lift m ≫= f) w = (Ok b, w') → ∃ a, m = Ok a ∧ f a w = (Ok b, w').
Proof. rewrite lift_bind. destruct m; [eauto|done]. Qed.

(** A step that changes nothing, in a run that succeeds. *)
Lemma pure_bind_ok {A B} (m : M A) (f : A → M B) w b w' :
  preserves eq m → (m ≫= f) w = (Ok b, w') →
  ∃ a, m w = (Ok a, w) ∧ f a w = (Ok b, w').
Proof.
  intros Hm H. rewrite bind_eq in H. destruct (m w) as [[a|e] w1] eqn:E; [|done].
  assert (w = w1) as <- by (by eapply Hm). eauto.
Qed.

Lemma read_bind_ok {B} p (f : text → M B) w b w' :
  (read p ≫= f) w = (Ok b, w') → ∃ s, read p w = (Ok s, w) ∧ f s w = (Ok b, w').
Proof. apply pure_bind_ok, (preserves_read eq). Qed.

Lemma for_each_ok {A} (l : list A) body w w' :
  (∀ a, preserves eq (body a)) → for_each l body w = (Ok tt, w') →
  w' = w ∧ ∀ a, a ∈ l → body a w = (Ok tt, w).
Proof.
  intros Hb. induction l as [|a l IH]; intros H.
  { injection H as <-. split; [done|]. by intros a ?%not_elem_of_nil. }
  apply pure_bind_ok in H as ([] & Ha & H); [|done]. apply IH in H as [-> Hl].
  split; [done|]. intros b [->|Hbl]%elem_of_cons; auto.
Qed.
