(* ===== verification/FileFacts.v ===== *)
(** * What the file operations of the installer do to the tree

    [touches W D]: between two worlds, only files at the locations of the paths [W] are
    written, only files at those of [D] are removed, and everything else that changes is a
    new directory.  [write] followed by [read] gives the text back. *)

From Stdlib Require Import Ascii.
From stdpp Require Import base list strings gmap.
From S2P Require Import Prelude PyText PyResult World FsFacts Transaction Example Frames.

#[local] Opaque walk.

(** The text of a file, as the installer reads it. *)
Definition text_of (w : world) (p : path) (s : text) : Prop := read p w = (Ok s, w).

Lemma text_of_unique w p s t : text_of w p s → text_of w p t → s = t.
Proof. unfold text_of. congruence. Qed.

(** ** The relation *)

Section touches.
Context (W D : path → Prop).

(** The location of one of the paths. *)
Definition at_one (P : path → Prop) (fs : fsys) (q : path) : Prop :=
  ∃ p, P p ∧ loc fs p = Some q.

Definition node_touched (fs fs' : fsys) (q : path) : Prop :=
  nodes fs' !! q = nodes fs !! q ∨
  (∃ f, nodes fs' !! q = Some (File f) ∧ at_one W fs q) ∨
  (nodes fs' !! q = None ∧ at_one D fs q) ∨
  (nodes fs' !! q = Some Dir ∧ (nodes fs !! q = None ∨ at_one D fs q)).

Definition touches (w w' : world) : Prop :=
  links (w_fs w') = links (w_fs w) ∧ ∀ q, node_touched (w_fs w) (w_fs w') q.

Lemma at_one_stable P fs fs' q : links fs' = links fs → at_one P fs' q ↔ at_one P fs q.
Proof.
  intros Hl. unfold at_one. split; intros (p & Hp & Hq); exists p;
    [rewrite <- (loc_stable _ _ Hl)|rewrite (loc_stable _ _ Hl)]; done.
Qed.

#[export] Instance touches_preorder : PreOrder touches.
Proof.
  split.
  - intros w. split; [done|]. intros q. by left.
  - intros w1 w2 w3 [L12 H12] [L23 H23]. split; [congruence|]. intros q.
    assert (∀ P, at_one P (w_fs w2) q → at_one P (w_fs w1) q) as Hat.
    { intros P. by apply at_one_stable. }
    destruct (H23 q) as [H|[(f & Hf & HW)|[[Hn HD]|[Hd [Hn|HD]]]]]; unfold node_touched.
    + rewrite H. apply H12.
    + right. left. exists f. by split; [|apply Hat].
    + do 2 right. left. by split; [|apply Hat].
    + do 3 right. split; [done|].
      destruct (H12 q) as [H|[(f & H & _)|[[_ H]|[H _]]]]; rewrite ?Hn in H; try done.
      * by left.
      * by right.
    + do 3 right. split; [done|]. right. by apply Hat.
Qed.

Lemma touches_same w w' : w_fs w' = w_fs w → touches w w'.
Proof. intros H. unfold touches. rewrite H. split; [done|]. intros q. by left. Qed.

Lemma touches_put w q n :
  (∀ f, n = Some (File f) → at_one W (w_fs w) q) →
  (n = None → at_one D (w_fs w) q) →
  (n = Some Dir → nodes (w_fs w) !! q = None) →
  touches w (set_fs (put q n (w_fs w)) w).
Proof.
  intros Hf Hn Hd. split; [done|]. intros q'. unfold node_touched.
  destruct (decide (q = q')) as [<-|Hne]; [|left; by apply put_other].
  cbn [set_fs w_fs]. rewrite put_same. destruct n as [[f|]|]; eauto 8.
Qed.

Lemma preserves_tick : preserves touches tick.
Proof. intros w r w' H. apply tick_spec in H as (f & _ & -> & _). by apply touches_same. Qed.

Lemma preserves_touches_modify (f : world → world) :
  (∀ w, w_fs (f w) = w_fs w) → preserves touches (modify f).
Proof. intros Hf w r w' [= <- <-]. by apply touches_same. Qed.

Lemma put_node_touches q n w r w' :
  put_node q n w = (r, w') → w' = set_fs (put q n (w_fs w)) w.
Proof. by intros [= <- <-]. Qed.

(** A mutation after the fault counter. *)
Lemma tick_touches (f : bool → M unit) w r w' :
  (tick ≫= f) w = (r, w') →
  (∀ b w1 r1 w2, w_fs w1 = w_fs w → f b w1 = (r1, w2) → touches w1 w2) → touches w w'.
Proof.
  intros H Hf. minv H b w1 E.
  - apply tick_spec in E as (b' & [= ->] & Hw & _).
    assert (w_fs w1 = w_fs w) as Hfs by by rewrite Hw.
    etrans; [by apply touches_same|]. by eapply Hf.
  - apply tick_spec in E as (b' & [=] & _).
Qed.

Lemma preserves_store p f : W p → preserves touches (store p f).
Proof.
  intros HW w r w'. unfold store. mstep. unfold id.
  destruct (loc (w_fs w) p) as [q|] eqn:Eq; [|by intros [= <- <-]].
  assert (∀ g w1 r1 w2, w_fs w1 = w_fs w →
            put_node q (Some (File g)) w1 = (r1, w2) → touches w1 w2) as Hput.
  { intros g w1 r1 w2 Hfs ->%put_node_touches. apply touches_put; [|done|done].
    intros ? _. exists p. by rewrite Hfs. }
  destruct (nodes (w_fs w) !! q) as [[]|], (nodes (w_fs w) !! parent q) as [[]|];
    try (by intros [= <- <-]); intros H; (eapply tick_touches; [exact H|]);
    intros [] w1 r1 w2 Hfs H1; try by eapply Hput.
  all: minv H1 u w3 E; [|injection H1 as <- <-; by eapply Hput].
  all: injection H1 as <- <-; by eapply Hput.
Qed.

Lemma unlink_touches p w r w' :
  D p → is_symlink (w_fs w) p = false → unlink p w = (r, w') → touches w w'.
Proof.
  intros HD Hs. unfold unlink. mstep. unfold id.
  pose proof (loc_not_symlink _ _ Hs) as Hloc. unfold is_symlink in Hs.
  destruct (lloc (w_fs w) p) as [q|]; [|by intros [= <- <-]].
  destruct (links (w_fs w) !! q); [done|].
  destruct (nodes (w_fs w) !! q) as [[]|]; [|by intros [= <- <-]..].
  intros H. eapply tick_touches; [exact H|]. intros [] w1 r1 w2 Hfs H1.
  - by injection H1 as <- <-.
  - apply put_node_touches in H1 as ->. apply touches_put; [done| |done].
    intros _. exists p. by rewrite Hfs.
Qed.

Lemma preserves_os_mkdir p : preserves touches (os_mkdir p).
Proof.
  intros w r w'. unfold os_mkdir. mstep. unfold id.
  destruct (lloc (w_fs w) p) as [q|]; [|by intros [= <- <-]].
  destruct (links (w_fs w) !! q); [by intros [= <- <-]|].
  destruct (nodes (w_fs w) !! q) eqn:En; [by intros [= <- <-]|].
  destruct (nodes (w_fs w) !! parent q) as [[]|]; [by intros [= <- <-]| |by intros [= <- <-]].
  intros H. eapply tick_touches; [exact H|]. intros [] w1 r1 w2 Hfs H1.
  - by injection H1 as <- <-.
  - apply put_node_touches in H1 as ->. apply touches_put; [done|done|].
    intros _. by rewrite Hfs.
Qed.

Lemma preserves_unless_dir p e : preserves touches (unless_dir p e).
Proof. unfold unless_dir. preserves. Qed.

Lemma preserves_mkdir_here p : preserves touches (mkdir_here p).
Proof.
  apply preserves_catch; [apply _|apply preserves_os_mkdir|].
  intros [m|[] q|c]; first [apply preserves_raise; apply _ | apply preserves_unless_dir].
Qed.

Lemma preserves_mkdir_from fuel p : preserves touches (mkdir_from fuel p).
Proof.
  revert p. induction fuel as [|fuel IH]; intros p; cbn [mkdir_from];
    (apply preserves_catch; [apply _|apply preserves_os_mkdir|]);
    intros [m|[] q|c];
    preserves_with ltac:(first [apply IH | apply preserves_mkdir_here
                               | apply preserves_unless_dir]).
Qed.

Lemma preserves_mkdir_parents p : preserves touches (mkdir_parents p).
Proof. apply preserves_mkdir_from. Qed.
End touches.

(** ** Recording leaves the tree alone *)

Definition same_fs (w w' : world) : Prop := w_fs w' = w_fs w.

#[export] Instance same_fs_preorder : PreOrder same_fs.
Proof. split; unfold same_fs; [done|]. intros w1 w2 w3. congruence. Qed.

Lemma same_fs_modify (f : world → world) :
  (∀ w, w_fs (f w) = w_fs w) → preserves same_fs (modify f).
Proof. intros Hf w r w' [= <- <-]. apply Hf. Qed.

Lemma same_fs_tick : preserves same_fs tick.
Proof. intros w r w' H. apply tick_spec in H as (f & _ & -> & _). done. Qed.

Lemma same_fs_add_missing p : preserves same_fs (add_missing p).
Proof.
  unfold add_missing, current_tx. preserves_with ltac:(by apply same_fs_modify).
Qed.

Lemma same_fs_climb fuel p : preserves same_fs (climb_missing fuel p).
Proof.
  revert p. induction fuel as [|fuel IH]; intros p; cbn [climb_missing];
    preserves_with ltac:(first [apply IH | apply same_fs_add_missing]).
Qed.

Lemma same_fs_record_missing p : preserves same_fs (record_missing_directories p).
Proof. unfold record_missing_directories. preserves_with ltac:(apply same_fs_climb). Qed.

Lemma same_fs_record_directory p : preserves same_fs (record_directory p).
Proof. unfold record_directory. preserves_with ltac:(apply same_fs_record_missing). Qed.

Lemma same_fs_record_file p : preserves same_fs (record_file p).
Proof.
  unfold record_file, current_tx, copy_to_backup, add_file, os_error.
  preserves_with ltac:(first [apply same_fs_record_missing | apply same_fs_tick
    | apply preserves_stat_file; apply _ | by apply same_fs_modify
    | apply preserves_raise; apply _]).
Qed.

Lemma same_fs_in_transaction m : preserves same_fs m → preserves same_fs (in_transaction m).
Proof. intros H. unfold in_transaction. preserves_with ltac:(exact H). Qed.

Lemma preserves_weaken (R R' : world → world → Prop) {A} (m : M A) :
  (∀ w w', R w w' → R' w w') → preserves R m → preserves R' m.
Proof. intros H Hm w r w' E. by eapply H, Hm. Qed.

Section operations.
Context (W D : path → Prop).

Lemma touches_of_same_fs {A} (m : M A) : preserves same_fs m → preserves (touches W D) m.
Proof. apply preserves_weaken. intros w w'. apply touches_same. Qed.

Lemma touches_print line : preserves (touches W D) (print line).
Proof. apply touches_of_same_fs. by apply same_fs_modify. Qed.

Lemma touches_write_text p s : W p → preserves (touches W D) (write_text p s).
Proof.
  intros HW. unfold write_text.
  do 2 (apply preserves_bind; [apply _|apply preserves_gets; apply _|intros ?]).
  apply preserves_bind; [apply _|by apply preserves_touches_modify|intros _].
  by apply preserves_store.
Qed.

Lemma touches_write p s : W p → preserves (touches W D) (write p s).
Proof.
  intros HW. unfold write.
  apply preserves_bind; [apply _|apply preserves_gets; apply _|intros fs].
  apply preserves_bind; [apply _|preserves|intros old].
  destruct (match old with Some t => _ | None => _ end); [apply preserves_ret; apply _|].
  apply preserves_bind; [apply _|apply preserves_gets; apply _|intros []];
    [apply preserves_raise; apply _|].
  apply preserves_bind; [apply _| |intros _].
  { apply touches_of_same_fs, same_fs_in_transaction, same_fs_record_file. }
  apply preserves_bind; [apply _|apply preserves_mkdir_parents|intros _].
  apply preserves_bind; [apply _|by apply touches_write_text|intros _]. apply touches_print.
Qed.

Lemma touches_remove_file p description : D p → preserves (touches W D) (remove_file p description).
Proof.
  intros HD w r w'. unfold remove_file. rewrite ask_bind. unfold id.
  destruct (negb (exists_ _ p)); [by intros [= <- <-]|].
  destruct (is_symlink (w_fs w) p) eqn:Es; [by intros [= <- <-]|].
  destruct (negb (is_file _ p)); [by intros [= <- <-]|]. cbn [orb].
  intros H. assert (preserves same_fs (in_transaction (record_file p))) as Hrec
    by apply same_fs_in_transaction, same_fs_record_file.
  minv H u w1 E; pose proof (Hrec _ _ _ E) as Hfs.
  2: { injection H as <- <-. by apply touches_same. }
  etrans; [by apply touches_same|].
  minv H v w2 E2; (etrans; [eapply unlink_touches; [exact HD| |exact E2]; by rewrite Hfs|]).
  - by injection H as <- <-; apply touches_same.
  - by injection H as <- <-.
Qed.
End operations.

#[export] Hint Resolve touches_print : frames.

(** ** Reading *)

Lemma stat_file_cases p w :
  (∃ f, stat (w_fs w) p = Some (File f) ∧ stat_file p w = (Ok f, w)) ∨
  ((∀ f, stat (w_fs w) p ≠ Some (File f)) ∧ ∃ e, stat_file p w = (Err e, w)).
Proof.
  unfold stat_file, stat. rewrite ask_bind. unfold id.
  destruct (loc (w_fs w) p) as [q|]; [|right; split; [done|by eexists]].
  destruct (nodes (w_fs w) !! q) as [[f|]|]; [left; eauto|right; split; [done|by eexists]..].
Qed.

Lemma text_of_stat w p s :
  text_of w p s ↔
  ∃ f, stat (w_fs w) p = Some (File f) ∧ s = universal_newlines (f_data f).
Proof.
  unfold text_of, read, catch, read_text, read_bytes. rewrite !bind_eq.
  destruct (stat_file_cases p w) as [(f & Hs & ->)|[Hs [e ->]]].
  - split; [intros [= <-]; eauto|]. rewrite Hs. by intros (g & [= <-] & ->).
  - split; [|intros (f & Hf & _); by destruct (Hs f)].
    destruct e as [m|en q|c]; [done|destruct en; done|done].
Qed.

Lemma universal_newlines_no_cr s : cr ∉ universal_newlines s.
Proof.
  assert (∀ n s, length s ≤ n → cr ∉ universal_newlines s) as H; [|by eapply H].
  induction n as [|n IH]; intros [|c t] Hn; simpl in Hn; try (by intros ?%not_elem_of_nil);
    [lia|].
  cbn [universal_newlines]. destruct (char_eqb c cr) eqn:E.
  - destruct t as [|d t].
    + intros [?|?%not_elem_of_nil]%elem_of_cons; done.
    + simpl in Hn. destruct (char_eqb d nl);
        (intros [?|Hin]%elem_of_cons; [done|]); revert Hin; apply IH; simpl; lia.
  - bool_hyps. intros [?|Hin]%elem_of_cons; [done|]. revert Hin. apply IH. lia.
Qed.

Lemma universal_newlines_id s : cr ∉ s → universal_newlines s = s.
Proof.
  induction s as [|c s IH]; intros Hcr; [done|]. cbn [universal_newlines].
  rewrite not_elem_of_cons in Hcr. destruct Hcr as [Hc Hs].
  rewrite (proj2 (char_eqb_neq c cr)) by done. by rewrite IH.
Qed.

Lemma text_of_no_cr w p s : text_of w p s → cr ∉ s.
Proof. intros (f & _ & ->)%text_of_stat. apply universal_newlines_no_cr. Qed.

Lemma text_of_same_fs w w' p s : w_fs w' = w_fs w → text_of w p s → text_of w' p s.
Proof. intros H. rewrite !text_of_stat. by rewrite H. Qed.

(** A file that is not touched keeps its text. *)
Lemma touches_text W D w w' p s :
  touches W D w w' → text_of w p s →
  (∀ p' q, W p' ∨ D p' → loc (w_fs w) p' = Some q → loc (w_fs w) p ≠ Some q) →
  text_of w' p s.
Proof.
  intros [Hl Hn]. rewrite !text_of_stat. intros (f & Hf & ->) Hne. exists f. split; [|done].
  unfold stat in *. rewrite (loc_stable _ _ Hl).
  destruct (loc (w_fs w) p) as [q|] eqn:Eq; [|done].
  destruct (Hn q) as [->|[(g & _ & p' & Hp & Hq)|[(_ & p' & Hp & Hq)|(_ & [H|(p' & Hp & Hq)])]]];
    [done| | |congruence|]; exfalso; by eapply (Hne p' q); auto.
Qed.

Lemma no_cr_check s : existsb (char_eqb cr) s = false → cr ∉ s.
Proof.
  intros H Hin. assert (existsb (char_eqb cr) s = true); [|congruence].
  apply existsb_exists. exists cr. split; [by apply list_elem_of_In|done].
Qed.

(** ** Writing *)

Lemma store_text p f w w' :
  store p f w = (Ok tt, w') → stat (w_fs w') p = Some (File f).
Proof.
  unfold store. mstep. unfold id. destruct (loc (w_fs w) p) as [q|] eqn:Eq; [|done].
  assert (∀ w1, w_fs w1 = w_fs w →
            stat (w_fs (set_fs (put q (Some (File f)) (w_fs w1)) w1)) p = Some (File f)) as Hput.
  { intros w1 Hfs. cbn [set_fs w_fs]. unfold stat. rewrite Hfs, (loc_stable (w_fs w)), Eq;
      [apply put_same|done]. }
  destruct (nodes (w_fs w) !! q) as [[]|]; destruct (nodes (w_fs w) !! parent q) as [[]|];
    try done; intros H; minv H b w1 E; try done;
    apply tick_spec in E as (b' & [= ->] & Hw & _);
    destruct b'; [done|injection H as <-; apply Hput; rewrite Hw; reflexivity
                 |done|injection H as <-; apply Hput; rewrite Hw; reflexivity].
Qed.

Lemma write_text_read p s w w' :
  write_text p s w = (Ok tt, w') → cr ∉ s → text_of w' p s.
Proof.
  unfold write_text. rewrite !gets_bind. unfold ask. rewrite gets_bind, modify_bind.
  intros H Hcr. apply store_text in H. apply text_of_stat. eexists. split; [exact H|].
  symmetry. by apply universal_newlines_id.
Qed.

Lemma read_text_of p w t w1 : read_text p w = (Ok t, w1) → w1 = w ∧ text_of w p t.
Proof.
  intros H. assert (w = w1) as <- by (by eapply (preserves_read_text eq)).
  split; [done|]. unfold text_of, read, catch. by rewrite H.
Qed.

(** The branches of [write] that succeed: the text is there, or it is stored. *)
Lemma write_ok p s w w' :
  write p s w = (Ok tt, w') →
  (w' = w ∧ text_of w p s) ∨
  (w_validation_only w = false ∧ ∃ w1 w2, write_text p s w1 = (Ok tt, w2) ∧ w_fs w' = w_fs w2).
Proof.
  unfold write. rewrite ask_bind. unfold id. intros H. minv H old w1 E; [|done].
  assert (w1 = w ∧ ∀ t, old = Some t → text_of w p t) as [-> Hold].
  { destruct (exists_ (w_fs w) p); [|by injection E as <- <-].
    minv E t w2 E2; [|done]. injection E as <- <-. apply read_text_of in E2 as [-> Ht].
    split; [done|]. by intros ? [= <-]. }
  destruct (match old with Some t => text_eqb t s | None => false end) eqn:Eo.
  - injection H as <-. left. split; [done|]. destruct old as [t|]; [|done]. bool_hyps.
    subst. by apply Hold.
  - rewrite gets_bind in H. destruct (w_validation_only w); [done|]. right. split; [done|].
    minv H u w2 E2; [|done]. minv H u1 w3 E3; [|done]. minv H u2 w4 E4; [|done].
    injection H as <-. destruct u2. by exists w3, w4.
Qed.

Lemma write_leaves p s w w' : write p s w = (Ok tt, w') → cr ∉ s → text_of w' p s.
Proof.
  intros H Hcr. apply write_ok in H as [[-> Ht]|(_ & w1 & w2 & Hw & Hfs)]; [done|].
  eapply text_of_same_fs; [done|]. by eapply write_text_read.
Qed.

(** C30: writing then reading.  After a [write] that succeeds the file reads back as the text
    that was written, provided the text has no carriage return (which reading never
    delivers); the write changed that file only, and directories to hold it. *)
Theorem write_read p s w w' :
  write p s w = (Ok tt, w') → cr ∉ s →
  text_of w' p s ∧ touches (eq p) (λ _, False) w w'.
Proof.
  intros H Hcr. split; [by eapply write_leaves|by eapply (touches_write (eq p)) in H].
Qed.

Lemma write_read_witness :
  let w := sample_world (sample_tree (py "official") (py "6.6")) in
  let p := sample_ksu ++ ["new"; "file.c"] in
  (write p (py "a\nb") w).1 = Ok tt ∧ text_of (write p (py "a\nb") w).2 p (py "a\nb").
Proof.
  intros w p. assert ((write p (py "a\nb") w).1 = Ok tt) as Hr by (vm_compute; reflexivity).
  split; [exact Hr|]. apply (write_read p (py "a\nb") w).
  - rewrite <- Hr. apply surjective_pairing.
  - apply no_cr_check. vm_compute. reflexivity.
Defined.
