(* ===== verification/HookFacts.v ===== *)
(** * What a patch leaves in a text

    Each patch either finds its hook in the code it inspects or puts it into the text. *)

From Stdlib Require Import Ascii.
From stdpp Require Import base list strings.
From S2P Require Import Prelude PyText PyRegex PyResult CLexer CPreproc CScope World.
From S2P Require Import Transaction.
From S2P Require Import Kbuild KsuPatches KernelHooks IncludeFacts Example Frames FileFacts.

Lemma contains_self p : contains p p = true.
Proof. apply contains_spec. exists [], []. by rewrite app_nil_r. Qed.

(** ** Outcomes *)

(** The code of a part of the text, in which no comment but the marker counts, has the hook. *)
Definition in_code (marker hook s : text) : Prop :=
  ∃ i j code, mask_c_injection_context (slice s i j) marker = Ok code ∧
              contains hook code = true.

Definition hooked (marker hook s : text) : Prop :=
  contains hook s = true ∨ in_code marker hook s.

(** An edit that puts [new] into the text. *)
Definition inserts (new s s' : text) : Prop :=
  contains new s' = true ∧ (cr ∉ s → cr ∉ new → cr ∉ s').

(** The hook is left in the text, whatever the patch does. *)
Definition leaves_at (marker hook s : text) (o : option text) : Prop :=
  match o with
  | Some s' => contains hook s' = true ∧ (cr ∉ s')
  | None => in_code marker hook s
  end.

Definition leaves (marker hook : text) (f : patch) : Prop :=
  ∀ path s o, f path s = Ok o → cr ∉ s → leaves_at marker hook s o.

(** ** Installed hooks *)

Lemma scope_slice path s anchor scope :
  c_scope_containing path s anchor = Ok scope → ∃ i j, scope = slice s i j.
Proof.
  unfold c_scope_containing. destruct (c_scope_bounds path s anchor) as [[i j]|]; [|done].
  intros [= <-]. eauto.
Qed.

Lemma exact_ok path s marker contexts scope forbidden g ls lg cg context :
  exact_injection_installed path s marker contexts scope forbidden g ls lg cg = Ok true →
  (∀ sc, scope = Some sc → ∃ i j, sc = slice s i j) → In context contexts →
  in_code marker context s.
Proof.
  unfold exact_injection_installed. intros H Hsc Hin. apply bind_Ok in H as (context_global & _ & H).
  destruct (negb _); [by destruct (contains marker s)|].
  apply bind_Ok in H as (code & Hcode & H). ok_inv.
  destruct (_ && _) eqn:Hv in H; [|done]. bool_hyps.
  assert (count context code = 1) as Hc.
  { match goal with Hf : forallb _ contexts = true |- _ =>
      rewrite forallb_forall in Hf; specialize (Hf _ Hin); by bool_hyps end. }
  assert (contains context code = true) as Hco by (apply count_contains; lia).
  destruct scope as [sc|].
  - destruct (Hsc sc eq_refl) as (i & j & ->). by exists i, j, code.
  - exists 0, (length s), code. split; [|done].
    unfold slice. rewrite drop_0, Nat.sub_0_r, firstn_all. exact Hcode.
Qed.

Lemma in_code_part marker hook hook' s :
  contains hook hook' = true → in_code marker hook' s → in_code marker hook s.
Proof.
  intros H (i & j & code & Hc & Hh). exists i, j, code. split; [done|].
  by eapply contains_trans.
Qed.

Lemma unless_installed_ok installed edit o :
  unless_installed installed edit = Ok o →
  (installed = Ok true ∧ o = None) ∨ ∃ s', edit = Ok s' ∧ o = Some s'.
Proof.
  unfold unless_installed. intros H. apply bind_Ok in H as (b & -> & H). destruct b.
  - injection H as <-. by left.
  - destruct edit as [s'|]; [|done]. injection H as <-. eauto.
Qed.

(** ** Edits *)

Lemma cut_no_cr i s : cr ∉ s → (cr ∉ take i s) ∧ cr ∉ drop i s.
Proof. rewrite <- (take_drop i s) at 1. rewrite elem_of_app. tauto. Qed.

Lemma inserts_splice s i j new : inserts new s (splice s i j new).
Proof.
  split.
  - apply contains_spec. by exists (take i s), (drop j s).
  - intros Hs Hn. unfold splice. rewrite !elem_of_app.
    destruct (cut_no_cr i s Hs) as [? _], (cut_no_cr j s Hs) as [_ ?]. tauto.
Qed.

Lemma inserts_scope path s anchor old new error s' :
  replace_live_in_scope path s anchor old new error = Ok s' → inserts new s s'.
Proof.
  unfold replace_live_in_scope. intros H. apply bind_Ok in H as ([i j] & _ & H).
  apply bind_Ok in H as (live & _ & H). destruct (find old live) as [k|]; [|done].
  destruct (count old live =? 1); [|done]. injection H as <-. apply inserts_splice.
Qed.

Lemma inserts_global path s old new error s' :
  replace_live_global path s old new error = Ok s' → inserts new s s'.
Proof.
  unfold replace_live_global. intros H. apply bind_Ok in H as (live & _ & H).
  destruct (find old live) as [k|]; [|done].
  destruct (count old live =? 1); [|done]. injection H as <-. apply inserts_splice.
Qed.

Lemma inserts_regex_global path s r new error s' :
  replace_live_regex_global path s r new error = Ok s' → inserts new s s'.
Proof.
  unfold replace_live_regex_global. intros H. apply bind_Ok in H as (live & _ & H).
  destruct (finditer r live) as [|m [|? ?]]; [done| |done]. injection H as <-.
  apply inserts_splice.
Qed.

Lemma inserts_regex_scope path s anchor r new error s' :
  replace_live_regex_in_scope path s anchor r new error = Ok s' → inserts new s s'.
Proof.
  unfold replace_live_regex_in_scope. intros H. apply bind_Ok in H as ([i j] & _ & H).
  apply bind_Ok in H as (live & _ & H).
  destruct (finditer r live) as [|m [|? ?]]; [done| |done]. injection H as <-.
  apply inserts_splice.
Qed.

Lemma inserts_scope_start path s anchor new error s' :
  insert_live_scope_start path s anchor new error = Ok s' → inserts new s s'.
Proof.
  unfold insert_live_scope_start. intros H. apply bind_Ok in H as ([i j] & _ & H).
  destruct (s !! i) as [c|]; [|done]. destruct (char_eqb c "{"); [|done].
  injection H as <-. apply inserts_splice.
Qed.

(** The include line comes with a newline only, where the source has no carriage return. *)
Lemma add_include_no_cr s include path s' :
  add_include s include path = Ok s' → cr ∉ s → cr ∉ include → cr ∉ s'.
Proof.
  unfold add_include. intros H Hs Hi.
  set (lines := List.filter _ _) in H.
  assert (∀ l, l ∈ lines → cr ∉ l) as Hl.
  { intros l Hin%list_elem_of_In%filter_In Hcr. apply Hs.
    rewrite <- (concat_splitlines_keep s). apply list_elem_of_In, in_concat.
    exists l. split; [apply Hin|by apply list_elem_of_In]. }
  destruct (split_first is_include lines) as [[[before first] after]|] eqn:Es; [|done].
  destruct (span is_include after) as [run rest] eqn:Ep. injection H as <-.
  apply split_first_ok in Es as (Heq & _). apply span_ok in Ep as (-> & _).
  assert (∀ ls, (∀ l, l ∈ ls → l ∈ lines) → cr ∉ concat ls) as Hc.
  { intros ls Hsub (l & Hin & Hcr)%list_elem_of_In%in_concat.
    apply (Hl l); [apply Hsub|]; by apply list_elem_of_In. }
  assert (ends_with [cr; nl] first = false) as ->.
  { apply not_true_iff_false. intros [r Hr]%starts_with_spec.
    apply (Hl first); [rewrite Heq, elem_of_app; right; by left|].
    apply list_elem_of_In, in_rev. rewrite Hr. simpl. auto. }
  rewrite !elem_of_app. intros [H|[[H|H]|H]].
  - revert H. apply Hc. rewrite Heq. intros l.
    rewrite !elem_of_app, !elem_of_cons, elem_of_app. tauto.
  - done.
  - by apply list_elem_of_singleton in H.
  - revert H. apply Hc. rewrite Heq. intros l. rewrite !elem_of_app, elem_of_cons, elem_of_app.
    tauto.
Qed.

(** ** The patches *)

Create HintDb hooks.
#[export] Hint Resolve inserts_splice inserts_scope inserts_global inserts_regex_global
  inserts_regex_scope inserts_scope_start : hooks.

Lemma edit_leaves hook s s' new :
  inserts new s s' → contains hook new = true → existsb (char_eqb cr) new = false → cr ∉ s →
  contains hook s' = true ∧ (cr ∉ s').
Proof.
  intros [Hi Hc] Hh Hn Hs. split; [by eapply contains_trans|]. by apply Hc, no_cr_check.
Qed.

Lemma no_cr_includes : (cr ∉ sandbox_include) ∧ cr ∉ common_include.
Proof. split; apply no_cr_check; vm_compute; reflexivity. Qed.

(** An edit after other changes to the text. *)
Definition ends_inserting (new s s' : text) : Prop :=
  cr ∉ s → ∃ s1, inserts new s1 s' ∧ cr ∉ s1.

Lemma inserting_at_once new s s' : inserts new s s' → ends_inserting new s s'.
Proof. intros H Hs. eauto. Qed.

Lemma inserting_after_include new (edit : text → result text) path s s' :
  (∀ s1, edit s1 = Ok s' → inserts new s1 s') →
  (s1 ← add_include s sandbox_include path; edit s1) = Ok s' → ends_inserting new s s'.
Proof.
  intros He H Hs. apply bind_Ok in H as (s1 & Ha & H). exists s1. split; [by apply He|].
  eapply add_include_no_cr; [exact Ha|exact Hs|exact (proj1 no_cr_includes)].
Qed.

Lemma inserting_after_edit new first (edit1 : result text) (edit2 : text → result text) s s' :
  (∀ s1, edit1 = Ok s1 → inserts first s s1) → existsb (char_eqb cr) first = false →
  (∀ s1, edit2 s1 = Ok s' → inserts new s1 s') →
  (s1 ← edit1; edit2 s1) = Ok s' → ends_inserting new s s'.
Proof.
  intros H1 Hf H2 H Hs. apply bind_Ok in H as (s1 & E & H). exists s1. split; [by apply H2|].
  apply H1 in E as [_ E]. by apply E, no_cr_check.
Qed.

(** The common end of a patch: the check, then an edit. *)
Lemma leaves_check marker hook context new installed edit s o :
  unless_installed installed edit = Ok o → cr ∉ s →
  (installed = Ok true → in_code marker context s) →
  (∀ s', edit = Ok s' → ends_inserting new s s') →
  contains hook context = true → contains hook new = true → existsb (char_eqb cr) new = false →
  leaves_at marker hook s o.
Proof.
  intros H Hs Hcheck Hedit Hc Hn Hcr.
  apply unless_installed_ok in H as [[Hi ->]|(s' & He & ->)].
  - eapply in_code_part; [exact Hc|]. by apply Hcheck.
  - destruct (Hedit _ He Hs) as (s1 & Hi & Hs1). by eapply edit_leaves.
Qed.

(** Splits a patch at its checks; [pick] chooses the context that has the hook, [how] shows
    the edit. *)
Ltac leaves_end H Hs pick how :=
  eapply leaves_check;
  [ exact H | exact Hs
  | let E := fresh in intros E; eapply exact_ok;
      [exact E|intros ? [= <-]; eapply scope_slice; eassumption|pick]
  | let E := fresh in intros ? E; how E
  | vm_compute; reflexivity | vm_compute; reflexivity | vm_compute; reflexivity ].

Ltac leaves_hook f pick how :=
  let path := fresh "path" in let s := fresh "s" in let o := fresh "o" in
  let H := fresh "H" in let Hs := fresh "Hs" in let scope := fresh "scope" in
  let E := fresh "E" in
  intros path s o H Hs; unfold f in H; apply bind_Ok in H as (scope & E & H); cbn beta in H;
  leaves_end H Hs pick how.

Ltac first_context := left; reflexivity.
Ltac second_context := right; left; reflexivity.
Ltac by_include lemma E :=
  eapply inserting_after_include; [|exact E]; let H := fresh in intros ? H; eapply lemma; exact H.
Ltac by_edit lemma E := apply inserting_at_once; eapply lemma; exact E.
Ltac by_two_edits lemma1 lemma2 E :=
  eapply inserting_after_edit; [| | |exact E];
  [ let H := fresh in intros ? H; eapply lemma1; exact H
  | vm_compute; reflexivity
  | let H := fresh in intros ? H; eapply lemma2; exact H ].

Lemma leaves_escape : leaves (marked (py "escape")) escape_hook escape_patch.
Proof.
  leaves_hook escape_patch first_context ltac:(fun E => by_include inserts_scope_start E).
Qed.

Lemma leaves_dispatch :
  leaves (marked (py "deny sandbox supercalls")) dispatch_body_hook dispatch_patch.
Proof.
  leaves_hook dispatch_patch first_context ltac:(fun E => by_include inserts_scope_start E).
Qed.

Lemma leaves_lock_order :
  leaves (marked (py "policy snapshot under lock")) lock_assignment lock_order_patch.
Proof.
  leaves_hook lock_order_patch second_context
    ltac:(fun E => by_two_edits inserts_scope inserts_scope E).
Qed.

Lemma leaves_reapply : leaves (marked (py "policy reapply")) reapply_hook reapply_patch.
Proof. leaves_hook reapply_patch first_context ltac:(fun E => by_include inserts_scope E). Qed.

Lemma leaves_sucompat :
  leaves (marked (py "sucompat fail closed")) sucompat_replacement sucompat_patch.
Proof. leaves_hook sucompat_patch first_context ltac:(fun E => by_edit inserts_scope E). Qed.

Lemma leaves_manual : leaves (marked (py "manual su fail closed")) manual_hook manual_patch.
Proof. leaves_hook manual_patch first_context ltac:(fun E => by_edit inserts_scope E). Qed.

Lemma leaves_umount_validate :
  leaves (marked (py "umount validate")) umount_hook umount_validate_patch.
Proof.
  leaves_hook umount_validate_patch first_context ltac:(fun E => by_edit inserts_scope E).
Qed.

Lemma leaves_ptrace : leaves (marked (py "ptrace")) dumpable_hook ptrace_patch.
Proof.
  leaves_hook ptrace_patch second_context
    ltac:(fun E => by_two_edits inserts_scope inserts_scope E).
Qed.

Lemma leaves_lsm_count : leaves (marked (py "lsm count")) lsm_list_injection lsm_count_patch.
Proof.
  intros path s o H Hs. unfold lsm_count_patch in H. eapply leaves_check;
  [ exact H | exact Hs
  | intros E; eapply exact_ok; [exact E|done|second_context]
  | intros s' E; by_two_edits inserts_regex_global inserts_global E
  | vm_compute; reflexivity | vm_compute; reflexivity | vm_compute; reflexivity ].
Qed.

(** The hook follows an anchor as the scope spells it. *)
Lemma leaves_seccomp : leaves seccomp_marker seccomp_hook seccomp_patch.
Proof.
  intros path s o H Hs. unfold seccomp_patch in H.
  apply bind_Ok in H as (incomplete & _ & H). destruct incomplete; [done|].
  apply bind_Ok in H as (scope & Hscope & H). apply bind_Ok in H as (live & _ & H).
  destruct (finditer seccomp_pattern live) as [|m [|? ?]]; [done| |done].
  apply unless_installed_ok in H as [[Hi ->]|(s' & He & ->)].
  - eapply (in_code_part _ _ (_ ++ seccomp_hook)).
    + apply contains_app_r, contains_self.
    + eapply exact_ok; [exact Hi|intros ? [= <-]; by eapply scope_slice|left; reflexivity].
  - destruct (find scope s) as [start|]; [|done]. injection He as <-.
    eapply edit_leaves; [apply inserts_splice| |vm_compute; reflexivity|exact Hs].
    apply contains_self.
Qed.

Lemma leaves_signal : leaves signal_marker signal_replacement signal_patch.
Proof.
  intros path s o H Hs. unfold signal_patch in H. apply bind_Ok in H as (live & _ & H).
  destruct (negb _); [done|]. apply bind_Ok in H as (scope & Hscope & H).
  apply bind_Ok in H as (live_scope & _ & H). apply bind_Ok in H as (installed & Hi & H).
  destruct installed.
  - destruct (finditer signal_pattern live_scope); [|done]. injection H as <-.
    eapply exact_ok; [exact Hi|intros ? [= <-]; by eapply scope_slice|left; reflexivity].
  - destruct (replace_live_regex_in_scope _ _ _ _ _ _) as [s'|] eqn:E; [|done].
    injection H as <-. apply inserts_regex_scope in E.
    eapply edit_leaves; [exact E|apply contains_self|vm_compute; reflexivity|exact Hs].
Qed.

(** ** Files *)

(** After the patch the file has the hook. *)
Definition has_hook (w : world) (p : path) (marker hook : text) : Prop :=
  ∃ s, text_of w p s ∧ hooked marker hook s.

Lemma inject_hooks marker hook f p s w w' :
  leaves marker hook f → text_of w p s → inject p f s w = (Ok tt, w') →
  has_hook w' p marker hook.
Proof.
  intros Hf Hs H. unfold inject in H. rewrite lift_bind in H.
  destruct (f (path_text p) s) as [o|] eqn:Eo; [|done].
  pose proof (Hf _ _ _ Eo (text_of_no_cr _ _ _ Hs)) as Hl. destruct o as [s'|].
  - destruct Hl as [Hc Hcr]. exists s'. split; [by eapply write_leaves|by left].
  - injection H as <-. exists s. split; [done|by right].
Qed.

Lemma patch_file_hooks marker hook f p w w' :
  leaves marker hook f → patch_file p f w = (Ok tt, w') → has_hook w' p marker hook.
Proof.
  intros Hf H. apply read_bind_ok in H as (s & Hs & H).
  by eapply inject_hooks.
Qed.

Lemma with_include_text p w s w' : with_include p w = (Ok s, w') → text_of w' p s.
Proof.
  intros H. apply read_bind_ok in H as (s0 & Hs & H). rewrite lift_bind in H.
  destruct (add_include s0 common_include (path_text p)) as [s1|] eqn:Ea; [|done].
  rewrite bind_eq in H. destruct (text_eqb s1 s0) eqn:Eq.
  - apply text_eqb_eq in Eq as ->. injection H as <- <-. exact Hs.
  - cbn [negb when] in H. destruct (write p s1 w) as [[[]|] w1] eqn:Ew; [|done].
    injection H as <- <-. apply write_leaves in Ew; [done|].
    eapply add_include_no_cr; [exact Ea|by eapply text_of_no_cr|exact (proj2 no_cr_includes)].
Qed.

Lemma include_inject_hooks marker hook f p w w' :
  leaves marker hook f → (s ← with_include p; inject p f s) w = (Ok tt, w') →
  has_hook w' p marker hook.
Proof.
  intros Hf H. minv H s w1 E; [|done]. eapply inject_hooks; [exact Hf| |exact H].
  by eapply with_include_text.
Qed.
