(* ===== verification/Stages.v ===== *)
(** * The stages of a patched source

    The text that an installation leaves in a source is its old text, passed through the
    patches of that source in their order.  Each stage has the hook that its patch leaves in
    the text it hands on. *)

From Stdlib Require Import Ascii.
From stdpp Require Import base list strings.
From S2P Require Import Prelude PyText PyRegex PyResult CLexer CPreproc CScope World.
From S2P Require Import Transaction Kbuild KsuPatches KernelHooks Example Frames FileFacts HookFacts.

(** ** Stages *)

(** A patch, and what it promises of the text it is given and the text it hands on. *)
Record stage := Stage { st_patch : patch; st_promise : text → text → Prop }.

(** A hook is in the text handed on, whole, or in the code in which no comment but the one
    of its marker counts. *)
Definition leaving (marker hook : text) : text → text → Prop := λ _ s', hooked marker hook s'.

(** The include line of the kernel sources, as a patch. *)
Definition include_patch : patch := λ path s, Some <$> add_include s common_include path.

(** The second text is the first one after the stages: each patch succeeds on the text it is
    given, and the text it hands on, a new one or the same, is as promised. *)
Inductive staged (path : text) : list stage → text → text → Prop :=
  | staged_end s : staged path [] s s
  | staged_step f promise stages s o s' :
      f path s = Ok o → promise s (default s o) → staged path stages (default s o) s' →
      staged path (Stage f promise :: stages) s s'.

Lemma staged_app path stages1 stages2 s s1 s2 :
  staged path stages1 s s1 → staged path stages2 s1 s2 → staged path (stages1 ++ stages2) s s2.
Proof. induction 1; intros H2; [exact H2|]. econstructor; eauto. Qed.

(** ** The stages of each source *)

(** A stage does what it says on every text that reading can deliver. *)
Definition sound_stage (st : stage) : Prop :=
  ∀ path s o, st_patch st path s = Ok o → cr ∉ s →
              st_promise st s (default s o) ∧ (cr ∉ default s o).

Lemma sound_leaves marker hook f : leaves marker hook f → sound_stage (Stage f (leaving marker hook)).
Proof.
  intros Hf path s o H Hs. specialize (Hf path s o H Hs). destruct o as [s'|]; simpl in *.
  - destruct Hf as [Hc Hcr]. split; [by left|done].
  - split; [by right|done].
Qed.

Lemma leaves_mount_privilege :
  leaves (marked (py "legacy mount privilege")) (privilege_hook (py "legacy mount privilege"))
    mount_privilege_patch.
Proof.
  intros path s o H Hs. unfold mount_privilege_patch in H. apply bind_Ok in H as (live & _ & H).
  destruct (negb _); [done|]. apply bind_Ok in H as (scope & E & H). cbn beta in H.
  leaves_end H Hs first_context ltac:(fun E => by_edit inserts_scope E).
Qed.

Lemma leaves_umount_privilege :
  leaves (marked (py "legacy umount privilege")) (privilege_hook (py "legacy umount privilege"))
    umount_privilege_patch.
Proof.
  leaves_hook umount_privilege_patch first_context ltac:(fun E => by_edit inserts_scope E).
Qed.

(** The part of the hook after the anchor, which is spelled as in the source. *)
Definition bind_check : text :=
  py "\n\n\t/* " ++ bind_marker ++
  py " */\n\terr = abk_ksu_sandbox_bind_validate(&old_path, path, recurse);\n\tif (err)\n\t\tgoto out;".

Lemma bind_hook_check anchor : bind_hook anchor = anchor ++ bind_check.
Proof. reflexivity. Qed.

Lemma slice_no_cr s i j : cr ∉ s → cr ∉ slice s i j.
Proof.
  intros Hs. unfold slice. destruct (cut_no_cr i s Hs) as [_ H].
  by destruct (cut_no_cr (j - i) _ H).
Qed.

Lemma splice_no_cr s i j new : cr ∉ s → cr ∉ new → cr ∉ splice s i j new.
Proof. intros Hs Hn. by apply (inserts_splice s i j new). Qed.

Lemma leaves_bind : leaves bind_marker bind_check bind_patch.
Proof.
  intros path s o H Hs. unfold bind_patch in H. apply bind_Ok in H as (scope & Hscope & H).
  apply bind_Ok in H as (live & _ & H).
  destruct (finditer bind_pattern live) as [|m [|? ?]]; [done| |done]. cbv zeta in H.
  rewrite bind_hook_check in H.
  apply unless_installed_ok in H as [[Hi ->]|(s' & He & ->)].
  - eapply (in_code_part _ _ (_ ++ bind_check)).
    + apply contains_app_r, contains_self.
    + eapply exact_ok; [exact Hi|intros ? [= <-]; by eapply scope_slice|left; reflexivity].
  - destruct (find scope s) as [start|]; [|done]. injection He as <-. split.
    + eapply contains_trans; [|apply inserts_splice]. apply contains_app_r, contains_self.
    + apply splice_no_cr; [done|]. rewrite elem_of_app. intros [Hin|Hin].
      * apply scope_slice in Hscope as (i & j & ->).
        revert Hin. by apply slice_no_cr, slice_no_cr.
      * revert Hin. apply no_cr_check. vm_compute. reflexivity.
Qed.

Lemma leaves_mount_result : leaves mount_result_marker new_mount_hook mount_result_patch.
Proof.
  intros path s o H Hs. unfold mount_result_patch in H. apply bind_Ok in H as (scope & Hscope & H).
  apply bind_Ok in H as (installed & Hi & H). apply bind_Ok in H as (live & _ & H).
  destruct installed.
  - destruct (finditer new_mount_pattern live); [|done]. injection H as <-.
    eapply exact_ok; [exact Hi|intros ? [= <-]; by eapply scope_slice|right; right; left; reflexivity].
  - apply bind_Ok in H as (s1 & H1 & H). apply bind_Ok in H as (s2 & H2 & H).
    apply bind_Ok in H as (s3 & H3 & H). injection H as <-.
    apply inserts_scope in H1 as [_ H1]. apply inserts_scope in H2 as [_ H2].
    apply inserts_regex_scope in H3.
    eapply edit_leaves; [exact H3|apply contains_self|vm_compute; reflexivity|].
    apply H2; [apply H1; [done|]|]; apply no_cr_check; vm_compute; reflexivity.
Qed.

(** The include line. *)
Definition including (line : text) : text → text → Prop := λ _ s', contains line s' = true.

Lemma add_include_contains s include path s' :
  add_include s include path = Ok s' → contains include s' = true.
Proof.
  unfold add_include. destruct (split_first is_include _) as [[[before first] after]|]; [|done].
  destruct (span is_include after) as [run rest]. intros [= <-].
  apply contains_app_r, contains_app_l, contains_app_l, contains_self.
Qed.

Definition include_stage : stage := Stage include_patch (including common_include).

Lemma sound_include : sound_stage include_stage.
Proof.
  unfold include_stage. intros path s o H Hs. unfold st_patch, include_patch in H.
  destruct (add_include s common_include path) as [s'|] eqn:E; [|done]. injection H as <-.
  split; [|eapply add_include_no_cr; [exact E|done|exact (proj2 no_cr_includes)]].
  by eapply add_include_contains.
Qed.

(** The upgrade of an earlier bind check, where there is one. *)
Definition upgrading : text → text → Prop := λ s s',
  contains bind_marker s && contains old_bind_validation s = true →
  contains new_bind_validation s' = true.

Lemma sound_legacy_bind : sound_stage (Stage legacy_bind_patch upgrading).
Proof.
  intros path s o H Hs. unfold st_patch, legacy_bind_patch in H. unfold upgrading, st_promise.
  destruct (_ && _); [|by injection H as <-].
  destruct (replace_live_in_scope _ _ _ _ _ _) as [s'|] eqn:E; [|done]. injection H as <-.
  apply inserts_scope in E as [Hc E]. split; [done|]. apply E; [done|].
  apply no_cr_check. vm_compute. reflexivity.
Qed.

(** The hooks of the allowlist.  A source with one of the markers has the hook of each marker
    that it has; a source without gets the prune hook last. *)
Definition listed (marker hook s s' : text) : Prop :=
  contains marker s = true → in_code marker hook s'.

Definition allowlisting : text → text → Prop := λ s s',
  listed (marked (py "revoke")) (revoke_hook ++ return_line) s s' ∧
  listed (marked (py "prune")) (prune_hook ++ removal_line) s s' ∧
  (contains (marked (py "revoke")) s || contains (marked (py "prune")) s = false →
   contains (prune_hook ++ removal_line) s' = true).

(** A marker in the text is checked: its hook is in place, or the patch fails. *)
Lemma exact_listed path s marker hook scope forbidden g ls lg cg b :
  exact_injection_installed path s marker [hook] (Some scope) forbidden g ls lg cg = Ok b →
  (∃ i j, scope = slice s i j) → listed marker hook s s.
Proof.
  intros H Hsc Hm. assert (b = true) as ->.
  { unfold exact_injection_installed in H. apply bind_Ok in H as (context & _ & H).
    destruct (negb _); [by rewrite Hm in H|]. ok_inv. destruct (_ && _) in H; [|done].
    by injection H as <-. }
  eapply exact_ok; [exact H|by intros ? [= <-]|left; reflexivity].
Qed.

Lemma allowlist_listed path s :
  allowlist_installed path s = Ok tt →
  listed (marked (py "revoke")) (revoke_hook ++ return_line) s s ∧
  listed (marked (py "prune")) (prune_hook ++ removal_line) s s.
Proof.
  intros H. unfold allowlist_installed in H. apply bind_Ok in H as (scope1 & S1 & H).
  apply bind_Ok in H as (scope2 & S2 & H). apply bind_Ok in H as (b1 & E1 & H).
  apply bind_Ok in H as (b2 & E2 & _).
  split; eapply exact_listed; eauto using scope_slice.
Qed.

Lemma sound_allowlist : sound_stage (Stage allowlist_patch allowlisting).
Proof.
  intros path s o H Hs. unfold st_patch, allowlist_patch in H. unfold allowlisting, st_promise.
  destruct (_ || _) eqn:Em in H.
  { destruct (allowlist_installed path s) as [[]|] eqn:E; [|done]. injection H as <-.
    apply allowlist_listed in E as [H1 H2]. split_and!; [exact H1|exact H2| |exact Hs].
    rewrite Em. discriminate. }
  apply bind_Ok in H as (s1 & H1 & H). apply bind_Ok in H as (s2 & H2 & H).
  apply bind_Ok in H as (s3 & H3 & H). injection H as <-. change (default s (Some s3)) with s3.
  apply inserts_scope in H2 as [_ H2], H3 as [Hc H3]. apply orb_false_iff in Em as [Em1 Em2].
  split_and!; [by unfold listed; rewrite Em1|by unfold listed; rewrite Em2|done|].
  apply H3; [apply H2|]; [|apply no_cr_check; vm_compute; reflexivity..].
  eapply add_include_no_cr; [exact H1|done|exact (proj1 no_cr_includes)].
Qed.

(** The stages: one for each patch of the source, with the hook of its last edit. *)
Definition escape_stages : list stage :=
  [Stage escape_patch (leaving (marked (py "escape")) escape_hook)].
Definition dispatch_stages : list stage :=
  [Stage dispatch_patch (leaving (marked (py "deny sandbox supercalls")) dispatch_body_hook)].
Definition allowlist_stages : list stage := [Stage allowlist_patch allowlisting].
Definition rules_stages : list stage :=
  [Stage lock_order_patch (leaving (marked (py "policy snapshot under lock")) lock_assignment);
   Stage reapply_patch (leaving (marked (py "policy reapply")) reapply_hook)].
Definition sucompat_stages : list stage :=
  [Stage sucompat_patch (leaving (marked (py "sucompat fail closed")) sucompat_replacement)].
Definition manual_stages : list stage :=
  [Stage manual_patch (leaving (marked (py "manual su fail closed")) manual_hook)].
Definition lsm_count_stages : list stage :=
  [Stage lsm_count_patch (leaving (marked (py "lsm count")) lsm_list_injection)].
Definition seccomp_stages : list stage :=
  [include_stage; Stage seccomp_patch (leaving seccomp_marker seccomp_hook)].
Definition namespace_stages : list stage :=
  [include_stage;
   Stage mount_privilege_patch
     (leaving (marked (py "legacy mount privilege")) (privilege_hook (py "legacy mount privilege")));
   Stage legacy_bind_patch upgrading;
   Stage bind_patch (leaving bind_marker bind_check);
   Stage umount_privilege_patch
     (leaving (marked (py "legacy umount privilege")) (privilege_hook (py "legacy umount privilege")));
   Stage mount_result_patch (leaving mount_result_marker new_mount_hook);
   Stage umount_validate_patch (leaving (marked (py "umount validate")) umount_hook)].
Definition ptrace_stages : list stage :=
  [include_stage;
   Stage ptrace_patch (leaving (marked (py "ptrace")) dumpable_hook)].
Definition signal_stages : list stage :=
  [include_stage; Stage signal_patch (leaving signal_marker signal_replacement)].

(** ** Files *)

(** A file passes through stages between two worlds. *)
Definition passes (p : path) (stages : list stage) (w w' : world) : Prop :=
  ∃ s s', text_of w p s ∧ text_of w' p s' ∧ staged (path_text p) stages s s'.

Lemma passes_app p stages1 stages2 w w1 w2 :
  passes p stages1 w w1 → passes p stages2 w1 w2 → passes p (stages1 ++ stages2) w w2.
Proof.
  intros (s & s1 & Hs & Hs1 & H1) (t & s2 & Ht & Hs2 & H2).
  rewrite (text_of_unique _ _ _ _ Ht Hs1) in H2. exists s, s2.
  split_and!; [done..|by eapply staged_app].
Qed.

Lemma write_new_text p o s w w' :
  text_of w p s → (cr ∉ default s o) → write_new p o w = (Ok tt, w') → text_of w' p (default s o).
Proof. destruct o as [s'|]; [intros _ Hcr H; by eapply write_leaves|intros Hs _ [= <-]; exact Hs]. Qed.

Lemma one_stage f promise path s o s' :
  f path s = Ok o → promise s (default s o) → s' = default s o →
  staged path [Stage f promise] s s'.
Proof. intros H Hh ->. econstructor; [exact H|exact Hh|constructor]. Qed.

Lemma inject_passes p f promise s w w' :
  sound_stage (Stage f promise) → text_of w p s → inject p f s w = (Ok tt, w') →
  passes p [Stage f promise] w w'.
Proof.
  intros Hf Hs H. unfold inject in H. rewrite lift_bind in H.
  destruct (f (path_text p) s) as [o|] eqn:Eo; [|done].
  destruct (Hf _ _ _ Eo (text_of_no_cr _ _ _ Hs)) as [Hh Hcr].
  exists s, (default s o). split_and!; [done|by eapply write_new_text|by eapply one_stage].
Qed.

Lemma patch_file_passes p f promise w w' :
  sound_stage (Stage f promise) → patch_file p f w = (Ok tt, w') → passes p [Stage f promise] w w'.
Proof. intros Hf H. apply read_bind_ok in H as (s & Hs & H). by eapply inject_passes. Qed.

Lemma with_include_passes p w s w' :
  with_include p w = (Ok s, w') → passes p [include_stage] w w' ∧ text_of w' p s.
Proof.
  intros H. pose proof (with_include_text _ _ _ _ H) as Hs'. split; [|done].
  apply read_bind_ok in H as (s0 & Hs & H). rewrite lift_bind in H.
  destruct (add_include s0 common_include (path_text p)) as [s1|] eqn:Ea; [|done].
  minv H u w1 E; [|done]. injection H as -> ->. exists s0, s. split_and!; [done..|].
  eapply one_stage; [unfold include_patch; by rewrite Ea| |done].
  by eapply add_include_contains.
Qed.

Lemma include_inject_passes p f promise w w' :
  sound_stage (Stage f promise) → (s ← with_include p; inject p f s) w = (Ok tt, w') →
  passes p [include_stage; Stage f promise] w w'.
Proof.
  intros Hf H. minv H s w1 E; [|done]. apply with_include_passes in E as [Hp Hs].
  eapply (passes_app _ [_]); [exact Hp|]. by eapply inject_passes.
Qed.

Lemma patch_bind_passes p w w' :
  patch_bind p w = (Ok tt, w') →
  passes p [Stage legacy_bind_patch upgrading; Stage bind_patch (leaving bind_marker bind_check)]
    w w'.
Proof.
  intros H. unfold patch_bind in H. apply read_bind_ok in H as (s & Hs & H). rewrite lift_bind in H.
  destruct (legacy_bind_patch (path_text p) s) as [o|] eqn:Eo; [|done].
  minv H u w1 E; [|done]. destruct u.
  destruct (sound_legacy_bind _ _ _ Eo (text_of_no_cr _ _ _ Hs)) as [Hu Hcr].
  assert (text_of w1 p (default s o)) as Hs1 by (by eapply write_new_text).
  change (match o with Some s' => s' | None => s end) with (default s o) in H.
  eapply (passes_app _ [_] [_]); [|eapply inject_passes; [apply sound_leaves, leaves_bind| |exact H]].
  - exists s, (default s o). split_and!; [done..|]. eapply one_stage; [exact Eo|exact Hu|done].
  - done.
Qed.

Lemma patch_namespace_passes p w w' :
  patch_namespace p w = (Ok tt, w') → passes p namespace_stages w w'.
Proof.
  intros H. unfold patch_namespace in H. minv H s w1 E; [|done].
  apply with_include_passes in E as [Hi Hs]. eapply (passes_app _ [_]); [exact Hi|].
  minv H u1 w2 E1; [|done]. destruct u1.
  eapply (passes_app _ [_]);
    [eapply inject_passes; [apply sound_leaves, leaves_mount_privilege|exact Hs|exact E1]|].
  minv H u2 w3 E2; [|done]. destruct u2.
  eapply (passes_app _ [_; _]); [by apply patch_bind_passes|].
  minv H u3 w4 E3; [|done]. destruct u3.
  eapply (passes_app _ [_]);
    [eapply patch_file_passes; [apply sound_leaves, leaves_umount_privilege|exact E3]|].
  minv H u4 w5 E4; [|done]. destruct u4.
  eapply (passes_app _ [_]);
    [eapply patch_file_passes; [apply sound_leaves, leaves_mount_result|exact E4]|].
  eapply patch_file_passes; [apply sound_leaves, leaves_umount_validate|exact H].
Qed.
