(* ===== verification/KbuildInstall.v ===== *)
(** * What the installation of the Kbuild block leaves in the file

    [install_kbuild] puts its block into the file, whether it had none or an earlier one; it
    is the installed block, which [verify] checks, unless a conditional is left open or a
    token of a policy stands elsewhere in a file that had none. *)

From Stdlib Require Import Ascii.
From stdpp Require Import base list strings sets.
From S2P Require Import Prelude PyText Strip Occurrences PyRegex RegexFacts PyResult World.
From S2P Require Import FsFacts Transaction Kbuild KbuildFacts Example Frames FileFacts.

#[local] Opaque walk.

(** ** Lines and searches over a concatenation *)

Lemma split_char_app c x y : split_char c (x ++ c :: y) = split_char c x ++ split_char c y.
Proof.
  induction x as [|d x IH]; simpl.
  - by rewrite char_eqb_refl.
  - rewrite IH. destruct (char_eqb d c); [done|].
    destruct (split_char c x) as [|l ls] eqn:E; [by apply split_char_nonempty in E|done].
Qed.

Lemma findall_app r x y :
  (∀ c, at_bol c = false → match_here r c = None) → newline_free r = true →
  findall r (x ++ nl :: y) = findall r x ++ findall r y.
Proof.
  intros Hb Hn. rewrite !findall_by_line by done. unfold lines_of.
  rewrite split_char_app. apply omap_app.
Qed.

Lemma override_app x y :
  findall override_pattern (x ++ nl :: y)
  = findall override_pattern x ++ findall override_pattern y.
Proof. apply findall_app; [apply anchored_seq|vm_compute; reflexivity]. Qed.

(** ** The Kbuild file *)

(** A makefile to which a block can be added at the end. *)
Record kbuild_open (path s : text) : Prop := KbuildOpen {
  ko_directives : findall override_pattern s = [];
  ko_tokens token : token ∈ runtime_tail_tokens → contains token s = false;
  ko_depth : make_conditional_depth path s (length s) = Ok 0%Z
}.

Lemma make_depth_prefix path pre s t :
  make_conditional_depth path (pre ++ s) (length pre)
  = make_conditional_depth path (pre ++ t) (length pre).
Proof. unfold make_conditional_depth. by rewrite !take_app_length. Qed.

#[local] Opaque owned_kbuild_blocks MARKER runtime_tail_tokens.

(** The text around a block decides about directives. *)
Lemma block_directives pre b suf :
  b ∈ owned_kbuild_blocks →
  findall override_pattern (pre ++ b ++ suf)
  = findall override_pattern (pre ++ owned_head) ++ findall override_pattern (owned_last ++ suf).
Proof.
  intros (Hb & _ & Hm & _)%owned_elim. rewrite Hb. unfold wrap_block.
  replace (pre ++ (owned_head ++ nl :: owned_mid b ++ nl :: owned_last) ++ suf)
    with ((pre ++ owned_head) ++ nl :: owned_mid b ++ nl :: owned_last ++ suf)
    by (by rewrite <- !app_assoc, !app_comm_cons, <- !app_assoc).
  by rewrite !override_app, Hm.
Qed.

(** Replacing the installed block by another owned one. *)
Lemma kbuild_upgrade path s b c :
  kbuild_installed path s b → c ∈ owned_kbuild_blocks →
  ∃ pre suf, s = pre ++ b ++ suf ∧ replace_first b c s = pre ++ c ++ suf ∧
             kbuild_installed path (pre ++ c ++ suf) c.
Proof.
  intros [Hb Hv (pre & suf & -> & Hf & Hp & Ht & Hd)] Hc. exists pre, suf.
  split; [done|]. split.
  - unfold replace_first. rewrite find_owned by done.
    by rewrite take_app_length, drop_app_add, drop_app_length.
  - split; [done| |].
    + by rewrite block_directives, <- (block_directives pre b suf) by done.
    + exists pre, suf. split_and!; [done..|]. by rewrite (make_depth_prefix _ _ _ (b ++ suf)).
Qed.

(** Adding a block to a file that has none. *)
Lemma kbuild_append path s c :
  kbuild_open path (s ++ [nl]) → contains MARKER (s ++ [nl]) = false →
  c ∈ owned_kbuild_blocks → kbuild_installed path ((s ++ [nl]) ++ c ++ [nl]) c.
Proof.
  intros [Hv Ht Hd] Hm Hc. split; [done| |].
  - rewrite block_directives, <- app_assoc by done.
    change ([nl] ++ owned_head) with (nl :: owned_head).
    change (s ++ [nl]) with (s ++ nl :: []) in Hv. rewrite override_app in *.
    apply app_eq_nil in Hv as [-> _]. vm_compute. reflexivity.
  - exists (s ++ [nl]), [nl]. split_and!; [done|by repeat constructor|done..|].
    rewrite (make_depth_prefix _ _ _ []), app_nil_r. done.
Qed.

Lemma kbuild_block_owned policy block :
  kbuild_block policy = Ok block →
  strip block ∈ owned_kbuild_blocks ∧ lstrip_nl block = strip block ++ [nl] ∧ cr ∉ strip block.
Proof.
  assert (∀ flags, existsb (text_eqb (strip (render_kbuild_block flags))) owned_kbuild_blocks
                   && text_eqb (lstrip_nl (render_kbuild_block flags))
                        (strip (render_kbuild_block flags) ++ [nl])
                   && negb (existsb (char_eqb cr) (strip (render_kbuild_block flags))) = true →
                   strip (render_kbuild_block flags) ∈ owned_kbuild_blocks ∧
                   lstrip_nl (render_kbuild_block flags)
                   = strip (render_kbuild_block flags) ++ [nl] ∧
                   cr ∉ strip (render_kbuild_block flags)) as H.
  { intros flags Hc. bool_hyps. split_and!; [|done|by apply no_cr_check].
    apply existsb_exists in H as (b & Hin & He). apply text_eqb_eq in He as ->.
    by apply list_elem_of_In. }
  unfold kbuild_block. destruct (text_eqb policy _); [|destruct (text_eqb policy _); [|done]];
    intros [= <-]; apply H; vm_compute; reflexivity.
Qed.

Lemma marker_absent_rstrip s :
  contains MARKER s = false → contains MARKER (rstrip s ++ [nl]) = false.
Proof.
  intros H. pose proof MARKER_word as Hw. destruct (plain_word_elim _ Hw) as (Hb & Hp & Hs & _).
  apply (plain_count_zero MARKER); [done|]. rewrite count_across by auto.
  destruct (rstrip_prefix s) as [ws Hws].
  rewrite (proj2 (plain_count_zero MARKER (rstrip s) Hw)); [by vm_compute|].
  apply not_true_iff_false. intros Hc. rewrite Hws in H.
  by rewrite (contains_app_l _ _ _ Hc) in H.
Qed.

Lemma rstrip_no_cr s : cr ∉ s → cr ∉ rstrip s.
Proof. destruct (rstrip_prefix s) as [ws Hws]. rewrite Hws at 1. set_solver. Qed.

(** A file that has an added block as its installed one was open. *)
Lemma kbuild_append_open path s c :
  contains MARKER (s ++ [nl]) = false → c ∈ owned_kbuild_blocks →
  kbuild_installed path ((s ++ [nl]) ++ c ++ [nl]) c → kbuild_open path (s ++ [nl]).
Proof.
  intros Hm Hc [_ Hv (pre & suf & Heq & Hf & Hp & Ht & Hd)].
  assert (Forall (λ d, is_space d = true) [nl]) as Hnl by by repeat constructor.
  pose proof (find_owned c pre suf Hc Hf Hp) as Hfind. rewrite <- Heq, find_owned in Hfind by done.
  injection Hfind as Hlen. apply app_inj_1 in Heq as [<- _]; [|done]. split.
  - rewrite block_directives, <- app_assoc in Hv by done.
    change ([nl] ++ owned_head) with (nl :: owned_head) in Hv. rewrite override_app in Hv.
    apply app_eq_nil in Hv as [[Hv _]%app_eq_nil _].
    change (s ++ [nl]) with (s ++ nl :: []). rewrite override_app, Hv. vm_compute. reflexivity.
  - exact Ht.
  - rewrite (make_depth_prefix _ _ _ []), app_nil_r in Hd. exact Hd.
Qed.

(** What a successful run leaves: the block is in the file, and is the one that the check of
    [verify] finds exactly where there was a block before or the file was open. *)
Lemma install_kbuild_leaves p policy block s w w' :
  kbuild_block policy = Ok block → text_of w p s → install_kbuild p block w = (Ok tt, w') →
  ∃ s', text_of w' p s' ∧ contains (strip block) s' = true ∧
    (installed_kbuild_block (path_text p) s' = Ok (strip block) ↔
     contains MARKER s = true ∨ kbuild_open (path_text p) (rstrip s ++ [nl])).
Proof.
  intros Hblock Hs H. destruct (kbuild_block_owned _ _ Hblock) as (Hown & Hnl & Hcr).
  pose proof (text_of_no_cr _ _ _ Hs) as Hscr.
  unfold install_kbuild in H. rewrite bind_eq, Hs in H. rewrite lift_bind in H.
  destruct (validate_kbuild_directives _ s) as [[]|]; [|done]. cbv zeta in H.
  assert (∀ pre b suf : text, contains b (pre ++ b ++ suf) = true) as Hc
    by (intros pre b suf; apply contains_spec; eauto).
  destruct (contains MARKER s) eqn:Em; cbn [negb] in H.
  - rewrite lift_bind in H. destruct (installed_kbuild_block _ s) as [b|] eqn:Eb; [|done].
    apply installed_block_iff in Eb as Hi.
    destruct (text_eqb b (strip block)) eqn:Ed.
    + injection H as <-. bool_hyps. subst b. exists s. split_and!; [done| |].
      * destruct Hi as [_ _ (pre & suf & -> & _)]. apply Hc.
      * split; [by left|done].
    + destruct (kbuild_upgrade _ _ _ (strip block) Hi Hown) as (pre & suf & -> & Hr & Hj).
      rewrite Hr in H. exists (pre ++ strip block ++ suf). split_and!; [|apply Hc|].
      * apply write_leaves in H; [done|]. revert Hscr Hcr. rewrite !elem_of_app. tauto.
      * split; [by left|]. intros _. by apply installed_block_iff.
  - exists ((rstrip s ++ [nl]) ++ strip block ++ [nl]). split_and!; [|apply Hc|].
    + rewrite <- Hnl, <- app_assoc. apply write_leaves in H; [done|].
      apply rstrip_no_cr in Hscr. rewrite Hnl, !elem_of_app.
      intros [?|[Hin|[?|Hin]]]; [done| |done|];
        by apply list_elem_of_singleton in Hin.
    + rewrite installed_block_iff. apply marker_absent_rstrip in Em. split.
      * intros Hi. right. by eapply kbuild_append_open.
      * intros [?|Ho]; [done|]. by apply kbuild_append.
Qed.

(** C22: after a successful [install_kbuild] the file holds the block for the policy.  It is
    the installed block for the check that [verify] makes exactly when the file had an
    earlier block, which was upgraded or already up to date, or was one to which a block can
    be added: no override directive, no token of a policy, every conditional closed.  The
    last two conditions are not checked where the block is added: there the installation
    succeeds and the check fails. *)
Theorem install_kbuild_installs p policy block s w w' :
  kbuild_block policy = Ok block → text_of w p s → install_kbuild p block w = (Ok tt, w') →
  ∃ s', text_of w' p s' ∧ contains (strip block) s' = true ∧
    (installed_kbuild_block (path_text p) s' = Ok (strip block) ↔
     contains MARKER s = true ∨ kbuild_open (path_text p) (rstrip s ++ [nl])).
Proof. apply install_kbuild_leaves. Qed.

Definition kbuild_open_check (path s : text) : bool :=
  (length (findall override_pattern s) =? 0)
  && forallb (λ token, negb (contains token s)) runtime_tail_tokens
  && match make_conditional_depth path s (length s) with Ok 0%Z => true | _ => false end.

Lemma kbuild_open_check_sound path s : kbuild_open_check path s = true → kbuild_open path s.
Proof.
  unfold kbuild_open_check. intros H. bool_hyps. split; [by apply nil_length_inv| |].
  - intros token Hin. rewrite forallb_forall in H1. apply negb_true_iff, H1.
    by apply list_elem_of_In.
  - by destruct (make_conditional_depth path s (length s)) as [[]|].
Qed.

(** The sample tree of the official variant. *)
Definition official_world : world := sample_world (sample_tree (py "official") (py "6.6")).

Lemma install_kbuild_installs_witness :
  let p := sample_ksu ++ ["Kbuild"] in
  let block := render_kbuild_block never_tail_flags in
  (install_kbuild p block official_world).1 = Ok tt ∧
  ∃ s', text_of (install_kbuild p block official_world).2 p s' ∧
        installed_kbuild_block (path_text p) s' = Ok (strip block).
Proof.
  intros p block.
  assert ((install_kbuild p block official_world).1 = Ok tt) as Hr by (vm_compute; reflexivity).
  split; [exact Hr|].
  destruct (install_kbuild_installs p RUNTIME_KSU_TAIL_NEVER block
              (py "kernelsu-objs := main.o\n") official_world
              (install_kbuild p block official_world).2) as (s' & Hs' & _ & Hi).
  - vm_compute. reflexivity.
  - apply text_of_stat. eexists. split; vm_compute; reflexivity.
  - rewrite <- Hr. apply surjective_pairing.
  - exists s'. split; [exact Hs'|]. apply Hi. right. apply kbuild_open_check_sound.
    vm_compute. reflexivity.
Defined.
