(* ===== verification/KconfigInstall.v ===== *)
(** * What the insertion of the Kconfig entry leaves in the file

    [insert_before_last] puts the entry before the last [endmenu] of the file, and what it
    leaves is what [installed_kconfig_block] accepts, except for a corner case of the closing
    line. *)

From Stdlib Require Import Ascii.
From stdpp Require Import base list strings sets.
From S2P Require Import Prelude PyText Occurrences PyRegex RegexFacts PyResult World.
From S2P Require Import FsFacts Transaction Kbuild KbuildFacts Example Frames FileFacts.
From S2P Require Import KbuildInstall.

#[local] Opaque walk.

(** ** Conditionals over a concatenation *)

Lemma splitlines_app_nl x y :
  splitlines (x ++ nl :: y) = splitlines (x ++ [nl]) ++ splitlines y.
Proof.
  unfold splitlines. rewrite <- map_app. f_equal.
  induction x as [|c x IH]; [done|]. cbn [app splitlines_keep].
  assert (starts_with [nl] (x ++ nl :: y) = starts_with [nl] (x ++ [nl])) as ->
    by (by destruct x).
  destruct (is_linebreak c && _); cbn [app]; [by rewrite IH|]. rewrite IH.
  destruct (splitlines_keep (x ++ [nl])) as [|l ls] eqn:El; [|done].
  apply (f_equal (@concat ascii)) in El. rewrite concat_splitlines_keep in El. by destruct x.
Qed.

Lemma conditional_depth_app opens closes error l1 l2 d :
  conditional_depth opens closes error (l1 ++ l2) d
  = (conditional_depth opens closes error l1 d ≫= conditional_depth opens closes error l2).
Proof.
  revert d. induction l1 as [|l l1 IH]; intros d; [done|]. cbn [app conditional_depth].
  cbv zeta. destruct (_ || _); [apply IH|]. destruct (opens _); [apply IH|].
  destruct (closes _); [|apply IH]. destruct (_ <? 0)%Z; [done|apply IH].
Qed.

Lemma kconfig_depth_blank path pre s t :
  (pre = [] ∨ ∃ pre0, pre = pre0 ++ [nl]) →
  kconfig_condition_depth path (pre ++ s) (length pre) =
  kconfig_condition_depth path (pre ++ [nl; nl] ++ t) (length pre + 2).
Proof.
  intros Hpre. unfold kconfig_condition_depth.
  rewrite take_app_length, take_app_add.
  replace (take 2 ([nl; nl] ++ t)) with [nl; nl] by done.
  assert (splitlines (pre ++ [nl; nl]) = splitlines pre ++ [[]; []]) as ->.
  { destruct Hpre as [->|[pre0 ->]]; [done|].
    rewrite <- app_assoc. cbn [app]. by rewrite splitlines_app_nl. }
  rewrite conditional_depth_app. by destruct (conditional_depth _ _ _ (splitlines pre) 0%Z).
Qed.

(** ** The closing line *)

Lemma line_matches_elem r off lines m :
  m ∈ line_matches r off lines →
  ∃ l1 line l2 m', lines = l1 ++ line :: l2 ∧ re_match r line = Some m' ∧
    m = shift_match (off + length (concat (map (λ l, l ++ [nl]) l1))) m'.
Proof.
  revert off. induction lines as [|l lines IH]; intros off; [by intros ?%not_elem_of_nil|].
  cbn [line_matches]. intros [Hm|Hm]%elem_of_app.
  - unfold line_match in Hm. destruct (re_match r l) as [m'|] eqn:E;
      [|by apply not_elem_of_nil in Hm].
    apply list_elem_of_singleton in Hm as ->. exists [], l, lines, m'.
    simpl. by rewrite Nat.add_0_r.
  - apply IH in Hm as (l1 & line & l2 & m' & -> & Hr & ->).
    exists (l :: l1), line, l2, m'. split_and!; [done..|]. simpl.
    rewrite !length_app. simpl. f_equal. lia.
Qed.

Lemma join_middle l1 line l2 :
  join [nl] (l1 ++ line :: l2) = concat (map (λ l, l ++ [nl]) l1) ++ line ++ tail_of l2.
Proof.
  induction l1 as [|l l1 IH]; [apply join_cons|]. cbn [app map concat].
  rewrite join_cons, <- !app_assoc. cbn [app]. rewrite <- IH. by destruct l1.
Qed.

(** The lines before it end with a newline. *)
Lemma whole_lines l1 :
  concat (map (λ l : text, l ++ [nl]) l1) = [] ∨
  ∃ pre, concat (map (λ l : text, l ++ [nl]) l1) = pre ++ [nl].
Proof.
  destruct l1 as [|l l1 _] using rev_ind; [by left|right].
  rewrite map_app, concat_app. simpl. rewrite app_nil_r.
  exists (concat (map (λ l : text, l ++ [nl]) l1) ++ l). by rewrite <- app_assoc.
Qed.

Lemma finditer_line r s m :
  (∀ c, at_bol c = false → match_here r c = None) → newline_free r = true →
  m ∈ finditer r s →
  ∃ pre line tail, s = pre ++ line ++ tail ∧ m_start m = length pre ∧
    (pre = [] ∨ ∃ pre0, pre = pre0 ++ [nl]) ∧ (nl ∉ line) ∧
    (tail = [] ∨ ∃ t, tail = nl :: t) ∧ is_Some (re_match r line).
Proof.
  intros Hb Hn. rewrite finditer_lines by done.
  intros (l1 & line & l2 & m' & Hl & Hr & ->)%line_matches_elem.
  exists (concat (map (λ l, l ++ [nl]) l1)), line, (tail_of l2). split_and!.
  - rewrite <- join_middle, <- Hl. symmetry. apply join_split_char.
  - simpl. apply match_here_reads in Hr as [-> _]. simpl. lia.
  - apply whole_lines.
  - pose proof (split_char_free nl s) as Hf. fold (lines_of s) in Hf. rewrite Hl in Hf.
    apply Forall_app in Hf as [_ Hf]. by inversion Hf.
  - apply tail_of_cases.
  - by eexists.
Qed.

Definition is_blank (c : ascii) : bool := existsb (char_eqb c) [blank; tab].

Lemma endmenu_line line m :
  nl ∉ line → re_match (needle_line_pattern (py "endmenu")) line = Some m →
  ∃ w rest, line = w ++ py "endmenu" ++ rest ∧ Forall (λ c, is_blank c = true) w ∧
    (rest = [] ∨ ∃ d rest', rest = d :: rest' ∧ (is_space d = true ∨ d = "#"%char)).
Proof.
  intros Hnl (_ & u & c' & _ & _ & Hm)%match_here_reads.
  unfold needle_line_pattern, seqs in Hm. cbn [foldr] in Hm.
  apply matches_seq in Hm as (c1 & g1 & (-> & -> & _)%matches_bol & Hm).
  apply matches_seq in Hm as (c2 & g2 & (-> & w & Hw & Hr2)%matches_star_set & Hm).
  apply matches_seq in Hm as (c3 & g3 & [-> Hr3]%matches_lit & Hm).
  apply matches_seq in Hm as (c4 & g4 & (-> & v & Hv & Hr4)%matches_star_set & Hm).
  apply matches_seq in Hm as (c5 & g5 & Ho & Hm).
  apply matches_seq in Hm as (c6 & g6 & (-> & -> & Heol)%matches_eol & _).
  destruct Hr2 as [H2 _], Hr3 as [H3 _], Hr4 as [H4 _]. cbn [cursor_start c_rest] in H2.
  exists w, (c_rest c3). split_and!; [by rewrite H2, H3|done|].
  destruct v as [|d v].
  2: { right. exists d, (v ++ c_rest c4). split; [done|]. left.
       apply Forall_cons in Hv as [Hd _]. simpl in Hd.
       destruct (char_eqb d blank) eqn:E1; [by bool_hyps; subst d|].
       destruct (char_eqb d tab) eqn:E2; [by bool_hyps; subst d|done]. }
  simpl in H4. rewrite H4. apply matches_alt in Ho as [Ho|[-> ->]%matches_eps].
  - apply matches_seq in Ho as (c7 & g7 & [_ [H7 _]]%matches_lit & _). right.
    rewrite H7. simpl. eauto.
  - unfold at_eol in Heol. destruct (c_rest c4) as [|d rest] eqn:E; [by left|].
    bool_hyps. subst d. exfalso. apply Hnl. rewrite H2, H3, H4. set_solver.
Qed.

(** The check of what follows an entry passes before such a line. *)
Lemma endmenu_suffix ws w rest :
  Forall (λ c, existsb (char_eqb c) [blank; tab; cr; nl] = true) ws →
  Forall (λ c, is_blank c = true) w →
  (rest = [] ∨ ∃ d rest', rest = d :: rest' ∧ is_space d = true) →
  matches_at_start endmenu_suffix_pattern (ws ++ w ++ py "endmenu" ++ rest) = true.
Proof.
  intros Hws Hw Hrest. unfold matches_at_start.
  assert (Forall (λ c, existsb (char_eqb c) [blank; tab; cr; nl] = true) (ws ++ w)) as Hall.
  { apply Forall_app. split; [done|]. eapply Forall_impl; [exact Hw|]. intros c.
    unfold is_blank. simpl. destruct (char_eqb c blank), (char_eqb c tab); done. }
  rewrite app_assoc. set (s := (ws ++ w) ++ py "endmenu" ++ rest).
  assert (is_Some (re_match endmenu_suffix_pattern s)) as [m ->]; [|done].
  set (c2 := Cursor (last_or None (ws ++ w)) (py "endmenu" ++ rest) (length (ws ++ w))).
  set (c3 := Cursor (last_or (c_prev c2) (py "endmenu")) rest (c_pos c2 + 7)).
  assert (reads (cursor_start s) (ws ++ w) c2) as H2 by (by split_and!).
  assert (reads c2 (py "endmenu") c3) as H3 by (by split_and!).
  unfold re_match, match_here, endmenu_suffix_pattern, seqs. cbn [foldr].
  assert (∃ c4, matches space_or_end c3 [] c4 []) as [c4 H4].
  { destruct Hrest as [->|(d & rest' & -> & Hd)].
    - exists c3. apply matches_alt. right. by apply matches_eol.
    - exists (Cursor (Some d) rest' (S (c_pos c3))). apply matches_alt. left.
      apply matches_set. split; [done|]. exists d. split; [done|].
      split_and!; simpl; [done|lia|done]. }
  eapply (run_complete _ _ _ c4 []); [|by eexists].
  apply matches_seq. exists (cursor_start s), []. split; [by apply matches_bol|].
  apply matches_seq. exists c2, []. split; [apply matches_star_set; eauto|].
  apply matches_seq. exists c3, []. split; [by apply matches_lit|].
  apply matches_seq. exists c4, []. split; [done|]. by apply matches_eps.
Qed.

(** ** The entry *)

Definition kconfig_entry : text := strip KCONFIG_BLOCK.

Lemma kconfig_entry_block : KCONFIG_BLOCK = [nl; nl] ++ kconfig_entry ++ [nl].
Proof. vm_compute. reflexivity. Qed.

Lemma kconfig_entry_facts :
  border_free kconfig_entry = true ∧ kconfig_entry ≠ [] ∧ count MARKER kconfig_entry = 1 ∧
  starts_with (py "# " ++ MARKER) kconfig_entry = true ∧
  length (findall kconfig_definition_pattern kconfig_entry) = 1 ∧ cr ∉ kconfig_entry.
Proof.
  split_and!; [vm_compute; reflexivity|done|vm_compute; reflexivity..|].
  apply no_cr_check. vm_compute. reflexivity.
Qed.

#[local] Opaque MARKER kconfig_entry KCONFIG_BLOCK.

Lemma definition_app x y :
  findall kconfig_definition_pattern (x ++ nl :: y)
  = findall kconfig_definition_pattern x ++ findall kconfig_definition_pattern y.
Proof. apply findall_app; [apply anchored_seq|vm_compute; reflexivity]. Qed.

(** An entry stands where the marker stands. *)
Lemma kconfig_entry_marker s i :
  occurs_at kconfig_entry s i = true → occurs_at MARKER s (2 + i) = true.
Proof.
  intros [r Hr]%starts_with_spec. destruct kconfig_entry_facts as (_ & _ & _ & Hs & _).
  apply starts_with_spec in Hs as [t Ht]. unfold occurs_at.
  rewrite Nat.add_comm, <- drop_drop, Hr, Ht, <- !app_assoc. cbn [drop app].
  apply starts_with_self.
Qed.

(** A text with one marker and an entry has one entry. *)
Lemma kconfig_entry_unique pre post :
  count MARKER (pre ++ kconfig_entry ++ post) = 1 →
  ∀ i, occurs_at kconfig_entry (pre ++ kconfig_entry ++ post) i = true ↔ i = length pre.
Proof.
  intros [k Hk]%marker_offset i.
  assert (occurs_at kconfig_entry (pre ++ kconfig_entry ++ post) (length pre) = true) as Hp.
  { unfold occurs_at. rewrite drop_app_length. apply starts_with_self. }
  split; [|by intros ->]. intros Hi.
  apply kconfig_entry_marker, Hk in Hi, Hp. lia.
Qed.

(** A file in which the entry has its place: no marker, no definition, no open condition,
    and then the closing line. *)
Lemma kconfig_insert path pre post :
  (pre = [] ∨ ∃ pre0, pre = pre0 ++ [nl]) → contains MARKER (pre ++ post) = false →
  findall kconfig_definition_pattern (pre ++ post) = [] →
  kconfig_condition_depth path (pre ++ post) (length pre) = Ok 0%Z →
  matches_at_start endmenu_suffix_pattern ([nl; nl] ++ post) = true →
  installed_kconfig_block path (pre ++ KCONFIG_BLOCK ++ [nl] ++ post) = Ok kconfig_entry.
Proof.
  intros Hpre Hm Hdef Hd Hend.
  destruct kconfig_entry_facts as (Hb & Hne & Hc & _ & Hl & _).
  pose proof MARKER_word as Hw. destruct (plain_word_elim _ Hw) as (Hmb & Hmn & Hms & _).
  assert (nl ∉ MARKER) as Hnl by by apply Hms.
  assert (pre ++ KCONFIG_BLOCK ++ [nl] ++ post
          = (pre ++ [nl; nl]) ++ kconfig_entry ++ [nl; nl] ++ post) as ->.
  { by rewrite kconfig_entry_block, <- !app_assoc. }
  assert (count MARKER ((pre ++ [nl; nl]) ++ kconfig_entry ++ [nl; nl] ++ post) = 1) as Hone.
  { rewrite <- app_assoc. cbn [app]. rewrite count_across by done.
    change (nl :: kconfig_entry ++ nl :: nl :: post)
      with ([] ++ nl :: kconfig_entry ++ nl :: nl :: post).
    rewrite !count_across, Hc by done.
    change (nl :: post) with ([] ++ nl :: post). rewrite count_across by done.
    rewrite (proj2 (plain_count_zero MARKER pre Hw)), (proj2 (plain_count_zero MARKER post Hw));
      [by vm_compute|..]; apply not_true_iff_false; intros H.
    - apply (contains_app_r _ pre) in H. congruence.
    - apply (contains_app_l _ _ post) in H. congruence. }
  pose proof (kconfig_entry_unique _ _ Hone) as Hu.
  unfold installed_kconfig_block. change (strip KCONFIG_BLOCK) with kconfig_entry. cbv zeta. rewrite Hone.
  rewrite (proj2 (count_one _ _ Hb Hne)) by (eexists; exact Hu).
  rewrite (find_unique _ _ _ Hu).
  assert (length (findall kconfig_definition_pattern
            ((pre ++ [nl; nl]) ++ kconfig_entry ++ [nl; nl] ++ post)) = 1) as ->.
  { rewrite <- app_assoc. cbn [app]. rewrite definition_app.
    change (nl :: kconfig_entry ++ nl :: nl :: post)
      with ([] ++ nl :: kconfig_entry ++ nl :: nl :: post).
    rewrite !definition_app. change (nl :: post) with ([] ++ nl :: post).
    rewrite definition_app.
    assert (findall kconfig_definition_pattern pre = [] ∧
            findall kconfig_definition_pattern post = []) as [-> ->].
    { destruct Hpre as [->|[pre0 ->]]; [by split; [vm_compute|]|].
      rewrite <- app_assoc in Hdef. cbn [app] in Hdef. rewrite definition_app in *.
      apply app_eq_nil in Hdef as [-> ->]. split; [by vm_compute|done]. }
    rewrite !length_app, Hl. by vm_compute. }
  cbn [Nat.eqb negb orb]. rewrite length_app. cbn [length].
  rewrite <- app_assoc, <- (kconfig_depth_blank path pre post) by done. rewrite Hd.
  cbn [mbind result_bind]. rewrite <- Nat.add_assoc.
  rewrite drop_app_add, (drop_app_add [nl; nl]), drop_app_length.
  by rewrite Hend.
Qed.

Lemma kconfig_depth_zero path s n d :
  kconfig_condition_depth path s n = Ok d → kconfig_condition_depth path s n = Ok 0%Z.
Proof.
  unfold kconfig_condition_depth. intros (z & -> & H)%bind_Ok.
  cbn. by destruct (z =? 0)%Z eqn:E; [apply Z.eqb_eq in E as ->|].
Qed.

Lemma installed_kconfig_entry path s b :
  installed_kconfig_block path s = Ok b → b = kconfig_entry.
Proof.
  unfold installed_kconfig_block. change (strip KCONFIG_BLOCK) with kconfig_entry. cbv zeta.
  destruct (_ || _); [done|]. destruct (find _ s); [|done]. intros (d & _ & H)%bind_Ok.
  destruct (matches_at_start _ _); [by injection H|done].
Qed.

Lemma search_findall r s : re_search r s = None → findall r s = [].
Proof. unfold re_search, findall. by destruct (finditer r s). Qed.

(** The last line that closes the menu, and what is around it. *)
Lemma last_endmenu s m ms :
  rev (finditer (needle_line_pattern (py "endmenu")) s) = m :: ms →
  contains (py "endmenu#") s = false →
  ∃ pre post, s = pre ++ post ∧ m_start m = length pre ∧
    (pre = [] ∨ ∃ pre0, pre = pre0 ++ [nl]) ∧
    matches_at_start endmenu_suffix_pattern ([nl; nl] ++ post) = true.
Proof.
  intros Hrev Hg.
  assert (m ∈ finditer (needle_line_pattern (py "endmenu")) s) as Hin.
  { apply list_elem_of_In, in_rev. rewrite Hrev. by left. }
  apply finditer_line in Hin as (pre & line & tail & -> & Hs & Hpre & Hnl & Ht & [m' Hm']);
    [|apply anchored_seq|vm_compute; reflexivity].
  exists pre, (line ++ tail). split_and!; [done..|].
  apply endmenu_line in Hm' as (w & rest & -> & Hw & Hr); [|done].
  rewrite <- !app_assoc. apply endmenu_suffix; [by repeat constructor|done|].
  destruct Hr as [->|(d & rest' & -> & [Hd| ->])].
  - destruct Ht as [->|[t ->]]; [by left|right; simpl; eauto].
  - right. simpl. eauto.
  - exfalso. apply not_true_iff_false in Hg. apply Hg, contains_spec.
    exists (pre ++ w), (rest' ++ tail). rewrite <- !app_assoc. done.
Qed.

Lemma kconfig_insert_no_cr x y :
  cr ∉ x → cr ∉ y → cr ∉ x ++ KCONFIG_BLOCK ++ [nl] ++ y.
Proof.
  intros Hx Hy. destruct kconfig_entry_facts as (_ & _ & _ & _ & _ & Hcr).
  assert (∀ n, cr ∉ replicate n nl) as Hnl by (intros n [? _]%elem_of_replicate; done).
  pose proof (Hnl 1) as H1. pose proof (Hnl 2) as H2. cbn [replicate] in H1, H2.
  revert Hx Hy Hcr H1 H2. rewrite kconfig_entry_block, !elem_of_app. tauto.
Qed.

(** Whatever the closing line is, the entry is in the file. *)
Lemma insert_before_last_entry p needle w w' :
  insert_before_last p needle KCONFIG_BLOCK w = (Ok tt, w') →
  ∃ s', text_of w' p s' ∧ contains kconfig_entry s' = true.
Proof.
  intros H. unfold insert_before_last in H. apply read_bind_ok in H as (s & Hs & H).
  assert (∀ b, installed_kconfig_block (path_text p) s = Ok b → contains kconfig_entry s = true)
    as Hin.
  { unfold installed_kconfig_block. change (strip KCONFIG_BLOCK) with kconfig_entry. cbv zeta.
    intros b. destruct (negb (count MARKER s =? 1) || _ || _) eqn:E; [done|]. intros _. bool_hyps. apply count_contains. lia. }
  destruct (contains MARKER s || _).
  - rewrite lift_bind in H. destruct (installed_kconfig_block _ s) as [b|] eqn:Eb; [|done].
    injection H as <-. eauto.
  - destruct (List.rev _) as [|m ms]; [done|]. cbv zeta in H. rewrite lift_bind in H.
    destruct (kconfig_condition_depth _ _ _) as [d|]; [|done].
    eexists. split.
    + eapply write_leaves; [exact H|]. pose proof (text_of_no_cr _ _ _ Hs) as Hcr.
      rewrite <- (take_drop (m_start m) s), elem_of_app in Hcr.
      apply kconfig_insert_no_cr; tauto.
    + apply contains_app_r, contains_app_l. rewrite kconfig_entry_block.
      apply contains_app_r, contains_app_l, contains_spec. exists [], []. by rewrite app_nil_r.
Qed.

(** C23: on a Kconfig file in which no [endmenu] has a comment glued to it, a successful
    [insert_before_last] of the entry leaves it exactly as [verify] demands: once, outside
    of any condition, right before an [endmenu]; and no line of the file was lost. *)
Theorem insert_before_last_installs p s w w' :
  text_of w p s → contains (py "endmenu#") s = false →
  insert_before_last p (py "endmenu") KCONFIG_BLOCK w = (Ok tt, w') →
  ∃ s', text_of w' p s' ∧ installed_kconfig_block (path_text p) s' = Ok kconfig_entry ∧
        (s' = s ∨ ∃ pre post, s = pre ++ post ∧ s' = pre ++ KCONFIG_BLOCK ++ [nl] ++ post).
Proof.
  intros Hs Hg H. unfold insert_before_last in H. rewrite bind_eq, Hs in H.
  destruct (contains MARKER s) eqn:Em; [|destruct (re_search _ s) eqn:Er]; cbn [orb] in H.
  1, 2: rewrite lift_bind in H; destruct (installed_kconfig_block _ s) as [b|] eqn:Eb; [|done];
    injection H as <-; exists s; rewrite Eb; apply installed_kconfig_entry in Eb as ->; eauto.
  destruct (List.rev _) as [|m ms] eqn:Erev; [done|]. cbv zeta in H.
  destruct (last_endmenu s m ms Erev Hg) as (pre & post & -> & Hst & Hpre & Hend).
  rewrite Hst, lift_bind in H.
  destruct (kconfig_condition_depth _ _ _) as [d|] eqn:Ed; [|done].
  rewrite take_app_length, drop_app_length in H.
  exists (pre ++ KCONFIG_BLOCK ++ [nl] ++ post). split_and!.
  - apply write_leaves in H; [done|]. pose proof (text_of_no_cr _ _ _ Hs) as Hcr.
    rewrite elem_of_app in Hcr. apply kconfig_insert_no_cr; tauto.
  - apply kconfig_insert; [done|done|by apply search_findall|by eapply kconfig_depth_zero|done].
  - right. eauto.
Qed.

(** The hypothesis on the closing line is needed.  [insert_before_last] accepts an
    [endmenu] with a comment glued to it as the closing line, [installed_kconfig_block] does
    not: the installation then leaves a file that it will refuse from then on. *)
Example glued_comment_conflict :
  let s := py "menu `KernelSU`\nendmenu#end\n" in
  let p := ["Kconfig"] in
  let w := sample_world (tree_of [(p, s)]) in
  let w' := (insert_before_last p (py "endmenu") KCONFIG_BLOCK w).2 in
  (insert_before_last p (py "endmenu") KCONFIG_BLOCK w).1 = Ok tt ∧
  insert_before_last p (py "endmenu") KCONFIG_BLOCK w' = (kconfig_conflict (py "/Kconfig"), w').
Proof. split; vm_compute; reflexivity. Qed.

Lemma insert_before_last_installs_witness :
  let p := sample_ksu ++ ["Kconfig"] in
  let run := insert_before_last p (py "endmenu") KCONFIG_BLOCK official_world in
  run.1 = Ok tt ∧
  ∃ s', text_of run.2 p s' ∧ installed_kconfig_block (path_text p) s' = Ok kconfig_entry.
Proof.
  intros p run. assert (run.1 = Ok tt) as Hr by (vm_compute; reflexivity).
  split; [exact Hr|].
  destruct (insert_before_last_installs p ksu_kconfig official_world run.2) as (s' & H1 & H2 & _).
  - apply text_of_stat. eexists. split; vm_compute; reflexivity.
  - vm_compute. reflexivity.
  - rewrite <- Hr. apply surjective_pairing.
  - exists s'. split; [exact H1|exact H2].
Defined.
