(* ===== verification/ReadOnly.v ===== *)
(** * The commands that only look

    Discovery, the configuration checks and the audit of the runtime hooks leave the whole
    world as it is; [verify] leaves everything but the output.  In validation mode a patch
    that succeeds finds its injection in place, so [install] would not change the file. *)

From Stdlib Require Import Ascii.
From stdpp Require Import base list strings gmap.
From S2P Require Import Prelude PyText PyRegex PyResult CLexer CPreproc CScope World.
From S2P Require Import Transaction Kbuild Defconfig Discovery Resukisu KsuPatches KernelHooks.
From S2P Require Import Sources Installer Frames.

#[local] Opaque walk.

(** ** Reads *)

Section reads.
Context (R : world → world → Prop) `{!PreOrder R}.

Lemma preserves_config_state p symbol : preserves R (config_state p symbol).
Proof. unfold config_state. preserves. Qed.

Lemma preserves_config_states p symbols : preserves R (config_states p symbols).
Proof.
  induction symbols as [|symbol symbols IH]; simpl;
    preserves_with ltac:(first [exact IH | apply preserves_config_state]).
Qed.

Lemma preserves_validate_runtime policy d :
  preserves R (validate_runtime_ksu_tail_config policy d).
Proof.
  unfold validate_runtime_ksu_tail_config.
  preserves_with ltac:(first [apply preserves_config_states | apply preserves_config_state]).
Qed.

Lemma preserves_validate_defconfig p b : preserves R (validate_defconfig p b).
Proof.
  unfold validate_defconfig, require_symbol.
  preserves_with ltac:(apply preserves_config_state).
Qed.

Lemma preserves_defconfig_option d b :
  preserves R (match d with Some d => validate_defconfig d b | None => mret tt end).
Proof. destruct d; [apply preserves_validate_defconfig|by apply preserves_ret]. Qed.

Lemma preserves_kernel_common root : preserves R (kernel_common root).
Proof. unfold kernel_common. preserves. Qed.

Lemma preserves_detect_variant ksu : preserves R (detect_variant ksu).
Proof. unfold detect_variant. preserves. Qed.

Lemma preserves_kernel_version common : preserves R (kernel_version common).
Proof. unfold kernel_version. preserves. Qed.

Lemma preserves_discover root : preserves R (discover root).
Proof.
  unfold discover.
  preserves_with ltac:(first [apply preserves_kernel_common | apply preserves_detect_variant
                             | apply preserves_kernel_version]).
Qed.

Lemma preserves_registration_sources ksu relatives :
  preserves R (registration_sources ksu relatives).
Proof.
  induction relatives as [|relative relatives IH]; simpl; preserves_with ltac:(exact IH).
Qed.

Lemma preserves_runtime_policy l : preserves R (runtime_ksu_tail_policy l).
Proof.
  unfold runtime_ksu_tail_policy, validate_resukisu_runtime_lsm_hooks,
    resukisu_registration_sources.
  preserves_with ltac:(apply preserves_registration_sources).
Qed.
End reads.

#[export] Hint Resolve preserves_config_state preserves_config_states
  preserves_validate_runtime preserves_validate_defconfig preserves_discover
  preserves_runtime_policy : frames.

(** ** Operations that depend on the tree only *)

Definition fs_only {A} (m : M A) : Prop :=
  ∀ w w2, w_fs w2 = w_fs w → m w2 = ((m w).1, w2).

Lemma fs_only_ret {A} (a : A) : fs_only (mret a).
Proof. done. Qed.

Lemma fs_only_raise {A} e : fs_only (@raise A e).
Proof. done. Qed.

Lemma fs_only_lift {A} (m : result A) : fs_only (lift m).
Proof. done. Qed.

Lemma fs_only_ask {A} (f : fsys → A) : fs_only (ask f).
Proof. intros w w2 H. unfold ask, gets. by rewrite H. Qed.

Lemma fs_only_bind {A B} (m : M A) (f : A → M B) :
  fs_only m → (∀ a, fs_only (f a)) → fs_only (m ≫= f).
Proof.
  intros Hm Hf w w2 H. rewrite !bind_eq. rewrite (Hm w w2 H).
  pose proof (Hm w w eq_refl) as Hw. destruct (m w) as [[a|e] w1]; [|done].
  injection Hw as ->. by apply Hf.
Qed.

Lemma fs_only_for_each {A} (l : list A) body :
  (∀ a, fs_only (body a)) → fs_only (for_each l body).
Proof.
  intros H. induction l as [|a l IH]; [apply fs_only_ret|].
  apply fs_only_bind; [apply H|intros _; exact IH].
Qed.

Lemma fs_only_stat_file p : fs_only (stat_file p).
Proof.
  apply fs_only_bind; [apply fs_only_ask|intros fs].
  repeat split_match; first [apply fs_only_raise | apply fs_only_ret].
Qed.

Lemma fs_only_read_bytes p : fs_only (read_bytes p).
Proof. apply fs_only_bind; [apply fs_only_stat_file|intros f; apply fs_only_ret]. Qed.

Lemma fs_only_read_text p : fs_only (read_text p).
Proof. apply fs_only_bind; [apply fs_only_read_bytes|intros f; apply fs_only_ret]. Qed.

Lemma fs_only_read p : fs_only (read p).
Proof.
  intros w w2 H. unfold read, catch. rewrite (fs_only_read_text p w w2 H).
  destruct (read_text p w) as [[t|[m|[] q|c]] w1]; reflexivity.
Qed.

#[export] Hint Resolve fs_only_ret fs_only_raise fs_only_lift fs_only_ask fs_only_read
  fs_only_read_bytes fs_only_read_text : frames.

Ltac fs_only :=
  repeat first
    [ solve [auto with frames]
    | apply fs_only_bind; [|intros ?]
    | apply fs_only_for_each; intros ?
    | match goal with
      | |- fs_only (match ?x with _ => _ end) => let E := fresh "E" in destruct x eqn:E
      | |- fs_only (raise_install _) => apply fs_only_raise
      | |- fs_only (when ?b _) => destruct b; unfold when
      end ].

Lemma fs_only_registration_sources ksu relatives :
  fs_only (registration_sources ksu relatives).
Proof. induction relatives as [|r relatives IH]; simpl; fs_only. Qed.
#[export] Hint Resolve fs_only_registration_sources : frames.

Lemma fs_only_runtime_policy l : fs_only (runtime_ksu_tail_policy l).
Proof.
  unfold runtime_ksu_tail_policy, validate_resukisu_runtime_lsm_hooks,
    resukisu_registration_sources.
  fs_only.
Qed.

Lemma fs_only_config_state p symbol : fs_only (config_state p symbol).
Proof. unfold config_state. fs_only. Qed.
#[export] Hint Resolve fs_only_config_state : frames.

Lemma fs_only_validate_defconfig p b : fs_only (validate_defconfig p b).
Proof. unfold validate_defconfig, require_symbol. fs_only. Qed.

(** ** Patches *)

(** [settles m]: when [m] succeeds in validation mode it has changed nothing, and on the same
    tree it succeeds and changes nothing in any mode. *)
Definition settles {A} (m : M A) : Prop :=
  ∀ w a w', w_validation_only w = true → m w = (Ok a, w') →
  w' = w ∧ ∀ w2, w_fs w2 = w_fs w → m w2 = (Ok a, w2).

Lemma settles_ret {A} (a : A) : settles (mret a).
Proof. by intros w b w' _ [= <- <-]. Qed.

Lemma settles_raise {A} e : settles (@raise A e).
Proof. by intros w b w' _ [=]. Qed.

Lemma settles_lift {A} (m : result A) : settles (lift m).
Proof. intros w b w' _. unfold lift. intros [= -> <-]. by split. Qed.

Lemma settles_ask {A} (f : fsys → A) : settles (ask f).
Proof. intros w b w' _ [= <- <-]. split; [done|]. intros w2 H. unfold ask, gets. by rewrite H. Qed.

Lemma settles_bind {A B} (m : M A) (f : A → M B) :
  settles m → (∀ a, settles (f a)) → settles (m ≫= f).
Proof.
  intros Hm Hf w b w' Hv H. minv H a w1 E; [|done].
  apply Hm in E as [-> Hm2]; [|done]. apply Hf in H as [-> Hf2]; [|done].
  split; [done|]. intros w2 Hw2. rewrite bind_eq, Hm2 by done. by apply Hf2.
Qed.

Lemma settles_when b m : settles m → settles (when b m).
Proof. destruct b; [done|]. intros _. apply settles_ret. Qed.

Lemma settles_of_fs {A} (m : M A) :
  preserves eq m → fs_only m → settles m.
Proof.
  intros Heq Hm w a w' _ H. split; [by symmetry; eapply Heq|].
  intros w2 Hw2. by rewrite (Hm w w2 Hw2), H.
Qed.

Lemma settles_read p : settles (read p).
Proof. apply settles_of_fs; [auto with frames typeclass_instances|apply fs_only_read]. Qed.

Lemma settles_read_text p : settles (read_text p).
Proof. apply settles_of_fs; [auto with frames typeclass_instances|apply fs_only_read_text]. Qed.

Lemma settles_write p s : settles (write p s).
Proof.
  unfold write. apply settles_bind; [apply settles_ask|intros fs].
  apply settles_bind.
  { destruct (exists_ fs p); [|apply settles_ret].
    apply settles_bind; [apply settles_read_text|intros; apply settles_ret]. }
  intros old. destruct (match old with Some t => _ | None => _ end); [apply settles_ret|].
  intros w a w' Hv. mstep. by rewrite Hv.
Qed.

#[export] Hint Resolve settles_ret settles_raise settles_lift settles_ask settles_read
  settles_write : frames.

Ltac settles :=
  repeat first
    [ solve [auto with frames]
    | apply settles_bind; [|intros ?]
    | apply settles_when
    | match goal with
      | |- settles (match ?x with _ => _ end) => let E := fresh "E" in destruct x eqn:E
      | |- settles (raise_install _) => apply settles_raise
      end ].

Lemma settles_write_new p o : settles (write_new p o).
Proof. unfold write_new. settles. Qed.

Lemma settles_patch_file p f : settles (patch_file p f).
Proof. unfold patch_file. settles. apply settles_write_new. Qed.

Lemma settles_inject p f s : settles (inject p f s).
Proof. unfold inject. settles. apply settles_write_new. Qed.

Lemma settles_with_include p : settles (with_include p).
Proof. unfold with_include. settles. Qed.

#[export] Hint Resolve settles_write_new settles_patch_file settles_inject
  settles_with_include : frames.

Lemma settles_common_header common module_root :
  settles (patch_common_header common module_root).
Proof. unfold patch_common_header. settles. Qed.

Lemma settles_kernel_hooks common : settles (patch_kernel_hooks common).
Proof.
  unfold patch_kernel_hooks, patch_seccomp, patch_namespace, patch_bind, patch_ptrace,
    patch_signal.
  settles.
Qed.

#[export] Hint Resolve settles_common_header settles_kernel_hooks : frames.

Lemma settles_patch_all l module_root : settles (patch_all l module_root).
Proof.
  unfold patch_all, patch_escape, patch_supercall_dispatch, patch_allowlist,
    patch_policy_lock_order, patch_policy_reapply, patch_sucompat_fail_closed,
    patch_resukisu_manual_fail_closed, patch_lsm_count.
  settles.
Qed.

(** ** Patches in validation mode leave the state equal, whatever they return *)

Lemma frame_write_new p o : preserves validation_frame (write_new p o).
Proof. unfold write_new. preserves. Qed.
#[export] Hint Resolve frame_write_new : frames.

Lemma frame_patch_file p f : preserves validation_frame (patch_file p f).
Proof. unfold patch_file. preserves. Qed.

Lemma frame_inject p f s : preserves validation_frame (inject p f s).
Proof. unfold inject. preserves. Qed.

Lemma frame_with_include p : preserves validation_frame (with_include p).
Proof. unfold with_include. preserves. Qed.
#[export] Hint Resolve frame_patch_file frame_inject frame_with_include : frames.

Lemma frame_common_header common module_root :
  preserves validation_frame (patch_common_header common module_root).
Proof. unfold patch_common_header. preserves. Qed.

Lemma frame_kernel_hooks common : preserves validation_frame (patch_kernel_hooks common).
Proof.
  unfold patch_kernel_hooks, patch_seccomp, patch_namespace, patch_bind, patch_ptrace,
    patch_signal.
  preserves.
Qed.
#[export] Hint Resolve frame_common_header frame_kernel_hooks : frames.

Lemma frame_patch_all l module_root : preserves validation_frame (patch_all l module_root).
Proof.
  unfold patch_all, patch_escape, patch_supercall_dispatch, patch_allowlist,
    patch_policy_lock_order, patch_policy_reapply, patch_sucompat_fail_closed,
    patch_resukisu_manual_fail_closed, patch_lsm_count.
  preserves.
Qed.

Lemma validating_same_state {A} (m : M A) :
  preserves validation_frame m → preserves same_state (validating m).
Proof.
  intros Hm w r w'. unfold validating.
  destruct (m (set_validation true w)) as [r1 w1] eqn:E. intros [= <- <-].
  apply Hm in E. specialize (E eq_refl). unfold same_state in *. simpl in *. intuition.
Qed.

Lemma preserves_verify l module_root d : preserves same_state (verify l module_root d).
Proof.
  assert (preserves same_state (validate_patch_sources l module_root)) as Hv
    by apply validating_same_state, frame_patch_all.
  unfold verify, check_kbuild, check_kconfig, check_needles, check_include, check_lsm_count,
    check_sucompat, check_source, check_same, report, needle_missing.
  preserves_with ltac:(exact Hv).
Qed.
