(* ===== verification/AuditFacts.v ===== *)
(** * The audit of the run-time hooks

    When a ReSukiSU tree passes the audit, its hook file has the one accepted shape and two
    registrations, and no other source that the audit reads registers security hooks, unless
    a line continuation splits the name where the quick search of the raw text looks for it. *)

From Stdlib Require Import Ascii.
From stdpp Require Import base list strings gmap.
From S2P Require Import Prelude PyText PyRegex RegexFacts PyResult Scanner CLexer Continuations.
From S2P Require Import CPreproc World FsFacts.
From S2P Require Import Transaction Kbuild Discovery Resukisu KsuPatches KernelHooks Sources.
From S2P Require Import Installer Example Frames FileFacts ReadOnly.

#[local] Opaque walk.

(** ** Texts without continuations *)

(** No backslash stands before the end of a line. *)
Definition no_continuation (s : text) : Prop :=
  contains [backslash; nl] s = false ∧ contains [backslash; cr] s = false.

(** What is found in a masked text was there before, unless it has blanks. *)
Lemma masks_contains s m p :
  masks s m → Forall (λ c, c ≠ blank) p → contains p m = true → contains p s = true.
Proof.
  intros Hm Hp (x & y & ->)%contains_spec. unfold masks in Hm.
  apply Forall2_app_inv_r in Hm as (x' & m' & _ & Hm & ->).
  apply Forall2_app_inv_r in Hm as (p' & y' & Hpp & _ & ->).
  assert (p' = p) as ->; [|apply contains_spec; eauto].
  clear -Hp Hpp. induction Hpp as [|c d p' p Hc _ IH]; [done|]. inversion Hp; subst.
  destruct Hc as [->|[-> _]]; [|done]. by rewrite IH.
Qed.

Lemma not_contains_masked s m p :
  masks s m → Forall (λ c, c ≠ blank) p → contains p s = false → contains p m = false.
Proof.
  intros Hm Hp Hs. apply not_true_iff_false. intros Hc. apply not_true_iff_false in Hs.
  by eapply Hs, masks_contains.
Qed.

Lemma contains_suffix p i s : contains p (drop i s) = true → contains p s = true.
Proof. intros H. rewrite <- (take_drop i s). by apply contains_app_r. Qed.

Lemma collapse_nothing s : no_continuation s → collapse_c_line_continuations s = s.
Proof.
  intros [Hn Hr]. unfold collapse_c_line_continuations. cbn [collapse_loop].
  assert (re_search continuation_pattern s = None) as ->; [|done].
  apply (search_none _ _ match_continuation continuation_bounds). intros i.
  assert (∀ c rest, starts_with (backslash :: c :: rest) (drop i s) = true →
                    contains [backslash; c] s = true) as Hc.
  { intros c rest [t Ht]%starts_with_spec. apply (contains_suffix _ i), contains_spec.
    exists [], (rest ++ t). rewrite Ht. done. }
  unfold continuation_length.
  destruct (starts_with [backslash; cr; nl] _) eqn:E1; [apply Hc in E1; congruence|].
  destruct (starts_with [backslash; nl] _) eqn:E2; [apply Hc in E2; congruence|].
  destruct (starts_with [backslash; cr] _) eqn:E3; [apply Hc in E3; congruence|done].
Qed.

(** A pattern that reads [p] finds nothing where [p] is not. *)
Lemma finditer_absent r p s :
  (∀ c m, match_here r c = Some m → contains p (c_rest c) = true) →
  contains p s = false → finditer r s = [].
Proof.
  intros Hr Hs. unfold finditer.
  assert (∀ fuel c, contains p (c_rest c) = false → scan fuel r c = []) as H; [|by apply H].
  induction fuel as [|fuel IH]; intros c Hc; [done|]. cbn [scan].
  destruct (match_here r c) as [m|] eqn:E; [apply Hr in E; congruence|].
  destruct (c_rest c) as [|d rest] eqn:Ec; [done|]. apply IH.
  unfold step. rewrite Ec. cbn [c_rest]. apply not_true_iff_false. intros H.
  apply not_true_iff_false in Hc. apply Hc. by apply (contains_app_r _ [d]).
Qed.

Definition registration_word : text := py "security_add_".

Lemma word_then_read p rs c m :
  match_here (seqs (RWordB :: lit p :: rs)) c = Some m → contains p (c_rest c) = true.
Proof.
  unfold match_here. intros (c' & g' & H & _)%run_sound. unfold seqs in H. cbn [foldr] in H.
  apply matches_seq in H as (c1 & g1 & H1 & H). inversion H1; subst.
  apply matches_seq in H as (c2 & g2 & [_ (Hw & _)]%matches_lit & _).
  apply contains_spec. exists [], (c_rest c2). exact Hw.
Qed.

(** Without a trace of the name and without continuations there is no registration. *)
Lemma no_registration raw :
  contains registration_word raw = false → no_continuation raw → registration_count raw = Ok 0.
Proof.
  intros Hw [Hn Hr]. pose proof (mask_c_comments_and_literals_masks raw) as Hm.
  unfold registration_count. rewrite collapse_nothing.
  2: { split; (eapply not_contains_masked; [exact Hm| |done]); repeat constructor; discriminate. }
  set (code := mask_c_comments_and_literals raw) in *.
  assert (contains registration_word code = false) as Hc.
  { eapply not_contains_masked; [exact Hm| |done]. apply Forall_forall. intros c Hin ->.
    revert Hin. apply (bool_decide_unpack _). vm_compute. exact I. }
  assert (contains (py "security_add_hooks") code = false) as Hh.
  { apply not_true_iff_false. intros H. apply not_true_iff_false in Hc. apply Hc.
    eapply contains_trans; [|exact H]. vm_compute. reflexivity. }
  unfold re_search, findall.
  rewrite (finditer_absent token_paste_pattern registration_word code);
    [|intros c m; apply word_then_read|exact Hc].
  by rewrite (finditer_absent registration_pattern (py "security_add_hooks") code);
    [|intros c m; apply word_then_read|exact Hh].
Qed.

(** ** The list of the audit *)

(** What the audit counts in a file: none where the quick search of the raw text finds no
    trace of a registration. *)
Definition quick_count (w : world) (p : path) (n : nat) : Prop :=
  ∃ raw, read_bytes p w = (Ok raw, w) ∧
  if contains registration_word raw then registration_count raw = Ok n else n = 0.

(** The list that the audit computes is that of the files with registrations. *)
Definition lists (w : world) (ksu : path) (relatives : list path) (sources : list (path * nat)) :=
  (∀ relative, relative ∈ relatives → is_audited (w_fs w) ksu relative = true →
     ∃ n, quick_count w (ksu ++ relative) n ∧ (n = 0 ∨ (ksu ++ relative, n) ∈ sources)) ∧
  ∀ p n, (p, n) ∈ sources → quick_count w p n.

Lemma lists_cons w ksu relative relatives sources found :
  lists w ksu relatives found →
  (∀ p n, (p, n) ∈ sources ↔
     (p, n) ∈ found ∨ (n ≠ 0 ∧ p = ksu ++ relative ∧ quick_count w p n ∧
                       is_audited (w_fs w) ksu relative = true)) →
  (is_audited (w_fs w) ksu relative = true → ∃ n, quick_count w (ksu ++ relative) n) →
  lists w ksu (relative :: relatives) sources.
Proof.
  intros [Hf1 Hf2] Hs Hr. split.
  - intros r [->|Hin]%elem_of_cons Ha.
    + destruct (Hr Ha) as [n Hn]. exists n. split; [done|].
      destruct (decide (n = 0)) as [|Hne]; [by left|right]. apply Hs. auto.
    + destruct (Hf1 r Hin Ha) as (n & Hn & [?|?]); exists n; (split; [done|]); [by left|right].
      apply Hs. by left.
  - intros p n [Hp|(_ & _ & Hp & _)]%Hs; [by apply Hf2|done].
Qed.

Lemma quick_count_unique w p n m : quick_count w p n → quick_count w p m → n = m.
Proof.
  intros (raw & Hr & Hn) (raw' & Hr' & Hm). assert (raw = raw') as <- by congruence.
  destruct (contains _ raw); congruence.
Qed.

Lemma registration_sources_ok ksu relatives w sources w' :
  registration_sources ksu relatives w = (Ok sources, w') →
  w' = w ∧ lists w ksu relatives sources.
Proof.
  revert sources w'. induction relatives as [|relative relatives IH]; intros sources w' H;
    cbn [registration_sources] in H.
  { injection H as <- <-. split; [done|]. split; [by intros r ?%not_elem_of_nil|].
    by intros p n ?%not_elem_of_nil. }
  rewrite ask_bind in H. unfold id in H.
  destruct (is_audited (w_fs w) ksu relative) eqn:Ea; cbn [negb] in H.
  2: { destruct (IH _ _ H) as [-> Hl]. split; [done|].
       eapply lists_cons; [exact Hl| |congruence]. intros p n. intuition congruence. }
  rewrite bind_eq in H. destruct (read_bytes _ w) as [[raw|e] w1] eqn:Er; [|done].
  assert (w = w1) as <- by (by eapply (preserves_read_bytes eq)).
  destruct (contains (py "security_add_") raw) eqn:Ec; cbn [negb] in H.
  - rewrite lift_bind in H. destruct (registration_count raw) as [k|] eqn:Ek; [|done].
    assert (quick_count w (ksu ++ relative) k) as Hk by (exists raw; unfold registration_word; by rewrite Ec).
    minv H others w1 Ef; [|done]. injection H as Hs <-. destruct (IH _ _ eq_refl) as [-> Hl].
    split; [done|]. eapply lists_cons; [exact Hl| |by exists k]. intros p n. rewrite <- Hs.
    assert (p = ksu ++ relative → quick_count w p n → n = k) as Hu
      by (intros ->; intros Hn; by eapply quick_count_unique).
    destruct (Nat.eqb_spec k 0) as [->|Hne].
    + intuition congruence.
    + rewrite elem_of_cons. split; [intros [[= -> ->]|?]; auto|].
      intros [?|(_ & -> & Hn & _)]; [by right|left]. by rewrite Hu.
  - assert (quick_count w (ksu ++ relative) 0) as Hk by (exists raw; unfold registration_word; by rewrite Ec).
    destruct (IH _ _ H) as [-> Hl]. split; [done|].
    eapply lists_cons; [exact Hl| |by exists 0]. intros p n.
    assert (p = ksu ++ relative → quick_count w p n → n = 0) as Hu
      by (intros ->; intros Hn; by eapply quick_count_unique).
    intuition congruence.
Qed.

(** What the audit establishes of a tree: the shape of the hook file, its two registrations,
    and that the other audited sources without continuations have none. *)
Record audited (w : world) (ksu : path) : Prop := Audited {
  au_shape : ∃ s, text_of w (hook_file ksu) s ∧
                  validate_hook_shape (path_text (hook_file ksu)) s = Ok tt;
  au_hook_file : ∃ raw, read_bytes (hook_file ksu) w = (Ok raw, w) ∧ registration_count raw = Ok 2;
  au_others relative : relative ∈ rglob (w_fs w) ksu → is_audited (w_fs w) ksu relative = true →
    ksu ++ relative ≠ hook_file ksu →
    ∃ raw, read_bytes (ksu ++ relative) w = (Ok raw, w) ∧
           (no_continuation raw → registration_count raw = Ok 0)
}.

Lemma validate_audited ksu w w' :
  validate_resukisu_runtime_lsm_hooks ksu w = (Ok tt, w') → audited w ksu.
Proof.
  unfold validate_resukisu_runtime_lsm_hooks. intros H.
  apply read_bind_ok in H as (s & Hs & H). rewrite lift_bind in H.
  destruct (validate_hook_shape _ s) as [[]|] eqn:Ev; [|done].
  minv H sources w1 E; [|done]. unfold resukisu_registration_sources in E.
  rewrite ask_bind in E. destruct (bool_decide (sources = _)) eqn:Eb; [|done].
  apply bool_decide_eq_true in Eb as ->.
  destruct (registration_sources_ok _ _ _ _ _ E) as (-> & Hall & Hreg). split.
  - by exists s.
  - destruct (Hreg (hook_file ksu) 2) as (raw & Hr & Hn); [by left|]. exists raw. split; [done|].
    by destruct (contains registration_word raw).
  - intros relative Hin Ha Hne.
    destruct (Hall relative Hin Ha) as (n & (raw & Hr & Hn) & Hcase). exists raw. split; [done|].
    assert (n = 0) as ->.
    { destruct Hcase as [|Hp]; [done|]. by apply list_elem_of_singleton in Hp as [= ? _]. }
    destruct (contains registration_word raw) eqn:Ec; [done|]. by apply no_registration.
Qed.

(** C14: the policy for the run-time tail of the KernelSU hooks.  On a supported kernel line,
    [runtime_ksu_tail_policy] answers "never" exactly for the variants other than ReSukiSU
    and for the line 6.12.  On a ReSukiSU tree before that line, an answer is the ReSukiSU
    policy, and then the tree has passed the audit: the hook file has the one accepted shape
    and two registrations, and no other audited source below the tree has any, as far as
    it has no line continuations. *)
Theorem runtime_policy_audited l w :
  l_version l ∈ SUPPORTED_KERNELS →
  (runtime_ksu_tail_policy l w = (Ok RUNTIME_KSU_TAIL_NEVER, w) ↔
     l_variant l ≠ py "resukisu" ∨ l_version l = py "6.12") ∧
  (∀ policy w', l_variant l = py "resukisu" → l_version l ≠ py "6.12" →
     runtime_ksu_tail_policy l w = (Ok policy, w') →
     w' = w ∧ policy = RUNTIME_KSU_TAIL_RESUKISU_SUSFS ∧ audited w (l_ksu l)).
Proof.
  intros Hv.
  assert (tail_supported_version (l_version l) = Ok (negb (text_eqb (l_version l) (py "6.12"))))
    as Ht.
  { revert Hv. unfold SUPPORTED_KERNELS. rewrite !elem_of_cons, elem_of_nil.
    intros [->|[->|[->|[->|[->|[]]]]]]; vm_compute; reflexivity. }
  pose proof (λ policy w', preserves_runtime_policy eq l w (Ok policy) w') as Heq.
  unfold runtime_ksu_tail_policy in *.
  destruct (text_eqb (l_variant l) (py "resukisu")) eqn:Er; cbn [negb] in *.
  2: { apply text_eqb_neq in Er. split; [split; [by left|done]|by intros ? ? ?]. }
  apply text_eqb_eq in Er. rewrite lift_bind, Ht.
  destruct (text_eqb (l_version l) (py "6.12")) eqn:E12; cbn [negb] in *.
  { apply text_eqb_eq in E12. split; [split; [by right|done]|by intros ? ? ? ?]. }
  apply text_eqb_neq in E12. split.
  - split; [|by intros [?|?]]. intros H. minv H u w1 E; [|done]. injection H as H _.
    exfalso. revert H. vm_compute. discriminate.
  - intros policy w' _ _ H. split.
    { symmetry. apply (Heq policy). by rewrite lift_bind, Ht. }
    minv H u w1 E; [|done]. injection H as <- <-. destruct u.
    split; [done|by eapply validate_audited].
Qed.

Lemma runtime_policy_audited_witness :
  let l := Layout sample_root sample_common sample_ksu (py "resukisu") (py "6.6") in
  let w := sample_world (sample_tree (py "resukisu") (py "6.6")) in
  let run := runtime_ksu_tail_policy l w in
  run.1 = Ok RUNTIME_KSU_TAIL_RESUKISU_SUSFS ∧ audited w (l_ksu l).
Proof.
  intros l w run. assert (run.1 = Ok RUNTIME_KSU_TAIL_RESUKISU_SUSFS) as Hr
    by (vm_compute; reflexivity).
  split; [exact Hr|].
  destruct (runtime_policy_audited l w) as [_ H].
  - apply (bool_decide_unpack _). vm_compute. exact I.
  - apply (H RUNTIME_KSU_TAIL_RESUKISU_SUSFS run.2);
      [reflexivity|vm_compute; discriminate|rewrite <- Hr; apply surjective_pairing].
Defined.

(** ** A registration that the audit does not see *)

(** A source whose registration is split by a line continuation. *)
Definition split_registration : text :=
  py "void more(void)\n{\n\tsecurity_\\\nadd_hooks(more_hooks, 1, ABK);\n}\n".

Definition split_tree : fsys :=
  put (sample_ksu ++ ["feature"; "more.c"])
      (Some (File (FileData split_registration 0 default_mode)))
      (sample_tree (py "resukisu") (py "6.6")).

(** The audit searches the raw text for `security_add_` before it joins the continued
    lines.  A source that registers hooks with the name split by a continuation has one
    registration by the audit's own count, but the search skips it: the audit accepts the
    tree with the second source of registrations. *)
Example split_registration_missed :
  registration_count split_registration = Ok 1 ∧
  is_audited split_tree sample_ksu ["feature"; "more.c"] = true ∧
  (validate_resukisu_runtime_lsm_hooks sample_ksu (sample_world split_tree)).1 = Ok tt.
Proof. split_and!; vm_compute; reflexivity. Qed.
