(* ===== verification/Atomicity.v ===== *)
(** * A failing installation leaves the tree as it was

    The body of [install] is cut at the only place where it creates a directory of its own:
    what precedes is [safe] with nothing known, what follows is [safe] once the directory is
    there. *)

From Stdlib Require Import Ascii.
From stdpp Require Import base list strings gmap.
From S2P Require Import Prelude PyText PyRegex PyResult CLexer CPreproc CScope World FsFacts.
From S2P Require Import Transaction Rollback Kbuild Defconfig Discovery Resukisu KsuPatches.
From S2P Require Import KernelHooks Sources Installer Frames ReadOnly.

#[local] Opaque walk.

(** The names of the files that [copy_sources] may remove. *)
Definition removable_name (n : string) : bool :=
  is_artifact_name n || has_name LEGACY_SOURCE_NAMES n.

(** ** Exceptions of the pure parts *)

Lemma no_os_unless_installed installed edit :
  no_os installed → no_os edit → no_os (unless_installed installed edit).
Proof. intros. unfold unless_installed. no_os. Qed.

Lemma no_os_add_include s include path : no_os (add_include s include path).
Proof. unfold add_include. no_os. Qed.

#[export] Hint Resolve no_os_unless_installed no_os_add_include : no_os.

Definition patch_no_os (f : patch) : Prop := ∀ path s, no_os (f path s).

Ltac patch_no_os f := intros path s; unfold f; no_os.

Lemma no_os_escape : patch_no_os escape_patch.
Proof. patch_no_os escape_patch. Qed.
Lemma no_os_dispatch : patch_no_os dispatch_patch.
Proof. patch_no_os dispatch_patch. Qed.
Lemma no_os_allowlist : patch_no_os allowlist_patch.
Proof. intros path s. unfold allowlist_patch, allowlist_installed. no_os. Qed.
Lemma no_os_lock_order : patch_no_os lock_order_patch.
Proof. patch_no_os lock_order_patch. Qed.
Lemma no_os_reapply : patch_no_os reapply_patch.
Proof. patch_no_os reapply_patch. Qed.
Lemma no_os_sucompat : patch_no_os sucompat_patch.
Proof. patch_no_os sucompat_patch. Qed.
Lemma no_os_manual : patch_no_os manual_patch.
Proof. patch_no_os manual_patch. Qed.
Lemma no_os_lsm_count : patch_no_os lsm_count_patch.
Proof. patch_no_os lsm_count_patch. Qed.
Lemma no_os_seccomp : patch_no_os seccomp_patch.
Proof. patch_no_os seccomp_patch. Qed.
Lemma no_os_mount_privilege : patch_no_os mount_privilege_patch.
Proof. patch_no_os mount_privilege_patch. Qed.
Lemma no_os_legacy_bind : patch_no_os legacy_bind_patch.
Proof. patch_no_os legacy_bind_patch. Qed.
Lemma no_os_bind_patch : patch_no_os bind_patch.
Proof. patch_no_os bind_patch. Qed.
Lemma no_os_umount_privilege : patch_no_os umount_privilege_patch.
Proof. patch_no_os umount_privilege_patch. Qed.
Lemma no_os_mount_result : patch_no_os mount_result_patch.
Proof. patch_no_os mount_result_patch. Qed.
Lemma no_os_umount_validate : patch_no_os umount_validate_patch.
Proof. patch_no_os umount_validate_patch. Qed.
Lemma no_os_ptrace : patch_no_os ptrace_patch.
Proof. patch_no_os ptrace_patch. Qed.
Lemma no_os_signal : patch_no_os signal_patch.
Proof. patch_no_os signal_patch. Qed.

#[export] Hint Resolve no_os_escape no_os_dispatch no_os_allowlist no_os_lock_order
  no_os_reapply no_os_sucompat no_os_manual no_os_lsm_count no_os_seccomp
  no_os_mount_privilege no_os_legacy_bind no_os_bind_patch no_os_umount_privilege
  no_os_mount_result no_os_umount_validate no_os_ptrace no_os_signal : no_os.

Lemma no_os_kbuild_block policy : no_os (kbuild_block policy).
Proof. unfold kbuild_block. no_os. Qed.

Lemma no_os_conditional_depth opens closes error lines depth :
  no_os (conditional_depth opens closes error lines depth).
Proof. revert depth. induction lines; intros depth; simpl; no_os. Qed.
#[export] Hint Resolve no_os_kbuild_block no_os_conditional_depth : no_os.

Lemma no_os_installed_kbuild_block path s : no_os (installed_kbuild_block path s).
Proof.
  unfold installed_kbuild_block, validate_kbuild_directives, make_conditional_depth,
    kbuild_conflict.
  no_os.
Qed.

Lemma no_os_kconfig_depth path s i : no_os (kconfig_condition_depth path s i).
Proof. unfold kconfig_condition_depth. no_os. Qed.
#[export] Hint Resolve no_os_installed_kbuild_block no_os_kconfig_depth : no_os.

Lemma no_os_installed_kconfig_block path s : no_os (installed_kconfig_block path s).
Proof. unfold installed_kconfig_block, kconfig_conflict. no_os. Qed.
#[export] Hint Resolve no_os_installed_kconfig_block : no_os.

(** ** The operations of the body *)

Section body.
Context (fs0 : fsys).
Abbreviation safe := (safe fs0 removable_name).

Lemma safe_write_new ds p o : parent p ∈ ds → safe ds (write_new p o).
Proof. intros Hp. destruct o; [by apply safe_write|apply safe_ret]. Qed.

Lemma safe_inject ds p f s : parent p ∈ ds → patch_no_os f → safe ds (inject p f s).
Proof.
  intros Hp Hf. apply safe_bind; [apply safe_lift, Hf|intros o; by apply safe_write_new].
Qed.

Lemma safe_patch_file ds p f : patch_no_os f → safe ds (patch_file p f).
Proof.
  intros Hf. apply safe_read_bind. intros s. apply (safe_inject (parent p :: ds) p f s).
  - by left.
  - done.
Qed.

Lemma with_include_bind {B} p (k : text → M B) w :
  (with_include p ≫= k) w =
  (s ← read p;
   normalized ← lift (add_include s common_include (path_text p));
   when (negb (text_eqb normalized s)) (write p normalized) ;; k normalized) w.
Proof.
  unfold with_include. rewrite bind_assoc. apply bind_ext. intros s w1.
  rewrite bind_assoc. apply bind_ext. intros n w2. rewrite bind_assoc. done.
Qed.

Lemma safe_with_include {B} ds p (k : text → M B) :
  (∀ s, safe (parent p :: ds) (k s)) → safe ds (with_include p ≫= k).
Proof.
  intros Hk w tx r w' Htx Hinv Hset Hds H. rewrite with_include_bind in H.
  eapply safe_read_bind; [|exact Htx|exact Hinv|exact Hset|exact Hds|exact H].
  intros s. apply safe_bind; [apply safe_lift; auto with no_os|intros n].
  apply safe_bind; [apply safe_when, safe_write; by left|intros _; apply Hk].
Qed.

Lemma safe_patch_bind ds p : safe ds (patch_bind p).
Proof.
  apply safe_read_bind. intros s.
  apply safe_bind; [apply safe_lift, no_os_legacy_bind|intros o].
  apply safe_bind; [apply safe_write_new; by left|intros _].
  apply safe_inject; [by left|auto with no_os].
Qed.

Lemma safe_patch_namespace ds p : safe ds (patch_namespace p).
Proof.
  apply safe_with_include. intros s.
  apply safe_bind; [apply safe_inject; [by left|auto with no_os]|intros _].
  apply safe_bind; [apply safe_patch_bind|intros _].
  apply safe_bind; [apply safe_patch_file; auto with no_os|intros _].
  apply safe_bind; [apply safe_patch_file; auto with no_os|intros _].
  apply safe_patch_file; auto with no_os.
Qed.

Lemma safe_include_inject ds p f :
  patch_no_os f → safe ds (s ← with_include p; inject p f s).
Proof. intros Hf. apply safe_with_include. intros s. apply safe_inject; [by left|done]. Qed.

Lemma safe_kernel_hooks ds common : safe ds (patch_kernel_hooks common).
Proof.
  unfold patch_kernel_hooks.
  apply safe_bind; [exact (safe_include_inject ds _ _ no_os_seccomp)|intros _].
  apply safe_bind; [apply safe_patch_namespace|intros _].
  apply safe_bind; [exact (safe_include_inject ds _ _ no_os_ptrace)|intros _].
  exact (safe_include_inject ds _ _ no_os_signal).
Qed.

Lemma safe_install_kbuild ds p block : safe ds (install_kbuild p block).
Proof.
  apply safe_read_bind. intros s.
  apply safe_bind; [apply safe_lift; unfold validate_kbuild_directives; no_os|intros _].
  simpl. destruct (negb _); [apply safe_write; by left|].
  apply safe_bind; [apply safe_lift; auto with no_os|intros i].
  destruct (text_eqb _ _); [apply safe_ret|apply safe_write; by left].
Qed.

Lemma safe_insert_before_last ds p needle block :
  safe ds (insert_before_last p needle block).
Proof.
  apply safe_read_bind. intros s. destruct (_ || _).
  - apply safe_bind; [apply safe_lift; auto with no_os|intros _; apply safe_ret].
  - destruct (List.rev _) as [|m ms]; [apply safe_raise; done|].
    apply safe_bind; [apply safe_lift; auto with no_os|intros _].
    apply safe_write. by left.
Qed.

Lemma safe_common_header ds common module_root :
  parent (common_header common) ∈ ds →
  safe ds (patch_common_header common module_root).
Proof.
  intros Hp. apply safe_bind; [apply safe_gets|intros fs].
  apply safe_bind.
  { destruct (exists_ fs _); [|apply safe_ret].
    apply safe_read_bind. intros s. apply safe_ret. }
  intros [|]; [by apply safe_raise|].
  apply safe_read_bind. intros s. apply safe_write. by right.
Qed.

Lemma safe_patch_all ds l module_root :
  parent (common_header (l_common l)) ∈ ds → safe ds (patch_all l module_root).
Proof.
  intros Hp. unfold patch_all.
  do 5 (apply safe_bind; [apply safe_patch_file; auto with no_os|intros _]).
  do 2 (apply safe_bind; [apply safe_when, safe_patch_file; auto with no_os|intros _]).
  apply safe_bind; [by apply safe_common_header|intros _].
  apply safe_bind; [apply safe_when, safe_patch_file; auto with no_os|intros _].
  apply safe_kernel_hooks.
Qed.

(** ** [copy_sources] *)

Lemma safe_classify ds names entries : safe ds (classify_existing names entries).
Proof.
  induction entries as [|p entries IH]; simpl; [apply safe_ret|].
  apply safe_bind; [apply safe_gets|intros fs].
  repeat match goal with
  | |- safe _ (refuse _ _) => by apply safe_raise
  | |- safe _ (if ?b then _ else _) => destruct b
  | |- safe _ (read _ ≫= _) =>
      apply safe_bind; [apply safe_read|intros s]
  | |- safe _ (classify_existing _ _ ≫= _) => apply safe_bind; [exact IH|intros found]
  | |- safe _ (mret _) => apply safe_ret
  | _ => exact IH
  end.
Qed.

Lemma safe_read_sources ds source names : safe ds (read_sources source names).
Proof.
  induction names as [|n names IH]; simpl; [apply safe_ret|].
  apply safe_bind; [apply safe_read|intros s].
  apply safe_bind; [exact IH|intros t; apply safe_ret].
Qed.

Lemma safe_any_changed ds target texts : safe ds (any_changed target texts).
Proof.
  induction texts as [|[n t] texts IH]; simpl; [apply safe_ret|].
  apply safe_bind; [apply safe_gets|intros fs].
  destruct (negb _); [apply safe_ret|].
  apply safe_bind; [apply safe_read|intros s]. destruct (negb _); [apply safe_ret|exact IH].
Qed.

Lemma safe_survey ds target names : safe ds (survey_target target names).
Proof.
  apply safe_bind; [apply safe_gets|intros fs]. destruct (is_dir fs target); [|apply safe_ret].
  apply safe_bind; [apply safe_gets|intros entries; apply safe_classify].
Qed.

Lemma safe_write_source ds source target nt :
  target ∈ ds → safe ds (write_source source target nt).
Proof.
  intros Ht. unfold write_source. destruct (negb _); [by apply safe_raise|].
  apply safe_write. by rewrite parent_snoc.
Qed.
End body.

(** The entries that [copy_sources] removes have names that may be removed. *)
Definition removable_entries (found : list path * list path) : Prop :=
  Forall (λ p, removable_name (name p) = true) found.1 ∧
  Forall (λ p, removable_name (name p) = true) found.2.

Lemma classify_removable names entries w found w' :
  classify_existing names entries w = (Ok found, w') → removable_entries found.
Proof.
  revert w found w'. induction entries as [|p entries IH]; intros w found w';
    cbn [classify_existing].
  { intros [= <- <-]. split; constructor. }
  rewrite ask_bind. unfold id.
  destruct (is_symlink _ p); [done|]. destruct (is_dir _ p); [done|].
  destruct (is_file _ p); cbn [negb]; [|done].
  destruct (has_name names (name p)).
  { intros H. minv H s w1 E; [|done]. destruct (contains MARKER s); [|done]. by eapply IH. }
  destruct (has_name LEGACY_SOURCE_NAMES (name p)) eqn:El.
  { intros H. minv H s w1 E; [|done]. destruct (negb _); [done|].
    minv H f w2 E2; [|done]. injection H as <- <-. apply IH in E2 as [H1 H2].
    split; [done|]. constructor; [|done]. unfold removable_name. rewrite El. apply orb_true_r. }
  destruct (trusted_kbuild_artifact p) eqn:Et; cbn [negb]; [|done].
  intros H. minv H f w2 E2; [|done]. injection H as <- <-. apply IH in E2 as [H1 H2].
  split; [|done]. constructor; [|done]. unfold removable_name. unfold trusted_kbuild_artifact in Et.
  by rewrite Et.
Qed.

Lemma survey_removable target names w found w' :
  survey_target target names w = (Ok found, w') → removable_entries found.
Proof.
  unfold survey_target. rewrite ask_bind. unfold id.
  destruct (is_dir _ target); [|intros [= <- <-]; split; constructor].
  rewrite ask_bind. apply classify_removable.
Qed.

(** ** The whole body *)

Section compose.
Context (fs0 : fsys).
Abbreviation safe := (safe fs0 removable_name).
Abbreviation inv := (tx_inv fs0 removable_name).
Abbreviation outcome := (outcome fs0 removable_name).

(** The state in which an operation of the transaction starts. *)
Record ready (tx : transaction) (w : world) : Prop := Ready {
  rd_tx : w_tx w = Some tx;
  rd_inv : inv (w_fs w) tx;
  rd_settled : settled fs0 removable_name (w_fs w) tx
}.

Definition runs {A} (tx : transaction) (w : world) (m : M A) : Prop :=
  ∀ r w', m w = (r, w') → outcome False tx r w w'.

Definition dirs (ds : list path) (w : world) : Prop :=
  Forall (λ d, is_dir (w_fs w) d = true) ds.

Lemma outcome_weaken {A} tx (r : result A) w w' keep :
  outcome keep tx r w w' → outcome False tx r w w'.
Proof. intros (tx1 & ? & ? & ? & ? & ? & _). exists tx1. by split_and!. Qed.

Lemma runs_safe {A} ds tx w (m : M A) :
  safe ds m → ready tx w → dirs ds w → runs tx w m.
Proof.
  intros Hm [Htx Hinv Hset] Hd r w' H. eapply outcome_weaken. by eapply (Hm w tx).
Qed.

Lemma runs_raise {A} tx w e : no_os (@Err A e) → ready tx w → runs tx w (@raise A e).
Proof.
  intros He Hr. eapply (runs_safe []); [by apply safe_raise|done|constructor].
Qed.

(** An operation with an outcome, followed by one that runs from the state it leaves. *)
Lemma runs_bind {A B} ds tx w (m : M A) (f : A → M B) (keep : Prop) :
  (∀ r w1, m w = (r, w1) → outcome keep tx r w w1) → ready tx w → dirs ds w →
  (∀ a w1 tx1, m w = (Ok a, w1) → ready tx1 w1 → (keep → tx_missing tx1 = tx_missing tx) →
               dirs ds w1 → runs tx1 w1 (f a)) →
  runs tx w (m ≫= f).
Proof.
  intros Hm [Htx Hinv Hset] Hds Hf r w' H. minv H a w1 E.
  - destruct (Hm _ _ eq_refl) as (tx1 & Htx1 & Hinv1 & Hset1 & Hg1 & [Hf1 He1] & Hk1).
    destruct (Hf a w1 tx1) with (r := r) (w' := w')
      as (tx2 & Htx2 & Hinv2 & Hset2 & Hg2 & [Hf2 He2] & _);
      [done|by split; auto|done|exact (safe_dirs_kept _ _ _ _ _ _ _ Hinv Hinv1 Hg1 Hds)|done|].
    exists tx2. split_and!; [done..|by eapply dirs_grow_trans|by split; auto|done].
  - injection H as <- <-.
    destruct (Hm _ _ eq_refl) as (tx1 & Htx1 & Hinv1 & Hset1 & Hg1 & [Hf1 He1] & Hk1).
    exists tx1. split_and!; [done..| |done]. split; [done|]. intros p [= ->]. by eapply He1.
Qed.

Lemma runs_bind_safe {A B} ds tx w (m : M A) (f : A → M B) :
  safe ds m → ready tx w → dirs ds w →
  (∀ a w1 tx1, m w = (Ok a, w1) → ready tx1 w1 → tx_missing tx1 = tx_missing tx →
               dirs ds w1 → runs tx1 w1 (f a)) →
  runs tx w (m ≫= f).
Proof.
  intros Hm Hr Hds Hf. eapply (runs_bind ds tx w m f True); [|done|done|].
  - intros r w1 E. destruct Hr. by eapply Hm.
  - intros a w1 tx1 ? ? Hk. apply Hf; auto.
Qed.

(** While nothing was missing, the directories are those of the start. *)
Lemma dirs_of_start tx w p :
  inv (w_fs w) tx → tx_missing tx = [] → is_dir (w_fs w) p = true → is_dir fs0 p = true.
Proof.
  intros Hinv Hm. rewrite !is_dir_stat. unfold stat. rewrite (inv_loc _ _ _ _ Hinv).
  destruct (loc fs0 p) as [q|]; [|done]. intros Hd.
  pose proof (inv_nodes _ _ _ _ Hinv q) as H. rewrite Hm in H. unfold node_ok in H.
  destruct (first_record _ _ q) as [[f|]|].
  - destruct H as [_ [[? _]|[f' ?]]]; congruence.
  - destruct H as [_ [?|[f' ?]]]; congruence.
  - destruct H as [H|(_ & _ & c & Hc & _)]; [congruence|by inversion Hc].
Qed.

Lemma target_ancestors_ok tx w ksu :
  inv (w_fs w) tx → tx_missing tx = [] → is_dir (w_fs w) ksu = true →
  ancestors_ok fs0 removable_name (w_fs w) tx (sandbox_dir ksu).
Proof.
  intros Hinv Hm Hk c Hc. split.
  - intros Hd. left. by eapply dirs_of_start.
  - apply prefix_snoc_cases in Hc as [->|Hc].
    + right. unfold sandbox_dir. rewrite name_snoc. by vm_compute.
    + left. eapply exists_prefix_dir; [apply Hinv|exact Hk|done].
Qed.

Lemma copy_sources_runs tx w ksu module_root :
  ready tx w → tx_missing tx = [] → is_dir (w_fs w) ksu = true →
  runs tx w (copy_sources ksu module_root).
Proof.
  intros Hr Hm Hk. unfold copy_sources.
  eapply (runs_bind_safe [ksu]); [apply safe_gets|done|by constructor|].
  intros fs w1 tx1 _ Hr1 Hm1 Hd1. cbv beta.
  destruct (negb (is_dir fs _)); [by apply runs_raise|].
  destruct (_ || _); [by apply runs_raise|]. cbv zeta.
  eapply (runs_bind_safe [ksu]); [apply safe_survey|done..|].
  intros [artifacts legacy] w2 tx2 Hs Hr2 Hm2 Hd2.
  apply survey_removable in Hs as [Ha Hl]. simpl in Ha, Hl.
  rewrite Forall_forall in Ha, Hl.
  eapply (runs_bind_safe [ksu]); [apply safe_read_sources|done..|].
  intros texts w3 tx3 _ Hr3 Hm3 Hd3.
  eapply (runs_bind_safe [ksu]); [apply safe_any_changed|done..|].
  intros changed w4 tx4 _ Hr4 Hm4 Hd4.
  eapply (runs_bind_safe [ksu]); [|done..|].
  { apply safe_when, safe_for_each. intros p Hp. by apply safe_remove_file, Ha. }
  intros _ w5 tx5 _ Hr5 Hm5 Hd5.
  eapply (runs_bind_safe [ksu]); [|done..|].
  { apply safe_for_each. intros p Hp. by apply safe_remove_file, Hl. }
  intros _ w6 tx6 _ Hr6 Hm6 Hd6. pose proof Hr6 as [Htx6 Hinv6 Hset6].
  assert (tx_missing tx6 = []) as Hm6' by congruence.
  assert (is_dir (w_fs w6) ksu = true) as Hk6 by (by inversion Hd6).
  pose proof (target_ancestors_ok tx6 w6 ksu Hinv6 Hm6' Hk6) as Hanc.
  eapply (runs_bind [] tx6 w6 _ _ (is_dir (w_fs w6) (sandbox_dir ksu) = true));
    [|done|constructor|].
  { intros r w7 E.
    exact (proj1 (ensure_directory_spec fs0 removable_name _ w6 tx6 r w7
                    Htx6 Hinv6 Hset6 (or_intror Hanc) E)). }
  intros [] w7 tx7 E Hr7 _ _.
  pose proof (proj2 (ensure_directory_spec fs0 removable_name _ w6 tx6 _ w7
                       Htx6 Hinv6 Hset6 (or_intror Hanc) E)) as Ht.
  eapply (runs_safe [sandbox_dir ksu]); [|done|constructor; [exact (Ht eq_refl)|constructor]].
  apply safe_bind; [|intros _; apply safe_print].
  apply safe_for_each. intros nt _. apply safe_write_source. by left.
Qed.

Lemma install_body_runs tx w l module_root policy :
  ready tx w → tx_missing tx = [] → is_dir (w_fs w) (l_ksu l) = true →
  is_dir (w_fs w) (parent (common_header (l_common l))) = true →
  runs tx w (install_body l module_root policy).
Proof.
  intros Hr Hm Hk Hh. unfold install_body.
  eapply (runs_bind [parent (common_header (l_common l))] _ _ _ _ False);
    [|exact Hr|by repeat constructor|].
  { exact (copy_sources_runs tx w (l_ksu l) module_root Hr Hm Hk). }
  intros _ w1 tx1 _ Hr1 _ Hd1.
  eapply runs_safe; [|exact Hr1|exact Hd1].
  apply safe_bind; [apply safe_lift; auto with no_os|intros block].
  apply safe_bind; [apply safe_install_kbuild|intros _].
  apply safe_bind; [apply safe_insert_before_last|intros _].
  apply safe_patch_all. by left.
Qed.
End compose.
