(* ===== verification/DiscoveryFacts.v ===== *)
(** * What discovery guarantees *)

From Stdlib Require Import Ascii.
From stdpp Require Import base list strings gmap.
From S2P Require Import Prelude PyText PyRegex PyResult World FsFacts Transaction Rollback.
From S2P Require Import Discovery Installer Example Frames ReadOnly.

#[local] Opaque walk.

Lemma version_of_supported makefile s version :
  version_of makefile s = Ok version → version ∈ SUPPORTED_KERNELS.
Proof.
  unfold version_of. intros H. ok_inv. destruct (existsb _ _) eqn:Ev; [|done]. ok_inv.
  apply existsb_exists in Ev as (v & Hv & Heq). bool_hyps. subst. by apply list_elem_of_In.
Qed.

Lemma variant_of_known ksu corpus variant :
  variant_of ksu corpus = Ok variant →
  variant ∈ [py "official"; py "sukisu"; py "resukisu"].
Proof.
  unfold variant_of. repeat (destruct (_ || _) || destruct (_ && _)); intros [= <-]; set_solver.
Qed.

Lemma unseen_candidates_elem fs seen candidates c :
  c ∈ unseen_candidates fs seen candidates → c ∈ candidates ∧ is_ksu_tree fs c = true.
Proof.
  revert seen. induction candidates as [|d candidates IH]; intros seen; simpl; [by intros ?%not_elem_of_nil|].
  destruct (is_ksu_tree fs d) eqn:E; simpl.
  - destruct (bool_decide _).
    + intros [??]%IH. split; [by right|done].
    + intros [->|[??]%IH]%elem_of_cons; (split; [by left || by right|done]).
  - intros [??]%IH. split; [by right|done].
Qed.

(** No two candidates are at one location. *)
Lemma unseen_candidates_NoDup fs seen candidates :
  NoDup (map (loc fs) (unseen_candidates fs seen candidates)) ∧
  ∀ c, c ∈ unseen_candidates fs seen candidates → loc fs c ∉ seen.
Proof.
  revert seen. induction candidates as [|d candidates IH]; intros seen; simpl.
  { split; [constructor|by intros c ?%not_elem_of_nil]. }
  destruct (is_ksu_tree fs d); simpl; [|apply IH].
  destruct (bool_decide _) eqn:E; [apply IH|]. bool_hyps.
  destruct (IH (loc fs d :: seen)) as [Hnd Hns]. simpl. split.
  - constructor; [|done]. intros (c & Hc & Hin)%list_elem_of_In%in_map_iff.
    apply list_elem_of_In, Hns in Hin. apply Hin. rewrite Hc. by left.
  - intros c [->|Hc]%elem_of_cons; [done|]. apply Hns in Hc. set_solver.
Qed.

(** Every candidate tree that is left out is at the location of one that is kept. *)
Lemma unseen_candidates_complete fs seen candidates c :
  c ∈ candidates → is_ksu_tree fs c = true →
  loc fs c ∈ seen ∨ ∃ d, d ∈ unseen_candidates fs seen candidates ∧ loc fs d = loc fs c.
Proof.
  revert seen. induction candidates as [|d candidates IH]; intros seen;
    [by intros ?%not_elem_of_nil|].
  intros [->|Hc]%elem_of_cons Ht; simpl.
  - rewrite Ht. simpl. destruct (bool_decide _) eqn:E; bool_hyps; [by left|].
    right. exists d. split; [by left|done].
  - destruct (is_ksu_tree fs d); simpl; [|by apply IH].
    destruct (bool_decide _) eqn:E; [by apply IH|].
    destruct (IH (loc fs d :: seen) Hc Ht) as [[Heq|?]%elem_of_cons|(e & He & Hl)].
    + right. exists d. split; [by left|done].
    + by left.
    + right. exists e. split; [by right|done].
Qed.

(** The facts about the layout that [discover] returns. *)
Record discovered (root : path) (w : world) (l : layout) : Prop := Discovered {
  dc_root : l_root l = root;
  dc_common : kernel_common root w = (Ok (l_common l), w);
  dc_candidates : ksu_candidates (w_fs w) root (l_common l) = [l_ksu l];
  dc_mode : lower (w_work_mode w) ≠ py "lkm";
  dc_variant : l_variant l ∈ [py "official"; py "sukisu"; py "resukisu"];
  dc_version : l_version l ∈ SUPPORTED_KERNELS
}.

Lemma discover_spec root w l w' :
  discover root w = (Ok l, w') → w' = w ∧ discovered root w l.
Proof.
  intros H. assert (w' = w) as ->.
  { symmetry. exact (preserves_discover eq root w _ _ H). }
  split; [done|]. unfold discover in H.
  assert (∀ A (m : M A), preserves eq m → ∀ r w1, m w = (r, w1) → w1 = w) as Heq.
  { intros A m Hm r w1 E. symmetry. by eapply Hm. }
  rewrite bind_eq in H. destruct (kernel_common root w) as [[common|e] w1] eqn:Ec; [|done].
  assert (w1 = w) as ->.
  { exact (Heq _ _ (preserves_kernel_common eq root) _ _ Ec). }
  rewrite gets_bind in H. destruct (text_eqb _ _) eqn:Em; [done|].
  rewrite ask_bind in H. destruct (ksu_candidates _ _ _) as [|ksu [|? ?]] eqn:Ek; [done| |done].
  rewrite bind_eq in H. destruct (detect_variant ksu w) as [[v|e] w2] eqn:Ev; [|done].
  assert (w2 = w) as ->.
  { exact (Heq _ _ (preserves_detect_variant eq ksu) _ _ Ev). }
  rewrite bind_eq in H. destruct (kernel_version common w) as [[ver|e] w3] eqn:Ever; [|done].
  injection H as <- ->. bool_hyps. split; simpl; try done.
  - unfold detect_variant in Ev. minv Ev a w4 E1; [|done]. minv Ev b w5 E2; [|done].
    minv Ev c w6 E3; [|done]. unfold lift in Ev. injection Ev as Ev _.
    by eapply variant_of_known.
  - unfold kernel_version in Ever. minv Ever a w4 E1; [|done]. unfold lift in Ever. injection Ever as Ever _.
    by eapply version_of_supported.
Qed.

Lemma discovered_ksu_dir root w l :
  fs_wf (w_fs w) → discovered root w l → is_dir (w_fs w) (l_ksu l) = true.
Proof.
  intros Hwf Hd. assert (l_ksu l ∈ ksu_candidates (w_fs w) root (l_common l)) as Hin.
  { rewrite (dc_candidates _ _ _ Hd). by left. }
  apply unseen_candidates_elem in Hin as [_ Ht]. unfold is_ksu_tree in Ht. bool_hyps.
  rewrite <- (parent_snoc (l_ksu l) "Kbuild").
  apply exists_parent_dir; [done|]. by apply is_file_exists.
Qed.

(** C13: discovery succeeds only on a supported kernel line, outside of LKM mode, with a known
    variant and exactly one KernelSU tree: every candidate directory that has the files of a
    tree is the chosen one, up to symbolic links; nothing is changed. *)
Theorem discover_sound root w l w' :
  discover root w = (Ok l, w') →
  w' = w ∧ l_root l = root ∧
  (l_common l = root ∨ l_common l = root ++ ["common"]) ∧
  is_file (w_fs w) (l_common l ++ ["Makefile"]) = true ∧
  lower (w_work_mode w) ≠ py "lkm" ∧
  l_variant l ∈ [py "official"; py "sukisu"; py "resukisu"] ∧
  l_version l ∈ SUPPORTED_KERNELS ∧
  l_ksu l ∈ preferred_candidates root (l_common l) ∧ is_ksu_tree (w_fs w) (l_ksu l) = true ∧
  (∀ c, c ∈ preferred_candidates root (l_common l) → is_ksu_tree (w_fs w) c = true →
        loc (w_fs w) c = loc (w_fs w) (l_ksu l)).
Proof.
  intros [-> Hd]%discover_spec. destruct Hd as [? Hc Hk ? ? ?].
  assert (l_ksu l ∈ ksu_candidates (w_fs w) root (l_common l)) as Hin by (rewrite Hk; by left).
  apply unseen_candidates_elem in Hin as [Hin Ht].
  unfold kernel_common in Hc. rewrite ask_bind in Hc. unfold id in Hc.
  assert ((l_common l = root ∨ l_common l = root ++ ["common"]) ∧
          is_file (w_fs w) (l_common l ++ ["Makefile"]) = true) as [? ?].
  { destruct (is_file (w_fs w) ((root ++ ["common"]) ++ _)) eqn:E1;
      [injection Hc as <-; by auto|].
    destruct (is_file (w_fs w) (root ++ _)) eqn:E2; [injection Hc as <-; by auto|done]. }
  split_and!; try done.
  intros c Hc' Ht'.
  destruct (unseen_candidates_complete (w_fs w) [] _ c Hc' Ht') as [[]%not_elem_of_nil|(d & Hd & <-)].
  unfold ksu_candidates in Hk. rewrite Hk in Hd. by apply list_elem_of_singleton in Hd as ->.
Qed.

Lemma discover_sound_witness :
  let w := sample_world (sample_tree (py "official") (py "6.6")) in
  (discover sample_root w).1 = Ok sample_layout ∧
  ∀ c, c ∈ preferred_candidates sample_root sample_common → is_ksu_tree (w_fs w) c = true →
       loc (w_fs w) c = loc (w_fs w) sample_ksu.
Proof.
  intros w. assert ((discover sample_root w).1 = Ok sample_layout) as H
    by (vm_compute; reflexivity).
  split; [exact H|].
  destruct (discover sample_root w) as [r w'] eqn:E. simpl in H. subst r.
  destruct (discover_sound _ _ _ _ E) as (_ & _ & _ & _ & _ & _ & _ & _ & _ & Hc). exact Hc.
Defined.
