(* ===== verification/DefconfigFacts.v ===== *)
(** * What the defconfig checks establish *)

From Stdlib Require Import Ascii.
From stdpp Require Import base list strings sets.
From S2P Require Import Prelude PyText PyRegex RegexFacts PyResult World Transaction Kbuild.
From S2P Require Import Defconfig Frames ReadOnly.

(** ** [config_state] line by line *)

Definition assignment_of (symbol : text) : text := py "CONFIG_" ++ symbol ++ py "=".
Definition unset_line (symbol : text) : text :=
  py "# CONFIG_" ++ symbol ++ py " is not set".

(** The value a line gives to the symbol, if it mentions it. *)
Definition entry_of_line (symbol line : text) : option text :=
  if starts_with (assignment_of symbol) line then
    match drop (length (assignment_of symbol)) line with [] => None | value => Some value end
  else if text_eqb line (unset_line symbol) then Some (py "n")
  else None.

Definition entries_of (symbol s : text) : list text := omap (entry_of_line symbol) (lines_of s).

Definition value_of_entry (e : option text) : text :=
  match e with Some v => v | None => py "n" end.

Lemma not_nl_set w : Forall (λ d, negb (existsb (char_eqb d) [nl]) = true) w ↔ nl ∉ w.
Proof.
  rewrite Forall_forall. split.
  - intros H Hin. specialize (H nl Hin). done.
  - intros H d Hd. simpl. destruct (char_eqb d nl) eqn:E; bool_hyps; [by subst|done].
Qed.

Section line.
Context (symbol line : text) (Hline : nl ∉ line).
Abbreviation p := (assignment_of symbol).
Abbreviation body :=
  (RAlt (seqs [lit (py "CONFIG_" ++ symbol ++ py "="); RGroup 1 (plus (none_of [nl]))])
        (lit (py "# CONFIG_" ++ symbol ++ py " is not set"))).

Lemma body_matches g :
  matches body (cursor_start line) [] (line_end line) g ↔
  (starts_with p line = true ∧ drop (length p) line ≠ [] ∧
   g = [(1, (length p, length line))]) ∨ (line = unset_line symbol ∧ g = []).
Proof.
  rewrite matches_alt. unfold seqs. cbn [foldr]. rewrite matches_seq, matches_lit. split.
  - intros [(c1 & g1 & [-> Hr]%matches_lit & Hm)|[-> Hr]].
    + left. apply matches_seq in Hm as (c2 & g2 & Hm & [<- ->]%matches_eps).
      apply matches_group in Hm as (g3 & [-> (w & Hne & _ & Hw)]%matches_plus_set & ->).
      pose proof Hr as (_ & Hp & _). simpl in Hp.
      apply starts_with_start in Hr as [Hs Hd].
      apply Hd in Hw. unfold p in *. split_and!; [done|by rewrite Hw|]. by rewrite Hp.
    + right. split; [|done]. by apply reads_line_end in Hr as [<- _].
  - intros [(Hs & Hne & ->)|[-> ->]].
    + left. apply starts_with_drop in Hs as Hs'.
      set (w := drop (length p) line) in *.
      exists (Cursor (last_or None p) w (length p)), [].
      assert (reads (cursor_start line) p (Cursor (last_or None p) w (length p))) as Hr.
      { unfold reads. cbn [cursor_start c_rest c_pos c_prev]. by split_and!. }
      split; [by apply matches_lit|]. apply matches_seq. do 2 eexists.
      split; [|by apply matches_eps]. apply matches_group. eexists. split; [|done].
      apply matches_plus_set. split; [done|]. exists w. split_and!; [done| |].
      * apply not_nl_set. intros Hin. apply Hline. rewrite Hs'. set_solver.
      * apply starts_with_start in Hr as [_ Hr]. by apply Hr.
    + right. split; [done|]. apply reads_whole.
Qed.

Lemma config_line :
  value_of_entry <$> ((λ m, group line m 1) <$> re_match (config_pattern symbol) line)
  = entry_of_line symbol line.
Proof.
  unfold entry_of_line. destruct (re_match _ line) as [m|] eqn:E;
    cbn [fmap option_fmap option_map].
  - apply whole_line_sound in E as (Hm & _ & _); [|done]. apply body_matches in Hm.
    destruct Hm as [(Hs & Hne & Hg)|[-> Hg]]; unfold group; rewrite Hg;
      cbn [lookup_group Nat.eqb value_of_entry].
    + rewrite Hs. assert (slice line (length p) (length line) = drop (length p) line) as ->.
      { unfold slice. apply take_ge. rewrite length_drop. lia. }
      by destruct (drop (length p) line).
    + by rewrite text_eqb_refl.
  - assert (∀ g, ¬ matches body (cursor_start line) [] (line_end line) g) as Hn.
    { intros g Hg%whole_line_complete. unfold config_pattern in E. rewrite E in Hg.
      by destruct Hg. }
    destruct (starts_with p line) eqn:Es.
    + destruct (drop (length p) line) eqn:Ed; [done|]. exfalso. eapply Hn, body_matches.
      left. split_and!; [done| |done]. by rewrite Ed.
    + destruct (text_eqb line _) eqn:El; [|done]. bool_hyps. exfalso.
      eapply Hn, body_matches. by right.
Qed.
End line.

Lemma no_newline t : existsb (char_eqb nl) t = false → nl ∉ t.
Proof.
  intros H Hin. assert (existsb (char_eqb nl) t = true) as Ht; [|congruence].
  apply existsb_exists. exists nl. split; [by apply list_elem_of_In|done].
Qed.

Lemma config_pattern_newline_free symbol :
  nl ∉ symbol → newline_free (config_pattern symbol) = true.
Proof.
  intros Hs. unfold config_pattern, seqs. cbn [foldr newline_free].
  rewrite !newline_free_lit; [done|rewrite !elem_of_app..].
  - intros [H|[H|H]]; [|done|]; revert H; by apply no_newline.
  - intros [H|[H|H]]; [|done|]; revert H; by apply no_newline.
Qed.

Lemma config_entries_lines symbol s :
  nl ∉ symbol → map value_of_entry (config_entries symbol s) = entries_of symbol s.
Proof.
  intros Hs. unfold config_entries, entries_of.
  rewrite groups_by_line; [|apply anchored_seq|by apply config_pattern_newline_free].
  pose proof (split_char_free nl s) as Hf. unfold lines_of.
  induction Hf as [|line lines Hl Hf IH]; [done|].
  rewrite on_lines_cons, map_app, IH. simpl.
  rewrite <- (config_line symbol line Hl). by destruct (re_match _ line).
Qed.


(** C16: [config_state] is the line-by-line reading of the configuration: a symbol has the
    value of the only line that assigns it or says that it is not set, no value when no line
    mentions it, and is rejected when several lines do. *)
Theorem config_state_of_lines symbol s :
  nl ∉ symbol →
  config_state_of symbol s =
  match entries_of symbol s with
  | [] => Ok None
  | [value] => Ok (Some value)
  | _ => install_error (py "defconfig contains duplicate CONFIG_" ++ symbol ++ py " entries")
  end.
Proof.
  intros Hs. rewrite <- config_entries_lines by done. unfold config_state_of.
  by destruct (config_entries symbol s) as [|[v|] [|e2 es]].
Qed.

Lemma config_state_of_lines_witness :
  config_state_of (py "KSU") (py "# CONFIG_KSU is not set\nCONFIG_KSU_X=y\n")
  = Ok (Some (py "n")).
Proof.
  rewrite (config_state_of_lines (py "KSU")); [reflexivity|]. by apply no_newline.
Defined.

(** ** [validate_defconfig] *)

Lemma is_lsm_not_nl : is_lsm_char nl = false.
Proof. reflexivity. Qed.

(** The lines that assign the list of security modules. *)
Definition lsm_lines (s : text) : list text :=
  List.filter (starts_with (py "CONFIG_LSM=")) (lines_of s).

Lemma findall_lsm_lines s : findall lsm_line_pattern s = lsm_lines s.
Proof.
  rewrite findall_by_line; [|apply anchored_seq|done]. unfold lsm_lines.
  pose proof (split_char_free nl s) as Hf. unfold lines_of.
  induction Hf as [|line lines Hl Hf IH]; [done|].
  rewrite on_lines_cons, IH. cbn [List.filter].
  destruct (re_match lsm_line_pattern line) as [m|] eqn:E.
  - apply whole_line_sound in E as (Hm & Hs & He); [|done].
    apply matches_seq in Hm as (c & g & [-> Hr]%matches_lit & _).
    apply starts_with_start in Hr as [-> _]. unfold group0. rewrite Hs, He.
    unfold slice. rewrite Nat.sub_0_r, drop_0, take_ge by done. done.
  - destruct (starts_with _ line) eqn:Es; [|done]. exfalso.
    assert (is_Some (re_match lsm_line_pattern line)) as Hm; [|rewrite E in Hm; by destruct Hm].
    apply starts_with_drop in Es. set (p := py "CONFIG_LSM=") in *.
    set (w := drop (length p) line) in *.
    apply (whole_line_complete _ line []). apply matches_seq.
    pose proof (reads_whole line) as Hw. rewrite Es in Hw at 2.
    apply reads_app in Hw as (c & H1 & H2). exists c, []. split; [by apply matches_lit|].
    apply matches_star_set. split; [done|]. exists w. split; [|done].
    apply Forall_forall. intros d Hd. apply negb_true_iff, char_eqb_neq. intros ->.
    apply Hl. rewrite Es. set_solver.
Qed.

Definition lsm_prefix : text := py "CONFIG_LSM=`".

Lemma lsm_value_match line :
  match re_fullmatch lsm_value_pattern line with
  | Some m => ∃ value, group line m 1 = Some value ∧ value ≠ [] ∧
                       Forall (λ c, is_lsm_char c = true) value ∧
                       line = lsm_prefix ++ value ++ [dq]
  | None => ∀ value, value ≠ [] → Forall (λ c, is_lsm_char c = true) value →
                     line ≠ lsm_prefix ++ value ++ [dq]
  end.
Proof.
  assert (∀ g, matches lsm_value_pattern (cursor_start line) [] (line_end line) g ↔
    ∃ value, value ≠ [] ∧ Forall (λ c, is_lsm_char c = true) value ∧
      line = lsm_prefix ++ value ++ [dq] ∧
      g = [(1, (length lsm_prefix, length lsm_prefix + length value))]) as Hspec.
  { intros g. unfold lsm_value_pattern, seqs. cbn [foldr]. rewrite matches_seq. split.
    - intros (c1 & g1 & [-> H1]%matches_lit & Hm).
      apply matches_seq in Hm as (c2 & g2 & Hm & H3).
      apply matches_group in Hm as (g3 & [-> (w & Hne & Hw & H2)]%matches_plus_set & ->).
      apply matches_seq in H3 as (c3 & g3 & [-> H3]%matches_lit & [<- ->]%matches_eps).
      exists w. split_and!; [done|done| |].
      + pose proof (reads_trans _ _ _ _ _ H1 (reads_trans _ _ _ _ _ H2 H3)) as H.
        by destruct (reads_line_end _ _ _ H eq_refl) as [<- _].
      + rewrite (reads_start_pos _ _ _ H1). destruct H2 as (_ & -> & _).
        by rewrite (reads_start_pos _ _ _ H1).
    - intros (value & Hne & Hv & -> & ->).
      pose proof (reads_whole (lsm_prefix ++ value ++ [dq])) as Hw.
      apply reads_app in Hw as (c1 & H1 & Hw). apply reads_app in Hw as (c2 & H2 & H3).
      exists c1, []. split; [by apply matches_lit|].
      apply matches_seq. exists c2. eexists. split.
      + apply matches_group. exists []. split; [|done]. apply matches_plus_set. eauto.
      + rewrite (reads_start_pos _ _ _ H1). pose proof H2 as (_ & Hp & _).
        rewrite (reads_start_pos _ _ _ H1) in Hp. rewrite Hp.
        apply matches_seq. do 2 eexists. split; [by apply matches_lit|by apply matches_eps]. }
  destruct (re_fullmatch _ line) as [m|] eqn:E.
  - apply fullmatch_sound, Hspec in E as (value & Hne & Hv & Hline & Hg).
    exists value. unfold group. rewrite Hg. cbn [lookup_group Nat.eqb].
    split_and!; [|done..]. f_equal. rewrite Hline. apply slice_app_mid.
  - intros value Hne Hv Hline.
    assert (is_Some (re_fullmatch lsm_value_pattern line)) as H; [|rewrite E in H; by destruct H].
    eapply fullmatch_complete, Hspec. exists value. by split_and!.
Qed.

Lemma existsb_text t ts : existsb (text_eqb t) ts = true ↔ t ∈ ts.
Proof.
  rewrite existsb_exists. split.
  - intros (x & Hx & Heq). bool_hyps. subst. by apply list_elem_of_In.
  - intros Ht. exists t. split; [by apply list_elem_of_In|apply text_eqb_refl].
Qed.

Lemma existsb_text_false t ts : existsb (text_eqb t) ts = false ↔ t ∉ ts.
Proof. rewrite <- existsb_text. by destruct (existsb _ ts). Qed.

Lemma has_duplicates_NoDup ts : has_duplicates ts = false ↔ NoDup ts.
Proof.
  induction ts as [|t ts IH]; simpl; [split; [constructor|done]|].
  rewrite orb_false_iff, existsb_text_false, IH, NoDup_cons. done.
Qed.

Lemma occurrences_absent t ts : t ∉ ts → occurrences_of t ts = 0.
Proof.
  unfold occurrences_of. induction ts as [|u ts IH]; intros Ht; [done|]. simpl.
  destruct (text_eqb t u) eqn:E; bool_hyps; [subst; exfalso; apply Ht; by left|].
  apply IH. intros Hin. apply Ht. by right.
Qed.

Lemma occurrences_last t ts : t ∉ ts → occurrences_of t (ts ++ [t]) = 1.
Proof.
  intros Ht. unfold occurrences_of. rewrite List.filter_app, length_app.
  pose proof (occurrences_absent t ts Ht) as H. unfold occurrences_of in H. rewrite H.
  simpl. by rewrite text_eqb_refl.
Qed.

Lemma elem_of_join c sep ts t : t ∈ ts → c ∈ t → c ∈ join sep ts.
Proof.
  induction ts as [|u ts IH]; [by intros ?%not_elem_of_nil|].
  intros [->|Ht]%elem_of_cons Hc.
  - destruct ts; simpl; [done|]. apply elem_of_app. by left.
  - destruct ts as [|v ts]; [by apply not_elem_of_nil in Ht|].
    change (c ∈ u ++ sep ++ join sep (v :: ts)). rewrite !elem_of_app. right. right. auto.
Qed.

Lemma join_chars (P : ascii → Prop) c ts :
  P c → Forall (λ t, Forall P t) ts → Forall P (join [c] ts).
Proof.
  intros Hc. induction 1 as [|t ts Ht Hts IH]; [constructor|].
  destruct ts as [|u ts]; [done|].
  change (Forall P (t ++ [c] ++ join [c] (u :: ts))).
  apply Forall_app. split; [done|]. by constructor.
Qed.

Definition comma : ascii := ","%char.

(** A module name of the list: characters of the class, the comma excluded. *)
Definition lsm_name (n : text) : Prop :=
  n ≠ [] ∧ (comma ∉ n) ∧ Forall (λ c, is_lsm_char c = true) n.

(** One quoted assignment of distinct names, the sandbox last and SELinux among the rest. *)
Definition lsm_list_ok (s : text) : Prop :=
  ∃ names,
    lsm_lines s = [lsm_prefix ++ join [comma] (names ++ [sandbox_lsm]) ++ [dq]] ∧
    Forall lsm_name names ∧ NoDup (names ++ [sandbox_lsm]) ∧ py "selinux" ∈ names.

Lemma split_lsm_names value :
  Forall (λ c, is_lsm_char c = true) value → existsb (λ t, text_eqb t []) (split_char comma value) = false →
  Forall lsm_name (split_char comma value).
Proof.
  intros Hv Hne. pose proof (split_char_free comma value) as Hfree.
  apply Forall_forall. intros n Hn. rewrite Forall_forall in Hfree.
  split_and!; [|by apply Hfree|].
  - intros ->. assert (existsb (λ t, text_eqb t []) (split_char comma value) = true); [|congruence].
    apply existsb_exists. exists []. split; [by apply list_elem_of_In|done].
  - apply Forall_forall. intros c Hc. rewrite Forall_forall in Hv. apply Hv.
    rewrite <- (join_split_char comma value). by eapply elem_of_join.
Qed.

Lemma validate_lsm_list_sound s : validate_lsm_list s = Ok tt → lsm_list_ok s.
Proof.
  unfold validate_lsm_list. rewrite findall_lsm_lines.
  destruct (lsm_lines s) as [|line [|l2 ls]] eqn:El; [done| |done].
  pose proof (lsm_value_match line) as Hm. destruct (re_fullmatch _ line) as [m|]; [|done].
  destruct Hm as (value & -> & Hne & Hv & Hline).
  change ","%char with comma. cbv zeta.
  pose proof (split_char_nonempty comma value) as Hnil.
  pose proof (split_lsm_names _ Hv) as Hnames. pose proof (join_split_char comma value) as Hj.
  remember (split_char comma value) as lsms eqn:Hlsms. clear Hlsms.
  destruct (existsb _ lsms) eqn:E1; [done|]. specialize (Hnames eq_refl).
  destruct (has_duplicates lsms) eqn:E2; [done|].
  destruct (existsb (text_eqb (py "selinux")) lsms) eqn:E3; [|done].
  destruct (occurrences_of sandbox_lsm lsms =? 1) eqn:E4; [|done].
  destruct (text_eqb _ sandbox_lsm) eqn:E5; [|done]. intros _. bool_hyps.
  assert (lsms = removelast lsms ++ [sandbox_lsm]) as Hl
    by (rewrite <- E5; by apply app_removelast_last).
  remember (removelast lsms) as names eqn:Hr. clear Hr E5. subst lsms.
  exists names. rewrite Hj. split_and!.
  - by rewrite El, Hline.
  - by apply Forall_app in Hnames as [? _].
  - by apply has_duplicates_NoDup.
  - apply existsb_text, elem_of_app in E3 as [?|H%list_elem_of_singleton]; [done|].
    discriminate H.
Qed.

Lemma sandbox_lsm_name : lsm_name sandbox_lsm.
Proof.
  split_and!; [done| |].
  - intros H. apply list_elem_of_In in H. vm_compute in H. intuition discriminate.
  - repeat constructor.
Qed.

Lemma validate_lsm_list_complete s : lsm_list_ok s → validate_lsm_list s = Ok tt.
Proof.
  intros (names & Hline & Hn & Hnd & Hse). unfold validate_lsm_list.
  rewrite findall_lsm_lines, Hline. set (lsms := names ++ [sandbox_lsm]) in *.
  assert (Forall lsm_name lsms) as Hall.
  { apply Forall_app. split; [done|]. repeat constructor; apply sandbox_lsm_name. }
  assert (split_char comma (join [comma] lsms) = lsms) as Hsplit.
  { apply split_char_join; [by destruct names|]. eapply Forall_impl; [exact Hall|].
    by intros n (_ & ? & _). }
  set (value := join [comma] lsms) in *.
  pose proof (lsm_value_match (lsm_prefix ++ value ++ [dq])) as Hm.
  destruct (re_fullmatch _ _) as [m|].
  2: { exfalso. apply (Hm value); [| |done].
       - intros H. rewrite H in Hsplit. rewrite <- Hsplit in Hall.
         apply Forall_cons in Hall as [(Hc & _) _]. done.
       - apply join_chars; [done|]. eapply Forall_impl; [exact Hall|]. by intros n (_ & _ & ?). }
  destruct Hm as (v & -> & _ & _ & Hv).
  apply app_inv_head, app_inv_tail in Hv as <-. change ","%char with comma.
  rewrite Hsplit. cbv zeta.
  assert (existsb (λ t, text_eqb t []) lsms = false) as ->.
  { apply not_true_is_false. intros (t & Ht & Heq)%existsb_exists. bool_hyps. subst.
    rewrite Forall_forall in Hall. apply list_elem_of_In in Ht. by apply Hall in Ht as (? & _). }
  assert (existsb (text_eqb (py "selinux")) lsms = true) as ->.
  { apply existsb_text, elem_of_app. by left. }
  pose proof Hnd as Hnd'. apply has_duplicates_NoDup in Hnd' as ->.
  unfold lsms. rewrite occurrences_last, List.last_last; [done|].
  apply NoDup_app in Hnd as (_ & Hd & _). intros Hin. apply (Hd _ Hin). by left.
Qed.

(** The symbol has exactly one entry, with that value. *)
Definition symbol_is (symbol value s : text) : Prop := entries_of symbol s = [value].

(** [m] succeeds exactly when [P] holds, and then changes nothing. *)
Definition checks_that (m : M unit) (w : world) (P : Prop) : Prop :=
  ∀ w', m w = (Ok tt, w') ↔ w' = w ∧ P.

Lemma checks_bind (m f : M unit) w P Q :
  checks_that m w P → checks_that f w Q → checks_that (m ;; f) w (P ∧ Q).
Proof.
  intros Hm Hf w'. rewrite bind_eq. destruct (m w) as [[[]|e] w1] eqn:E.
  - destruct (proj1 (Hm w1) E) as [-> HP]. rewrite (Hf w'). tauto.
  - split; [done|]. intros (_ & HP & _).
    assert (m w = (Ok tt, w)) as H by (by apply Hm). congruence.
Qed.

Lemma checks_when (b : bool) m w P :
  checks_that m w P → checks_that (when b m) w (b = true → P).
Proof.
  intros H w'. destruct b; simpl.
  - rewrite (H w'). tauto.
  - split; [by intros [= <-]|by intros [-> _]].
Qed.

Lemma checks_ret w : checks_that (mret tt) w True.
Proof. intros w'. split; [by intros [= <-]|by intros [-> _]]. Qed.

Lemma checks_lift (r : result unit) w P : (r = Ok tt ↔ P) → checks_that (lift r) w P.
Proof.
  intros H w'. unfold lift. split; [intros [= Hr <-]|intros [-> Hr%H]]; [by rewrite <- H|].
  by rewrite Hr.
Qed.

Section run.
Context (defconfig : path) (s : text) (w : world).
Context (Hread : read defconfig w = (Ok s, w)).

Lemma config_state_run symbol :
  config_state defconfig symbol w = (config_state_of symbol s, w).
Proof. unfold config_state. by rewrite bind_eq, Hread. Qed.

(** The value found is [value] when that is the only entry. *)
Lemma config_state_is symbol value :
  nl ∉ symbol →
  (∃ r, config_state_of symbol s = Ok r ∧ state_is value r = true)
  ↔ symbol_is symbol value s.
Proof.
  intros Hs. rewrite config_state_of_lines by done. unfold symbol_is.
  destruct (entries_of symbol s) as [|v [|v2 vs]].
  - split; [by intros (r & [= <-] & ?)|done].
  - split.
    + intros (r & [= <-] & Hv). simpl in Hv. by bool_hyps; subst.
    + intros [= ->]. eexists. split; [done|apply text_eqb_refl].
  - split; [by intros (r & ? & _)|done].
Qed.

Lemma require_symbol_spec symbol message :
  existsb (char_eqb nl) symbol = false →
  checks_that (require_symbol defconfig symbol message) w (symbol_is symbol (py "y") s).
Proof.
  intros Hs%no_newline w'. rewrite <- (config_state_is _ _ Hs). unfold require_symbol.
  rewrite bind_eq, config_state_run. destruct (config_state_of symbol s) as [r|e].
  - destruct (state_is _ r) eqn:E.
    + split; [intros [= <-]; eauto|by intros [-> _]].
    + split; [done|]. intros (_ & r' & [= <-] & ?). congruence.
  - split; [done|]. by intros (_ & r' & ? & _).
Qed.

Lemma required_symbols_spec :
  checks_that (for_each required_symbols (λ sm, require_symbol defconfig sm.1 sm.2)) w
    (symbol_is (py "KSU") (py "y") s ∧ symbol_is (py "SECURITY_SELINUX") (py "y") s ∧
     symbol_is (py "NAMESPACES") (py "y") s ∧ True).
Proof.
  unfold required_symbols. cbn [for_each].
  do 3 (apply checks_bind; [by apply require_symbol_spec|]). apply checks_ret.
Qed.
End run.

(** The checks of [validate_defconfig] on the text of the file. *)
Definition defconfig_ok (s : text) (require_sandbox : bool) : Prop :=
  symbol_is (py "KSU") (py "y") s ∧
  symbol_is (py "SECURITY_SELINUX") (py "y") s ∧
  symbol_is (py "NAMESPACES") (py "y") s ∧
  (require_sandbox = true →
   symbol_is (py "KSU_ABK_SANDBOX") (py "y") s ∧ lsm_list_ok s).

Lemma lsm_list_spec s : validate_lsm_list s = Ok tt ↔ lsm_list_ok s.
Proof. split; [apply validate_lsm_list_sound|apply validate_lsm_list_complete]. Qed.

Lemma validate_defconfig_iff defconfig require_sandbox w :
  validate_defconfig defconfig require_sandbox w = (Ok tt, w) ↔
  ∃ s, read defconfig w = (Ok s, w) ∧ defconfig_ok s require_sandbox.
Proof.
  unfold validate_defconfig. rewrite bind_eq.
  destruct (read defconfig w) as [[s|e] w1] eqn:Hread.
  2: { split; [done|]. by intros (s & ? & _). }
  assert (w1 = w) as -> by (symmetry; exact (preserves_read eq defconfig _ _ _ Hread)).
  assert ((∃ t, (@Ok text s, w) = (Ok t, w) ∧ defconfig_ok t require_sandbox)
          ↔ defconfig_ok s require_sandbox) as ->.
  { split; [by intros (t & [= ->] & ?)|eauto]. }
  rewrite bind_eq, (config_state_run _ _ _ Hread).
  pose proof (config_state_is s (py "KSU") (py "m") (no_newline (py "KSU") eq_refl)) as Hm.
  pose proof (config_state_is s (py "KSU") (py "y") (no_newline (py "KSU") eq_refl)) as Hy.
  unfold defconfig_ok.
  destruct (config_state_of _ s) as [r|e] eqn:E.
  2: { split; [done|]. intros (H & _). by apply Hy in H as (r & ? & _). }
  destruct (state_is (py "m") r) eqn:Em.
  { split; [done|]. intros (H & _). assert (symbol_is (py "KSU") (py "m") s) as H'
      by (apply Hm; eauto). unfold symbol_is in *. rewrite H in H'. discriminate H'. }
  rewrite (checks_bind _ _ _ _ _ (required_symbols_spec _ _ _ Hread)
    (checks_bind _ _ _ _ _
       (checks_when require_sandbox _ _ _
          (require_symbol_spec _ _ _ Hread (py "KSU_ABK_SANDBOX") _ eq_refl))
       (checks_when require_sandbox _ _ _ (checks_lift _ _ _ (lsm_list_spec s)))) w).
  tauto.
Qed.

(** C15: [validate_defconfig] accepts exactly the configurations in which CONFIG_KSU,
    CONFIG_SECURITY_SELINUX and CONFIG_NAMESPACES are y and, where the sandbox is required,
    CONFIG_KSU_ABK_SANDBOX is y and CONFIG_LSM is assigned once: a quoted list of distinct
    non-empty names that contains selinux and ends with abk_ksu_sandbox. *)
Theorem validate_defconfig_spec defconfig require_sandbox w :
  validate_defconfig defconfig require_sandbox w = (Ok tt, w) ↔
  ∃ s, read defconfig w = (Ok s, w) ∧ defconfig_ok s require_sandbox.
Proof. apply validate_defconfig_iff. Qed.
