(* ===== verification/Verified.v ===== *)
(** * What a successful [verify] establishes *)

From Stdlib Require Import Ascii.
From stdpp Require Import base list strings gmap.
From S2P Require Import Prelude PyText PyRegex PyResult World FsFacts Transaction Rollback.
From S2P Require Import Kbuild Defconfig Discovery Resukisu KsuPatches KernelHooks Sources.
From S2P Require Import Installer Frames FileFacts ReadOnly.

#[local] Opaque walk.

Section checks.
Context (R : world → world → Prop) `{!PreOrder R}.

Lemma preserves_check_kbuild l policy : preserves R (check_kbuild l policy).
Proof. unfold check_kbuild. preserves. Qed.

Lemma preserves_check_kconfig l : preserves R (check_kconfig l).
Proof. unfold check_kconfig. preserves. Qed.

Lemma preserves_check_needles pn : preserves R (check_needles pn).
Proof. unfold check_needles, needle_missing. preserves. Qed.

Lemma preserves_check_include common rm : preserves R (check_include common rm).
Proof. unfold check_include. preserves. Qed.

Lemma preserves_check_lsm_count l : preserves R (check_lsm_count l).
Proof. unfold check_lsm_count. preserves. Qed.

Lemma preserves_check_sucompat l : preserves R (check_sucompat l).
Proof. unfold check_sucompat. preserves. Qed.

Lemma preserves_check_same a b m : preserves R (check_same a b m).
Proof. unfold check_same. preserves. Qed.
End checks.

(** The include line precedes the hook. *)
Definition include_before (s marker : text) : Prop :=
  ∃ i j, find common_include s = Some i ∧ find marker s = Some j ∧ i ≤ j.

Definition fail_closed (variant s : text) : Prop :=
  if text_eqb variant (py "resukisu") then
    contains (marked (py "manual su fail closed")) s = true ∧
    contains (py "return sandbox_ret;") s = true
  else
    contains (marked (py "sucompat fail closed")) s = true ∧
    contains (py "ksu_close_fd(tmp_fd);") s = true ∧ contains (py "return ret;") s = true.

Record verified (l : layout) (module_root : path) (d : option path) (policy : text)
    (w : world) : Prop := Verified {
  vf_policy : runtime_ksu_tail_policy l w = (Ok policy, w);
  vf_config : validate_runtime_ksu_tail_config policy d w = (Ok tt, w);
  vf_kbuild : check_kbuild l policy w = (Ok tt, w);
  vf_patches : patch_all l module_root (set_validation true w)
               = (Ok tt, set_validation true w);
  vf_kconfig : check_kconfig l w = (Ok tt, w);
  vf_needles p needles : (p, needles) ∈ checks l →
    ∃ s, text_of w p s ∧ ∀ n, n ∈ needles → contains n s = true;
  vf_includes p marker : (p, marker) ∈ include_checks →
    ∃ s, text_of w (l_common l ++ p) s ∧ include_before s marker;
  vf_lsm_count : l_version l = py "6.12" →
    ∃ s, text_of w (l_common l ++ ["include"; "linux"; "lsm_count.h"]) s ∧
         contains (marked (py "lsm count")) s = true;
  vf_sucompat : ∃ s, text_of w (l_ksu l ++ ["feature"; "sucompat.c"]) s ∧
                     fail_closed (l_variant l) s;
  vf_sources n : n ∈ verified_sources →
    ∃ s, text_of w (sandbox_dir (l_ksu l) ++ [n]) s ∧
         text_of w (template_dir module_root ++ [n]) s;
  vf_header : ∃ s, text_of w (common_header (l_common l)) s ∧
                   text_of w (template_dir module_root ++ [api_header]) s;
  vf_defconfig d' : d = Some d' → validate_defconfig d' true w = (Ok tt, w)
}.

Lemma check_same_ok a b m w :
  check_same a b m w = (Ok tt, w) → ∃ s, text_of w a s ∧ text_of w b s.
Proof.
  unfold check_same. intros (s & Ha & H)%read_bind_ok.
  apply read_bind_ok in H as (t & Hb & H).
  destruct (text_eqb s t) eqn:E; [|done]. bool_hyps. subst. by exists t.
Qed.

Lemma check_needles_ok p needles w :
  check_needles (p, needles) w = (Ok tt, w) →
  ∃ s, text_of w p s ∧ ∀ n, n ∈ needles → contains n s = true.
Proof.
  unfold check_needles, needle_missing. simpl.
  intros (s & Hs & H)%read_bind_ok. exists s. split; [done|].
  apply for_each_ok in H as [_ H].
  - intros n Hn. specialize (H n Hn). by destruct (contains n s).
  - intros n. destruct (negb _); [by apply (preserves_raise eq)|by apply (preserves_ret eq)].
Qed.

Lemma check_include_ok common p marker w :
  check_include common (p, marker) w = (Ok tt, w) →
  ∃ s, text_of w (common ++ p) s ∧ include_before s marker.
Proof.
  unfold check_include. simpl. intros (s & Hs & H)%read_bind_ok. exists s. split; [done|].
  destruct (find common_include s) as [i|] eqn:Ei; [|done].
  destruct (find marker s) as [j|] eqn:Ej; [|done].
  destruct (j <? i) eqn:Elt; [done|]. bool_hyps. exists i, j. split_and!; [done..|lia].
Qed.

Lemma check_sucompat_ok l w :
  check_sucompat l w = (Ok tt, w) →
  ∃ s, text_of w (l_ksu l ++ ["feature"; "sucompat.c"]) s ∧ fail_closed (l_variant l) s.
Proof.
  unfold check_sucompat, fail_closed. intros (s & Hs & H)%read_bind_ok.
  exists s. split; [done|]. destruct (text_eqb _ _).
  - destruct (contains (marked _) s), (contains (py "return sandbox_ret;") s); done.
  - destruct (contains (marked _) s), (contains (py "ksu_close_fd(tmp_fd);") s),
      (contains (py "return ret;") s); done.
Qed.

Lemma check_lsm_count_ok l w :
  check_lsm_count l w = (Ok tt, w) → l_version l = py "6.12" →
  ∃ s, text_of w (l_common l ++ ["include"; "linux"; "lsm_count.h"]) s ∧
       contains (marked (py "lsm count")) s = true.
Proof.
  unfold check_lsm_count. intros H Hv. rewrite Hv, text_eqb_refl in H. simpl in H.
  apply read_bind_ok in H as (s & Hs & H). exists s. split; [done|].
  by destruct (contains (marked _) s).
Qed.

Lemma validating_ok {A} (m : M A) w a w' :
  settles m → validating m w = (Ok a, w') →
  w' = w ∧ m (set_validation true w) = (Ok a, set_validation true w).
Proof.
  intros Hm. unfold validating. destruct (m _) as [r1 w1] eqn:E. intros [= -> <-].
  apply Hm in E as [-> _]; [|done]. split; [by destruct w|done].
Qed.

Lemma verify_ok l module_root d w w' :
  verify l module_root d w = (Ok tt, w') →
  (∃ policy, verified l module_root d policy w) ∧ w_fs w' = w_fs w.
Proof.
  intros H. split; [|by apply preserves_verify in H as [? _]]. unfold verify in H.
  apply pure_bind_ok in H as (policy & H1 & H); [|by apply preserves_runtime_policy, _].
  exists policy.
  apply pure_bind_ok in H as ([] & H2 & H); [|by apply preserves_validate_runtime, _].
  apply pure_bind_ok in H as ([] & H3 & H); [|by apply preserves_check_kbuild, _].
  minv H u w1 E; [|done]. destruct u.
  apply validating_ok in E as [-> H4]; [|apply settles_patch_all].
  apply pure_bind_ok in H as ([] & H5 & H); [|by apply preserves_check_kconfig, _].
  minv H u w1 E; [|done]. destruct u.
  apply for_each_ok in E as [-> H6]; [|intros; by apply preserves_check_needles, _].
  minv H u w1 E; [|done]. destruct u.
  apply for_each_ok in E as [-> H7]; [|intros; by apply preserves_check_include, _].
  apply pure_bind_ok in H as ([] & H8 & H); [|by apply preserves_check_lsm_count, _].
  apply pure_bind_ok in H as ([] & H9 & H); [|by apply preserves_check_sucompat, _].
  minv H u w1 E; [|done]. destruct u.
  apply for_each_ok in E as [-> H10]; [|intros; by apply preserves_check_same, _].
  apply pure_bind_ok in H as ([] & H11 & H); [|by apply preserves_check_same, _].
  apply pure_bind_ok in H as ([] & H12 & _); [|by apply preserves_defconfig_option, _].
  split; try done.
  - intros p needles Hp. by apply check_needles_ok, H6.
  - intros p marker Hp. by apply check_include_ok, H7.
  - by apply check_lsm_count_ok.
  - by apply check_sucompat_ok.
  - intros n Hn. by eapply check_same_ok, H10.
  - by eapply check_same_ok.
  - by intros d' ->.
Qed.
