(* ===== verification/Commands.v ===== *)
(** * Properties of the commands as a whole

    A command that fails leaves the source tree as it found it; [verify] never changes it;
    and what [verify] accepts, [install] would not touch again. *)

From Stdlib Require Import Ascii.
From stdpp Require Import base list strings gmap.
From S2P Require Import Prelude PyText PyRegex PyResult World FsFacts Transaction Rollback.
From S2P Require Import Kbuild Defconfig Discovery Resukisu KsuPatches KernelHooks Sources.
From S2P Require Import Installer Example Frames FileFacts ReadOnly Atomicity DiscoveryFacts.
From S2P Require Import DefconfigFacts Verified.

#[local] Opaque walk.

(** ** Failing installations *)

Lemma with_transaction_body l module_root policy w r w1 :
  fs_wf (w_fs w) → is_dir (w_fs w) (l_ksu l) = true →
  is_dir (w_fs w) (parent (common_header (l_common l))) = true →
  install_body l module_root policy (set_tx (Some no_records) w) = (r, w1) →
  outcome (w_fs w) removable_name False no_records r (set_tx (Some no_records) w) w1.
Proof.
  intros Hwf Hk Hh H.
  eapply (install_body_runs (w_fs w) no_records (set_tx (Some no_records) w)); try done.
  split; simpl; [done|by apply tx_inv_start|]. intros q Hq. done.
Qed.

Lemma install_failure l module_root d w e w' :
  fs_wf (w_fs w) → w_tx w = None → is_dir (w_fs w) (l_ksu l) = true →
  is_dir (w_fs w) (parent (common_header (l_common l))) = true →
  w_fault w = None ∨ (∃ p, e = OSError EIO p) →
  install l module_root d w = (Err e, w') → w_fs w' = w_fs w ∧ w_tx w' = None.
Proof.
  intros Hwf Htx Hk Hh Hft H. unfold install in H.
  assert (∀ A (m : M A), preserves eq m → ∀ r w1, m w = (r, w1) → w1 = w) as Heq.
  { intros A m Hm r w1 E. symmetry. by eapply Hm. }
  minv H u w1 E1;
    (assert (w1 = w) as -> by exact (Heq _ _ (preserves_defconfig_option eq d false) _ _ E1));
    [|by injection H as <- <-].
  minv H pol w1 E2;
    (assert (w1 = w) as -> by exact (Heq _ _ (preserves_runtime_policy eq l) _ _ E2));
    [|by injection H as <- <-].
  minv H u3 w1 E3;
    (assert (w1 = w) as -> by exact (Heq _ _ (preserves_validate_runtime eq pol d) _ _ E3));
    [|by injection H as <- <-].
  rewrite bind_eq in H.
  destruct (with_transaction _ w) as [[u4|e1] w1] eqn:E4; [done|]. injection H as <- <-.
  eapply (with_transaction_restores removable_name); [done|done| |done|exact E4].
  intros r w2 Hb. right. by eapply with_transaction_body.
Qed.

Lemma main_failure args w r w' :
  fs_wf (w_fs w) → w_tx w = None →
  (∀ common, kernel_common (a_kernel_root args) w = (Ok common, w) →
             is_dir (w_fs w) (common ++ ["include"; "linux"]) = true) →
  w_fault w = None ∨ (∃ p, r = Err (OSError EIO p)) →
  main args w = (r, w') → r ≠ Ok 0 → w_fs w' = w_fs w ∧ w_tx w' = None.
Proof.
  intros Hwf Htx Hinc Hft H Hr. unfold main, catch in H. rewrite bind_eq in H.
  assert (∀ e w1, run_command args w = (Err e, w1) →
            w_fault w = None ∨ (∃ p, e = OSError EIO p) →
            w_fs w1 = w_fs w ∧ w_tx w1 = None) as Hrun.
  { intros e w1 Hc Hf. unfold run_command in Hc. rewrite bind_eq in Hc.
    destruct (discover _ w) as [[l|e2] w2] eqn:Ed.
    2: { injection Hc as <- <-.
         by rewrite <- (preserves_discover eq _ _ _ _ Ed). }
    apply discover_spec in Ed as [-> Hd]. destruct (a_command args).
    - eapply install_failure; [done|done|by eapply discovered_ksu_dir| |done|exact Hc].
      unfold common_header. change ["include"; "linux"; "abk_ksu_sandbox.h"] with
        (["include"; "linux"] ++ ["abk_ksu_sandbox.h"]).
      rewrite app_assoc, parent_snoc. by apply Hinc, Hd.
    - apply (preserves_verify l) in Hc as (-> & -> & _). done.
    - done. }
  destruct (run_command args w) as [[u|e] w1] eqn:Ec; [by injection H as <- <-|].
  destruct e as [msg|en p|cls].
  - destruct Hft as [Hft|[p Hp]]; [|by subst r].
    destruct (Hrun _ _ eq_refl) as [<- <-]; [by left|]. by injection H as <- <-.
  - injection H as <- <-. apply (Hrun _ _ eq_refl).
    destruct Hft as [?|[q [= -> ->]]]; eauto.
  - injection H as <- <-. apply (Hrun _ _ eq_refl).
    destruct Hft as [?|[q [=]]]; eauto.
Qed.

(** C1: an installation, run from the command line, that does not report success leaves the
    source tree exactly as it found it (the contents, time stamps and modes of files, the
    directories and the links), and no transaction active.  The hypotheses: the tree is a
    tree, the kernel has its directory include/linux, and no input or output error is left to
    strike the rollback itself.  The time stamps of directories are not part of the model. *)
Theorem main_failure_restores args w r w' :
  fs_wf (w_fs w) → w_tx w = None →
  (∀ common, kernel_common (a_kernel_root args) w = (Ok common, w) →
             is_dir (w_fs w) (common ++ ["include"; "linux"]) = true) →
  w_fault w = None ∨ (∃ p, r = Err (OSError EIO p)) →
  main args w = (r, w') → r ≠ Ok 0 → w_fs w' = w_fs w ∧ w_tx w' = None.
Proof. apply main_failure. Qed.

Lemma main_failure_restores_witness :
  let w := sample_world broken_tree in
  (main (sample_args Install) w).1 = Ok 1 ∧ w_fs (main (sample_args Install) w).2 = w_fs w.
Proof.
  intros w. assert ((main (sample_args Install) w).1 = Ok 1) as Hr by (vm_compute; reflexivity).
  split; [exact Hr|].
  apply (main_failure_restores (sample_args Install) w (main (sample_args Install) w).1).
  - apply fs_wf_check_sound. vm_compute. reflexivity.
  - reflexivity.
  - intros common Hc.
    assert (Ok common = Ok sample_common) as [= ->].
    { change (Ok common) with (@pair (result path) world (Ok common) w).1. rewrite <- Hc.
      vm_compute. reflexivity. }
    vm_compute. reflexivity.
  - left. reflexivity.
  - apply surjective_pairing.
  - rewrite Hr. discriminate.
Defined.

(** ** [verify] *)

(** C5: [verify] changes nothing but the output, whether it accepts or rejects: the tree, the
    validation flag (restored on every path), the transaction and the clock are as before. *)
Theorem verify_leaves_state l module_root d w :
  same_state w (verify l module_root d w).2.
Proof.
  destruct (verify l module_root d w) as [r w'] eqn:E. by apply preserves_verify in E.
Qed.

Lemma installed_kbuild_marker path s block :
  installed_kbuild_block path s = Ok block →
  validate_kbuild_directives path s = Ok tt ∧ contains MARKER s = true.
Proof.
  unfold installed_kbuild_block. intros H. apply bind_Ok in H as ([] & Hv & H).
  split; [done|]. destruct (count MARKER s =? 0) eqn:E; [done|]. bool_hyps.
  by apply count_contains.
Qed.

Lemma installed_kconfig_marker path s block :
  installed_kconfig_block path s = Ok block → contains MARKER s = true.
Proof.
  unfold installed_kconfig_block. destruct (count MARKER s =? 1) eqn:E; simpl; [|done].
  intros _. bool_hyps. apply count_contains. lia.
Qed.

(** What [install] does after copying the sources. *)
Definition rewire (l : layout) (module_root : path) (policy : text) : M unit :=
  block ← lift (kbuild_block policy);
  install_kbuild (l_ksu l ++ ["Kbuild"]) block ;;
  insert_before_last (l_ksu l ++ ["Kconfig"]) (py "endmenu") KCONFIG_BLOCK ;;
  patch_all l module_root.

Lemma install_body_rewire l module_root policy w :
  install_body l module_root policy w =
  (copy_sources (l_ksu l) module_root ;; rewire l module_root policy) w.
Proof. done. Qed.

Lemma rewire_noop l module_root policy w w' w2 :
  check_kbuild l policy w = (Ok tt, w') → check_kconfig l w = (Ok tt, w) →
  patch_all l module_root w2 = (Ok tt, w2) → w_fs w2 = w_fs w →
  rewire l module_root policy w2 = (Ok tt, w2).
Proof.
  intros Hb Hc Hp Hfs. unfold check_kbuild in Hb. unfold check_kconfig in Hc.
  apply lift_bind_ok in Hb as (b & Eb & Hb).
  apply read_bind_ok in Hb as (s & Es & Hb).
  apply lift_bind_ok in Hb as (installed & Ei & Hb).
  destruct (text_eqb installed _) eqn:Eq; [|done]. bool_hyps.
  apply read_bind_ok in Hc as (t & Et & Hc).
  apply lift_bind_ok in Hc as (k & Ek & _).
  destruct (installed_kbuild_marker _ _ _ Ei) as [Hv Hm].
  unfold rewire. rewrite lift_bind, Eb.
  unfold install_kbuild. rewrite bind_assoc, bind_eq, (fs_only_read _ w w2 Hfs), Es. simpl fst.
  cbv iota beta. rewrite bind_assoc, lift_bind, Hv. cbv iota beta zeta.
  rewrite Hm. cbn [negb]. rewrite bind_assoc, lift_bind, Ei, Eq, text_eqb_refl, ret_bind.
  unfold insert_before_last. rewrite bind_assoc, bind_eq, (fs_only_read _ w w2 Hfs), Et.
  simpl fst. cbv iota beta. rewrite (installed_kconfig_marker _ _ _ Ek). cbn [orb].
  by rewrite bind_assoc, lift_bind, Ek, ret_bind.
Qed.

(** C3: after a successful [verify], everything [install] does once the sources are copied
    (the Kbuild block, the Kconfig entry and every patch) succeeds on the same tree without
    changing it, whatever the rest of the state: an installation is a fixed point of the
    patches, and the audit of the runtime hooks gives the same policy. *)
Theorem verified_is_installed l module_root d w w' w2 :
  verify l module_root d w = (Ok tt, w') → w_fs w2 = w_fs w →
  ∃ policy, runtime_ksu_tail_policy l w2 = (Ok policy, w2) ∧
            rewire l module_root policy w2 = (Ok tt, w2).
Proof.
  intros H Hfs. apply verify_ok in H as [(policy & Hv) _]. exists policy.
  pose proof (settles_patch_all l module_root (set_validation true w) tt
                (set_validation true w) eq_refl (vf_patches _ _ _ _ _ Hv)) as [_ Hp].
  split.
  - rewrite (fs_only_runtime_policy l w w2 Hfs). by rewrite (vf_policy _ _ _ _ _ Hv).
  - eapply rewire_noop; [apply Hv|apply Hv|by apply Hp|done].
Qed.

(** The sample tree after an installation. *)
Definition installed_world : world :=
  (main (sample_args Install) (sample_world (sample_tree (py "official") (py "6.6")))).2.

Lemma verified_is_installed_witness :
  (verify sample_layout sample_module (Some sample_defconfig) installed_world).1 = Ok tt ∧
  ∃ policy, rewire sample_layout sample_module policy installed_world
            = (Ok tt, installed_world).
Proof.
  assert ((verify sample_layout sample_module (Some sample_defconfig) installed_world).1 = Ok tt)
    as Hv by (vm_compute; reflexivity).
  split; [exact Hv|].
  destruct (verify _ _ _ installed_world) as [r w'] eqn:E. simpl in Hv. subst r.
  destruct (verified_is_installed _ _ _ _ _ installed_world E eq_refl) as (policy & _ & H).
  exists policy. exact H.
Defined.

(** C4: a successful [verify] establishes that the eight module sources and the public header
    are copies of the templates; that the Kbuild file holds, once and outside of any
    conditional, the block of the policy computed for the layout; that every needle of the
    check list is in its file; that the four kernel sources include the public header before
    their first hook; that the su compatibility path fails closed; and that the configuration,
    where one is given, is complete. *)
Theorem verify_sound l module_root d w w' :
  verify l module_root d w = (Ok tt, w') →
  (∀ n, n ∈ verified_sources →
     ∃ s, text_of w (sandbox_dir (l_ksu l) ++ [n]) s ∧
          text_of w (template_dir module_root ++ [n]) s) ∧
  (∃ s, text_of w (common_header (l_common l)) s ∧
        text_of w (template_dir module_root ++ [api_header]) s) ∧
  (∃ policy b s,
     runtime_ksu_tail_policy l w = (Ok policy, w) ∧ kbuild_block policy = Ok b ∧
     text_of w (l_ksu l ++ ["Kbuild"]) s ∧
     installed_kbuild_block (path_text (l_ksu l ++ ["Kbuild"])) s = Ok (strip b)) ∧
  (∀ p needles n, (p, needles) ∈ checks l → n ∈ needles →
     ∃ s, text_of w p s ∧ contains n s = true) ∧
  (∀ p marker, (p, marker) ∈ include_checks →
     ∃ s, text_of w (l_common l ++ p) s ∧ include_before s marker) ∧
  (∃ s, text_of w (l_ksu l ++ ["feature"; "sucompat.c"]) s ∧ fail_closed (l_variant l) s) ∧
  (∀ d', d = Some d' → ∃ s, text_of w d' s ∧ defconfig_ok s true).
Proof.
  intros H. apply verify_ok in H as [(policy & Hv) _]. split_and!; try apply Hv.
  - pose proof (vf_kbuild _ _ _ _ _ Hv) as Hk. unfold check_kbuild in Hk.
    apply lift_bind_ok in Hk as (b & Hb & Hk). apply read_bind_ok in Hk as (s & Hs & Hk).
    apply lift_bind_ok in Hk as (i & Hi & Hk).
    destruct (text_eqb i _) eqn:E; [|done]. bool_hyps. subst i.
    exists policy, b, s. split_and!; [apply Hv|done..].
  - intros p needles n Hp Hn. destruct (vf_needles _ _ _ _ _ Hv _ _ Hp) as (s & Hs & Hall).
    eauto.
  - intros d' Hd. by apply validate_defconfig_iff, (vf_defconfig _ _ _ _ _ Hv).
Qed.

Lemma verify_sound_witness :
  (verify sample_layout sample_module (Some sample_defconfig) installed_world).1 = Ok tt ∧
  ∃ s, text_of installed_world (sandbox_dir sample_ksu ++ ["core.c"]) s ∧
       text_of installed_world (template_dir sample_module ++ ["core.c"]) s.
Proof.
  assert ((verify sample_layout sample_module (Some sample_defconfig) installed_world).1 = Ok tt)
    as Hv by (vm_compute; reflexivity).
  split; [exact Hv|].
  destruct (verify _ _ _ installed_world) as [r w'] eqn:E. simpl in Hv. subst r.
  assert ("core.c" ∈ verified_sources) as Hin by (right; left).
  destruct (verify_sound _ _ _ _ _ E) as [H _]. exact (H "core.c" Hin).
Defined.
