(* ===== verification/Footprint.v ===== *)
(** * The footprint of an installation

    A successful installation writes the files of a fixed list and files of its own source
    directory, removes only build artifacts and legacy sources of that directory, and changes
    nothing else but for new directories. *)

From Stdlib Require Import Ascii.
From stdpp Require Import base list strings gmap.
From S2P Require Import Prelude PyText PyRegex PyResult World FsFacts Transaction Kbuild.
From S2P Require Import Defconfig Discovery Resukisu KsuPatches KernelHooks Sources Installer.
From S2P Require Import Example Frames FileFacts ReadOnly Atomicity Commands.

#[local] Opaque walk.

(** The files of the two trees that an installation edits. *)
Definition ksu_files : list path :=
  [["Kbuild"]; ["Kconfig"]; ["policy"; "app_profile.c"]; ["supercall"; "dispatch.c"];
   ["policy"; "allowlist.c"]; ["selinux"; "rules.c"]; ["feature"; "sucompat.c"]].

Definition common_files : list path :=
  [["include"; "linux"; "abk_ksu_sandbox.h"]; ["include"; "linux"; "lsm_count.h"];
   ["kernel"; "seccomp.c"]; ["fs"; "namespace.c"]; ["kernel"; "ptrace.c"];
   ["kernel"; "signal.c"]].

Definition written_by (l : layout) (p : path) : Prop :=
  (∃ f, f ∈ ksu_files ∧ p = l_ksu l ++ f) ∨ (∃ f, f ∈ common_files ∧ p = l_common l ++ f) ∨
  (∃ n, p = sandbox_dir (l_ksu l) ++ [n]).

Definition removed_by (l : layout) (p : path) : Prop :=
  ∃ n, p = sandbox_dir (l_ksu l) ++ [n] ∧ removable_name n = true.

Lemma written_ksu l f : bool_decide (f ∈ ksu_files) = true → written_by l (l_ksu l ++ f).
Proof. intros H%bool_decide_eq_true. left. eauto. Qed.

Lemma written_common l f : bool_decide (f ∈ common_files) = true → written_by l (l_common l ++ f).
Proof. intros H%bool_decide_eq_true. right. left. eauto. Qed.

Lemma written_source l n : written_by l (sandbox_dir (l_ksu l) ++ [n]).
Proof. right. right. eauto. Qed.

Create HintDb footprint.
#[export] Hint Extern 0 (written_by ?l (l_ksu ?l ++ _)) =>
  apply written_ksu; vm_compute; reflexivity : footprint.
#[export] Hint Extern 0 (written_by ?l (l_common ?l ++ _)) =>
  apply written_common; vm_compute; reflexivity : footprint.
#[export] Hint Resolve written_source : footprint.

Section patches.
Context (W D : path → Prop).

Lemma touches_write_new p o : W p → preserves (touches W D) (write_new p o).
Proof. intros Hp. unfold write_new. preserves_with ltac:(by apply touches_write). Qed.

Lemma touches_patch_file p f : W p → preserves (touches W D) (patch_file p f).
Proof. intros Hp. unfold patch_file. preserves_with ltac:(by apply touches_write_new). Qed.

Lemma touches_inject p f s : W p → preserves (touches W D) (inject p f s).
Proof. intros Hp. unfold inject. preserves_with ltac:(by apply touches_write_new). Qed.

Lemma touches_with_include p : W p → preserves (touches W D) (with_include p).
Proof. intros Hp. unfold with_include. preserves_with ltac:(by apply touches_write). Qed.

Lemma touches_patch_bind p : W p → preserves (touches W D) (patch_bind p).
Proof.
  intros Hp. unfold patch_bind.
  preserves_with ltac:(first [by apply touches_write_new | by apply touches_inject]).
Qed.

Lemma touches_install_kbuild p b : W p → preserves (touches W D) (install_kbuild p b).
Proof. intros Hp. unfold install_kbuild. preserves_with ltac:(by apply touches_write). Qed.

Lemma touches_insert_before_last p n b : W p → preserves (touches W D) (insert_before_last p n b).
Proof. intros Hp. unfold insert_before_last. preserves_with ltac:(by apply touches_write). Qed.
End patches.

#[export] Hint Resolve touches_write touches_patch_file touches_inject touches_with_include
  touches_patch_bind touches_install_kbuild touches_insert_before_last : footprint.

Ltac footprint := preserves_with ltac:(eauto with footprint).

(** ** The reads of [copy_sources] *)

Section reads.
Context (R : world → world → Prop) `{!PreOrder R}.

Lemma preserves_survey target names : preserves R (survey_target target names).
Proof.
  assert (∀ entries, preserves R (classify_existing names entries)) as Hc.
  { induction entries as [|p entries IH]; cbn [classify_existing];
      preserves_with ltac:(first [exact IH | apply preserves_raise; apply _]). }
  unfold survey_target. preserves_with ltac:(apply Hc).
Qed.

Lemma preserves_read_sources source names : preserves R (read_sources source names).
Proof. induction names as [|n names IH]; simpl; preserves_with ltac:(exact IH). Qed.

Lemma preserves_any_changed target texts : preserves R (any_changed target texts).
Proof. induction texts as [|[n s] texts IH]; simpl; preserves_with ltac:(exact IH). Qed.
End reads.

Lemma touches_ensure_target W D target : preserves (touches W D) (ensure_target target).
Proof.
  unfold ensure_target. apply preserves_bind; [apply _| |intros _].
  - apply touches_of_same_fs, same_fs_in_transaction, same_fs_record_directory.
  - apply preserves_mkdir_parents.
Qed.

Section install.
Context (l : layout).
Abbreviation R := (touches (written_by l) (removed_by l)).

Lemma touches_common_header module_root :
  preserves R (patch_common_header (l_common l) module_root).
Proof. unfold patch_common_header, common_header. footprint. Qed.

Lemma touches_kernel_hooks : preserves R (patch_kernel_hooks (l_common l)).
Proof.
  unfold patch_kernel_hooks, patch_seccomp, patch_namespace, patch_ptrace, patch_signal.
  footprint.
Qed.

Lemma touches_patch_all module_root : preserves R (patch_all l module_root).
Proof.
  unfold patch_all, patch_escape, patch_supercall_dispatch, patch_allowlist,
    patch_policy_lock_order, patch_policy_reapply, patch_sucompat_fail_closed,
    patch_resukisu_manual_fail_closed, patch_lsm_count.
  preserves_with ltac:(first [apply touches_common_header | apply touches_kernel_hooks
                             | eauto with footprint]).
Qed.

(** The entries that are found are entries of the target. *)
Lemma classify_subset names entries w found w' :
  classify_existing names entries w = (Ok found, w') →
  found.1 ⊆ entries ∧ found.2 ⊆ entries.
Proof.
  revert w found w'. induction entries as [|p entries IH]; intros w found w';
    cbn [classify_existing]; [by intros [= <- <-]|].
  rewrite ask_bind. unfold id. destruct (is_symlink _ p); [done|].
  destruct (is_dir _ p); [done|]. destruct (is_file _ p); cbn [negb]; [|done].
  destruct (has_name names (name p)).
  { intros H. minv H s w1 E; [|done]. destruct (contains MARKER s); [|done].
    apply IH in H as [H1 H2]. set_solver. }
  destruct (has_name LEGACY_SOURCE_NAMES (name p)).
  { intros H. minv H s w1 E; [|done]. destruct (negb _); [done|].
    minv H f w2 E2; [|done]. injection H as <- <-. apply IH in E2 as [H1 H2]. set_solver. }
  destruct (negb _); [done|].
  intros H. minv H f w2 E2; [|done]. injection H as <- <-. apply IH in E2 as [H1 H2].
  set_solver.
Qed.

Lemma survey_entries target names w found w' :
  survey_target target names w = (Ok found, w') →
  ∀ p, p ∈ found.1 ∨ p ∈ found.2 → ∃ n, p = target ++ [n] ∧ removable_name n = true.
Proof.
  intros H. pose proof (survey_removable _ _ _ _ _ H) as [Ha Hl].
  assert (∀ p, p ∈ found.1 ∨ p ∈ found.2 → p ∈ iterdir (w_fs w) target) as Hin.
  { unfold survey_target in H. rewrite ask_bind in H. unfold id in H.
    destruct (is_dir _ target); [|injection H as <- <-; by intros p [?%not_elem_of_nil|?%not_elem_of_nil]].
    rewrite ask_bind in H. apply classify_subset in H. set_solver. }
  intros p Hp. specialize (Hin p Hp). unfold iterdir in Hin.
  destruct (loc _ target) as [q|]; [|by apply not_elem_of_nil in Hin].
  apply list_elem_of_In, in_map_iff in Hin as (k & <- & _). eexists. split; [done|].
  rewrite Forall_forall in Ha, Hl. rewrite <- (name_snoc target (name k)).
  destruct Hp; auto.
Qed.

(** Copying the sources touches entries of the target only. *)
Lemma touches_copy_sources_in W D module_root :
  (∀ n, W (sandbox_dir (l_ksu l) ++ [n])) →
  (∀ n, removable_name n = true → D (sandbox_dir (l_ksu l) ++ [n])) →
  preserves (touches W D) (copy_sources (l_ksu l) module_root).
Proof.
  intros HW HD. unfold copy_sources.
  apply preserves_bind; [apply _|apply preserves_gets; apply _|intros fs].
  destruct (negb (is_dir fs _)); [apply preserves_raise; apply _|].
  destruct (_ || _); [apply preserves_raise; apply _|]. cbv zeta.
  apply preserves_bind_dep; [apply _|apply preserves_survey; apply _|].
  intros w found w' Hs. pose proof (survey_entries _ _ _ _ _ Hs) as Hent.
  destruct found as [artifacts legacy]. simpl in Hent.
  assert (∀ ps description, (∀ p, p ∈ ps → p ∈ artifacts ∨ p ∈ legacy) →
            preserves (touches W D) (for_each ps (λ p, remove_file p description))) as Hrem.
  { intros ps description Hps. apply preserves_for_each; [apply _|]. intros p Hp.
    apply touches_remove_file. destruct (Hent p (Hps p Hp)) as (n & -> & Hn). by apply HD. }
  preserves_with ltac:(first
    [ apply preserves_read_sources; apply _
    | apply preserves_any_changed; apply _
    | apply preserves_when; [apply _|]; apply Hrem; auto
    | apply Hrem; auto | apply touches_ensure_target
    | unfold write_source; preserves_with ltac:(apply touches_write; apply HW) ]).
Qed.

Lemma touches_copy_sources module_root : preserves R (copy_sources (l_ksu l) module_root).
Proof.
  apply touches_copy_sources_in; [apply written_source|]. intros n Hn. by exists n.
Qed.

Lemma touches_install_body module_root policy :
  preserves R (install_body l module_root policy).
Proof.
  unfold install_body.
  preserves_with ltac:(first [apply touches_copy_sources | apply touches_patch_all
                             | eauto with footprint]).
Qed.
End install.

Lemma install_touches l module_root d w w' :
  install l module_root d w = (Ok tt, w') → touches (written_by l) (removed_by l) w w'.
Proof.
  unfold install. intros H. apply pure_bind_ok in H as ([] & _ & H);
    [|apply preserves_defconfig_option; apply _].
  apply pure_bind_ok in H as (policy & _ & H); [|apply preserves_runtime_policy; apply _].
  apply pure_bind_ok in H as ([] & _ & H); [|apply preserves_validate_runtime; apply _].
  rewrite bind_eq in H. unfold with_transaction in H.
  destruct (w_tx w); [done|].
  destruct (install_body l module_root policy _) as [[[]|e] w1] eqn:E.
  - apply touches_install_body in E. injection H as <-. exact E.
  - unfold exit_with_exception in H. by destruct (rollback w1) as [[]].
Qed.

(** C7: a successful installation has a fixed footprint.  Compared with the tree before it,
    links are unchanged, and a location is unchanged unless it is that of a file of the list,
    or of a file of the installer's own directory, which now holds a file; or unless it was
    a build artifact or legacy source of that directory; or unless a directory was made
    where nothing was. *)
Theorem install_footprint l module_root d w w' :
  install l module_root d w = (Ok tt, w') → touches (written_by l) (removed_by l) w w'.
Proof. apply install_touches. Qed.

Lemma install_footprint_witness :
  let w := sample_world (sample_tree (py "official") (py "6.6")) in
  (install sample_layout sample_module (Some sample_defconfig) w).1 = Ok tt ∧
  touches (written_by sample_layout) (removed_by sample_layout) w
    (install sample_layout sample_module (Some sample_defconfig) w).2.
Proof.
  intros w. assert ((install sample_layout sample_module (Some sample_defconfig) w).1 = Ok tt)
    as Hr by (vm_compute; reflexivity).
  split; [exact Hr|]. apply (install_footprint _ sample_module (Some sample_defconfig)).
  rewrite <- Hr. apply surjective_pairing.
Defined.
