(* ===== verification/SourcesFacts.v ===== *)
(** * What copying the module sources establishes

    After [copy_sources] the directory of the installer holds the module sources, word for
    word, and of other files only build artifacts, and those only when no source changed. *)

From Stdlib Require Import Ascii.
From stdpp Require Import base list strings gmap.
From S2P Require Import Prelude PyText PyRegex PyResult World FsFacts Transaction Kbuild.
From S2P Require Import KsuPatches Sources Example Frames FileFacts ReadOnly Atomicity.
From S2P Require Import KbuildInstall Footprint.

#[local] Opaque walk MARKER.

Lemma has_name_elem ns n : has_name ns n = true ↔ n ∈ ns.
Proof.
  unfold has_name. rewrite existsb_exists. split.
  - intros (m & Hin & ->%String.eqb_eq). by apply list_elem_of_In.
  - intros Hin. exists n. split; [by apply list_elem_of_In|by apply String.eqb_refl].
Qed.

(** ** The entries of the target *)

(** Every entry is accounted for, and none is a link. *)
Lemma classify_cover names entries w found w' :
  classify_existing names entries w = (Ok found, w') →
  ∀ p, p ∈ entries →
    is_symlink (w_fs w) p = false ∧
    (name p ∈ names ∨ p ∈ found.2 ∨ (p ∈ found.1 ∧ is_artifact_name (name p) = true)).
Proof.
  revert w found w'. induction entries as [|q entries IH]; intros w found w';
    cbn [classify_existing]; [by intros _ p ?%not_elem_of_nil|].
  rewrite ask_bind. unfold id. destruct (is_symlink _ q) eqn:Es; [done|].
  destruct (is_dir _ q); [done|]. destruct (is_file _ q); cbn [negb]; [|done].
  assert (∀ w1 f w2, w1 = w → classify_existing names entries w1 = (Ok f, w2) →
            (name q ∈ names ∨ q ∈ found.2 ∨ (q ∈ found.1 ∧ is_artifact_name (name q) = true)) →
            f.1 ⊆ found.1 → f.2 ⊆ found.2 → ∀ p, p ∈ q :: entries →
            is_symlink (w_fs w) p = false ∧
            (name p ∈ names ∨ p ∈ found.2 ∨ (p ∈ found.1 ∧ is_artifact_name (name p) = true)))
    as Hrest.
  { intros w1 f w2 -> Hc Hq Hs1 Hs2 p [->|Hp]%elem_of_cons; [by split|].
    destruct (IH _ _ _ Hc p Hp) as [? Hcase]. split; [done|]. set_solver. }
  assert (∀ p r w1, read p w = (r, w1) → w1 = w) as Hread.
  { intros p r w1 E. symmetry. by eapply (preserves_read eq). }
  destruct (has_name names (name q)) eqn:En.
  { apply has_name_elem in En. intros H. minv H s w1 E; [|done].
    destruct (contains MARKER s); [|done]. eapply (Hrest w1 found); [by eapply Hread|done|auto..]. }
  destruct (has_name LEGACY_SOURCE_NAMES (name q)).
  { intros H. minv H s w1 E; [|done]. destruct (negb _); [done|].
    minv H f w2 E2; [|done]. injection H as <- <-.
    eapply (Hrest w1 f); [by eapply Hread|done| |done|]; set_solver. }
  destruct (trusted_kbuild_artifact q) eqn:Et; cbn [negb]; [|done].
  intros H. minv H f w2 E2; [|done]. injection H as <- <-.
  eapply (Hrest w f); [done|done| | |done]; set_solver.
Qed.

Lemma iterdir_elem fs p q n :
  loc fs p = Some q → is_Some (nodes fs !! (q ++ [n])) ∨ is_Some (links fs !! (q ++ [n])) →
  p ++ [n] ∈ iterdir fs p.
Proof.
  intros Hq Hn. unfold iterdir. rewrite Hq. apply list_elem_of_In, in_map_iff.
  exists (q ++ [n]). rewrite name_snoc. split; [done|]. apply filter_In. split.
  - apply in_app_iff. destruct Hn as [[v Hv]|[v Hv]]; [left|right];
      apply in_map_iff; exists (q ++ [n], v); (split; [done|]);
      by apply list_elem_of_In, elem_of_map_to_list.
  - apply child_of_spec. eauto.
Qed.

(** ** The location of the files of the target *)

(** No link is at the location of a name of the directory. *)
Definition flat (fs : fsys) (target : path) : Prop :=
  ∀ n, loc fs (target ++ [n]) = (λ q, q ++ [n]) <$> loc fs target.

Lemma flat_intro fs target :
  (∀ q n, loc fs target = Some q → links fs !! (q ++ [n]) = None) → flat fs target.
Proof.
  intros H n. rewrite <- lloc_snoc. apply loc_not_symlink. unfold is_symlink.
  rewrite lloc_snoc. destruct (loc fs target) as [q|]; [|done]. simpl. by rewrite H.
Qed.

Lemma flat_stable fs fs' target : links fs' = links fs → flat fs target → flat fs' target.
Proof. intros Hl Hf n. by rewrite !(loc_stable _ _ Hl). Qed.

Lemma flat_distinct fs target m n q :
  flat fs target → loc fs (target ++ [m]) = Some q → loc fs (target ++ [n]) = Some q → m = n.
Proof.
  intros Hf. rewrite !Hf. destruct (loc fs target) as [r|]; [|done]. simpl.
  intros [= <-] [= H]. by apply app_inj_tail in H as [_ ->].
Qed.

Lemma survey_flat target names w found w' :
  fs_wf (w_fs w) → is_symlink (w_fs w) target || (exists_ (w_fs w) target
    && negb (is_dir (w_fs w) target)) = false →
  survey_target target names w = (Ok found, w') → flat (w_fs w) target.
Proof.
  intros Hwf Hg H. apply flat_intro. intros q n Hq. bool_hyps.
  unfold survey_target in H. rewrite ask_bind in H. unfold id in H.
  destruct (is_dir (w_fs w) target) eqn:Ed.
  - rewrite ask_bind in H. apply eq_None_not_Some. intros Hl.
    assert (target ++ [n] ∈ iterdir (w_fs w) target) as Hin by (eapply iterdir_elem; eauto).
    destruct (classify_cover _ _ _ _ _ H _ Hin) as [Hs _].
    unfold is_symlink in Hs. rewrite lloc_snoc, Hq in Hs. simpl in Hs.
    destruct Hl as [t Ht]. by rewrite Ht in Hs.
  - simpl in H1. rewrite andb_true_r in H1. apply eq_None_not_Some. intros [t Ht].
    apply exists_stat_false in H1. unfold stat in H1. rewrite Hq in H1.
    by rewrite (wf_parent_link _ Hwf _ _ _ Ht) in H1.
Qed.

(** ** The steps *)

Lemma read_sources_ok source names w texts w' :
  read_sources source names w = (Ok texts, w') →
  w' = w ∧ map fst texts = names ∧
  ∀ n s, (n, s) ∈ texts → text_of w (source ++ [n]) s.
Proof.
  revert texts w'. induction names as [|n names IH]; intros texts w' H; cbn [read_sources] in H.
  { injection H as <- <-. split_and!; [done..|]. by intros n s ?%not_elem_of_nil. }
  apply read_bind_ok in H as (s & Hs & H). minv H ts w1 E; [|done]. injection H as <- <-.
  destruct (IH _ _ eq_refl) as (-> & Hn & Ht). split_and!; [done|by rewrite <- Hn|].
  intros m t [[= -> ->]|Hin]%elem_of_cons; [done|by apply Ht].
Qed.

Lemma any_changed_ok target texts w b w' :
  any_changed target texts w = (Ok b, w') →
  w' = w ∧ (b = false → ∀ n s, (n, s) ∈ texts → text_of w (target ++ [n]) s).
Proof.
  revert b w'. induction texts as [|[n s] texts IH]; intros b w' H; cbn [any_changed] in H.
  { injection H as <- <-. split; [done|]. by intros _ n s ?%not_elem_of_nil. }
  rewrite ask_bind in H. unfold id in H.
  destruct (negb (is_file _ _)); [by injection H as <- <-|].
  rewrite bind_eq in H. destruct (read _ w) as [[t|e] w1] eqn:E; [|done].
  assert (w = w1) as <- by (by eapply (preserves_read eq)).
  destruct (text_eqb t s) eqn:Et; cbn [negb] in H; [|by injection H as <- <-].
  bool_hyps. subst t. destruct (IH _ _ H) as [-> Hb]. split; [done|].
  intros Hf m u [[= -> ->]|Hin]%elem_of_cons; [done|by apply Hb].
Qed.

(** Nothing but removals: every file that is there was there. *)
Lemma touches_no_new W D w w' p f :
  touches W D w w' → (∀ q, W q → loc (w_fs w) q ≠ loc (w_fs w) p) →
  stat (w_fs w') p = Some (File f) → stat (w_fs w) p = Some (File f).
Proof.
  intros [Hl Hn] HW. unfold stat. rewrite (loc_stable _ _ Hl).
  destruct (loc (w_fs w) p) as [q|] eqn:Eq; [|done]. intros Hf.
  destruct (Hn q) as [<-|[(g & _ & p' & Hp & Hq)|[(H & _)|(H & _)]]]; [done| |congruence..].
  exfalso. eapply HW; [exact Hp|]. congruence.
Qed.

Lemma is_file_not_gone w w' W D p :
  touches W D w w' → (∀ q, W q → loc (w_fs w) q ≠ loc (w_fs w) p) →
  is_file (w_fs w) p = false → is_file (w_fs w') p = false.
Proof.
  intros Ht HW Hp. apply not_true_iff_false. intros [f Hf]%is_file_stat.
  eapply touches_no_new in Hf; [|exact Ht|exact HW].
  rewrite (proj2 (is_file_stat _ _)) in Hp; eauto. done.
Qed.

Lemma remove_file_gone p description w w' :
  remove_file p description w = (Ok tt, w') → is_file (w_fs w') p = false.
Proof.
  unfold remove_file. rewrite ask_bind. unfold id.
  destruct (exists_ (w_fs w) p) eqn:Ee; cbn [negb].
  2: { intros [= <-]. apply exists_stat_false in Ee. unfold is_file. by rewrite Ee. }
  destruct (is_symlink (w_fs w) p) eqn:Es; [done|].
  destruct (is_file (w_fs w) p); [|done]. cbn [negb orb]. intros H. minv H u w1 E; [|done].
  assert (w_fs w1 = w_fs w) as Hfs
    by (by eapply (same_fs_in_transaction _ (same_fs_record_file p))).
  minv H v w2 E2; [|done]. injection H as <-. destruct v. cbn [add_out w_fs].
  unfold unlink in E2. rewrite ask_bind in E2. unfold id in E2. rewrite Hfs in E2.
  pose proof (loc_not_symlink _ _ Es) as Hloc. unfold is_symlink in Es.
  destruct (lloc (w_fs w) p) as [q|]; [|done].
  destruct (links (w_fs w) !! q); [done|].
  destruct (nodes (w_fs w) !! q) as [[]|]; [|done..].
  minv E2 b w3 E3; [|done]. apply tick_spec in E3 as (b' & [= ->] & Hw3 & _).
  destruct b'; [done|]. apply put_node_touches in E2 as ->. cbn [set_fs w_fs].
  assert (w_fs w3 = w_fs w) as Hfs3 by (by rewrite Hw3).
  unfold is_file, stat. rewrite Hfs3, (loc_stable (w_fs w)), Hloc by done.
  by rewrite put_same.
Qed.

Lemma remove_files_gone ps description w w' :
  for_each ps (λ p, remove_file p description) w = (Ok tt, w') →
  ∀ p, p ∈ ps → is_file (w_fs w') p = false.
Proof.
  revert w. induction ps as [|p ps IH]; intros w H q Hq; [by apply not_elem_of_nil in Hq|].
  cbn [for_each] in H. minv H u w1 E; [|done]. destruct u.
  apply elem_of_cons in Hq as [->|Hq]; [|by eapply IH].
  eapply (is_file_not_gone w1 w' (λ _, False) (λ p, p ∈ ps)); [|done|by eapply remove_file_gone].
  eapply preserves_for_each; [apply _| |exact H]. intros a Ha. by apply touches_remove_file.
Qed.

(** The loop that writes the sources. *)
Lemma write_sources_ok source target texts w w' :
  flat (w_fs w) target → (∀ n s, (n, s) ∈ texts → cr ∉ s) →
  (∀ n s t, (n, s) ∈ texts → (n, t) ∈ texts → s = t) →
  for_each texts (write_source source target) w = (Ok tt, w') →
  ∀ n s, (n, s) ∈ texts → contains MARKER s = true ∧ text_of w' (target ++ [n]) s.
Proof.
  revert w. induction texts as [|[m t] texts IH]; intros w Hflat Hcr Hfun H n s Hin;
    [by apply not_elem_of_nil in Hin|].
  cbn [for_each] in H. minv H u w1 E; [|done]. destruct u. unfold write_source in E.
  cbn [fst snd] in E. destruct (contains MARKER t) eqn:Em; [|done]. cbn [negb] in E.
  assert (links (w_fs w1) = links (w_fs w)) as Hl by by eapply (touches_write (eq _) (λ _, False)) in E as [? _].
  assert (∀ n s, (n, s) ∈ texts → contains MARKER s = true ∧ text_of w' (target ++ [n]) s) as Hrest.
  { eapply IH; [by eapply flat_stable|set_solver|set_solver|done]. }
  apply elem_of_cons in Hin as [[= -> ->]|Hin]; [|by apply Hrest]. split; [done|].
  destruct (decide (m ∈ map fst texts)) as [Hm|Hm].
  - apply list_elem_of_In, in_map_iff in Hm as ([m' s'] & Hms & Hin%list_elem_of_In).
    simpl in Hms. subst m'. rewrite (Hfun m t s'); [by apply Hrest|by left|by right].
  - assert (touches (λ p, ∃ n s, (n, s) ∈ texts ∧ p = target ++ [n]) (λ _, False) w1 w') as Ht.
    { eapply preserves_for_each; [apply _| |exact H]. intros [n s] Hns.
      unfold write_source. cbn [fst snd]. destruct (negb _); [apply preserves_raise; apply _|].
      apply touches_write. eauto. }
    eapply touches_text; [exact Ht|eapply write_leaves; [exact E|eapply Hcr; by left]|].
    intros p' q [(n & s & Hns & ->)|[]] Hq Hq'.
    assert (n = m) as -> by (eapply flat_distinct; [by eapply flat_stable|done..]).
    apply Hm, list_elem_of_In, in_map_iff. exists (m, s). split; [done|].
    by apply list_elem_of_In.
Qed.

Lemma survey_cover target names w found w' n q :
  survey_target target names w = (Ok found, w') → is_dir (w_fs w) target = true →
  loc (w_fs w) target = Some q → is_Some (nodes (w_fs w) !! (q ++ [n])) → n ∉ names →
  target ++ [n] ∈ found.2 ∨ (target ++ [n] ∈ found.1 ∧ is_artifact_name n = true).
Proof.
  intros H Hd Hq Hn Hnames. unfold survey_target in H. rewrite ask_bind in H. unfold id in H.
  rewrite Hd, ask_bind in H.
  assert (target ++ [n] ∈ iterdir (w_fs w) target) as Hin by (eapply iterdir_elem; eauto).
  destruct (classify_cover _ _ _ _ _ H _ Hin) as [_ Hc]. rewrite name_snoc in Hc. tauto.
Qed.

(** The phases of a successful run and what each does. *)
Lemma copy_sources_phases ksu module_root w w' :
  copy_sources ksu module_root w = (Ok tt, w') →
  let target := sandbox_dir ksu in
  let source := template_dir module_root in
  let names := source_files (w_fs w) source in
  ∃ found texts changed w1 w2 w3 w4,
    is_symlink (w_fs w) target
      || (exists_ (w_fs w) target && negb (is_dir (w_fs w) target)) = false ∧
    survey_target target names w = (Ok found, w) ∧
    read_sources source names w = (Ok texts, w) ∧
    any_changed target texts w = (Ok changed, w) ∧
    when changed (for_each found.1 (λ p, remove_file p stale_artifact)) w = (Ok tt, w1) ∧
    for_each found.2 (λ p, remove_file p (py "legacy source")) w1 = (Ok tt, w2) ∧
    ensure_target target w2 = (Ok tt, w3) ∧
    for_each texts (write_source source target) w3 = (Ok tt, w4) ∧ w_fs w' = w_fs w4.
Proof.
  intros H. unfold copy_sources in H. rewrite ask_bind in H. unfold id in H.
  destruct (negb _); [done|]. destruct (_ || _) eqn:Eg; [done|]. cbv zeta in H.
  minv H found w0 E1; [|done]. destruct found as [artifacts legacy].
  assert (w0 = w) as ->.
  { symmetry. by eapply (preserves_survey eq). }
  minv H texts w0 E2; [|done]. pose proof (read_sources_ok _ _ _ _ _ E2) as (-> & _).
  minv H changed w0 E3; [|done]. pose proof (any_changed_ok _ _ _ _ _ E3) as (-> & _).
  minv H u1 w1 E4; [|done]. minv H u2 w2 E5; [|done]. minv H u3 w3 E6; [|done].
  minv H u4 w4 E7; [|done]. injection H as <-. destruct u1, u2, u3, u4.
  exists (artifacts, legacy), texts, changed, w1, w2, w3, w4. by split_and!.
Qed.

Lemma removals_touch ps description w w' :
  for_each ps (λ p, remove_file p description) w = (Ok tt, w') →
  touches (λ _, False) (λ _, True) w w'.
Proof.
  intros H. eapply preserves_for_each; [apply _| |exact H]. intros p Hp.
  by apply touches_remove_file.
Qed.

(** No file is new where none of the paths written is. *)
Lemma no_new_file W D w w' p :
  touches W D w w' → (∀ q, W q → loc (w_fs w) q ≠ loc (w_fs w) p) →
  is_file (w_fs w') p = true → is_file (w_fs w) p = true.
Proof.
  intros Ht HW [f Hf]%is_file_stat. apply is_file_stat. exists f.
  by eapply touches_no_new.
Qed.

Lemma writes_touch source target texts w w' :
  for_each texts (write_source source target) w = (Ok tt, w') →
  touches (λ p, ∃ n, n ∈ map fst texts ∧ p = target ++ [n]) (λ _, False) w w'.
Proof.
  intros H. eapply preserves_for_each; [apply _| |exact H]. intros [n s] Hns.
  unfold write_source. cbn [fst snd]. destruct (negb _); [apply preserves_raise; apply _|].
  apply touches_write. exists n. split; [|done]. apply list_elem_of_In, in_map_iff.
  exists (n, s). split; [done|]. by apply list_elem_of_In.
Qed.

Section phases.
(** A run in its phases. *)
Context (target source : path) (names : list string).
Context (found : list path * list path) (texts : list (string * text)) (changed : bool).
Context (w w1 w2 w3 w4 : world) (Hwf : fs_wf (w_fs w)).
Context (Hg : is_symlink (w_fs w) target
          || (exists_ (w_fs w) target && negb (is_dir (w_fs w) target)) = false).
Context (Hs : survey_target target names w = (Ok found, w)).
Context (Hr : read_sources source names w = (Ok texts, w)).
Context (Hc : any_changed target texts w = (Ok changed, w)).
Context (H1 : when changed (for_each found.1 (λ p, remove_file p stale_artifact)) w
          = (Ok tt, w1)).
Context (H2 : for_each found.2 (λ p, remove_file p (py "legacy source")) w1 = (Ok tt, w2)).
Context (H3 : ensure_target target w2 = (Ok tt, w3)).
Context (H4 : for_each texts (write_source source target) w3 = (Ok tt, w4)).

Lemma phase_removals :
  touches (λ _, False) (λ _, True) w w1 ∧ touches (λ _, False) (λ _, True) w w2 ∧
  touches (λ _, False) (λ _, True) w2 w3.
Proof.
  assert (touches (λ _, False) (λ _, True) w w1) as T1.
  { destruct changed; [by eapply removals_touch|by injection H1 as <-]. }
  pose proof (removals_touch _ _ _ _ H2) as T2. split_and!; [exact T1| |].
  - etrans; [exact T1|exact T2].
  - exact (touches_ensure_target (λ _, False) (λ _, True) _ _ _ _ H3).
Qed.

Lemma phase_flat : flat (w_fs w) target ∧ flat (w_fs w3) target.
Proof.
  pose proof (survey_flat _ _ _ _ _ Hwf Hg Hs) as Hf. split; [done|].
  destruct phase_removals as (_ & [L2 _] & [L3 _]).
  eapply flat_stable, Hf. by rewrite L3.
Qed.

Lemma phase_copied n :
  n ∈ names →
  ∃ s, text_of w (source ++ [n]) s ∧ contains MARKER s = true ∧ text_of w4 (target ++ [n]) s.
Proof.
  destruct (read_sources_ok _ _ _ _ _ Hr) as (_ & Hnames & Htexts).
  rewrite <- Hnames. intros Hn.
  apply list_elem_of_In, in_map_iff in Hn as ([m s] & Hms & Hin%list_elem_of_In).
  simpl in Hms. subst m. exists s. split; [by apply Htexts|].
  eapply write_sources_ok; [apply phase_flat| | |exact H4|done].
  - intros k t Hk. by eapply text_of_no_cr, Htexts.
  - intros k t u Ht Hu. by eapply text_of_unique; apply Htexts.
Qed.

(** A file that is no source was there before the writes, hence before the removals. *)
Lemma phase_older n :
  n ∉ names → is_file (w_fs w4) (target ++ [n]) = true →
  is_file (w_fs w2) (target ++ [n]) = true ∧ is_file (w_fs w1) (target ++ [n]) = true ∧
  is_file (w_fs w) (target ++ [n]) = true.
Proof.
  intros Hn Hf. destruct (read_sources_ok _ _ _ _ _ Hr) as (_ & Hnames & _).
  destruct phase_removals as (T1 & _ & T3). pose proof (removals_touch _ _ _ _ H2) as T2.
  assert (is_file (w_fs w3) (target ++ [n]) = true) as Hf3.
  { pose proof (writes_touch _ _ _ _ _ H4) as T4. apply is_file_stat in Hf as [f Hf].
    destruct (loc (w_fs w3) (target ++ [n])) as [q|] eqn:Eq.
    - apply is_file_stat. exists f. eapply touches_no_new; [exact T4| |exact Hf].
      intros p (m & Hm & ->) Hl. rewrite Eq in Hl. apply Hn. rewrite <- Hnames.
      by rewrite (flat_distinct _ _ _ _ _ (proj2 phase_flat) Eq Hl).
    - exfalso. destruct T4 as [L4 _]. unfold stat in Hf.
      by rewrite (loc_stable _ _ L4), Eq in Hf. }
  assert (is_file (w_fs w2) (target ++ [n]) = true) as Hf2
    by (by eapply no_new_file; [exact T3| |exact Hf3]).
  assert (is_file (w_fs w1) (target ++ [n]) = true) as Hf1
    by (by eapply no_new_file; [exact T2| |exact Hf2]).
  split_and!; [done|done|]. by eapply no_new_file; [exact T1| |exact Hf1].
Qed.

Lemma phase_others n :
  n ∉ names → is_file (w_fs w4) (target ++ [n]) = true →
  is_artifact_name n = true ∧ changed = false.
Proof.
  intros Hn Hf. destruct (phase_older n Hn Hf) as (Hf2 & Hf1 & Hf0).
  apply is_file_stat in Hf0 as [f Hf0]. unfold stat in Hf0.
  pose proof (proj1 phase_flat n) as Hflat.
  destruct (loc (w_fs w) (target ++ [n])) as [r|]; [|done].
  destruct (loc (w_fs w) target) as [q|] eqn:Eq; [|done]. injection Hflat as ->.
  assert (is_dir (w_fs w) target = true) as Hd.
  { apply is_dir_stat. unfold stat. rewrite Eq. by eapply wf_parent_node. }
  destruct (survey_cover _ _ _ _ _ n q Hs Hd Eq) as [Hin|[Hin Ha]]; [by eexists|done|..].
  - by rewrite (remove_files_gone _ _ _ _ H2 _ Hin) in Hf2.
  - split; [done|]. destruct changed; [|done]. simpl in H1.
    by rewrite (remove_files_gone _ _ _ _ H1 _ Hin) in Hf1.
Qed.
End phases.

Lemma copied_sources ksu module_root w w' :
  fs_wf (w_fs w) → copy_sources ksu module_root w = (Ok tt, w') →
  ∀ n, n ∈ source_files (w_fs w) (template_dir module_root) →
    ∃ s, text_of w (template_dir module_root ++ [n]) s ∧ contains MARKER s = true ∧
         text_of w' (sandbox_dir ksu ++ [n]) s.
Proof.
  intros Hwf H n Hn. apply copy_sources_phases in H
    as (found & texts & changed & w1 & w2 & w3 & w4 & Hg & Hs & Hr & Hc & H1 & H2 & H3 & H4 & Hfs).
  destruct (phase_copied _ _ _ _ _ _ _ _ _ _ _ Hwf Hg Hs Hr Hc H1 H2 H3 H4 n Hn)
    as (s & Ht & Hm & Hw).
  exists s. split_and!; [done..|]. by eapply text_of_same_fs.
Qed.

(** C24: copying the sources.  After a success each file of the template directory, the public
    header excepted, has its copy in the installer's directory, with the ownership marker;
    any other file there is a build artifact, and is there only if every source had been up
    to date: when a source changes, what was built from the old ones is gone, and so are
    the sources of earlier versions. *)
Theorem copy_sources_spec ksu module_root w w' :
  fs_wf (w_fs w) → copy_sources ksu module_root w = (Ok tt, w') →
  let names := source_files (w_fs w) (template_dir module_root) in
  (∀ n, n ∈ names →
     ∃ s, text_of w (template_dir module_root ++ [n]) s ∧ contains MARKER s = true ∧
          text_of w' (sandbox_dir ksu ++ [n]) s) ∧
  (∀ n, n ∉ names → is_file (w_fs w') (sandbox_dir ksu ++ [n]) = true →
     is_artifact_name n = true ∧
     ∀ m, m ∈ names → ∃ s, text_of w (template_dir module_root ++ [m]) s ∧
                           text_of w (sandbox_dir ksu ++ [m]) s).
Proof.
  intros Hwf H. cbv zeta. split; [by apply copied_sources|].
  apply copy_sources_phases in H
    as (found & texts & changed & w1 & w2 & w3 & w4 & Hg & Hs & Hr & Hc & H1 & H2 & H3 & H4 & Hfs).
  intros n Hn Hf. rewrite Hfs in Hf.
  destruct (phase_others _ _ _ _ _ _ _ _ _ _ _ Hwf Hg Hs Hr Hc H1 H2 H3 H4 n Hn Hf) as [Ha ->].
  split; [done|].
  destruct (read_sources_ok _ _ _ _ _ Hr) as (_ & <- & Htexts).
  destruct (any_changed_ok _ _ _ _ _ Hc) as [_ Hsame].
  intros m ([k s] & <- & Hms%list_elem_of_In)%list_elem_of_In%in_map_iff.
  exists s. split; [by apply Htexts|by apply Hsame].
Qed.

Lemma copy_sources_spec_witness :
  let run := copy_sources sample_ksu sample_module official_world in
  run.1 = Ok tt ∧
  ∃ s, text_of official_world (template_dir sample_module ++ ["core.c"]) s ∧
       text_of run.2 (sandbox_dir sample_ksu ++ ["core.c"]) s.
Proof.
  intros run. assert (run.1 = Ok tt) as Hr by (vm_compute; reflexivity).
  split; [exact Hr|].
  destruct (copy_sources_spec sample_ksu sample_module official_world run.2) as [H _].
  - apply fs_wf_check_sound. vm_compute. reflexivity.
  - rewrite <- Hr. apply surjective_pairing.
  - destruct (H "core.c") as (s & H1 & _ & H2); [|exists s; split; [exact H1|exact H2]].
    apply has_name_elem. vm_compute. reflexivity.
Defined.
