(* ===== verification/Hooks.v ===== *)
(** * The sources through the steps of [patch_all]

    After the steps of [patch_all] the text of each patched source is its old text, passed
    through its patches: every patch runs, in order, and no other step touches the file. *)

From Stdlib Require Import Ascii.
From stdpp Require Import base list strings gmap.
From S2P Require Import Prelude PyText PyRegex PyResult CLexer CPreproc CScope World FsFacts.
From S2P Require Import Transaction Kbuild Defconfig Discovery Resukisu KsuPatches KernelHooks.
From S2P Require Import Sources Installer Example Frames FileFacts HookFacts Stages ReadOnly.
From S2P Require Import Footprint SourcesFacts.

#[local] Opaque walk.

(** ** Files of different names *)

Lemma name_app (d f : path) : f ≠ [] → name (d ++ f) = name f.
Proof.
  destruct (path_cases f) as [->|(e & x & ->)]; [done|]. intros _.
  by rewrite app_assoc, !name_snoc.
Qed.

(** The location of a path that is no link ends with its name. *)
Lemma loc_name fs p q :
  p ≠ [] → is_symlink fs p = false → loc fs p = Some q → ∃ d, q = d ++ [name p].
Proof.
  intros Hp Hs Hq. rewrite (loc_not_symlink _ _ Hs) in Hq.
  destruct (path_cases p) as [->|(d & c & ->)]; [done|]. rewrite lloc_snoc in Hq.
  destruct (loc fs d) as [r|]; [|done]. injection Hq as <-. exists r. by rewrite name_snoc.
Qed.

Section layout.
Context (l : layout).

(** A file that the installation edits. *)
Definition edited (p : path) : Prop :=
  (∃ f, f ∈ ksu_files ∧ p = l_ksu l ++ f) ∨ ∃ f, f ∈ common_files ∧ p = l_common l ++ f.

(** The edited files are no links. *)
Definition no_links (fs : fsys) : Prop := ∀ p, edited p → is_symlink fs p = false.

Lemma no_links_stable fs fs' : links fs' = links fs → no_links fs → no_links fs'.
Proof. intros Hl H p Hp. rewrite (is_symlink_stable _ _ Hl). by apply H. Qed.

Lemma relative_not_root f : f ∈ ksu_files ++ common_files → f ≠ [].
Proof.
  assert (Forall (λ f : path, f ≠ []) (ksu_files ++ common_files)) as H by by repeat constructor.
  rewrite Forall_forall in H. apply H.
Qed.

Lemma edited_not_root p : edited p → p ≠ [].
Proof.
  intros [(f & Hf & ->)|(f & Hf & ->)];
    (assert (f ≠ []) as Hne by (apply relative_not_root, elem_of_app; auto));
    intros [_ ?]%app_eq_nil; done.
Qed.

(** An edited file with another name. *)
Definition apart (n : string) (p : path) : Prop := edited p ∧ name p ≠ n.

Definition nothing (p : path) : Prop := False.

Lemma apart_ksu n f :
  bool_decide (f ∈ ksu_files) && negb (String.eqb (name f) n) = true → apart n (l_ksu l ++ f).
Proof.
  intros [Hf%bool_decide_eq_true Hn%negb_true_iff%String.eqb_neq]%andb_true_iff.
  split; [left; eauto|]. rewrite name_app; [done|].
  apply relative_not_root, elem_of_app. auto.
Qed.

Lemma apart_common n f :
  bool_decide (f ∈ common_files) && negb (String.eqb (name f) n) = true →
  apart n (l_common l ++ f).
Proof.
  intros [Hf%bool_decide_eq_true Hn%negb_true_iff%String.eqb_neq]%andb_true_iff.
  split; [right; eauto|]. rewrite name_app; [done|].
  apply relative_not_root, elem_of_app. auto.
Qed.

(** Two edited files of different names are at different places. *)
Lemma apart_places fs p p' :
  edited p → no_links fs → apart (name p) p' → loc fs p' = loc fs p → loc fs p = None.
Proof.
  intros Hp Hno [Hp' Hn] Heq. destruct (loc fs p) as [q|] eqn:Hq; [|done]. exfalso. apply Hn.
  apply loc_name in Hq as [d ->]; [|by apply edited_not_root|by apply Hno].
  apply loc_name in Heq as [d' Hd]; [|by apply edited_not_root|by apply Hno].
  by apply app_inj_tail in Hd as [_ <-].
Qed.

(** Steps that touch files of other names keep the text of a file. *)
Lemma text_kept p s w w' :
  edited p → no_links (w_fs w) → touches (apart (name p)) nothing w w' →
  text_of w p s ↔ text_of w' p s.
Proof.
  intros Hp Hno Ht. split.
  - intros Hs. eapply touches_text; [exact Ht|exact Hs|]. intros p' q [Hp'|[]] Hq' Hq.
    rewrite <- Hq in Hq'. by rewrite (apart_places _ _ _ Hp Hno Hp' Hq') in Hq.
  - intros (f & Hf & ->)%text_of_stat. apply text_of_stat. exists f. split; [|done].
    eapply touches_no_new; [exact Ht| |exact Hf]. intros q Hq Heq.
    pose proof (apart_places _ _ _ Hp Hno Hq Heq) as Hn. destruct Ht as [Hl _].
    unfold stat in Hf. by rewrite (loc_stable _ _ Hl), Hn in Hf.
Qed.

Lemma passes_frame p stages w0 w w' w1 :
  edited p → no_links (w_fs w0) → touches (apart (name p)) nothing w0 w →
  passes p stages w w' → links (w_fs w') = links (w_fs w) →
  touches (apart (name p)) nothing w' w1 → passes p stages w0 w1.
Proof.
  intros Hp Hno H0 (s & s' & Hs & Hs' & Hst) Hl H1.
  assert (no_links (w_fs w')) as Hno'.
  { eapply no_links_stable; [|exact Hno]. destruct H0 as [Hl0 _]. congruence. }
  exists s, s'. split_and!; [|exact (proj1 (text_kept p s' w' w1 Hp Hno' H1) Hs')|exact Hst].
  exact (proj2 (text_kept p s w0 w Hp Hno H0) Hs).
Qed.

(** ** The sequence of the patches *)

Fixpoint run_all (ms : list (M unit)) : M unit :=
  match ms with
  | [] => mret tt
  | [m] => m
  | m :: ms' => m ;; run_all ms'
  end.

Definition steps (module_root : path) : list (M unit) :=
  [patch_escape (l_ksu l); patch_supercall_dispatch (l_ksu l); patch_allowlist (l_ksu l);
   patch_policy_lock_order (l_ksu l); patch_policy_reapply (l_ksu l);
   patch_sucompat_fail_closed l; patch_resukisu_manual_fail_closed l;
   patch_common_header (l_common l) module_root; patch_lsm_count (l_common l) (l_version l);
   patch_seccomp (l_common l ++ ["kernel"; "seccomp.c"]);
   patch_namespace (l_common l ++ ["fs"; "namespace.c"]);
   patch_ptrace (l_common l ++ ["kernel"; "ptrace.c"]);
   patch_signal (l_common l ++ ["kernel"; "signal.c"])].

Lemma patch_all_steps module_root : patch_all l module_root = run_all (steps module_root).
Proof. done. Qed.

Lemma run_all_cons m ms w w' :
  run_all (m :: ms) w = (Ok tt, w') →
  ∃ w1, m w = (Ok tt, w1) ∧ run_all ms w1 = (Ok tt, w').
Proof.
  destruct ms as [|m' ms]; [by exists w'|]. change (run_all (m :: m' :: ms)) with (m ;; run_all (m' :: ms)).
  intros H. minv H u w1 E; [|done]. destruct u. eauto.
Qed.

Lemma run_all_app ms ms' w w' :
  run_all (ms ++ ms') w = (Ok tt, w') →
  ∃ w1, run_all ms w = (Ok tt, w1) ∧ run_all ms' w1 = (Ok tt, w').
Proof.
  revert w. induction ms as [|m ms IH]; intros w; [by exists w|].
  intros (w1 & H1 & H2)%run_all_cons. apply IH in H2 as (w2 & H2 & H3).
  exists w2. split; [|done]. destruct ms as [|m' ms]; [by injection H2 as <-|].
  change (run_all (m :: m' :: ms)) with (m ;; run_all (m' :: ms)). by rewrite bind_eq, H1.
Qed.

Lemma run_all_preserves (R : world → world → Prop) `{!PreOrder R} ms :
  Forall (preserves R) ms → preserves R (run_all ms).
Proof.
  induction 1 as [|m ms Hm _ IH]; [apply preserves_ret; apply _|].
  intros w r w' H. destruct ms as [|m' ms]; [by eapply Hm|].
  change (run_all (m :: m' :: ms)) with (m ;; run_all (m' :: ms)) in H.
  minv H u w1 E; [etrans; [by eapply Hm|by eapply IH]|]. injection H as <- <-. by eapply Hm.
Qed.

(** Steps that pass a file through its stages, between steps that leave it alone. *)
Lemma steps_pass before ms after p n stages w w' :
  run_all (before ++ ms ++ after) w = (Ok tt, w') → edited p → name p = n →
  no_links (w_fs w) →
  Forall (preserves (touches (apart n) nothing)) before →
  Forall (preserves (touches edited nothing)) ms →
  (∀ w1 w2, run_all ms w1 = (Ok tt, w2) → passes p stages w1 w2) →
  Forall (preserves (touches (apart n) nothing)) after →
  passes p stages w w'.
Proof.
  intros (w1 & H1 & (w2 & H2 & H3)%run_all_app)%run_all_app Hp <- Hno Hb Hms Hm Ha.
  apply (run_all_preserves _ _ Hb) in H1. apply (run_all_preserves _ _ Ha) in H3.
  eapply passes_frame; [exact Hp|exact Hno|exact H1|by apply Hm| |exact H3].
  by apply (run_all_preserves _ _ Hms) in H2 as [Hl _].
Qed.
End layout.

(** ** What each step touches *)

Create HintDb steps.
#[export] Hint Extern 0 (apart ?l ?n (l_ksu ?l ++ _)) =>
  apply apart_ksu; vm_compute; reflexivity : steps.
#[export] Hint Extern 0 (apart ?l ?n (l_common ?l ++ _)) =>
  apply apart_common; vm_compute; reflexivity : steps.
#[export] Hint Resolve touches_install_kbuild touches_insert_before_last : steps.
#[export] Hint Resolve touches_write touches_patch_file touches_inject touches_with_include
  touches_patch_bind : steps.

Lemma edited_ksu l f : bool_decide (f ∈ ksu_files) = true → edited l (l_ksu l ++ f).
Proof. intros H%bool_decide_eq_true. left. eauto. Qed.

Lemma edited_common l f : bool_decide (f ∈ common_files) = true → edited l (l_common l ++ f).
Proof. intros H%bool_decide_eq_true. right. eauto. Qed.

#[export] Hint Extern 0 (edited ?l (l_ksu ?l ++ _)) =>
  apply edited_ksu; vm_compute; reflexivity : steps.
#[export] Hint Extern 0 (edited ?l (l_common ?l ++ _)) =>
  apply edited_common; vm_compute; reflexivity : steps.

(** Shows that steps touch certain files only. *)
Ltac steps :=
  repeat (apply Forall_cons; split); [..|apply Forall_nil; exact I];
  unfold patch_escape, patch_supercall_dispatch, patch_allowlist, patch_policy_lock_order,
    patch_policy_reapply, patch_sucompat_fail_closed, patch_resukisu_manual_fail_closed,
    patch_common_header, common_header, patch_lsm_count, patch_seccomp, patch_namespace,
    patch_ptrace, patch_signal;
  preserves_with ltac:(eauto with steps).

(** ** The patched sources *)

Definition keeps_su (l : layout) : bool :=
  existsb (text_eqb (l_variant l)) [py "official"; py "sukisu"].

Definition ksu_sources (l : layout) : list (path * list stage) :=
  [(l_ksu l ++ ["policy"; "app_profile.c"], escape_stages);
   (l_ksu l ++ ["supercall"; "dispatch.c"], dispatch_stages);
   (l_ksu l ++ ["policy"; "allowlist.c"], allowlist_stages);
   (l_ksu l ++ ["selinux"; "rules.c"], rules_stages)].

(** The sources that are patched for some variants or kernels only. *)
Definition variant_sources (l : layout) : list (path * list stage) :=
  (if keeps_su l then [(l_ksu l ++ ["feature"; "sucompat.c"], sucompat_stages)] else [])
  ++ (if text_eqb (l_variant l) (py "resukisu")
      then [(l_ksu l ++ ["feature"; "sucompat.c"], manual_stages)] else [])
  ++ (if text_eqb (l_version l) (py "6.12")
      then [(l_common l ++ ["include"; "linux"; "lsm_count.h"], lsm_count_stages)] else []).

Definition kernel_sources (l : layout) : list (path * list stage) :=
  [(l_common l ++ ["kernel"; "seccomp.c"], seccomp_stages);
   (l_common l ++ ["fs"; "namespace.c"], namespace_stages);
   (l_common l ++ ["kernel"; "ptrace.c"], ptrace_stages);
   (l_common l ++ ["kernel"; "signal.c"], signal_stages)].

Definition patched_sources (l : layout) : list (path * list stage) :=
  ksu_sources l ++ variant_sources l ++ kernel_sources l.

Lemma keeps_su_variant l : keeps_su l = true → text_eqb (l_variant l) (py "resukisu") = false.
Proof.
  unfold keeps_su. cbn [existsb]. rewrite orb_false_r, orb_true_iff, !text_eqb_eq.
  by intros [-> | ->].
Qed.

Section sources.
Context (l : layout) (module_root : path) (w w' : world).
Context (Hrun : run_all (steps l module_root) w = (Ok tt, w')) (Hno : no_links l (w_fs w)).

(** The source that a run of [ms] patches, after [before]. *)
Ltac pass before ms how :=
  eapply (steps_pass l before ms);
    [exact Hrun|auto with steps|by apply name_app|exact Hno|steps|steps
    |let w1 := fresh in let w2 := fresh in intros w1 w2; how|steps].

Lemma ksu_passes p stages : (p, stages) ∈ ksu_sources l → passes p stages w w'.
Proof.
  unfold ksu_sources. rewrite !elem_of_cons.
  intros [[= -> ->]|[[= -> ->]|[[= -> ->]|[[= -> ->]|?%not_elem_of_nil]]]]; [..|done].
  - pass (@nil (M unit)) [patch_escape (l_ksu l)]
      ltac:(apply patch_file_passes, sound_leaves, leaves_escape).
  - pass [patch_escape (l_ksu l)] [patch_supercall_dispatch (l_ksu l)]
      ltac:(apply patch_file_passes, sound_leaves, leaves_dispatch).
  - pass [patch_escape (l_ksu l); patch_supercall_dispatch (l_ksu l)] [patch_allowlist (l_ksu l)]
      ltac:(apply patch_file_passes, sound_allowlist).
  - pass [patch_escape (l_ksu l); patch_supercall_dispatch (l_ksu l); patch_allowlist (l_ksu l)]
      [patch_policy_lock_order (l_ksu l); patch_policy_reapply (l_ksu l)]
      ltac:(intros (w3 & H1 & H2)%run_all_cons; eapply (passes_app _ [_]);
        [eapply patch_file_passes; [apply sound_leaves, leaves_lock_order|exact H1]
        |eapply patch_file_passes; [apply sound_leaves, leaves_reapply|exact H2]]).
Qed.

Lemma kernel_passes p stages : (p, stages) ∈ kernel_sources l → passes p stages w w'.
Proof.
  unfold kernel_sources. rewrite !elem_of_cons.
  intros [[= -> ->]|[[= -> ->]|[[= -> ->]|[[= -> ->]|?%not_elem_of_nil]]]]; [..|done].
  - pass (take 9 (steps l module_root)) [patch_seccomp (l_common l ++ ["kernel"; "seccomp.c"])]
      ltac:(apply include_inject_passes, sound_leaves, leaves_seccomp).
  - pass (take 10 (steps l module_root)) [patch_namespace (l_common l ++ ["fs"; "namespace.c"])]
      ltac:(apply patch_namespace_passes).
  - pass (take 11 (steps l module_root)) [patch_ptrace (l_common l ++ ["kernel"; "ptrace.c"])]
      ltac:(apply include_inject_passes, sound_leaves, leaves_ptrace).
  - pass (take 12 (steps l module_root)) [patch_signal (l_common l ++ ["kernel"; "signal.c"])]
      ltac:(apply include_inject_passes, sound_leaves, leaves_signal).
Qed.

Lemma sucompat_skipped n :
  keeps_su l = false → preserves (touches (apart l n) nothing) (patch_sucompat_fail_closed l).
Proof.
  intros H. unfold patch_sucompat_fail_closed. fold (keeps_su l). rewrite H.
  apply preserves_ret; apply _.
Qed.

Lemma manual_skipped n :
  text_eqb (l_variant l) (py "resukisu") = false →
  preserves (touches (apart l n) nothing) (patch_resukisu_manual_fail_closed l).
Proof.
  intros H. unfold patch_resukisu_manual_fail_closed. rewrite H. apply preserves_ret; apply _.
Qed.

Lemma variant_passes p stages : (p, stages) ∈ variant_sources l → passes p stages w w'.
Proof.
  unfold variant_sources. rewrite !elem_of_app. intros [H|[H|H]].
  - destruct (keeps_su l) eqn:Ek; [|by apply elem_of_nil in H].
    apply list_elem_of_singleton in H as [= -> ->].
    eapply (steps_pass l (take 5 (steps l module_root)) [patch_sucompat_fail_closed l]);
      [exact Hrun|auto with steps|by apply name_app|exact Hno|steps|steps| |].
    + intros w1 w2. unfold run_all, patch_sucompat_fail_closed. fold (keeps_su l). rewrite Ek.
      apply patch_file_passes, sound_leaves, leaves_sucompat.
    + apply Forall_cons. split; [by apply manual_skipped, keeps_su_variant|steps].
  - destruct (text_eqb _ (py "resukisu")) eqn:Ev; [|by apply elem_of_nil in H].
    assert (keeps_su l = false) as Ek.
    { apply not_true_iff_false. intros Hk%keeps_su_variant. congruence. }
    apply list_elem_of_singleton in H as [= -> ->].
    eapply (steps_pass l (take 5 (steps l module_root) ++ [patch_sucompat_fail_closed l])
              [patch_resukisu_manual_fail_closed l]);
      [exact Hrun|auto with steps|by apply name_app|exact Hno| |steps| |steps].
    + apply Forall_app. split; [steps|]. apply Forall_cons. split; [by apply sucompat_skipped|].
      apply Forall_nil. exact I.
    + intros w1 w2. unfold run_all, patch_resukisu_manual_fail_closed. rewrite Ev.
      apply patch_file_passes, sound_leaves, leaves_manual.
  - destruct (text_eqb (l_version l) _) eqn:Ev; [|by apply elem_of_nil in H].
    apply list_elem_of_singleton in H as [= -> ->].
    eapply (steps_pass l (take 8 (steps l module_root)) [patch_lsm_count (l_common l) (l_version l)]);
      [exact Hrun|auto with steps|by apply name_app|exact Hno|steps|steps| |steps].
    intros w1 w2. unfold run_all, patch_lsm_count. rewrite Ev.
    apply patch_file_passes, sound_leaves, leaves_lsm_count.
Qed.

Lemma all_pass p stages : (p, stages) ∈ patched_sources l → passes p stages w w'.
Proof.
  unfold patched_sources. rewrite !elem_of_app.
  intros [H|[H|H]]; [by apply ksu_passes|by apply variant_passes|by apply kernel_passes].
Qed.
End sources.
