(* ===== verification/Lifecycle.v ===== *)
(** * What every run keeps

    The installer reaches the tree and the process state through a dozen primitive
    operations.  A relation that is closed under these holds between the worlds before and
    after any run of [main], failing runs and failing rollbacks included.  Two instances:
    the tree stays a tree, and the mode of the process is not changed. *)

From Stdlib Require Import Ascii.
From stdpp Require Import base list strings gmap.
From S2P Require Import Prelude PyText PyResult World FsFacts Transaction Kbuild Defconfig.
From S2P Require Import Discovery Resukisu KsuPatches KernelHooks Sources Installer Example.
From S2P Require Import Frames FileFacts ReadOnly Footprint.

#[local] Opaque walk.

(** ** The interface *)

(** What a relation promises about the primitive operations. *)
Class Closed (R : world → world → Prop) : Prop := {
  closed_preorder :: PreOrder R;
  closed_same w w' : same_state w w' → R w w';
  closed_tick : preserves R tick;
  closed_clock t w : R w (set_clock t w);
  closed_tx tx w : R w (set_tx tx w);
  closed_store p f : preserves R (store p f);
  closed_unlink p : preserves R (unlink p);
  closed_rmdir p : preserves R (rmdir p);
  closed_mkdir p : preserves R (os_mkdir p)
}.

Section closed.
Context (R : world → world → Prop) `{!Closed R}.

Lemma closed_modify (f : world → world) : (∀ w, R w (f w)) → preserves R (modify f).
Proof. intros Hf w r w' [= <- <-]. apply Hf. Qed.

Lemma closed_of_same {A} (m : M A) : preserves same_state m → preserves R m.
Proof. apply preserves_weaken, closed_same. Qed.

Lemma closed_of_eq {A} (m : M A) : preserves eq m → preserves R m.
Proof. apply preserves_weaken. by intros w _ <-. Qed.

Lemma closed_print line : preserves R (print line).
Proof. apply closed_of_same, preserves_print. Qed.

(** ** Recording *)

Lemma closed_add_missing p : preserves R (add_missing p).
Proof.
  unfold add_missing, current_tx.
  preserves_with ltac:(apply closed_modify; intros; apply closed_tx).
Qed.

Lemma closed_climb fuel p : preserves R (climb_missing fuel p).
Proof.
  revert p. induction fuel as [|fuel IH]; intros p; cbn [climb_missing];
    preserves_with ltac:(first [apply IH | apply closed_add_missing]).
Qed.

Lemma closed_record_missing p : preserves R (record_missing_directories p).
Proof. unfold record_missing_directories. preserves_with ltac:(apply closed_climb). Qed.

Lemma closed_record_directory p : preserves R (record_directory p).
Proof. unfold record_directory. preserves_with ltac:(apply closed_record_missing). Qed.

Lemma closed_record_file p : preserves R (record_file p).
Proof.
  unfold record_file, current_tx, copy_to_backup, add_file, os_error.
  preserves_with ltac:(first [apply closed_record_missing | apply closed_tick
    | apply preserves_stat_file; apply _ | apply closed_modify; intros; apply closed_tx
    | apply preserves_raise; apply _]).
Qed.

Lemma closed_in_transaction m : preserves R m → preserves R (in_transaction m).
Proof. intros H. unfold in_transaction. preserves_with ltac:(exact H). Qed.

(** ** Access to the tree *)

Lemma closed_mkdir_here p : preserves R (mkdir_here p).
Proof.
  apply preserves_catch; [apply _|apply closed_mkdir|].
  intros [m|[] q|c]; first [apply preserves_raise; apply _ | unfold unless_dir; preserves].
Qed.

Lemma closed_mkdir_parents p : preserves R (mkdir_parents p).
Proof.
  unfold mkdir_parents. generalize (length p) as fuel. intros fuel. revert p.
  induction fuel as [|fuel IH]; intros p; cbn [mkdir_from];
    (apply preserves_catch; [apply _|apply closed_mkdir|]);
    intros [m|[] q|c];
    preserves_with ltac:(first [apply IH | apply closed_mkdir_here
                               | unfold unless_dir; preserves]).
Qed.

Lemma closed_write_text p s : preserves R (write_text p s).
Proof.
  unfold write_text. preserves_with ltac:(first [apply closed_store
    | apply closed_modify; intros; apply closed_clock]).
Qed.

Lemma closed_write p s : preserves R (write p s).
Proof.
  unfold write. preserves_with ltac:(first [apply closed_in_transaction, closed_record_file
    | apply closed_mkdir_parents | apply closed_write_text | apply closed_print]).
Qed.

Lemma closed_remove_file p description : preserves R (remove_file p description).
Proof.
  unfold remove_file. preserves_with ltac:(first
    [apply closed_in_transaction, closed_record_file | apply closed_unlink
    | apply closed_print]).
Qed.

Lemma closed_write_new p o : preserves R (write_new p o).
Proof. unfold write_new. preserves_with ltac:(apply closed_write). Qed.

(** ** The body of an installation *)

Lemma closed_with_include p : preserves R (with_include p).
Proof. unfold with_include. preserves_with ltac:(apply closed_write). Qed.

Lemma closed_copy_sources ksu module_root : preserves R (copy_sources ksu module_root).
Proof.
  unfold copy_sources, write_source, ensure_target.
  preserves_with ltac:(first
    [ apply preserves_survey; apply _ | apply preserves_read_sources; apply _
    | apply preserves_any_changed; apply _ | apply closed_remove_file
    | apply closed_in_transaction, closed_record_directory | apply closed_mkdir_parents
    | apply closed_write | apply closed_print ]).
Qed.

Lemma closed_patch_all l module_root : preserves R (patch_all l module_root).
Proof.
  unfold patch_all, patch_escape, patch_supercall_dispatch, patch_allowlist,
    patch_policy_lock_order, patch_policy_reapply, patch_sucompat_fail_closed,
    patch_resukisu_manual_fail_closed, patch_lsm_count, patch_common_header,
    patch_kernel_hooks, patch_seccomp, patch_namespace, patch_bind, patch_ptrace,
    patch_signal, patch_file, inject.
  preserves_with ltac:(first [apply closed_write_new | apply closed_with_include
                             | apply closed_write]).
Qed.

Lemma closed_install_body l module_root policy : preserves R (install_body l module_root policy).
Proof.
  unfold install_body, install_kbuild, insert_before_last.
  preserves_with ltac:(first [apply closed_copy_sources | apply closed_patch_all
                             | apply closed_write]).
Qed.

(** ** Rollback *)

Lemma closed_undo_file p backup : preserves R (undo_file p backup).
Proof.
  unfold undo_file, message_error. preserves_with ltac:(first
    [ apply closed_unlink | apply closed_mkdir_parents | apply closed_store
    | apply preserves_raise; apply _ ]).
Qed.

Lemma closed_undo_directory p : preserves R (undo_directory p).
Proof.
  apply preserves_catch; [apply _|apply closed_rmdir|]. intros [m|[] q|c]; preserves.
Qed.

Lemma closed_collect {A} (path_of : A → path) (undo : A → M unit) l :
  (∀ a, preserves R (undo a)) →
  preserves R (collect_failures (λ a, failure_of (path_of a) (undo a)) l).
Proof.
  intros Hu. assert (∀ a, preserves R (failure_of (path_of a) (undo a))) as Hf.
  { intros a. apply preserves_catch; [apply _|preserves_with ltac:(apply Hu)|].
    intros [m|e q|c]; preserves. }
  induction l as [|a l IH]; cbn [collect_failures];
    preserves_with ltac:(first [apply Hf | exact IH]).
Qed.

Lemma closed_rollback : preserves R rollback.
Proof.
  unfold rollback, current_tx. preserves_with ltac:(first
    [ apply closed_collect; intros; apply closed_undo_file
    | apply (closed_collect id); intros; apply closed_undo_directory ]).
Qed.

Lemma closed_with_transaction {A} (body : M A) : preserves R body → preserves R (with_transaction body).
Proof.
  intros Hb w r w'. unfold with_transaction. destruct (w_tx w); [by intros [= <- <-]|].
  destruct (body _) as [[a|e] w1] eqn:E; apply Hb in E;
    assert (R w w1) as H1 by (etrans; [apply closed_tx|exact E]).
  - intros [= <- <-]. etrans; [exact H1|apply closed_tx].
  - unfold exit_with_exception. destruct (rollback w1) as [[[]|e2] w2] eqn:Er;
      apply closed_rollback in Er; intros [= <- <-]; (etrans; [exact H1|]);
      (etrans; [exact Er|]); [|apply closed_tx].
    etrans; [|apply closed_tx]. destruct (match w_tx w2 with Some _ => _ | None => _ end);
      [by apply closed_same|done].
Qed.

(** ** The commands *)

Lemma closed_main args : preserves R (main args).
Proof.
  assert (∀ l d, preserves R (install l (a_module_root args) d)) as Hi.
  { intros l d. unfold install, report. preserves_with ltac:(first
      [ apply preserves_defconfig_option; apply _ | apply preserves_runtime_policy; apply _
      | apply preserves_validate_runtime; apply _
      | apply closed_with_transaction, closed_install_body | apply closed_print ]). }
  unfold main, run_command. apply preserves_catch; [apply _| |].
  - preserves_with ltac:(first [apply preserves_discover; apply _ | apply Hi
      | apply closed_of_same, preserves_verify | apply closed_print]).
  - intros [m|e p|c]; [|preserves..].
    apply preserves_bind; [apply _| |intros []; preserves].
    apply closed_modify. intros w. by apply closed_same.
Qed.
End closed.

(** ** The tree stays a tree *)

Definition keeps_wf (w w' : world) : Prop := fs_wf (w_fs w) → fs_wf (w_fs w').

#[export] Instance keeps_wf_preorder : PreOrder keeps_wf.
Proof. split; unfold keeps_wf; auto. Qed.

Lemma keeps_wf_same w w' : w_fs w' = w_fs w → keeps_wf w w'.
Proof. unfold keeps_wf. by intros ->. Qed.

(** A change of the tree behind the fault counter. *)
Lemma keeps_wf_tick (f : bool → M unit) w r w' :
  (tick ≫= f) w = (r, w') →
  (∀ b w1 r1 w2, w_fs w1 = w_fs w → f b w1 = (r1, w2) → keeps_wf w1 w2) → keeps_wf w w'.
Proof.
  intros H Hf. minv H b w1 E; apply tick_spec in E as (b' & Hb & Hw & _); [|done].
  assert (w_fs w1 = w_fs w) as Hfs by by rewrite Hw.
  etrans; [by apply keeps_wf_same|]. by eapply Hf.
Qed.

Lemma keeps_wf_raise {A} e : preserves keeps_wf (@raise A e).
Proof. apply preserves_raise; apply _. Qed.

Lemma keeps_wf_put q n w :
  (fs_wf (w_fs w) → fs_wf (put q n (w_fs w))) → ∀ r w', put_node q n w = (r, w') → keeps_wf w w'.
Proof. intros H r w' ->%put_node_touches. exact H. Qed.

(** A file may be put where a directory is not, below a directory. *)
Lemma put_file_wf fs p q f :
  loc fs p = Some q → nodes fs !! q ≠ Some Dir → nodes fs !! parent q = Some Dir →
  fs_wf fs → fs_wf (put q (Some (File f)) fs).
Proof.
  intros Hq Hn Hp Hwf. destruct (path_cases q) as [->|(d & c & ->)].
  - by destruct (Hn (wf_root _ Hwf)).
  - rewrite parent_snoc in Hp. apply put_wf; [done..| |done]. by eapply loc_no_link.
Qed.

Lemma keeps_wf_store p f : preserves keeps_wf (store p f).
Proof.
  intros w r w'. unfold store. mstep. unfold id.
  destruct (loc (w_fs w) p) as [q|] eqn:Eq; [|by intros [= <- <-]].
  assert (∀ g w1 r1 w2, w_fs w1 = w_fs w → nodes (w_fs w) !! q ≠ Some Dir →
            nodes (w_fs w) !! parent q = Some Dir →
            put_node q (Some (File g)) w1 = (r1, w2) → keeps_wf w1 w2) as Hput.
  { intros g w1 r1 w2 Hfs Hn Hp. apply keeps_wf_put. rewrite Hfs. by eapply put_file_wf. }
  destruct (nodes (w_fs w) !! q) as [[]|] eqn:En,
    (nodes (w_fs w) !! parent q) as [[]|] eqn:Ep; try (by intros [= <- <-]);
    intros H; (eapply keeps_wf_tick; [exact H|]);
    intros [] w1 r1 w2 Hfs H1; try by eapply Hput.
  all: minv H1 u w3 E; [|injection H1 as <- <-; by eapply Hput].
  all: injection H1 as <- <-; by eapply Hput.
Qed.

Lemma keeps_wf_unlink p : preserves keeps_wf (unlink p).
Proof.
  intros w r w'. unfold unlink. mstep. unfold id.
  destruct (lloc (w_fs w) p) as [q|] eqn:Eq; [|by intros [= <- <-]].
  destruct (links (w_fs w) !! q) eqn:El.
  - intros H. eapply keeps_wf_tick; [exact H|]. intros [] w1 r1 w2 Hfs [= <- <-]; [done|].
    unfold keeps_wf. apply unlink_wf.
  - destruct (nodes (w_fs w) !! q) as [[f|]|] eqn:En; [|by intros [= <- <-]..].
    intros H. eapply keeps_wf_tick; [exact H|]. intros [] w1 r1 w2 Hfs H1.
    { by injection H1 as <- <-. }
    eapply keeps_wf_put; [|exact H1]. rewrite Hfs. intros Hwf.
    apply delete_wf; [done| |intros c; by apply (file_no_children _ q f c)..].
    intros ->. pose proof (wf_root _ Hwf). congruence.
Qed.

Lemma keeps_wf_rmdir p : preserves keeps_wf (rmdir p).
Proof.
  intros w r w'. unfold rmdir. mstep. unfold id.
  destruct (lloc (w_fs w) p) as [[|x q0]|]; [by intros [= <- <-]| |by intros [= <- <-]].
  set (q := x :: q0). destruct (links (w_fs w) !! q); [by intros [= <- <-]|].
  destruct (nodes (w_fs w) !! q) as [[f|]|]; [by intros [= <- <-]| |by intros [= <- <-]].
  destruct (has_children (w_fs w) q) eqn:Ec; [by intros [= <- <-]|].
  intros H. eapply keeps_wf_tick; [exact H|]. intros [] w1 r1 w2 Hfs H1.
  { by injection H1 as <- <-. }
  eapply keeps_wf_put; [|exact H1]. rewrite Hfs. intros Hwf.
  apply has_children_false in Ec as [Hn Hl]. by apply delete_wf.
Qed.

Lemma keeps_wf_mkdir p : preserves keeps_wf (os_mkdir p).
Proof.
  intros w r w'. unfold os_mkdir. mstep. unfold id.
  destruct (lloc (w_fs w) p) as [q|] eqn:Eq; [|by intros [= <- <-]].
  destruct (links (w_fs w) !! q) eqn:El; [by intros [= <- <-]|].
  destruct (nodes (w_fs w) !! q) eqn:En; [by intros [= <- <-]|].
  destruct (nodes (w_fs w) !! parent q) as [[]|] eqn:Ep;
    [by intros [= <- <-]| |by intros [= <- <-]].
  intros H. eapply keeps_wf_tick; [exact H|]. intros [] w1 r1 w2 Hfs H1.
  { by injection H1 as <- <-. }
  eapply keeps_wf_put; [|exact H1]. rewrite Hfs. intros Hwf.
  destruct (path_cases q) as [->|(d & c & ->)].
  - pose proof (wf_root _ Hwf). congruence.
  - rewrite parent_snoc in Ep. apply put_wf; [done..|]. by rewrite En.
Qed.

#[export] Instance keeps_wf_closed : Closed keeps_wf.
Proof.
  split; try (intros; by apply keeps_wf_same).
  - apply _.
  - intros w w' (Hfs & _). by apply keeps_wf_same.
  - intros w r w' (f & _ & Hw & _)%tick_spec. apply keeps_wf_same. by rewrite Hw.
  - apply keeps_wf_store.
  - apply keeps_wf_unlink.
  - apply keeps_wf_rmdir.
  - apply keeps_wf_mkdir.
Qed.

(** Shows that a primitive operation keeps what neither the tree nor the counter holds. *)
Ltac primitive tick_lemma modify_lemma :=
  unfold store, unlink, rmdir, os_mkdir, os_error, put_node;
  preserves_with ltac:(first
    [apply tick_lemma | apply modify_lemma; intros ?; first [by split | intros ?; assumption]
    | apply preserves_raise; apply _]).

(** ** The mode of the process *)

Definition keeps_mode (w w' : world) : Prop :=
  w_validation_only w' = w_validation_only w ∧ w_work_mode w' = w_work_mode w.

#[export] Instance keeps_mode_preorder : PreOrder keeps_mode.
Proof. split; unfold keeps_mode; [done|]. intros w1 w2 w3 [] []. split; congruence. Qed.

Lemma keeps_mode_modify (f : world → world) :
  (∀ w, keeps_mode w (f w)) → preserves keeps_mode (modify f).
Proof. intros Hf w r w' [= <- <-]. apply Hf. Qed.

Lemma keeps_mode_tick : preserves keeps_mode tick.
Proof. intros w r w' (f & _ & -> & _)%tick_spec. done. Qed.

#[export] Instance keeps_mode_closed : Closed keeps_mode.
Proof.
  split; try done.
  - apply _.
  - intros w w' (_ & _ & ? & ? & _). done.
  - apply keeps_mode_tick.
  - intros p f. primitive keeps_mode_tick keeps_mode_modify.
  - intros p. primitive keeps_mode_tick keeps_mode_modify.
  - intros p. primitive keeps_mode_tick keeps_mode_modify.
  - intros p. primitive keeps_mode_tick keeps_mode_modify.
Qed.

(** ** No fault comes from nowhere *)

Definition no_fault (w w' : world) : Prop := w_fault w = None → w_fault w' = None.

#[export] Instance no_fault_preorder : PreOrder no_fault.
Proof. split; unfold no_fault; auto. Qed.

Lemma no_fault_modify (f : world → world) :
  (∀ w, no_fault w (f w)) → preserves no_fault (modify f).
Proof. intros Hf w r w' [= <- <-]. apply Hf. Qed.

Lemma no_fault_tick : preserves no_fault tick.
Proof. by intros w r w' (f & _ & _ & _ & _ & H)%tick_spec. Qed.

#[export] Instance no_fault_closed : Closed no_fault.
Proof.
  split; try (intros t w H; exact H).
  - apply _.
  - intros w w' (_ & _ & _ & _ & _ & H). unfold no_fault. congruence.
  - apply no_fault_tick.
  - intros p f. primitive no_fault_tick no_fault_modify.
  - intros p. primitive no_fault_tick no_fault_modify.
  - intros p. primitive no_fault_tick no_fault_modify.
  - intros p. primitive no_fault_tick no_fault_modify.
Qed.

(** ** The end of a run *)

Lemma with_transaction_closes {A} (body : M A) w r w' :
  w_tx w = None → with_transaction body w = (r, w') → w_tx w' = None.
Proof.
  intros Htx. unfold with_transaction. rewrite Htx.
  destruct (body _) as [[a|e] w1]; [by intros [= <- <-]|]. unfold exit_with_exception.
  by destruct (rollback w1) as [[[]|e2] w2]; intros [= <- <-].
Qed.

Definition keeps_idle (w w' : world) : Prop := w_tx w = None → w_tx w' = None.

#[export] Instance keeps_idle_preorder : PreOrder keeps_idle.
Proof. split; unfold keeps_idle; auto. Qed.

Lemma idle_of_same {A} (m : M A) : preserves same_state m → preserves keeps_idle m.
Proof. apply preserves_weaken. intros w w' (_ & Htx & _). unfold keeps_idle. congruence. Qed.

Lemma idle_run_command args : preserves keeps_idle (run_command args).
Proof.
  assert (∀ l d, preserves keeps_idle (install l (a_module_root args) d)) as Hi.
  { intros l d. unfold install, report. preserves_with ltac:(first
      [ apply preserves_defconfig_option; apply _ | apply preserves_runtime_policy; apply _
      | apply preserves_validate_runtime; apply _ | apply idle_of_same, preserves_print
      | intros w r w' H Htx; by eapply with_transaction_closes ]). }
  unfold run_command. preserves_with ltac:(first
    [apply preserves_discover; apply _ | apply Hi | apply idle_of_same, preserves_verify
    | apply idle_of_same, preserves_print]).
Qed.

(** The line that reports an error to the user. *)
Definition error_line (msg : text) : text := py "ABK KSU Sandbox: error: " ++ msg.

(** C17: every run ends, whatever is in the tree and whatever input or output error strikes,
    the rollback included: with no transaction active, with the validation flag and the
    build mode as they were, and with exit status 0, or with exit status 1 after a line on
    standard error that names the failure, or with an exception of the system; the
    installer's own exception never escapes. *)
Theorem main_ends_idle args w :
  let '(r, w') := main args w in
  (w_tx w = None → w_tx w' = None) ∧
  w_validation_only w' = w_validation_only w ∧ w_work_mode w' = w_work_mode w ∧
  (r = Ok 0 ∨ (r = Ok 1 ∧ ∃ msg lines, w_err w' = error_line msg :: lines) ∨
   ∃ e, r = Err e ∧ is_install_error e = false).
Proof.
  destruct (main args w) as [r w'] eqn:H.
  pose proof (closed_main keeps_mode args _ _ _ H) as [Hv Hw].
  unfold main, catch in H. rewrite bind_eq in H.
  destruct (run_command args w) as [[u|e] w1] eqn:E; apply idle_run_command in E.
  - injection H as <- <-. split_and!; [exact E|exact Hv|exact Hw|by left].
  - destruct e as [msg|en p|c]; injection H as <- <-;
      (split_and!; [exact E|exact Hv|exact Hw|right]).
    + left. split; [done|]. by exists msg, (w_err w1).
    + right. by eexists.
    + right. by eexists.
Qed.
