(* ===== verification/Complete.v ===== *)
(** * A complete installation

    What a successful [install] leaves, part by part: the copied sources, the Kbuild block,
    the Kconfig entry, the public header and every patched source, and nothing else. *)

From Stdlib Require Import Ascii.
From stdpp Require Import base list strings gmap.
From S2P Require Import Prelude PyText PyResult CScope World FsFacts Transaction Kbuild Defconfig.
From S2P Require Import Discovery Resukisu KsuPatches KernelHooks Sources Installer Example Frames.
From S2P Require Import FileFacts HookFacts Stages KbuildInstall KconfigInstall ReadOnly Footprint.
From S2P Require Import SourcesFacts Lifecycle Hooks.

#[local] Opaque walk.

(** ** Ordinary trees *)

Definition api_source (module_root : path) : path := template_dir module_root ++ [api_header].

(** No link makes two of the files concerned the same file: the edited files are no links,
    none of them, nor the template of the public header, is in the directory of the copied
    sources, and none of them is the template of the header. *)
Record ordinary (l : layout) (module_root : path) (fs : fsys) : Prop := Ordinary {
  ord_links : no_links l fs;
  ord_sandbox p q d : edited l p ∨ p = api_source module_root →
    loc fs p = Some q → loc fs (sandbox_dir (l_ksu l)) = Some d → parent q ≠ d;
  ord_template p q : edited l p → loc fs p = Some q → loc fs (api_source module_root) ≠ Some q
}.

Lemma ordinary_stable l module_root fs fs' :
  links fs' = links fs → ordinary l module_root fs → ordinary l module_root fs'.
Proof.
  intros Hl [H1 H2 H3]. split.
  - by eapply no_links_stable.
  - intros p q d. rewrite !(loc_stable _ _ Hl). apply H2.
  - intros p q. rewrite !(loc_stable _ _ Hl). apply H3.
Qed.

(** The condition, computed. *)
Definition edited_files (l : layout) : list path :=
  map (app (l_ksu l)) ksu_files ++ map (app (l_common l)) common_files.

Definition ordinary_check (l : layout) (module_root : path) (fs : fsys) : bool :=
  let api := api_source module_root in
  let outside p :=
    match loc fs p, loc fs (sandbox_dir (l_ksu l)) with
    | Some q, Some d => negb (bool_decide (parent q = d))
    | _, _ => true
    end in
  forallb (λ p, negb (is_symlink fs p)) (edited_files l)
  && forallb outside (api :: edited_files l)
  && forallb (λ p, match loc fs p with
                   | Some q => negb (bool_decide (loc fs api = Some q))
                   | None => true
                   end) (edited_files l).

Lemma edited_in l p : edited l p → In p (edited_files l).
Proof.
  intros [(f & Hf & ->)|(f & Hf & ->)]; apply in_app_iff; [left|right];
    apply in_map; by apply list_elem_of_In.
Qed.

Lemma ordinary_check_sound l module_root fs :
  ordinary_check l module_root fs = true → ordinary l module_root fs.
Proof.
  unfold ordinary_check. cbv zeta. rewrite !andb_true_iff, !forallb_forall.
  intros ((Hl & Ho) & Ht). split.
  - intros p Hp%edited_in. by apply negb_true_iff, Hl.
  - intros p q d Hp Hq Hd. assert (In p (api_source module_root :: edited_files l)) as Hin.
    { destruct Hp as [Hp|Hp]; [right; by apply edited_in|by left]. }
    specialize (Ho p Hin). rewrite Hq, Hd in Ho. by apply negb_true_iff, bool_decide_eq_false in Ho.
  - intros p q Hp%edited_in Hq. specialize (Ht p Hp). rewrite Hq in Ht.
    by apply negb_true_iff, bool_decide_eq_false in Ht.
Qed.

Lemma text_untouched W D w w' p s :
  touches W D w w' →
  (∀ p' q, W p' ∨ D p' → loc (w_fs w) p' = Some q → loc (w_fs w) p ≠ Some q) →
  text_of w p s ↔ text_of w' p s.
Proof.
  intros Ht Hne. split; [intros Hs; by eapply touches_text|].
  intros (f & Hf & ->)%text_of_stat. apply text_of_stat. exists f. split; [|done].
  eapply touches_no_new; [exact Ht| |exact Hf]. intros q Hq Heq.
  destruct Ht as [Hl _]. unfold stat in Hf. rewrite (loc_stable _ _ Hl) in Hf.
  destruct (loc (w_fs w) p) as [r|] eqn:Hr; [|done]. by eapply (Hne q r); auto.
Qed.

(** ** The parts *)

(** The installation of a layout between two worlds. *)
Record installation (l : layout) (module_root : path) (w w' : world) : Prop := Installation {
  (** links, and every file outside of the list, are as they were *)
  in_footprint : touches (written_by l) (removed_by l) w w';
  (** every source of the template is in place, word for word *)
  in_sources n : n ∈ source_files (w_fs w) (template_dir module_root) →
    ∃ s, text_of w (template_dir module_root ++ [n]) s ∧
         text_of w' (sandbox_dir (l_ksu l) ++ [n]) s;
  (** the Kbuild file has the block of the policy that holds for the tree *)
  in_kbuild : ∃ policy block s, runtime_ksu_tail_policy l w = (Ok policy, w) ∧
    kbuild_block policy = Ok block ∧ text_of w' (l_ksu l ++ ["Kbuild"]) s ∧
    contains (strip block) s = true;
  in_kconfig : ∃ s, text_of w' (l_ksu l ++ ["Kconfig"]) s ∧ contains kconfig_entry s = true;
  in_header : ∃ s, text_of w (api_source module_root) s ∧ text_of w' (common_header (l_common l)) s;
  (** every patched source has its old text, after all of its patches *)
  in_patched p stages : (p, stages) ∈ patched_sources l → passes p stages w w'
}.

(** ** The phases of an installation *)

Lemma same_fs_touches W D w w' : w_fs w' = w_fs w → touches W D w w'.
Proof. intros H. split; rewrite H; [done|]. intros q. by left. Qed.

Lemma install_phases l module_root d w w' :
  install l module_root d w = (Ok tt, w') →
  ∃ policy block w0 w1 w2 w3 w4,
    runtime_ksu_tail_policy l w = (Ok policy, w) ∧ kbuild_block policy = Ok block ∧
    w_fs w0 = w_fs w ∧ copy_sources (l_ksu l) module_root w0 = (Ok tt, w1) ∧
    install_kbuild (l_ksu l ++ ["Kbuild"]) block w1 = (Ok tt, w2) ∧
    insert_before_last (l_ksu l ++ ["Kconfig"]) (py "endmenu") KCONFIG_BLOCK w2 = (Ok tt, w3) ∧
    run_all (steps l module_root) w3 = (Ok tt, w4) ∧ w_fs w' = w_fs w4.
Proof.
  unfold install. intros H. apply pure_bind_ok in H as ([] & _ & H);
    [|apply preserves_defconfig_option; apply _].
  apply pure_bind_ok in H as (policy & Hpol & H); [|apply preserves_runtime_policy; apply _].
  apply pure_bind_ok in H as ([] & _ & H); [|apply preserves_validate_runtime; apply _].
  rewrite bind_eq in H. unfold with_transaction in H. destruct (w_tx w); [done|].
  destruct (install_body l module_root policy _) as [[[]|e] w4] eqn:E.
  2: { unfold exit_with_exception in H. by destruct (rollback w4) as [[]]. }
  injection H as <-. unfold install_body in E. minv E u1 w1 E1; [|done]. rewrite lift_bind in E.
  destruct (kbuild_block policy) as [block|] eqn:Eb; [|done].
  minv E u2 w2 E2; [|done]. minv E u3 w3 E3; [|done]. destruct u1, u2, u3.
  exists policy, block, (set_tx (Some no_records) w), w1, w2, w3, w4.
  split_and!; [exact Hpol|exact Eb|done|exact E1|exact E2|exact E3|exact E|done].
Qed.

Section phases.
Context (l : layout) (module_root : path) (policy block : text) (w0 w1 w2 w3 w4 : world).
Context (Hwf : fs_wf (w_fs w0)) (Hord : ordinary l module_root (w_fs w0)).
Context (H1 : copy_sources (l_ksu l) module_root w0 = (Ok tt, w1)).
Context (H2 : install_kbuild (l_ksu l ++ ["Kbuild"]) block w1 = (Ok tt, w2)).
Context (H3 : insert_before_last (l_ksu l ++ ["Kconfig"]) (py "endmenu") KCONFIG_BLOCK w2
              = (Ok tt, w3)).
Context (H4 : run_all (steps l module_root) w3 = (Ok tt, w4)).
Context (Hblock : kbuild_block policy = Ok block).

Abbreviation sandbox := (sandbox_dir (l_ksu l)).
Abbreviation copied := (λ p, ∃ n, p = sandbox ++ [n]).

Lemma copy_touches : touches copied copied w0 w1.
Proof. eapply touches_copy_sources_in; [| |exact H1]; eauto. Qed.

Lemma sandbox_flat : flat (w_fs w0) sandbox.
Proof.
  apply copy_sources_phases in H1
    as (found & texts & changed & v1 & v2 & v3 & v4 & Hg & Hs & _).
  exact (survey_flat _ _ _ _ _ Hwf Hg Hs).
Qed.

(** A file outside of the directory keeps its text while the sources are copied. *)
Lemma copy_keeps p s :
  edited l p ∨ p = api_source module_root → text_of w0 p s ↔ text_of w1 p s.
Proof.
  intros Hp. eapply text_untouched; [exact copy_touches|].
  assert (∀ p' q, copied p' → loc (w_fs w0) p' = Some q → loc (w_fs w0) p ≠ Some q) as H;
    [|intros p' q [?|?]; by apply H].
  intros p' q [n ->] Hn Hq. rewrite sandbox_flat in Hn.
  destruct (loc (w_fs w0) sandbox) as [d|] eqn:Ed; [|done]. injection Hn as <-.
  by apply (ord_sandbox _ _ _ Hord p (d ++ [n]) d Hp Hq Ed), parent_snoc.
Qed.

Lemma kbuild_touches W : W (l_ksu l ++ ["Kbuild"]) → touches W nothing w1 w2.
Proof. intros HW. by eapply touches_install_kbuild. Qed.

Lemma kconfig_touches W : W (l_ksu l ++ ["Kconfig"]) → touches W nothing w2 w3.
Proof. intros HW. by eapply touches_insert_before_last. Qed.

Lemma steps_touch : touches (edited l) nothing w3 w4.
Proof. eapply (run_all_preserves (touches (edited l) nothing)); [|exact H4]. unfold steps. steps. Qed.

Lemma links_kept :
  links (w_fs w1) = links (w_fs w0) ∧ links (w_fs w2) = links (w_fs w0) ∧
  links (w_fs w3) = links (w_fs w0).
Proof.
  destruct copy_touches as [L1 _].
  destruct (kbuild_touches (λ _, True) I) as [L2 _], (kconfig_touches (λ _, True) I) as [L3 _].
  split_and!; congruence.
Qed.

Lemma edits_touch : touches (edited l) nothing w1 w4.
Proof.
  etrans; [apply kbuild_touches; auto with steps|].
  etrans; [apply kconfig_touches; auto with steps|exact steps_touch].
Qed.

Lemma ordinary_later :
  ordinary l module_root (w_fs w1) ∧ ordinary l module_root (w_fs w2) ∧
  ordinary l module_root (w_fs w3).
Proof.
  destruct links_kept as (L1 & L2 & L3). split_and!; by eapply ordinary_stable, Hord.
Qed.

Lemma phase_sources n :
  n ∈ source_files (w_fs w0) (template_dir module_root) →
  ∃ s, text_of w0 (template_dir module_root ++ [n]) s ∧ text_of w4 (sandbox ++ [n]) s.
Proof.
  intros Hn. destruct (copied_sources _ _ _ _ Hwf H1 n Hn) as (s & Hs & _ & Hs1).
  exists s. split; [exact Hs|]. destruct links_kept as (L1 & _).
  eapply (text_untouched (edited l) nothing w1 w4); [exact edits_touch| |exact Hs1].
  intros p q [Hp|[]] Hq Hn'. rewrite !(loc_stable _ _ L1) in Hq, Hn'. rewrite sandbox_flat in Hn'.
  destruct (loc (w_fs w0) sandbox) as [d|] eqn:Ed; [|done]. injection Hn' as <-.
  by apply (ord_sandbox _ _ _ Hord p (d ++ [n]) d (or_introl Hp) Hq Ed), parent_snoc.
Qed.

(** The steps after a file is edited leave files of its name alone. *)
Lemma later_keeps p s :
  edited l p → Forall (preserves (touches (apart l (name p)) nothing)) (steps l module_root) →
  text_of w3 p s → text_of w4 p s.
Proof.
  intros Hp Hst. apply (text_kept l p s w3 w4); [done|apply ordinary_later|].
  by eapply (run_all_preserves (touches (apart l (name p)) nothing)).
Qed.

Lemma phase_kbuild :
  (∃ s, text_of w0 (l_ksu l ++ ["Kbuild"]) s) →
  ∃ s, text_of w4 (l_ksu l ++ ["Kbuild"]) s ∧ contains (strip block) s = true.
Proof.
  intros [s0 Hs0]. assert (edited l (l_ksu l ++ ["Kbuild"])) as He by auto with steps.
  apply (copy_keeps _ _ (or_introl He)) in Hs0.
  destruct (install_kbuild_leaves _ _ _ _ _ _ Hblock Hs0 H2) as (s & Hs & Hc & _).
  exists s. split; [|exact Hc]. apply later_keeps; [exact He| |].
  - rewrite name_app by done. unfold steps. steps.
  - apply (text_kept l _ s w2 w3); [done|apply ordinary_later| |exact Hs].
    apply kconfig_touches. rewrite name_app by done. auto with steps.
Qed.

Lemma phase_kconfig :
  ∃ s, text_of w4 (l_ksu l ++ ["Kconfig"]) s ∧ contains kconfig_entry s = true.
Proof.
  destruct (insert_before_last_entry _ _ _ _ H3) as (s & Hs & Hc). exists s. split; [|exact Hc].
  apply later_keeps; [auto with steps| |exact Hs]. rewrite name_app by done. unfold steps. steps.
Qed.
Lemma patch_header_leaves w w' :
  patch_common_header (l_common l) module_root w = (Ok tt, w') →
  ∃ s, text_of w (api_source module_root) s ∧ text_of w' (common_header (l_common l)) s.
Proof.
  unfold patch_common_header. intros H. rewrite ask_bind in H. unfold id in H.
  apply pure_bind_ok in H as (foreign & _ & H); [|destruct (exists_ _ _); preserves].
  destruct foreign; [done|]. apply read_bind_ok in H as (s & Hs & H). exists s. split; [exact Hs|].
  eapply write_leaves; [exact H|]. by eapply text_of_no_cr.
Qed.

(** The template of the header keeps its text while files are edited. *)
Lemma template_kept s w w' :
  links (w_fs w) = links (w_fs w0) → touches (edited l) nothing w w' →
  text_of w (api_source module_root) s ↔ text_of w' (api_source module_root) s.
Proof.
  intros Hl Ht. eapply text_untouched; [exact Ht|]. intros p q [Hp|[]] Hq.
  rewrite !(loc_stable _ _ Hl) in *. by eapply ord_template.
Qed.

Lemma phase_header :
  ∃ s, text_of w0 (api_source module_root) s ∧ text_of w4 (common_header (l_common l)) s.
Proof.
  change (steps l module_root)
    with (take 7 (steps l module_root)
          ++ patch_common_header (l_common l) module_root :: drop 8 (steps l module_root)) in H4.
  apply run_all_app in H4 as (v & Hv & H). apply run_all_cons in H as (v' & Hh & H).
  destruct links_kept as (L1 & _). assert (touches (edited l) nothing w1 v) as Ht.
  { etrans; [apply kbuild_touches; auto with steps|].
    etrans; [apply kconfig_touches; auto with steps|].
    eapply (run_all_preserves (touches (edited l) nothing)); [|exact Hv]. steps. }
  assert (touches (edited l) nothing v v') as Ht'
    by (eapply (run_all_preserves (touches (edited l) nothing) [_]); [|exact Hh]; steps).
  apply patch_header_leaves in Hh as (s & Hs & Hs'). exists s. split.
  - apply (template_kept s w1 v L1 Ht) in Hs. by apply copy_keeps in Hs; [|right].
  - assert (edited l (common_header (l_common l))) as He by (unfold common_header; auto with steps).
    apply (text_kept l _ s v' w4); [exact He| | |exact Hs'].
    + eapply no_links_stable, (ord_links _ _ _ Hord). destruct Ht as [Lt _], Ht' as [Lt' _].
      congruence.
    + eapply (run_all_preserves (touches (apart l _) nothing)); [|exact H].
      unfold common_header. rewrite name_app by done. steps.
Qed.

(** A file of another name than those of the wiring has the text of [w0] when the patches start. *)
Lemma before_patches p s :
  edited l p → name p ≠ "Kbuild" → name p ≠ "Kconfig" → text_of w0 p s ↔ text_of w3 p s.
Proof.
  intros Hp Hn1 Hn2. destruct ordinary_later as (O1 & _). rewrite (copy_keeps p s (or_introl Hp)).
  apply (text_kept l); [exact Hp|apply O1|].
  etrans; [apply kbuild_touches|apply kconfig_touches]; (split; [auto with steps|]);
    rewrite name_app by done; by apply not_eq_sym.
Qed.

Definition other_source (p : path) : Prop :=
  edited l p ∧ name p ≠ "Kbuild" ∧ name p ≠ "Kconfig".

Lemma other_source_app d f :
  edited l (d ++ f) → f ≠ [] →
  negb (String.eqb (name f) "Kbuild") && negb (String.eqb (name f) "Kconfig") = true →
  other_source (d ++ f).
Proof.
  intros Hd Hf [Hk%negb_true_iff%String.eqb_neq Hc%negb_true_iff%String.eqb_neq]%andb_true_iff.
  unfold other_source. by rewrite name_app.
Qed.

Lemma source_names p stages : (p, stages) ∈ patched_sources l → other_source p.
Proof.
  intros H. assert (Forall (λ st, other_source st.1) (patched_sources l)) as Hall.
  { unfold patched_sources, variant_sources. rewrite !Forall_app. unfold ksu_sources, kernel_sources.
    destruct (keeps_su l), (text_eqb (l_variant l) _), (text_eqb (l_version l) _);
      split_and?; rewrite ?Forall_cons; split_and?; try (apply Forall_nil; exact I);
      (apply other_source_app; [auto with steps|discriminate|reflexivity]). }
  rewrite Forall_forall in Hall. exact (Hall _ H).
Qed.

Lemma phase_patched p stages : (p, stages) ∈ patched_sources l → passes p stages w0 w4.
Proof.
  intros Hin. destruct (source_names _ _ Hin) as (Hp & Hn1 & Hn2), ordinary_later as (_ & _ & O3).
  destruct (all_pass _ _ _ _ H4 (ord_links _ _ _ O3) _ _ Hin) as (s & s' & Hs & Hs' & Hst).
  exists s, s'. split_and!; [by apply before_patches|exact Hs'|exact Hst].
Qed.

Lemma kbuild_read : ∃ s, text_of w0 (l_ksu l ++ ["Kbuild"]) s.
Proof.
  pose proof H2 as H. unfold install_kbuild in H. apply read_bind_ok in H as (s & Hs & _).
  exists s. apply copy_keeps; [left; auto with steps|exact Hs].
Qed.
End phases.

(** ** The installation *)

Lemma install_complete l module_root d w w' :
  fs_wf (w_fs w) → ordinary l module_root (w_fs w) →
  install l module_root d w = (Ok tt, w') → installation l module_root w w'.
Proof.
  intros Hwf Hord H. pose proof (install_touches _ _ _ _ _ H) as Ht.
  apply install_phases in H
    as (policy & block & w0 & w1 & w2 & w3 & w4 & Hpol & Hb & E0 & H1 & H2 & H3 & H4 & E4).
  rewrite <- E0 in Hwf, Hord.
  assert (∀ p s, text_of w p s ↔ text_of w0 p s) as T0
    by (intros p s; split; by apply text_of_same_fs).
  assert (∀ p s, text_of w' p s ↔ text_of w4 p s) as T4
    by (intros p s; split; by apply text_of_same_fs).
  split; [exact Ht|..].
  - intros n Hn. rewrite <- E0 in Hn. setoid_rewrite T0. setoid_rewrite T4. by eapply phase_sources.
  - exists policy, block. setoid_rewrite T4.
    destruct (phase_kbuild l module_root policy block w0 w1 w2 w3 w4) as (s & Hs & Hc); eauto.
    by eapply kbuild_read.
  - setoid_rewrite T4. by eapply phase_kconfig.
  - setoid_rewrite T0. setoid_rewrite T4. by eapply phase_header.
  - intros p stages Hin. unfold passes. setoid_rewrite T0. setoid_rewrite T4. by eapply phase_patched.
Qed.

(** C6: what an installation leaves in the sources that it patches.  After a successful
    [install], on a tree in which no link makes two of the files concerned the same file, the
    text of each patched source is its old text passed through all of its patches, in their
    order, and through nothing else; and each of these patches handed on a text with the hook
    of its last edit, whole, or in the code where the patch had found it installed
    ([leaving]).  The include line, the two hooks of the allowlist and the upgrade of an
    earlier bind check have promises of their own ([including], [allowlisting],
    [upgrading]). *)
Theorem install_patches_sources l module_root d w w' p stages :
  fs_wf (w_fs w) → ordinary l module_root (w_fs w) →
  install l module_root d w = (Ok tt, w') → (p, stages) ∈ patched_sources l →
  passes p stages w w'.
Proof. intros Hwf Hord H. apply (in_patched _ _ _ _ (install_complete _ _ _ _ _ Hwf Hord H)). Qed.

Lemma install_patches_sources_witness :
  let w := sample_world (sample_tree (py "official") (py "6.12")) in
  let l := Layout sample_root sample_common sample_ksu (py "official") (py "6.12") in
  let w' := (install l sample_module None w).2 in
  (install l sample_module None w).1 = Ok tt ∧
  passes (sample_common ++ ["fs"; "namespace.c"]) namespace_stages w w' ∧
  passes (sample_ksu ++ ["feature"; "sucompat.c"]) sucompat_stages w w' ∧
  passes (sample_common ++ ["include"; "linux"; "lsm_count.h"]) lsm_count_stages w w'.
Proof.
  intros w l w'. assert ((install l sample_module None w).1 = Ok tt) as Hi by (vm_compute; reflexivity).
  assert (∀ p stages, (p, stages) ∈ patched_sources l → passes p stages w w') as H.
  { intros p stages. apply (install_patches_sources l sample_module None w w').
    - apply fs_wf_check_sound. vm_compute. reflexivity.
    - apply ordinary_check_sound. vm_compute. reflexivity.
    - rewrite <- Hi. apply surjective_pairing. }
  split_and!; [exact Hi|apply H..]; unfold patched_sources; rewrite !elem_of_app.
  - right. right. right. by left.
  - right. left. by left.
  - right. left. right. by left.
Defined.

(** ** A half-installed allowlist *)

(** The allowlist source with its first hook only. *)
Definition half_allowlist : text :=
  match (s ← add_include allowlist_c sandbox_include [];
         replace_live_in_scope [] s profile_anchor return_line (revoke_hook ++ return_line) []) with
  | Ok s => s
  | Err _ => []
  end.

Definition half_tree : fsys :=
  let p := sample_ksu ++ ["policy"; "allowlist.c"] in
  put p (Some (File (FileData half_allowlist 0 default_mode)))
      (sample_tree (py "official") (py "6.6")).

(** [patch_allowlist] drops the answers of its two checks.  On a tree whose allowlist
    source has the revocation hook only, the installation reports success although the prune
    hook is nowhere in the source, and [verify] then rejects the tree. *)
Example half_allowlist_accepted :
  let p := sample_ksu ++ ["policy"; "allowlist.c"] in
  let installed := main (sample_args Install) (sample_world half_tree) in
  installed.1 = Ok 0 ∧ text_of installed.2 p half_allowlist ∧
  contains (marked (py "prune")) half_allowlist = false ∧
  (main (sample_args Verify) installed.2).1 = Ok 1.
Proof.
  split_and!; [vm_compute; reflexivity| |vm_compute; reflexivity|vm_compute; reflexivity].
  apply text_of_stat. eexists. split; vm_compute; reflexivity.
Qed.
