(* ===== verification/Session.v ===== *)
(** * Sequences of commands

    The installer as a state machine on trees: whatever commands are run one after the
    other, and whatever each reports, the tree moves only by complete installations. *)

From Stdlib Require Import Ascii.
From stdpp Require Import base list strings gmap relations.
From S2P Require Import Prelude PyText PyResult World FsFacts Transaction Kbuild Defconfig.
From S2P Require Import Discovery Resukisu KsuPatches KernelHooks Sources Installer Example.
From S2P Require Import Frames FileFacts ReadOnly DiscoveryFacts Verified Commands Footprint.
From S2P Require Import Lifecycle Hooks Complete.

#[local] Opaque walk.

(** ** The specification *)

(** What a command that reports [r] may do to the tree.  A command that does not report
    success leaves the tree as it was.  A check that reports success has checked the tree,
    and leaves it as it was.  An installation that reports success has made a complete
    installation, for the layout that is discovered. *)
Inductive abstract_step (args : arguments) (r : result nat) (w w' : world) : Prop :=
  | step_failed : r ≠ Ok 0 → w_fs w' = w_fs w → abstract_step args r w w'
  | step_detected l :
      a_command args = Detect → r = Ok 0 → discovered (a_kernel_root args) w l →
      w_fs w' = w_fs w → abstract_step args r w w'
  | step_verified l policy :
      a_command args = Verify → r = Ok 0 → discovered (a_kernel_root args) w l →
      verified l (a_module_root args) (a_defconfig args) policy w →
      w_fs w' = w_fs w → abstract_step args r w w'
  | step_installed l :
      a_command args = Install → r = Ok 0 → discovered (a_kernel_root args) w l →
      installation l (a_module_root args) w w' → abstract_step args r w w'.

(** The commands of a run, with what each reports. *)
Inductive abstract_run : world → list (arguments * result nat) → world → Prop :=
  | run_end w : abstract_run w [] w
  | run_step args r w w1 rest w2 :
      abstract_step args r w w1 → abstract_run w1 rest w2 →
      abstract_run w ((args, r) :: rest) w2.

(** ** The implementation *)

(** Between two commands: a tree, no transaction, no fault to come. *)
Record idle (w : world) : Prop := Idle {
  idle_wf : fs_wf (w_fs w);
  idle_tx : w_tx w = None;
  idle_fault : w_fault w = None
}.

(** The kernel of the command has its directory include/linux. *)
Definition has_include_linux (root : path) (w : world) : Prop :=
  ∀ common, kernel_common root w = (Ok common, w) →
            is_dir (w_fs w) (common ++ ["include"; "linux"]) = true.

(** The tree is fit for a command: the directory is there, and for an installation no link
    makes two of the files concerned the same file. *)
Record fit (args : arguments) (w : world) : Prop := Fit {
  fit_include : has_include_linux (a_kernel_root args) w;
  fit_ordinary l : a_command args = Install → discovered (a_kernel_root args) w l →
                   ordinary l (a_module_root args) (w_fs w)
}.

(** Commands run one after the other, each on the world its predecessor leaves. *)
Inductive session : world → list (arguments * result nat) → world → Prop :=
  | session_end w : session w [] w
  | session_run args r w w1 rest w2 :
      fit args w → main args w = (r, w1) → session w1 rest w2 →
      session w ((args, r) :: rest) w2.

Lemma main_idle args w r w' : main args w = (r, w') → idle w → idle w'.
Proof.
  intros H [Hwf Htx Hf]. split.
  - by eapply (closed_main keeps_wf args _ _ _ H).
  - unfold main, catch in H. rewrite bind_eq in H.
    destruct (run_command args w) as [[u|e] w1] eqn:E; apply idle_run_command in E.
    + injection H as <- <-. by apply E.
    + destruct e as [msg|en p|c]; injection H as <- <-; by apply E.
  - by eapply (closed_main no_fault args _ _ _ H).
Qed.

Lemma main_success args w w' :
  idle w → fit args w → main args w = (Ok 0, w') → abstract_step args (Ok 0) w w'.
Proof.
  intros Hi Hfit H. unfold main, catch in H. rewrite bind_eq in H.
  destruct (run_command args w) as [[u|[m|en p|c]] w1] eqn:E; [|done..].
  injection H as <-. unfold run_command in E. minv E l w2 Ed; [|done].
  apply discover_spec in Ed as [-> Hd]. destruct (a_command args) eqn:Ec.
  - destruct u. eapply step_installed; [done..|exact Hd|].
    eapply install_complete; [apply Hi|by eapply fit_ordinary|exact E].
  - destruct u. apply verify_ok in E as [(policy & Hv) Hfs].
    by eapply (step_verified _ _ _ _ l policy).
  - injection E as <- <-. by eapply step_detected.
Qed.

Lemma main_step args w r w' :
  idle w → fit args w → main args w = (r, w') → abstract_step args r w w'.
Proof.
  intros Hi Hfit H. assert (r = Ok 0 ∨ r ≠ Ok 0) as [->|Hr]
    by (destruct r as [[|n]|e]; [by left|by right..]).
  - by eapply main_success.
  - apply step_failed; [done|].
    destruct (main_failure args w r w') as [-> _];
      [apply Hi|apply Hi|apply Hfit|left; apply Hi|exact H|exact Hr|reflexivity].
Qed.

(** C2: the installer refines the abstract machine.  However commands follow one another on
    trees that are fit for them, each command that does not report success leaves the tree
    as it was, a check that reports success found the tree verified and leaves it as it was,
    and an installation that reports success has made a complete installation: every
    source of the template copied, the Kbuild block of the policy and the Kconfig entry in
    their files, the public header copied, every patched source passed through all of its
    patches, and nothing outside of the list of files changed.  In between the tree is well
    formed and no transaction is open. *)
Theorem session_refines w commands w' :
  idle w → session w commands w' → idle w' ∧ abstract_run w commands w'.
Proof.
  intros Hi Hs. induction Hs as [w|args r w w1 rest w2 Hfit Hm Hs IH]; [by split; [|constructor]|].
  destruct IH as [Hi2 Hr]; [by eapply main_idle|]. split; [done|].
  econstructor; [by eapply main_step|exact Hr].
Qed.

Lemma include_linux_check root w common :
  (kernel_common root w).1 = Ok common →
  is_dir (w_fs w) (common ++ ["include"; "linux"]) = true → has_include_linux root w.
Proof. intros Hc Hd c H. rewrite H in Hc. by injection Hc as ->. Qed.

(** The condition for an installation, computed. *)
Lemma fit_check args w common l :
  (kernel_common (a_kernel_root args) w).1 = Ok common →
  is_dir (w_fs w) (common ++ ["include"; "linux"]) = true →
  ksu_candidates (w_fs w) (a_kernel_root args) common = [l_ksu l] → l_common l = common →
  ordinary_check l (a_module_root args) (w_fs w) = true → fit args w.
Proof.
  intros Hc Hd Hk Hl Ho. split; [by eapply include_linux_check|].
  intros l' _ Hd'. pose proof (dc_common _ _ _ Hd') as Hc'. rewrite Hc' in Hc. injection Hc as Hc.
  pose proof (dc_candidates _ _ _ Hd') as Hk'. rewrite Hc, Hk in Hk'. injection Hk' as Hk'.
  apply ordinary_check_sound in Ho. clear -Ho Hc Hk' Hl. destruct l, l'. simpl in *. subst.
  destruct Ho as [O1 O2 O3]. by split.
Qed.

(** An installation, an attempt on a tree without a kernel, and a check. *)
Lemma session_refines_witness :
  let w := sample_world (sample_tree (py "official") (py "6.6")) in
  let elsewhere := Arguments_ Install [] sample_module None in
  let w1 := (main (sample_args Install) w).2 in
  let w2 := (main elsewhere w1).2 in
  let w3 := (main (sample_args Verify) w2).2 in
  let commands := [(sample_args Install, Ok 0); (elsewhere, Ok 1); (sample_args Verify, Ok 0)] in
  session w commands w3 ∧ idle w3 ∧ abstract_run w commands w3.
Proof.
  intros w elsewhere w1 w2 w3 commands.
  assert (session w commands w3) as Hs.
  { assert ((main (sample_args Install) w).1 = Ok 0) as R1 by (vm_compute; reflexivity).
    assert ((main elsewhere w1).1 = Ok 1) as R2 by (vm_compute; reflexivity).
    assert ((main (sample_args Verify) w2).1 = Ok 0) as R3 by (vm_compute; reflexivity).
    unfold commands. rewrite <- R1 at 1. rewrite <- R2 at 1. rewrite <- R3.
    eapply (session_run _ _ w w1); [|apply surjective_pairing|].
    { by eapply (fit_check _ _ sample_common sample_layout); vm_compute. }
    eapply (session_run _ _ w1 w2); [|apply surjective_pairing|].
    { assert (∀ common, (kernel_common (a_kernel_root elsewhere) w1).1 ≠ Ok common) as Hn
        by (vm_compute; discriminate).
      split.
      - intros common H. destruct (Hn common). by rewrite H.
      - intros l _ Hd. destruct (Hn (l_common l)). by rewrite (dc_common _ _ _ Hd). }
    eapply (session_run _ _ w2 w3); [|apply surjective_pairing|constructor].
    by eapply (fit_check _ _ sample_common sample_layout); vm_compute. }
  split; [exact Hs|]. apply (session_refines w commands w3); [|exact Hs].
  split; [apply fs_wf_check_sound; vm_compute; reflexivity|reflexivity|reflexivity].
Defined.
