(* ===== verification/CommandLine.v ===== *)
(** * From the command line to the exit status

    The path arguments are resolved as [pathlib.Path.resolve] does, and the process runs the
    command of the parsed arguments.  The part of [main] before [discover] is here; a parsed
    and resolved command line runs [Installer.main]. *)

From Stdlib Require Import Ascii.
From stdpp Require Import base list strings gmap.
From S2P Require Import Prelude PyText PyResult World FsFacts Transaction Kbuild Discovery.
From S2P Require Import Resukisu.
From S2P Require Import Installer ArgParse Example Frames ReadOnly DiscoveryFacts Commands.
From S2P Require Import Session.

#[local] Opaque walk.

(** ** Paths *)

(** [Path(t).parts] without the root: empty components and dots are dropped. *)
Definition components (t : text) : path :=
  map String.string_of_list_ascii
      (List.filter (λ c, negb (text_eqb c [] || text_eqb c (py "."))) (split_char "/" t)).

Definition is_absolute (t : text) : bool := starts_with (py "/") t.

Definition is_pardir (c : string) : bool := String.eqb c "..".

(** [os.path._joinrealpath], from a directory [done]: the path, and whether every link was
    resolved.  [seen] are the links under resolution; a link met again is a loop.  The depth
    bounds the links under resolution, of which there are no more than links. *)
Fixpoint joinrealpath (ls : gmap path path) (depth : nat) :
    list path → path → path → path * bool :=
  fix go (seen : list path) (done todo : path) {struct todo} : path * bool :=
    match todo with
    | [] => (done, true)
    | c :: rest =>
        if is_pardir c then go seen (parent done) rest
        else
          let newpath := done ++ [c] in
          match ls !! newpath with
          | None => go seen newpath rest
          | Some target =>
              if bool_decide (newpath ∈ seen) then (newpath ++ rest, false)
              else match depth with
                   | O => (newpath ++ rest, false)
                   | S depth' =>
                       match joinrealpath ls depth' (newpath :: seen) [] target with
                       | (q, true) => go seen q rest
                       | (q, false) => (q ++ rest, false)
                       end
                   end
          end
    end.

(** [os.path.normpath] of an absolute path *)
Definition normpath (p : path) : path :=
  foldl (λ done c, if is_pardir c then parent done else done ++ [c]) [] p.

(** [os.path.realpath] of the components [todo] below the directory [start] *)
Definition realpath (fs : fsys) (start todo : path) : path :=
  normpath (joinrealpath (links fs) (size (links fs)) [] start todo).1.

(** [path.resolve()]: the look-up of the result finds the loops of links. *)
Definition resolve (start todo : path) : M path :=
  fs ← ask id;
  let q := realpath fs start todo in
  match loc fs q with
  | None => raise (OtherError (py "RuntimeError"))
  | Some _ => mret q
  end.

Definition origin (cwd : path) (t : text) : path := if is_absolute t then [] else cwd.

(** [value.resolve()]; a list has no such attribute. *)
Definition resolve_value (cwd : path) (v : value) : M path :=
  match v with
  | Given t => resolve (origin cwd t) (components t)
  | EmptyList => raise (OtherError (py "AttributeError"))
  end.

(** The configuration file is opened as it is given; the system resolves its parent
    components. *)
Definition defconfig_path (fs : fsys) (cwd : path) (t : text) : path :=
  if existsb is_pardir (components t) then realpath fs (origin cwd t) (components t)
  else origin cwd t ++ components t.

(** ** The process *)

Section process.
Context (cwd : path).           (** the working directory *)
Context (default_root : path).  (** [Path(__file__).resolve().parents[1]] *)

Definition module_root_of (ns : namespace) : M path :=
  match ns_module_root ns with
  | Some v => resolve_value cwd v
  | None => resolve [] default_root
  end.

(** A command with a configuration: an empty list counts as none where its truth is asked,
but the hook modes of a ReSukiSU tree are looked up in it. *)
Definition with_defconfig (l : layout) (v : option value) (run : option path → M unit) : M unit :=
  match v with
  | None => run None
  | Some (Given t) => fs ← ask id; run (Some (defconfig_path fs cwd t))
  | Some EmptyList =>
      policy ← runtime_ksu_tail_policy l;
      if text_eqb policy RUNTIME_KSU_TAIL_RESUKISU_SUSFS
      then raise (OtherError (py "AttributeError"))
      else run None
  end.

Definition run_namespace (c : command) (root : value) (ns : namespace) : M unit :=
  kernel_root ← resolve_value cwd root;
  l ← discover kernel_root;
  match c with
  | Detect =>
      print (py "variant=" ++ l_variant l ++ py " kernel=" ++ l_version l ++ py " ksu="
             ++ path_text (l_ksu l))
  | Install =>
      module_root ← module_root_of ns;
      with_defconfig l (ns_defconfig ns) (install l module_root)
  | Verify =>
      module_root ← module_root_of ns;
      with_defconfig l (ns_defconfig ns) (verify l module_root)
  end.

(** [raise SystemExit(main())]: the exit status; argparse exits with 2 on a usage error and
with 0 after the help text. *)
Definition process (argv : list text) : M nat :=
  match parse_args argv with
  | HelpRequested => mret 0
  | UsageError _ => mret 2
  | Parsed ns =>
      match ns_command ns, ns_kernel_root ns with
      | Some c, Some root =>
          catch (run_namespace c root ns ;; mret 0) (λ e,
            match e with
            | InstallError msg =>
                print_err (py "ABK KSU Sandbox: error: " ++ msg) ;; mret 1
            | _ => raise e
            end)
      | _, _ => mret 2
      end
  end.

(** ** A command line runs a command *)

Lemma resolve_reads start todo w : (resolve start todo w).2 = w.
Proof. unfold resolve. rewrite ask_bind. by destruct (loc _ _). Qed.

Lemma resolve_value_reads v w : (resolve_value cwd v w).2 = w.
Proof. destruct v; [apply resolve_reads|done]. Qed.

Lemma module_root_reads ns w : (module_root_of ns w).2 = w.
Proof.
  unfold module_root_of. destruct (ns_module_root ns); [apply resolve_value_reads|apply resolve_reads].
Qed.

Lemma with_defconfig_cases l v run w :
  (∃ e, with_defconfig l v run w = (Err e, w)) ∨ ∃ d, with_defconfig l v run w = run d w.
Proof.
  destruct v as [[t|]|]; simpl; [right; rewrite ask_bind; eauto| |right; eauto].
  rewrite bind_eq. destruct (runtime_ksu_tail_policy l w) as [[policy|e] w1] eqn:E;
    assert (w = w1) as <- by (by eapply (preserves_runtime_policy eq)); [|left; eauto].
  destruct (text_eqb policy _); [left; by eexists|right; by eexists].
Qed.

(** Either nothing of the command ran, or it ran on resolved arguments. *)
Lemma run_namespace_cases c v ns w :
  (∃ e, run_namespace c v ns w = (Err e, w)) ∨
  ∃ root module_root d, resolve_value cwd v w = (Ok root, w) ∧
    run_namespace c v ns w = run_command (Arguments_ c root module_root d) w.
Proof.
  unfold run_namespace. rewrite bind_eq. pose proof (resolve_value_reads v w) as Hv.
  destruct (resolve_value cwd v w) as [[root|e] w1] eqn:Ev; simpl in Hv; subst w1; [|left; eauto].
  assert (∀ m d, run_command (Arguments_ c root m d) w =
    (l ← discover root; match c with
                        | Detect => print (py "variant=" ++ l_variant l ++ py " kernel=" ++
                              l_version l ++ py " ksu=" ++ path_text (l_ksu l))
                        | Install => install l m d
                        | Verify => verify l m d
                        end) w) as Hrun by done.
  rewrite bind_eq. destruct (discover root w) as [[l|e] w1] eqn:Ed;
    assert (w = w1) as <- by (by eapply (preserves_discover eq)); [|left; eauto].
  pose proof (module_root_reads ns w) as Hm.
  destruct c; [rewrite bind_eq|rewrite bind_eq|].
  3: { right. exists root, [], None. split; [done|]. by rewrite Hrun, bind_eq, Ed. }
  all: destruct (module_root_of ns w) as [[m|e] w1]; simpl in Hm; subst w1; [|left; eauto].
  all: match goal with |- context [with_defconfig ?l ?d ?run ?w0] =>
         destruct (with_defconfig_cases l d run w0) as [[e He]|[d' Hd]] end; [left; eauto|].
  all: right; exists root, m, d'; split; [done|]; by rewrite Hrun, bind_eq, Ed.
Qed.

End process.

(** The kernel directory that a command line names. *)
Definition names_root (cwd : path) (argv : list text) (w : world) (root : path) : Prop :=
  ∃ ns v, parse_args argv = Parsed ns ∧ ns_kernel_root ns = Some v ∧
          resolve_value cwd v w = (Ok root, w).

(** Nothing happened, or an error was reported and nothing else, or a command ran. *)
Lemma process_cases cwd default_root argv w r w' :
  process cwd default_root argv w = (r, w') →
  (w' = w ∧ (r = Ok 0 ∨ r = Ok 2 ∨ ∃ e, r = Err e)) ∨
  (r = Ok 1 ∧ ∃ line, w' = add_err line w) ∨
  ∃ args, names_root cwd argv w (a_kernel_root args) ∧ main args w = (r, w').
Proof.
  unfold process, names_root. destruct (parse_args argv) as [ns| |u]; [|intros [= <- <-]; by auto..].
  destruct (ns_command ns) as [c|], (ns_kernel_root ns) as [root|] eqn:En; [|intros [= <- <-]; by auto..].
  intros H. unfold catch in H. rewrite bind_eq in H.
  destruct (run_namespace_cases cwd default_root c root ns w) as [[e He]|(k & m & d & Hv & Hr)].
  - rewrite He in H. destruct e as [msg|en p|cls]; injection H as <- <-; eauto 6.
  - right. right. exists (Arguments_ c k m d). split; [by exists ns, root|].
    unfold main, catch. by rewrite bind_eq, <- Hr.
Qed.

Lemma main_status args w n w' : main args w = (Ok n, w') → n ≤ 1.
Proof.
  unfold main, catch. rewrite bind_eq.
  destruct (run_command args w) as [[u|[m|en p|c]] w1]; intros [= <- <-]; lia.
Qed.

(** C18: the command line is safe.  Whatever the arguments are, a process that does not exit
    with 0 leaves the tree as it found it and no transaction open; its exit status is 0, 1 or
    2, and with the status 2, of a usage error, nothing at all has happened. *)
Theorem process_safe cwd default_root argv w r w' :
  fs_wf (w_fs w) → w_tx w = None → w_fault w = None →
  (∀ root, names_root cwd argv w root → has_include_linux root w) →
  process cwd default_root argv w = (r, w') →
  (r ≠ Ok 0 → w_fs w' = w_fs w ∧ w_tx w' = None) ∧
  (∀ n, r = Ok n → n ≤ 2) ∧ (r = Ok 2 → w' = w).
Proof.
  intros Hwf Htx Hf Hinc H.
  destruct (process_cases _ _ _ _ _ _ H) as [[-> Hr]|[[-> [line ->]]|(args & Hroot & Hm)]].
  - split_and!; [done|intros n ->|done].
    destruct Hr as [[= ->]|[[= ->]|[e [=]]]]; lia.
  - split_and!; [done|intros n [= <-]; lia|done].
  - split_and!.
    + intros Hr. eapply main_failure; [done|done|by apply Hinc|by left|exact Hm|done].
    + intros n ->. apply main_status in Hm. lia.
    + intros ->. apply main_status in Hm. lia.
Qed.

(** A command line that fails after all the sources but one are patched. *)
Lemma process_safe_witness :
  let w := sample_world broken_tree in
  let argv := [py "install"; py "--kernel=../kernel-root"; py "--m"; py "/module-root";
               py "--defconfig"; py "/kernel-root/./gki_defconfig"] in
  let run := process sample_module [] argv w in
  run.1 = Ok 1 ∧ w_fs run.2 = w_fs w.
Proof.
  intros w argv run. assert (run.1 = Ok 1) as Hr by (vm_compute; reflexivity).
  split; [exact Hr|].
  apply (process_safe sample_module [] argv w run.1).
  - apply fs_wf_check_sound. vm_compute. reflexivity.
  - reflexivity.
  - reflexivity.
  - intros root (ns & v & Hp & Hv & H).
    assert (parse_args argv = Parsed (Namespace (Some Install) (Some (Given (py "../kernel-root")))
              (Some (Given (py "/module-root")))
              (Some (Given (py "/kernel-root/./gki_defconfig"))))) as Ha by reflexivity.
    rewrite Hp in Ha. injection Ha as ->. injection Hv as <-.
    assert (root = sample_root) as ->.
    { enough (Ok root = Ok sample_root) as E by (by injection E).
      change (Ok root) with (@pair (result path) world (Ok root) w).1. rewrite <- H.
      vm_compute. reflexivity. }
    apply (include_linux_check _ _ sample_common); vm_compute; reflexivity.
  - apply surjective_pairing.
  - rewrite Hr. discriminate.
Defined.
