(* ===== verification/PathFacts.v ===== *)
(** * Resolution of the path arguments

    [pathlib]'s resolution of a path, which walks over the links itself, agrees with the
    look-up of the file system wherever that succeeds: a process runs its command on the
    locations that the command line names. *)

From stdpp Require Import base list strings gmap.
From S2P Require Import Prelude PyText PyResult World FsFacts Transaction Discovery Installer.
From S2P Require Import ArgParse Example Frames ReadOnly CommandLine.

(** ** The look-up as a relation that counts the links followed *)

Section lookup.
Context (ls : gmap path path).

Inductive follows : path → path → path → nat → Prop :=
  | follows_nil done : follows done [] done 0
  | follows_plain done c rest q n :
      ls !! (done ++ [c]) = None → follows (done ++ [c]) rest q n → follows done (c :: rest) q n
  | follows_link done c rest target d q n m :
      ls !! (done ++ [c]) = Some target → follows [] target d n → follows d rest q m →
      follows done (c :: rest) q (S n + m).

Lemma follows_app done s t q n :
  follows done (s ++ t) q n ↔ ∃ d k m, follows done s d k ∧ follows d t q m ∧ n = k + m.
Proof.
  split.
  - revert done n. induction s as [|c s IH]; intros done n H.
    { exists done, 0, n. split_and!; [constructor|exact H|done]. }
    inversion H as [|? ? ? ? ? Hl Hf|? ? ? target d ? k m Hl Ht Hf]; subst.
    + apply IH in Hf as (d & k & m & Hs & Ht & ->). exists d, k, m.
      split_and!; [by constructor|done|done].
    + apply IH in Hf as (d' & k' & m' & Hs & Ht' & ->). exists d', (S k + k'), m'.
      split_and!; [by econstructor|done|lia].
  - intros (d & k & m & Hs & Ht & ->). induction Hs as [| |? ? ? ? ? ? k1 k2 Hl Ht' _ Hs IH];
      [done|constructor; auto|].
    rewrite <- Nat.add_assoc. econstructor; [exact Hl|exact Ht'|by apply IH].
Qed.

Lemma follows_det done t q n :
  follows done t q n → ∀ q' n', follows done t q' n' → q = q' ∧ n = n'.
Proof.
  induction 1 as [|done c t q n Hl _ IH|done c t target d q n m Hl _ IHt _ IHr];
    intros q' n' H'; inversion H' as [|? ? ? ? ? Hl' Hf|? ? ? target' d' ? k k' Hl' Ht' Hf];
    subst; [done|by apply IH|congruence|congruence|].
  assert (target' = target) as -> by congruence.
  destruct (IHt _ _ Ht') as [-> ->]. by destruct (IHr _ _ Hf) as [-> ->].
Qed.

Lemma walk_follows h : ∀ t done q, walk ls h done t = Some q → ∃ n, follows done t q n.
Proof.
  induction h as [|h IHh]; induction t as [|c t IHt]; intros done q;
    rewrite ?walk_nil, ?walk_cons; try (intros [= <-]; exists 0; constructor).
  all: destruct (ls !! (done ++ [c])) as [target|] eqn:E; intros H.
  2, 4: destruct (IHt _ _ H) as [n Hn]; exists n; by constructor.
  - done.
  - apply IHh in H as [n (d & k & m & Ht & Hr & ->)%follows_app].
    exists (S k + m). by econstructor.
Qed.

(** ** The resolution *)

Definition no_pardir (p : path) : Prop := Forall (λ c, is_pardir c = false) p.

(** The links lead to paths without parent components. *)
Definition plain_links : Prop := ∀ k target, ls !! k = Some target → no_pardir target.

Lemma joinrealpath_cons depth seen done c rest :
  joinrealpath ls depth seen done (c :: rest) =
  if is_pardir c then joinrealpath ls depth seen (parent done) rest
  else match ls !! (done ++ [c]) with
       | None => joinrealpath ls depth seen (done ++ [c]) rest
       | Some target =>
           if bool_decide (done ++ [c] ∈ seen) then ((done ++ [c]) ++ rest, false)
           else match depth with
                | O => ((done ++ [c]) ++ rest, false)
                | S depth' =>
                    match joinrealpath ls depth' ((done ++ [c]) :: seen) [] target with
                    | (q, true) => joinrealpath ls depth seen q rest
                    | (q, false) => (q ++ rest, false)
                    end
                end
       end.
Proof. by destruct depth. Qed.

Lemma joinrealpath_nil depth seen done : joinrealpath ls depth seen done [] = (done, true).
Proof. by destruct depth. Qed.

(** The links under resolution: distinct, and every one of them takes more links to follow
than what is left to do. *)
Record under_way (depth : nat) (seen : list path) (n : nat) : Prop := UnderWay {
  uw_distinct : NoDup seen;
  uw_links : ∀ k, k ∈ seen → is_Some (ls !! k);
  uw_depth : size ls ≤ length seen + depth;
  uw_longer k target d m : k ∈ seen → ls !! k = Some target → follows [] target d m → n < S m
}.

Lemma under_way_less depth seen n n' : under_way depth seen n → n' ≤ n → under_way depth seen n'.
Proof.
  intros [Hd Hl Hs Hlong] Hn. split; [done..|]. intros k target d m H1 H2 H3.
  specialize (Hlong k target d m H1 H2 H3). lia.
Qed.

Lemma under_way_fresh depth seen n k target d m :
  under_way depth seen n → ls !! k = Some target → follows [] target d m → S m ≤ n →
  (k ∉ seen) ∧ ∃ depth', depth = S depth' ∧ under_way depth' (k :: seen) m.
Proof.
  intros [Hd Hl Hs Hlong] Hk Hf Hn.
  assert (k ∉ seen) as Hfresh by (intros Hin; specialize (Hlong k target d m Hin Hk Hf); lia).
  split; [done|].
  assert (NoDup (k :: seen)) as Hd' by by constructor.
  assert (∀ j, j ∈ k :: seen → is_Some (ls !! j)) as Hl' by (intros j [->|?]%elem_of_cons; eauto).
  assert (length (k :: seen) ≤ size ls) as Hlen.
  { rewrite <- size_dom. rewrite <- (size_list_to_set (C := gset path)) by exact Hd'.
    apply subseteq_size. intros j Hj%elem_of_list_to_set. apply elem_of_dom. auto. }
  simpl in Hlen. destruct depth as [|depth]; [lia|]. exists depth. split; [done|].
  split; [done|done|simpl; lia|]. intros j tj dj mj [->|Hj]%elem_of_cons Hjt Hjf.
  - assert (tj = target) as -> by congruence. destruct (follows_det _ _ _ _ Hf _ _ Hjf) as [_ ->]. lia.
  - specialize (Hlong j tj dj mj Hj Hjt Hjf). lia.
Qed.

Lemma joinrealpath_follows done todo q n :
  plain_links → follows done todo q n →
  ∀ depth seen, no_pardir todo → under_way depth seen n →
  joinrealpath ls depth seen done todo = (q, true).
Proof.
  intros Hp. induction 1 as [done|done c rest q n Hl _ IH|done c rest target d q n m Hl Ht IHt Hr IHr];
    intros depth seen Hpar Huw; [apply joinrealpath_nil|..];
    rewrite joinrealpath_cons; inversion Hpar as [|? ? Hc Hrest]; subst; rewrite Hc, Hl.
  - by apply IH.
  - destruct (under_way_fresh _ _ _ _ _ _ _ Huw Hl Ht) as [Hfresh (depth' & -> & Huw')]; [lia|].
    rewrite bool_decide_eq_false_2 by done. rewrite IHt; [|by eapply Hp|done].
    apply IHr; [done|]. eapply under_way_less; [done|lia].
Qed.

(** ** What it resolves to *)

(** No link on the way to the path, the path included. *)
Definition link_free (p : path) : Prop := ∀ d, d `prefix_of` p → d ≠ [] → ls !! d = None.

Lemma link_free_nil : link_free [].
Proof. intros d Hd Hne. by apply prefix_nil_inv in Hd. Qed.

Lemma link_free_snoc p c : link_free p → ls !! (p ++ [c]) = None → link_free (p ++ [c]).
Proof. intros Hp Hc d [->|Hd]%prefix_snoc_cases Hne; [done|by apply Hp]. Qed.

Lemma link_free_walk h p t : ∀ d, link_free (d ++ p) → walk ls h d (p ++ t) = walk ls h (d ++ p) t.
Proof.
  induction p as [|c p IH]; intros d Hf; [by rewrite app_nil_r|].
  assert (d ++ c :: p = (d ++ [c]) ++ p) as E by by rewrite <- app_assoc.
  rewrite E in *. cbn [app]. rewrite walk_cons, (Hf (d ++ [c])).
  - by apply IH.
  - by exists p.
  - by destruct d.
Qed.

Lemma follows_free done t q n : link_free done → follows done t q n → link_free q.
Proof.
  intros Hd H. induction H as [| |? ? ? ? ? ? ? ? Hl _ IHt _ IHr]; [done| |].
  - apply IHfollows. by apply link_free_snoc.
  - apply IHr, IHt, link_free_nil.
Qed.

Lemma follows_no_pardir done t q n :
  plain_links → no_pardir done → no_pardir t → follows done t q n → no_pardir q.
Proof.
  intros Hp Hd Ht H. induction H as [| |? ? ? ? ? ? ? ? Hl _ IHt _ IHr]; [done|..];
    inversion Ht; subst.
  - apply IHfollows; [|done]. apply Forall_app. split; [done|by constructor].
  - apply IHr; [|done]. apply IHt; [constructor|by eapply Hp].
Qed.
End lookup.

Lemma normpath_plain p : no_pardir p → normpath p = p.
Proof.
  intros H. unfold normpath.
  assert (∀ d, foldl (λ done c, if is_pardir c then parent done else done ++ [c]) d p = d ++ p) as E.
  { induction H as [|c p Hc _ IH]; intros d; simpl; [by rewrite app_nil_r|].
    rewrite Hc, IH. by rewrite <- app_assoc. }
  apply E.
Qed.

Lemma realpath_plain fs start todo q :
  plain_links (links fs) → link_free (links fs) start → no_pardir start → no_pardir todo →
  loc fs (start ++ todo) = Some q → realpath fs start todo = q ∧ loc fs q = Some q.
Proof.
  intros Hp Hs Hps Hpt H. unfold loc in H.
  rewrite (link_free_walk (links fs) max_hops start todo []) in H by done.
  destruct (walk_follows _ _ _ _ _ H) as [n Hn].
  pose proof (follows_no_pardir _ _ _ _ _ Hp Hps Hpt Hn) as Hq.
  pose proof (follows_free _ _ _ _ _ Hs Hn) as Hf. split.
  - unfold realpath. rewrite (joinrealpath_follows _ _ _ _ _ Hp Hn); [by apply normpath_plain|done|].
    split; [constructor|by intros k ?%not_elem_of_nil|simpl; lia|by intros ? ? ? ? ?%not_elem_of_nil].
  - unfold loc. rewrite <- (app_nil_r q) at 1.
    by rewrite (link_free_walk (links fs) max_hops q [] []), walk_nil.
Qed.

(** Wherever the look-up finds its way, [resolve] answers the same location, and no link lies
    on the way to it. *)
Lemma resolve_plain start todo q w :
  plain_links (links (w_fs w)) → link_free (links (w_fs w)) start →
  no_pardir start → no_pardir todo → loc (w_fs w) (start ++ todo) = Some q →
  resolve start todo w = (Ok q, w) ∧ link_free (links (w_fs w)) q.
Proof.
  intros Hp Hs Hps Hpt H. destruct (realpath_plain _ _ _ _ Hp Hs Hps Hpt H) as [Hr Hq]. split.
  - unfold resolve. rewrite ask_bind. unfold id. by rewrite Hr, Hq.
  - unfold loc in H. rewrite (link_free_walk (links (w_fs w)) max_hops start todo []) in H by done.
    destruct (walk_follows _ _ _ _ _ H) as [n Hn]. by eapply follows_free.
Qed.

(** ** The arguments of the command *)

Section arguments.
Context (cwd default_root : path) (w : world).

(** A path argument names the location that the system looks it up at. *)
Definition names (t : text) (q : path) : Prop :=
  no_pardir (components t) ∧ loc (w_fs w) (origin cwd t ++ components t) = Some q.

(** The options of the command line name the paths of the command: the two directories by
    their locations, the configuration file as it is given. *)
Record names_arguments (ns : namespace) (args : arguments) : Prop := NamesArguments {
  na_command : ns_command ns = Some (a_command args);
  na_kernel : ∃ t, ns_kernel_root ns = Some (Given t) ∧ names t (a_kernel_root args);
  na_module :
    (∃ t, ns_module_root ns = Some (Given t) ∧ names t (a_module_root args)) ∨
    (ns_module_root ns = None ∧ no_pardir default_root ∧
     loc (w_fs w) default_root = Some (a_module_root args));
  na_defconfig :
    (∃ t, ns_defconfig ns = Some (Given t) ∧ no_pardir (components t) ∧
          a_defconfig args = Some (origin cwd t ++ components t)) ∨
    (ns_defconfig ns = None ∧ a_defconfig args = None)
}.

(** The file system has no link to a path with parent components, and the working directory
    is a location. *)
Context (Hplain : plain_links (links (w_fs w))).
Context (Hcwd : link_free (links (w_fs w)) cwd) (Hcwd' : no_pardir cwd).

Lemma names_resolves t q :
  names t q → resolve_value cwd (Given t) w = (Ok q, w) ∧ link_free (links (w_fs w)) q.
Proof.
  intros [Hp Hl]. unfold resolve_value. apply resolve_plain; [done| | |done..];
    unfold origin; destruct (is_absolute t); [apply link_free_nil|done|constructor|done].
Qed.

Lemma names_module_resolves ns args :
  names_arguments ns args →
  module_root_of cwd default_root ns w = (Ok (a_module_root args), w) ∧
  link_free (links (w_fs w)) (a_module_root args).
Proof.
  intros H. unfold module_root_of. destruct (na_module _ _ H) as [(t & -> & Ht)|(-> & Hp & Hl)].
  - by apply names_resolves.
  - apply resolve_plain; [done|apply link_free_nil|constructor|done|done].
Qed.

Lemma plain_defconfig t :
  no_pardir (components t) → defconfig_path (w_fs w) cwd t = origin cwd t ++ components t.
Proof.
  intros H. unfold defconfig_path. replace (existsb is_pardir (components t)) with false; [done|].
  symmetry. by induction H as [|c p Hc _ IH]; [|simpl; rewrite Hc].
Qed.

Lemma names_defconfig ns args l run :
  names_arguments ns args → with_defconfig cwd l (ns_defconfig ns) run w = run (a_defconfig args) w.
Proof.
  intros H. destruct (na_defconfig _ _ H) as [(t & -> & Hp & ->)|[-> ->]]; [|done].
  simpl. rewrite ask_bind. unfold id. by rewrite plain_defconfig.
Qed.

Lemma run_namespace_runs ns args t :
  names_arguments ns args → ns_kernel_root ns = Some (Given t) →
  run_namespace cwd default_root (a_command args) (Given t) ns w = run_command args w.
Proof.
  intros H Ht. destruct (na_kernel _ _ H) as (t' & Ht' & Hk). rewrite Ht in Ht'. injection Ht' as <-.
  unfold run_namespace, run_command. rewrite bind_eq, (proj1 (names_resolves _ _ Hk)), !bind_eq.
  destruct (discover (a_kernel_root args) w) as [[l|e] w1] eqn:Ed;
    assert (w = w1) as <- by (by eapply (preserves_discover eq)); [|done].
  destruct (names_module_resolves _ _ H) as [Hm _].
  destruct (a_command args); [| |done]; by rewrite bind_eq, Hm, (names_defconfig ns args).
Qed.

Lemma process_runs argv ns args :
  parse_args argv = Parsed ns → names_arguments ns args →
  process cwd default_root argv w = main args w ∧
  link_free (links (w_fs w)) (a_kernel_root args) ∧
  link_free (links (w_fs w)) (a_module_root args).
Proof.
  intros Hp H. destruct (na_kernel _ _ H) as (t & Ht & Hk). split_and!.
  - unfold process, main, catch. rewrite Hp, (na_command _ _ H), Ht, !bind_eq.
    by rewrite (run_namespace_runs _ _ _ H Ht).
  - by apply (names_resolves t).
  - by apply (names_module_resolves ns).
Qed.
End arguments.

(** C20: from the command line to the command.  A command line that parses runs its command
    on the directories that its options name: wherever the look-up of the file system finds
    the kernel root and the module root (given relative to the working directory or from the
    root, by default that of the script, through links or not), the process is [main] on the
    locations found, which no link lies on the way to.  The paths and the targets of links
    have no parent components, and the working directory is a location. *)
Theorem process_runs_main cwd default_root argv ns args w :
  plain_links (links (w_fs w)) → link_free (links (w_fs w)) cwd → no_pardir cwd →
  parse_args argv = Parsed ns → names_arguments cwd default_root w ns args →
  process cwd default_root argv w = main args w ∧
  link_free (links (w_fs w)) (a_kernel_root args) ∧
  link_free (links (w_fs w)) (a_module_root args).
Proof. intros Hp Hc Hc' Ha H. by apply (process_runs cwd default_root w Hp Hc Hc' argv ns). Qed.

(** The sample tree, reached through two links, the second below the target of the first. *)
Definition linked_tree : fsys :=
  let fs := sample_tree (py "official") (py "6.6") in
  Fsys (<[["data"] := Dir]> (nodes fs))
       (<[["data"; "current"] := sample_root]> (<[["home"] := ["data"]]> ∅)).

Lemma process_runs_main_witness :
  let w := sample_world linked_tree in
  let argv := [py "--kernel-root=current/."; py "--defconfig"; py "/kernel-root/gki_defconfig";
               py "install"] in
  process ["data"] sample_module argv w = main (sample_args Install) w ∧
  (main (sample_args Install) w).1 = Ok 0.
Proof.
  intros w argv. split; [|vm_compute; reflexivity].
  apply (process_runs_main ["data"] sample_module argv
           (Namespace (Some Install) (Some (Given (py "current/."))) None
                      (Some (Given (py "/kernel-root/gki_defconfig")))) (sample_args Install) w).
  - intros k target H. unfold w, linked_tree in H. simpl in H.
    apply lookup_insert_Some in H as [[_ <-]|[_ H]]; [repeat constructor|].
    apply lookup_insert_Some in H as [[_ <-]|[_ H]]; [repeat constructor|].
    by rewrite lookup_empty in H.
  - intros d [->|Hd]%(prefix_snoc_cases d []) Hne; [vm_compute; reflexivity|].
    by apply prefix_nil_inv in Hd.
  - repeat constructor.
  - reflexivity.
  - split; [reflexivity| | |].
    + eexists. split; [reflexivity|]. split; [repeat constructor|vm_compute; reflexivity].
    + right. split_and!; [reflexivity|repeat constructor|vm_compute; reflexivity].
    + left. eexists. split_and!; [reflexivity|repeat constructor|vm_compute; reflexivity].
Defined.
