(* ===== verification/Reinstall.v ===== *)
(** * Installing again

    A tree that [verify] accepts and whose copies of the module sources are settled is a
    fixed point of [install]: a second installation succeeds and changes nothing. *)

From Stdlib Require Import Ascii.
From stdpp Require Import base list strings gmap.
From S2P Require Import Prelude PyText PyRegex PyResult World FsFacts Transaction Rollback.
From S2P Require Import Kbuild Defconfig Discovery Resukisu KsuPatches KernelHooks Sources.
From S2P Require Import Installer Example Frames FileFacts ReadOnly DefconfigFacts Verified.
From S2P Require Import Commands Footprint SourcesFacts.

#[local] Opaque walk MARKER.

(** ** Settled sources *)

(** An entry of the target that a copy keeps: a regular file that is one of the sources,
    with the marker, or a build artifact. *)
Definition kept_entry (w : world) (names : list string) (p : path) : Prop :=
  is_symlink (w_fs w) p = false ∧ is_file (w_fs w) p = true ∧
  if has_name names (name p) then ∃ s, text_of w p s ∧ contains MARKER s = true
  else has_name LEGACY_SOURCE_NAMES (name p) = false ∧ is_artifact_name (name p) = true.

Record settled_sources (ksu module_root : path) (w : world) : Prop := SettledSources {
  ss_template : is_dir (w_fs w) (template_dir module_root) = true;
  ss_target : is_dir (w_fs w) (sandbox_dir ksu) = true;
  ss_no_link : is_symlink (w_fs w) (sandbox_dir ksu) = false;
  ss_entries p : p ∈ iterdir (w_fs w) (sandbox_dir ksu) →
    kept_entry w (source_files (w_fs w) (template_dir module_root)) p;
  ss_copies n : n ∈ source_files (w_fs w) (template_dir module_root) →
    ∃ s, text_of w (template_dir module_root ++ [n]) s ∧ contains MARKER s = true ∧
         text_of w (sandbox_dir ksu ++ [n]) s
}.

Lemma file_not_dir fs p : is_file fs p = true → is_dir fs p = false.
Proof. unfold is_file, is_dir. by destruct (stat fs p) as [[]|]. Qed.

Lemma classify_kept names entries w :
  (∀ p, p ∈ entries → kept_entry w names p) →
  ∃ artifacts, classify_existing names entries w = (Ok (artifacts, []), w).
Proof.
  induction entries as [|p entries IH]; intros Hk; [by exists []|].
  destruct IH as [artifacts IH]; [intros q Hq; apply Hk; by right|].
  destruct (Hk p) as (Hs & Hf & Hn); [by left|]. cbn [classify_existing].
  rewrite ask_bind. unfold id. rewrite Hs, (file_not_dir _ _ Hf), Hf. cbn [negb].
  destruct (has_name names (name p)).
  - destruct Hn as (s & Ht & Hm). exists artifacts. by rewrite bind_eq, Ht, Hm.
  - destruct Hn as [Hl Ha]. exists (p :: artifacts). rewrite Hl.
    unfold trusted_kbuild_artifact. rewrite Ha. cbn [negb]. by rewrite bind_eq, IH.
Qed.

Lemma read_sources_run source names w :
  (∀ n, n ∈ names → ∃ s, text_of w (source ++ [n]) s) →
  ∃ texts, read_sources source names w = (Ok texts, w).
Proof.
  induction names as [|n names IH]; intros Hn; [by exists []|].
  destruct (Hn n) as [s Hs]; [by left|]. destruct IH as [texts IH]; [intros m Hm; apply Hn; by right|].
  exists ((n, s) :: texts). cbn [read_sources]. by rewrite bind_eq, Hs, bind_eq, IH.
Qed.

Lemma text_of_file w p s : text_of w p s → is_file (w_fs w) p = true.
Proof. intros (f & Hf & _)%text_of_stat. apply is_file_stat. eauto. Qed.

Lemma any_changed_same target texts w :
  (∀ n s, (n, s) ∈ texts → text_of w (target ++ [n]) s) →
  any_changed target texts w = (Ok false, w).
Proof.
  induction texts as [|[n s] texts IH]; intros Ht; [done|]. cbn [any_changed].
  assert (text_of w (target ++ [n]) s) as Hs by (apply Ht; by left).
  rewrite ask_bind. unfold id. rewrite (text_of_file _ _ _ Hs). cbn [negb].
  rewrite bind_eq, Hs, text_eqb_refl. cbn [negb]. apply IH. intros m t Hm. apply Ht. by right.
Qed.

Lemma write_same p s w : text_of w p s → write p s w = (Ok tt, w).
Proof.
  intros Hs. pose proof (text_of_file _ _ _ Hs) as Hf.
  assert (read_text p w = (Ok s, w)) as Hr.
  { unfold text_of, read, catch in Hs. destruct (read_text p w) as [[t|[m|[] q|c]] w1]; done. }
  unfold write. rewrite ask_bind. unfold id. rewrite (is_file_exists _ _ Hf).
  by rewrite bind_assoc, bind_eq, Hr, ret_bind, text_eqb_refl.
Qed.

Lemma write_sources_same source target texts w :
  (∀ n s, (n, s) ∈ texts → contains MARKER s = true ∧ text_of w (target ++ [n]) s) →
  for_each texts (write_source source target) w = (Ok tt, w).
Proof.
  induction texts as [|[n s] texts IH]; intros Ht; [done|]. cbn [for_each].
  destruct (Ht n s) as [Hm Hs]; [by left|]. rewrite bind_eq. unfold write_source at 1.
  cbn [fst snd]. rewrite Hm. cbn [negb]. rewrite (write_same _ _ _ Hs).
  apply IH. intros m t Hin. apply Ht. by right.
Qed.

Lemma ensure_existing target w :
  is_dir (w_fs w) target = true → is_symlink (w_fs w) target = false →
  ensure_target target w = (Ok tt, w).
Proof.
  intros Hd Hs. unfold ensure_target.
  assert (record_directory target w = (Ok tt, w)) as Hrec.
  { unfold record_directory. rewrite ask_bind. unfold id.
    by rewrite Hs, (is_dir_exists _ _ Hd), Hd. }
  assert (in_transaction (record_directory target) w = (Ok tt, w)) as Hin.
  { unfold in_transaction. rewrite gets_bind. by destruct (w_tx w). }
  by rewrite bind_eq, Hin, (mkdir_parents_existing _ _ Hd).
Qed.

Lemma copy_sources_settled ksu module_root w :
  settled_sources ksu module_root w →
  ∃ w', copy_sources ksu module_root w = (Ok tt, w') ∧ w_fs w' = w_fs w.
Proof.
  intros [Htm Htg Hl He Hc]. unfold copy_sources. rewrite ask_bind. unfold id.
  rewrite Htm, Hl, Htg, andb_false_r. cbn [negb orb]. cbv zeta.
  set (names := source_files _ _) in *.
  destruct (classify_kept names _ w He) as [artifacts Hk].
  destruct (read_sources_run (template_dir module_root) names w) as [texts Hr].
  { intros n Hn. destruct (Hc n Hn) as (s & ? & _). eauto. }
  destruct (read_sources_ok _ _ _ _ _ Hr) as (_ & Hnames & Ht).
  assert (∀ n s, (n, s) ∈ texts →
            contains MARKER s = true ∧ text_of w (sandbox_dir ksu ++ [n]) s) as Hsame.
  { intros n s Hin. pose proof (Ht _ _ Hin) as Hs.
    destruct (Hc n) as (s' & Hs' & Hm & Hcp).
    - rewrite <- Hnames. apply list_elem_of_In, in_map_iff. exists (n, s). split; [done|].
      by apply list_elem_of_In.
    - by rewrite (text_of_unique _ _ _ _ Hs Hs'). }
  unfold survey_target. rewrite bind_assoc, ask_bind. unfold id. rewrite Htg.
  rewrite bind_assoc, ask_bind, bind_eq, Hk. cbv iota beta.
  rewrite bind_eq, Hr. rewrite bind_eq, any_changed_same by (intros; by apply Hsame).
  cbn [when for_each]. rewrite !ret_bind, bind_eq, ensure_existing by done.
  rewrite bind_eq, write_sources_same by done. eexists. split; [reflexivity|done].
Qed.

Lemma kept_entry_same_fs w w' names p :
  w_fs w' = w_fs w → kept_entry w names p → kept_entry w' names p.
Proof.
  intros H (Hs & Hf & Hn). unfold kept_entry. rewrite H. split_and!; [done..|].
  destruct (has_name names (name p)); [|done]. destruct Hn as (s & Ht & Hm).
  exists s. split; [by eapply text_of_same_fs|done].
Qed.

Lemma settled_same_fs ksu module_root w w' :
  w_fs w' = w_fs w → settled_sources ksu module_root w → settled_sources ksu module_root w'.
Proof.
  intros H [Htm Htg Hl He Hc]. split; rewrite ?H; [done..| |].
  - intros p Hp. eapply kept_entry_same_fs; [done|]. by apply He.
  - intros n Hn. destruct (Hc n Hn) as (s & H1 & H2 & H3).
    exists s. split_and!; [by eapply text_of_same_fs|done|by eapply text_of_same_fs].
Qed.

(** A decision procedure, for concrete trees. *)
Definition text_at (w : world) (p : path) : option text :=
  match read p w with (Ok s, _) => Some s | _ => None end.

Definition kept_check (w : world) (names : list string) (p : path) : bool :=
  negb (is_symlink (w_fs w) p) && is_file (w_fs w) p &&
  if has_name names (name p)
  then match text_at w p with Some s => contains MARKER s | None => false end
  else negb (has_name LEGACY_SOURCE_NAMES (name p)) && is_artifact_name (name p).

Definition settled_check (ksu module_root : path) (w : world) : bool :=
  let names := source_files (w_fs w) (template_dir module_root) in
  is_dir (w_fs w) (template_dir module_root) && is_dir (w_fs w) (sandbox_dir ksu)
  && negb (is_symlink (w_fs w) (sandbox_dir ksu))
  && forallb (kept_check w names) (iterdir (w_fs w) (sandbox_dir ksu))
  && forallb (λ n, match text_at w (template_dir module_root ++ [n]),
                         text_at w (sandbox_dir ksu ++ [n]) with
                   | Some s, Some t => contains MARKER s && text_eqb s t
                   | _, _ => false
                   end) names.

Lemma text_at_of w p s : text_at w p = Some s → text_of w p s.
Proof.
  unfold text_at, text_of. destruct (read p w) as [[t|e] w1] eqn:E; [|done]. intros [= ->].
  by rewrite <- (preserves_read eq p _ _ _ E).
Qed.

Lemma settled_check_sound ksu module_root w :
  settled_check ksu module_root w = true → settled_sources ksu module_root w.
Proof.
  unfold settled_check. cbv zeta. rewrite !andb_true_iff, !forallb_forall, negb_true_iff.
  intros ((((Htm & Htg) & Hl) & He) & Hc). split; [done..| |].
  - intros p Hp%list_elem_of_In. apply He in Hp. unfold kept_check in Hp.
    rewrite !andb_true_iff, negb_true_iff in Hp. destruct Hp as ((Hs & Hf) & Hn).
    split_and!; [done..|]. destruct (has_name _ (name p)).
    + destruct (text_at w p) as [s|] eqn:Et; [|done]. exists s.
      split; [by apply text_at_of|exact Hn].
    + by rewrite andb_true_iff, negb_true_iff in Hn.
  - intros n Hn%list_elem_of_In. apply Hc in Hn.
    destruct (text_at w (template_dir _ ++ _)) as [s|] eqn:E1; [|done].
    destruct (text_at w (sandbox_dir _ ++ _)) as [t|] eqn:E2; [|done].
    apply andb_true_iff in Hn as [Hm ->%text_eqb_eq].
    exists t. split; [by apply text_at_of|]. split; [exact Hm|by apply text_at_of].
Qed.

(** ** The second installation *)

Lemma defconfig_weaker d w :
  validate_defconfig d true w = (Ok tt, w) → validate_defconfig d false w = (Ok tt, w).
Proof.
  intros (s & Hs & Hok)%validate_defconfig_iff. apply validate_defconfig_iff.
  exists s. split; [done|]. destruct Hok as (? & ? & ? & _). by split_and!.
Qed.

Lemma rewire_verified l module_root d policy w w2 :
  verified l module_root d policy w → w_fs w2 = w_fs w →
  rewire l module_root policy w2 = (Ok tt, w2).
Proof.
  intros Hv Hfs.
  pose proof (settles_patch_all l module_root (set_validation true w) tt
                (set_validation true w) eq_refl (vf_patches _ _ _ _ _ Hv)) as [_ Hp].
  eapply rewire_noop; [apply Hv|apply Hv|by apply Hp|done].
Qed.

(** C8: installing again changes nothing.  On a tree that [verify] accepts and whose copies
    of the module sources are settled (each source is there word for word, and of other
    entries only build artifacts), [install] succeeds, leaves every file as it is, time
    stamps included, and leaves no transaction. *)
Theorem reinstall_changes_nothing l module_root d w w1 :
  w_tx w = None → settled_sources (l_ksu l) module_root w →
  verify l module_root d w = (Ok tt, w1) →
  ∃ w', install l module_root d w = (Ok tt, w') ∧ w_fs w' = w_fs w ∧ w_tx w' = None.
Proof.
  intros Htx Hset [(policy & Hv) _]%verify_ok.
  assert (match d with Some d => validate_defconfig d false | None => mret tt end w = (Ok tt, w))
    as Hd.
  { destruct d as [d|]; [|done]. apply defconfig_weaker. by eapply vf_defconfig. }
  unfold install. rewrite bind_eq, Hd, bind_eq, (vf_policy _ _ _ _ _ Hv), bind_eq,
    (vf_config _ _ _ _ _ Hv), bind_eq.
  unfold with_transaction. rewrite Htx, install_body_rewire.
  destruct (copy_sources_settled (l_ksu l) module_root (set_tx (Some no_records) w))
    as (w2 & Hc & Hfs); [by apply (settled_same_fs _ _ w)|].
  rewrite bind_eq, Hc, (rewire_verified _ _ _ _ w w2 Hv Hfs).
  eexists. split; [reflexivity|]. split; [exact Hfs|done].
Qed.

Lemma reinstall_changes_nothing_witness :
  (verify sample_layout sample_module (Some sample_defconfig) installed_world).1 = Ok tt ∧
  ∃ w', install sample_layout sample_module (Some sample_defconfig) installed_world
        = (Ok tt, w') ∧ w_fs w' = w_fs installed_world.
Proof.
  assert ((verify sample_layout sample_module (Some sample_defconfig) installed_world).1 = Ok tt)
    as Hv by (vm_compute; reflexivity).
  split; [exact Hv|].
  destruct (reinstall_changes_nothing sample_layout sample_module (Some sample_defconfig)
              installed_world (verify sample_layout sample_module (Some sample_defconfig)
                                 installed_world).2) as (w' & H & Hfs & _).
  - vm_compute. reflexivity.
  - apply settled_check_sound. vm_compute. reflexivity.
  - rewrite <- Hv. apply surjective_pairing.
  - exists w'. split; [exact H|exact Hfs].
Defined.
